(* ===== verification/_CoqProject ===== *)
-Q . S2P
Prelude.v
Common.v
Sockets.v
Arrays.v
ShareTable.v
Packed.v
Protocol.v
Tcp.v
Lossy.v
Packets.v
Window.v
SRSender.v
SRReceiver.v
ReceiverSafety.v
SRTransfer.v
SRLiveness.v
Server.v
Directory.v
ServerLimits.v
Command.v
ServerMain.v
Client.v
ClientSpec.v
Peers.v
PeerSafety.v
System.v
ClientRobust.v
ClientMain.v
