(* ===== verification/Prelude.v ===== *)
(** * A peer-to-peer file sharing program, verified

    The program ([src/skeleton]) is a directory server and a client.  A client
    registers with the server over TCP, announces files, lists the files of
    all clients and asks where a file is; it then fetches the file from its
    owner over UDP with a selective-repeat protocol (window of 64 chunks of
    1024 bytes, additive checksum, retransmission on timeout), on a link that
    drops datagrams on purpose, and checks the SHA-256 of what it received.
    This library translates that code into functions and proves what makes it
    correct.

    ** Conventions

    - An unsigned integer of [w] bits is a [Z] reduced by [uwrap w]; the
      notations [+₃₂], [-₃₂], [*₃₂] show the wrap-around.  A signed [int] of
      the server that may overflow is added with [int_add].
    - Bytes are lists of [Z].  The byte order of the machine is the class
      [Host], so a value that went through [htonl] and one that did not are
      different bytes; every theorem holds for both orders unless it fixes one.
    - A function returns [None] exactly where the C code has undefined
      behaviour (an access outside an object, overflow of an [int]), or where a
      loop ran out of fuel; that this does not happen is proved, not assumed.
      The exception are the three statistics of [selective_repeat.c]: they are
      [int]s in C and unbounded counts here, which no other value depends on; an
      operation adds at most 65 to each ([sender_stats_growth]), so the two
      agree for the first 33 million operations.
      Failures that the code reports are values: its return codes, or an
      [option] or [bool] inside the result.
    - Answers of the system ([recv], [send], [poll], [accept], [malloc], the
      clock, the files) are arguments, so a theorem holds for all of them.
      Datagrams and calls are logged ([env_net], [trace]).
    - SHA-256 (OpenSSL) is the parameter [digest] of the client and of the
      files about it; the hypotheses on it are its length and that it yields
      bytes.

    ** Files and the code they model

    - [Prelude]: C integers, byte order, memory reads and writes, the tactics
      and the hint database [bytes].
    - [Common]: [common.c] ([get_time_ms], [hash_to_string], file reading and
      writing, [compute_sha256]) and the C strings the program copies.
    - [Sockets]: the socket helpers of [common.c] in a monad of system calls
      that tracks the open descriptors, with a logic of total correctness
      ([triple]).  A call on a descriptor that is not open is recorded.
    - [Arrays]: the search and removal loops of the static tables.
    - [ShareTable]: [share_file_logic.c].
    - [Packed], [Protocol]: packed structs as layouts with round-trip laws
      (classes [Packed] and [PackedLaws]) and the offsets of their fields, the
      structs and constants of [protocol.h], and its checksum.
    - [Tcp]: the sending and receiving loops around [send] and [recv] that
      [client.c] repeats for each message.
    - [Lossy]: [lossy_udp.c].
    - [Packets], [Window], [SRSender], [SRReceiver]: [selective_repeat.c],
      one definition per function.
    - [ReceiverSafety]: the receiver against a peer that has no file.
    - [SRTransfer]: a sender and a receiver joined by a hostile network, as two
      step relations: [transfer_step], in which acknowledgements arrive as they
      were sent, and [noisy_step], in which any bytes may arrive as one.
    - [SRLiveness]: the same two with a network that loses packets in rounds.
    - [Server]: [server.c], the tables, the handlers,
      [process_client_message], [accept_new_client] and the loop of [main];
      [ServerMain]: the rest of [main], and the loop once more with every call
      it makes on the listening socket and on the clients' descriptors.
    - [Directory]: the abstract directory, the wire format, and the proof that
      [Server] implements it.
    - [ServerLimits]: what [server.c] does where its contract ends.
    - [Command], [Client]: [client.c], the parsing of a line, the commands,
      the registration, and the event loop; [ClientMain]: the rest of [main].
    - [ClientSpec]: the client against the directory, the stream and the
      transfer protocol; [ClientRobust]: the client against anything.
    - [Peers]: [get] of one client and the event loop of another, composed over
      UDP; [PeerSafety]: the same in a hostile network, as a step relation.
    - [System]: the server and the two clients.

    ** What is proved

    The program.  When one client shares a file and another fetches it, the
    three processes compose: the server's answers are the ones the clients
    wait for, and the exchange between the two ends with exactly the file under
    its name ([share_then_get]).  When the network is hostile (one changed byte
    in any datagram included) and strangers send anything, [get] saves exactly
    the file or nothing ([hostile_download_safe]).  The two programs, from the
    command line to their exit, stay inside their buffers and make no call on a
    descriptor that is not open; the client closes its two sockets once on every
    path, under conditions on the server, on the owner of a download and on its
    arguments that [client_program_runs] lists, the server its listening socket
    and the connections in its table, for up to 8388607 iterations
    ([server_program_runs]).

    Transfer.  [sender_rel] and [receiver_rel] relate the C states to the set
    of acknowledged and of received sequence numbers; each operation is
    defined and acts on the set as selective repeat prescribes
    ([handle_ack_refines_set], [handle_data_refines_set],
    [send_window_sends_the_window], [check_timeouts_selective]).  Composed
    with a network that loses, duplicates, delays and reorders, changes one
    byte of a data packet and anything in an acknowledgement, the delivered
    bytes are always a prefix of the file and no step has undefined behaviour
    ([transfer_safety], [transfer_refines_delivery],
    [transfer_no_undefined_behaviour]); when acknowledgements arrive as they
    were sent, a sender that reports completion has a receiver with the whole
    file ([sender_complete_implies_received]; one changed byte in one breaks
    it, [changed_ack_completes_early]), and without loss the transfer
    completes ([lossless_transfer_completes]).  With loss it still completes, and the
    sender does not give up, as long as no chunk fails [MAX_RETRIES + 1] times
    in a row ([fair_transfer_completes]); a silent peer ends the transfer
    ([silent_peer_gives_up]).  The receiver is memory safe against any peer
    whose accepted chunks lie within the size it announced ([receiver_robust]),
    and only against those ([oversized_chunk_overflows_buffer]).  Every struct
    of the protocol is a type of byte strings with its fields at their offsets,
    in network byte order ([wire_types]).  The checksum is the one's complement
    of the byte sum modulo 65535 and detects every one-byte change.

    Server.  Whatever the clients send and the system answers, the loop stays
    inside its tables ([server_robust]); for clients that follow the protocol
    it refines the abstract directory ([server_refines_directory],
    [honest_run_invariant], [listed_file_has_location]).  [ServerLimits] states
    exactly what happens to malformed messages, to connections that have not
    registered or register twice, and to lists of more than 220 files.

    Client.  Requests are the wire format of [Directory] and its replies are
    understood however TCP cuts the stream ([registration_handshake],
    [share_announces_and_records], [list_prints_directory]); [get] saves
    exactly the file when its packets arrive and, whatever happens, stores
    only data it has verified against the announced hash, as far as [fwrite]
    takes it ([get_downloads_the_file], [get_saves_only_verified_files]); a request of a peer starts the upload
    that [SRTransfer] is about ([request_starts_upload],
    [upload_tick_ends_or_continues]).

    ** Bounds and fuel

    - [fold_sum]: two folds bring any 32-bit sum below 2^16.
    - [deliver_fuel], [window_fuel]: one more than the window, since a call
      advances the base by at most [WINDOW_SIZE].
    - [remove_loop]: the number of entries in use.
    - Files of a transfer have fewer than 2^32 - 1023 bytes: beyond, the count
      of chunks wraps ([sender_init_wraps_on_huge_files]).
    - [attempts] (11): a packet is sent once and [MAX_RETRIES] times again; a
      chunk is in the window from round [11 * (k / 64)] on, so eleven rounds for
      every window are enough ([fair_transfer_completes]).
    - [exchange_rounds]: one round for the request and one for every window; the
      rounds lie within [TIMEOUT_MS], so that nothing is sent twice.
    - Client and file identifiers are [uint32_t] counters that wrap; the runs
      of [Directory] are those in which they have not, and [server_robust]
      bounds the number of loop iterations for the [int] counter.

    ** Not modelled

    What is only printed, the signal handlers, and [lossy_recv], which only
    calls [recvfrom].  [atof] and [inet_pton] are arguments of the start of the
    client.  [fclose] is not tracked.  The network changes one byte of a data
    packet at a time, the errors the checksum is proved to detect; a change of
    several bytes that keeps the sum passes the checksum and is caught only by
    the hash, of which nothing but the length is assumed.  In [Peers] and
    [PeerSafety] the user of the owner types nothing while it uploads, and
    [share_then_get] is about links that lose nothing: the request and the
    announcement are never sent again by the code, so [get] waits for ever when
    one of them is lost.  Still to be done: the composition of
    [fair_transfer_completes] with the two clients. *)

From stdpp Require Export base tactics list list_numbers numbers option gmap sets.

#[export] Set Default Goal Selector "!".

(** ** C integers

    An unsigned C integer of width [w] is a [Z] in [[0, 2^w)]; every C
    expression of that type is reduced by [uwrap w].  The notations of
    [cint_scope] carry the width as a subscript, so that a definition
    shows where the code can wrap around. *)

Declare Scope cint_scope.
Delimit Scope cint_scope with cint.

Definition uwrap (w x : Z) : Z := x `mod` 2 ^ w.

Abbreviation u8 := (uwrap 8).
Abbreviation u16 := (uwrap 16).
Abbreviation u32 := (uwrap 32).
Abbreviation u64 := (uwrap 64).

Notation "x +₃₂ y" := (uwrap 32 (x + y)) (at level 50, left associativity) : cint_scope.
Notation "x -₃₂ y" := (uwrap 32 (x - y)) (at level 50, left associativity) : cint_scope.
Notation "x *₃₂ y" := (uwrap 32 (x * y)) (at level 40, left associativity) : cint_scope.
Notation "x -₆₄ y" := (uwrap 64 (x - y)) (at level 50, left associativity) : cint_scope.

#[global] Open Scope Z_scope.
#[global] Open Scope cint_scope.

Definition in_width (w x : Z) : Prop := 0 ≤ x < 2 ^ w.

#[global] Instance in_width_dec w x : Decision (in_width w x).
Proof. unfold in_width. apply _. Defined.

Lemma uwrap_range w x : 0 ≤ w → in_width w (uwrap w x).
Proof. intros. apply Z.mod_pos_bound. lia. Qed.

Lemma uwrap_small w x : in_width w x → uwrap w x = x.
Proof. apply Z.mod_small. Qed.

Lemma u32_small x : 0 ≤ x < 4294967296 → u32 x = x.
Proof. intros Hx. apply uwrap_small. exact Hx. Qed.

Lemma u16_small x : 0 ≤ x < 65536 → u16 x = x.
Proof. intros Hx. apply uwrap_small. exact Hx. Qed.

Lemma u64_small x : 0 ≤ x < 18446744073709551616 → u64 x = x.
Proof. intros Hx. apply uwrap_small. exact Hx. Qed.

Lemma uwrap_add_l w x y : uwrap w (uwrap w x + y) = uwrap w (x + y).
Proof. apply Zplus_mod_idemp_l. Qed.

(** The shape of the operations' results. *)
Lemma Some_triple_inj {A B C} (a a' : A) (b b' : B) (c c' : C) :
  Some (a, b, c) = Some (a', b', c') → a = a' ∧ b = b' ∧ c = c'.
Proof. by intros [= -> -> ->]. Qed.

(** ** Tactics

    [usmall] erases the wrap-arounds whose argument [lia] can bound.
    [case_cond] splits on the first boolean test of an [if] in the goal,
    the way the code branches. *)

Ltac usmall :=
  repeat match goal with
  | |- context [uwrap 32 ?x] => rewrite (u32_small x) by lia
  | |- context [uwrap 16 ?x] => rewrite (u16_small x) by lia
  | |- context [uwrap 64 ?x] => rewrite (u64_small x) by lia
  end.

Tactic Notation "usmall" "in" hyp(H) :=
  repeat match type of H with
  | context [uwrap 32 ?x] => rewrite (u32_small x) in H by lia
  | context [uwrap 16 ?x] => rewrite (u16_small x) in H by lia
  | context [uwrap 64 ?x] => rewrite (u64_small x) in H by lia
  end.

Tactic Notation "case_cond" "as" ident(E) :=
  match goal with
  | |- context [if ?b then _ else _] =>
      match type of b with bool => destruct b eqn:E end
  end.

(** ** Bytes and byte order

    A buffer is a [list Z] of bytes.  The byte order of the machine is a
    class argument: a multi-byte struct field is written in memory by
    [store host_endian], so a value that went through [htonl] and one that
    did not have different bytes on a little-endian host. *)

Definition is_byte (b : Z) : Prop := 0 ≤ b < 256.

#[global] Instance is_byte_dec b : Decision (is_byte b).
Proof. unfold is_byte. apply _. Defined.

Inductive endian := LittleEndian | BigEndian.

#[global] Instance endian_eq_dec : EqDecision endian.
Proof. solve_decision. Defined.

Class Host := host_endian : endian.

Definition store (e : endian) (n x : Z) : list Z :=
  match e with
  | LittleEndian => Z_to_little_endian n 8 x
  | BigEndian => reverse (Z_to_little_endian n 8 x)
  end.

Definition load (e : endian) (bs : list Z) : Z :=
  match e with
  | LittleEndian => little_endian_to_Z 8 bs
  | BigEndian => little_endian_to_Z 8 (reverse bs)
  end.

Definition byte_swap (n x : Z) : Z := load BigEndian (store LittleEndian n x).

Section byte_order.
Context `{Host}.

(** [htons], [htonl] and their inverses, for an [n]-byte integer: the
    identity on a big-endian host, a byte swap on a little-endian one. *)
Definition hton (n x : Z) : Z :=
  match host_endian with LittleEndian => byte_swap n x | BigEndian => x end.

Definition htons : Z → Z := hton 2.
Definition htonl : Z → Z := hton 4.
Definition ntohs : Z → Z := hton 2.
Definition ntohl : Z → Z := hton 4.
End byte_order.

Lemma length_store e n x : 0 ≤ n → length (store e n x) = Z.to_nat n.
Proof.
  intros. destruct e; simpl; rewrite ?length_reverse; apply Nat2Z.inj;
    rewrite length_Z_to_little_endian; lia.
Qed.

Lemma store_bytes e n x : 0 ≤ n → Forall is_byte (store e n x).
Proof.
  intros. destruct e; simpl; rewrite ?Forall_reverse;
    apply (Z_to_little_endian_bound n 8 x); lia.
Qed.

Lemma store_1 e x : is_byte x → store e 1 x = [x].
Proof.
  intros [? ?]. assert (Z_to_little_endian 1 8 x = [x]) as Hx.
  { change 1 with (Z.succ 0). rewrite (Z_to_little_endian_succ 0 8 x), Z_to_little_endian_0 by lia.
    by rewrite (Z.land_ones x 8), Z.mod_small by lia. }
  by destruct e; simpl; rewrite Hx.
Qed.

Lemma load_store e n x : 0 ≤ n → in_width (8 * n) x → load e (store e n x) = x.
Proof.
  intros Hn Hx.
  destruct e; simpl; rewrite ?reverse_involutive, little_endian_to_Z_to_little_endian by lia;
    rewrite (Z.mul_comm n), Z.mod_small by done; done.
Qed.

Lemma store_load e n bs :
  Forall is_byte bs → Z.of_nat (length bs) = n → store e n (load e bs) = bs.
Proof.
  intros Hb Hl.
  destruct e; simpl; rewrite (Z_to_little_endian_to_Z n 8);
    rewrite ?reverse_involutive, ?length_reverse; try done; try lia.
  by rewrite Forall_reverse.
Qed.

Lemma load_range e bs : Forall is_byte bs → in_width (8 * Z.of_nat (length bs)) (load e bs).
Proof.
  intros Hb.
  pose proof (little_endian_to_Z_bound 8 bs) as H1.
  pose proof (little_endian_to_Z_bound 8 (reverse bs)) as H2.
  rewrite Forall_reverse, length_reverse in H2. rewrite Z.mul_comm.
  destruct e; [apply H1|apply H2]; done || lia.
Qed.

Lemma load_inj e bs1 bs2 :
  Forall is_byte bs1 → Forall is_byte bs2 → length bs1 = length bs2 →
  load e bs1 = load e bs2 → bs1 = bs2.
Proof.
  intros H1 H2 Hl He.
  rewrite <-(store_load e (Z.of_nat (length bs1)) bs1), He, (store_load e) by (done || lia). done.
Qed.

Lemma byte_swap_range n x : 0 ≤ n → in_width (8 * n) (byte_swap n x).
Proof.
  intros. unfold byte_swap. pose proof (load_range BigEndian (store LittleEndian n x)) as Hr.
  rewrite length_store, Z2Nat.id in Hr by done. apply Hr, store_bytes. done.
Qed.

Lemma store_byte_swap n x :
  0 ≤ n → store LittleEndian n (byte_swap n x) = store BigEndian n x.
Proof.
  intros. unfold byte_swap.
  change (load BigEndian (store LittleEndian n x)) with (load LittleEndian (store BigEndian n x)).
  apply store_load; [by apply store_bytes|]. rewrite length_store; lia.
Qed.

Section byte_order_laws.
Context `{Host}.

(** Whatever the host, the field [x->f = htonl(v)] is big-endian in
    memory, and reading it back through [ntohl] gives the big-endian value
    of its bytes. *)
Lemma store_hton n x : 0 ≤ n → store host_endian n (hton n x) = store BigEndian n x.
Proof. intros. unfold hton. destruct host_endian; [by apply store_byte_swap|done]. Qed.

Lemma hton_range n x : 0 ≤ n → in_width (8 * n) x → in_width (8 * n) (hton n x).
Proof. intros. unfold hton. destruct host_endian; [by apply byte_swap_range|done]. Qed.

Lemma hton_hton n x : 0 ≤ n → in_width (8 * n) x → hton n (hton n x) = x.
Proof.
  intros. unfold hton. destruct host_endian; [|done].
  unfold byte_swap at 1. rewrite store_byte_swap by done. by apply load_store.
Qed.

Lemma htons_0 : htons 0 = 0.
Proof. unfold htons, hton. by destruct host_endian. Qed.

Lemma ntohl_htonl x : 0 ≤ x < 4294967296 → ntohl (htonl x) = x.
Proof. intros. by apply hton_hton. Qed.

Lemma ntohs_htons x : 0 ≤ x < 65536 → ntohs (htons x) = x.
Proof. intros. by apply hton_hton. Qed.

Lemma htonl_range x : 0 ≤ x < 4294967296 → in_width 32 (htonl x).
Proof. intros. by apply (hton_range 4). Qed.

Lemma htons_range x : 0 ≤ x < 65536 → in_width 16 (htons x).
Proof. intros. by apply (hton_range 2). Qed.
End byte_order_laws.

(** ** Shared automation

    [bind_step] runs the next step of a computation in the option monad once
    its result has been rewritten; the database [bytes] proves that what the
    program builds from bytes is made of bytes. *)

Ltac bind_step := cbn [mbind option_bind].

Create HintDb bytes.

#[export] Hint Resolve Forall_app_2 Forall_take Forall_drop Forall_cons_2 Forall_nil_2
  Forall_replicate store_bytes : bytes.
#[export] Hint Extern 1 (_ ≤ _) => lia : bytes.
#[export] Hint Extern 1 (is_byte _) => by vm_compute : bytes.

(** ** Memory blocks

    A C object is the list of its bytes.  A read or a [memcpy] that leaves
    the object is undefined behaviour, and has no result: [None].  A
    definition of the development that returns an [option] uses [None]
    for exactly that (and for a loop that exhausts its fuel, which the
    theorems exclude). *)

Definition mread (buf : list Z) (off len : Z) : option (list Z) :=
  if bool_decide (0 ≤ off ∧ 0 ≤ len ∧ off + len ≤ Z.of_nat (length buf))
  then Some (take (Z.to_nat len) (drop (Z.to_nat off) buf))
  else None.

Definition mwrite (buf : list Z) (off : Z) (src : list Z) : option (list Z) :=
  if bool_decide (0 ≤ off ∧ off + Z.of_nat (length src) ≤ Z.of_nat (length buf))
  then Some (take (Z.to_nat off) buf ++ src ++ drop (Z.to_nat off + length src) buf)
  else None.

Lemma mread_Some buf off len :
  0 ≤ off → 0 ≤ len → off + len ≤ Z.of_nat (length buf) →
  mread buf off len = Some (take (Z.to_nat len) (drop (Z.to_nat off) buf)).
Proof. intros. unfold mread. by rewrite bool_decide_eq_true_2 by lia. Qed.

Lemma mwrite_Some buf off src :
  0 ≤ off → off + Z.of_nat (length src) ≤ Z.of_nat (length buf) →
  mwrite buf off src =
    Some (take (Z.to_nat off) buf ++ src ++ drop (Z.to_nat off + length src) buf).
Proof. intros. unfold mwrite. by rewrite bool_decide_eq_true_2 by lia. Qed.

Lemma length_mread buf off len bs :
  mread buf off len = Some bs → Z.of_nat (length bs) = len.
Proof.
  unfold mread. case_bool_decide; intros [= <-].
  rewrite length_take, length_drop. lia.
Qed.

Lemma length_mwrite buf off src buf' :
  mwrite buf off src = Some buf' → length buf' = length buf.
Proof.
  unfold mwrite. case_bool_decide; intros [= <-].
  rewrite !length_app, length_take, length_drop. lia.
Qed.

(** Reading back a prefix after a write that starts where it ends. *)
Lemma take_mwrite_prefix buf off src buf' :
  mwrite buf off src = Some buf' →
  take (Z.to_nat off + length src) buf' = take (Z.to_nat off) buf ++ src.
Proof.
  unfold mwrite. case_bool_decide; intros [= <-]. rewrite app_assoc.
  rewrite take_app_length'; [done|]. rewrite length_app, length_take. lia.
Qed.

(** A write over the middle of a buffer with as many bytes. *)
Lemma mwrite_middle (pre mid mid' post : list Z) off :
  off = Z.of_nat (length pre) → length mid' = length mid →
  mwrite (pre ++ mid ++ post) off mid' = Some (pre ++ mid' ++ post).
Proof.
  intros -> Hl. rewrite mwrite_Some; [|lia|rewrite !length_app; lia].
  rewrite Nat2Z.id, take_app_length, Hl, <-length_app.
  by rewrite (app_assoc pre mid post), drop_app_length.
Qed.

(** ** Socket addresses and datagrams

    The two fields of [struct sockaddr_in] the program uses, as they are in
    memory (network byte order), and a UDP datagram handed to [sendto]. *)

Record sockaddr_in := {
  sin_addr : Z;
  sin_port : Z;
}.

#[global] Instance sockaddr_in_eq_dec : EqDecision sockaddr_in.
Proof. solve_decision. Defined.

Record datagram := {
  dg_dest : sockaddr_in;
  dg_bytes : list Z;
}.

(** Byte order is used through its lemmas; evaluation still unfolds it. *)
#[global] Opaque hton store load.
