(* ===== verification/Common.v ===== *)
(** * Utilities: [common.c], and the C library's strings

    [strncpy] and the reading of a C string are modelled on byte arrays: a
    string is the bytes before the first NUL, and a function that would read
    past the array has no result.  [hash_to_string], [get_time_ms],
    [read_file_to_buffer], [write_buffer_to_file] and [compute_sha256] take
    the answers of the operating system and of OpenSSL as arguments. *)

From S2P Require Import Prelude.

(** ** C strings *)

(** The [n] bytes [strncpy(dst, src, n)] writes at [dst]: the characters of
    [src] up to its NUL, then zeros. *)
Fixpoint strncpy (src : list Z) (n : nat) : option (list Z) :=
  match n, src with
  | O, _ => Some []
  | S _, [] => None
  | S n', c :: src' =>
      if c =? 0 then Some (replicate n 0) else (c ::.) <$> strncpy src' n'
  end.

(** The idiom [strncpy(d, s, sizeof(d) - 1); d[sizeof(d) - 1] = '\0'] on an
    array of 256 bytes.  Every byte of the array is written, so the result
    does not depend on what it held. *)
Definition copy_name (src : list Z) : option (list Z) :=
  bs ← strncpy src 255; Some (bs ++ [0]).

(** The string an array holds, if it is terminated inside the array. *)
Fixpoint cstring (bs : list Z) : option (list Z) :=
  match bs with
  | [] => None
  | c :: bs => if c =? 0 then Some [] else (c ::.) <$> cstring bs
  end.

(** [strcpy] of a string into an array: the bytes and a NUL. *)
Definition cstr_bytes (s : list Z) : list Z := s ++ [0].

Definition name_ok (bs : list Z) : Prop :=
  length bs = 256%nat ∧ Forall is_byte bs ∧ is_Some (cstring bs).

Lemma strncpy_length src n bs : strncpy src n = Some bs → length bs = n.
Proof.
  revert src bs. induction n as [|n IH]; intros [|c src] bs; simpl; try naive_solver.
  destruct (c =? 0); [intros [= <-]; simpl; by rewrite length_replicate|].
  intros (bs' & H & ->)%fmap_Some. simpl. by rewrite (IH _ _ H).
Qed.

Lemma strncpy_bytes src n bs : Forall is_byte src → strncpy src n = Some bs → Forall is_byte bs.
Proof.
  intros Hb. revert src bs Hb. induction n as [|n IH]; intros [|c src] bs Hb; simpl; try naive_solver.
  inversion_clear Hb. destruct (c =? 0).
  - intros [= <-]. constructor; [done|]. by apply Forall_replicate.
  - intros (bs' & Hs & ->)%fmap_Some. constructor; eauto.
Qed.

(** [strncpy] is defined when the source has the characters it reads: [n] of
    them, or fewer and a NUL. *)
Lemma strncpy_total src n :
  (n ≤ length src)%nat ∨ is_Some (cstring src) → is_Some (strncpy src n).
Proof.
  revert src. induction n as [|n IH]; intros src H; [by destruct src; eexists|].
  destruct src as [|c src]; simpl in *; [destruct H as [H|[? [=]]]; lia|].
  destruct (c =? 0); [by eexists|]. apply fmap_is_Some, IH.
  destruct H as [H|H]; [left; lia|right]. by apply fmap_is_Some in H.
Qed.

Lemma cstring_zero n : cstring (replicate n 0 ++ [0]) = Some [].
Proof. by destruct n. Qed.

Lemma strncpy_cstring src n bs :
  strncpy src n = Some bs → ∀ s, cstring src = Some s → cstring (bs ++ [0]) = Some (take n s).
Proof.
  revert src bs. induction n as [|n IH]; intros [|c src] bs; simpl; try naive_solver.
  destruct (c =? 0) eqn:Hc.
  - intros [= <-] s [= <-]. done.
  - intros (bs' & Hs & ->)%fmap_Some s (s' & Hs' & ->)%fmap_Some. simpl. rewrite Hc.
    by rewrite (IH _ _ Hs _ Hs').
Qed.

Lemma strncpy_terminated src n bs : strncpy src n = Some bs → is_Some (cstring (bs ++ [0])).
Proof.
  revert src bs. induction n as [|n IH]; intros [|c src] bs; simpl; try naive_solver.
  destruct (c =? 0) eqn:Hc; [intros [= <-]; by eexists|].
  intros (bs' & Hs & ->)%fmap_Some. simpl. rewrite Hc. apply fmap_is_Some. eauto.
Qed.

Lemma cstring_length bs s : cstring bs = Some s → (length s < length bs)%nat.
Proof.
  revert s. induction bs as [|c bs IH]; intros s; simpl; [done|].
  destruct (c =? 0); [intros [= <-]; simpl; lia|].
  intros (s' & Hs & ->)%fmap_Some. simpl. specialize (IH _ Hs). lia.
Qed.

Lemma cstring_cstr_bytes s : Forall (λ c, c ≠ 0) s → cstring (cstr_bytes s) = Some s.
Proof.
  unfold cstr_bytes. induction 1 as [|c s Hc _ IH]; simpl; [done|].
  by rewrite (proj2 (Z.eqb_neq _ _) Hc), IH.
Qed.

(** Copying a name: always defined on a 256-byte array, the result is a
    terminated name, with the same string when the source is one too. *)
Lemma copy_name_total src :
  (255 ≤ length src)%nat ∨ is_Some (cstring src) → is_Some (copy_name src).
Proof.
  intros [bs Hbs]%(strncpy_total _ 255). exists (bs ++ [0]). unfold copy_name. by rewrite Hbs.
Qed.

(** The characters of a C string are the bytes other than NUL. *)
Lemma chars_bytes s : Forall (λ c, is_byte c ∧ c ≠ 0) s → Forall is_byte s.
Proof. intros Hs. by eapply Forall_impl; [exact Hs|intros ? []]. Qed.

Lemma chars_nonzero s : Forall (λ c, is_byte c ∧ c ≠ 0) s → Forall (λ c, c ≠ 0) s.
Proof. intros Hs. by eapply Forall_impl; [exact Hs|intros ? []]. Qed.

Lemma copy_name_ok src bs : Forall is_byte src → copy_name src = Some bs → name_ok bs.
Proof.
  unfold copy_name. intros Hb (bs' & Hs & [= <-])%bind_Some. split_and!.
  - by rewrite length_app, (strncpy_length _ _ _ Hs).
  - eauto using strncpy_bytes with bytes.
  - by eapply strncpy_terminated.
Qed.

Lemma copy_name_cstring src bs s :
  copy_name src = Some bs → cstring src = Some s → cstring bs = Some (take 255 s).
Proof. unfold copy_name. intros (bs' & Hs & [= <-])%bind_Some ?. by eapply strncpy_cstring. Qed.

Lemma copy_name_same src bs s :
  copy_name src = Some bs → name_ok src → cstring src = Some s → cstring bs = Some s.
Proof.
  intros Hc (Hl & _ & _) Hs. rewrite (copy_name_cstring _ _ _ Hc Hs).
  apply cstring_length in Hs. by rewrite take_ge by lia.
Qed.

(** The characters of an array before its first NUL, or all of them. *)
Fixpoint until_nul (bs : list Z) : list Z :=
  match bs with
  | [] => []
  | c :: bs => if c =? 0 then [] else c :: until_nul bs
  end.

(** A string in a 256-byte field, padded with zeros. *)
Definition name_field (s : list Z) : list Z := s ++ replicate (256 - length s) 0.

Lemma cstring_until_nul bs s : cstring bs = Some s → until_nul bs = s.
Proof.
  revert s. induction bs as [|c bs IH]; intros s; simpl; [done|].
  destruct (c =? 0); [by intros [= <-]|]. intros (s' & Hs & ->)%fmap_Some. by rewrite (IH s').
Qed.

Lemma strncpy_until_nul src n :
  (n ≤ length src)%nat →
  strncpy src n = Some (take n (until_nul src) ++ replicate (n - length (take n (until_nul src))) 0).
Proof.
  revert src. induction n as [|n IH]; intros [|c src] Hl; simpl in *; try done; try lia.
  destruct (c =? 0); simpl; [done|]. rewrite IH by lia. done.
Qed.

Lemma copy_name_field src :
  (255 ≤ length src)%nat → copy_name src = Some (name_field (take 255 (until_nul src))).
Proof.
  intros Hl. unfold copy_name, name_field. rewrite strncpy_until_nul by done. bind_step.
  f_equal. rewrite <-app_assoc. f_equal. rewrite <-replicate_S_end. f_equal.
  rewrite length_take. lia.
Qed.

Lemma until_nul_nonzero bs : Forall (λ c, c ≠ 0) (until_nul bs).
Proof. induction bs as [|c bs IH]; simpl; [done|]. destruct (Z.eqb_spec c 0); by constructor. Qed.

Lemma cstring_name_field s :
  Forall (λ c, c ≠ 0) s → (length s ≤ 255)%nat → cstring (name_field s) = Some s.
Proof.
  intros Hs Hl. unfold name_field. destruct (256 - length s)%nat as [|n] eqn:E; [lia|]. clear E.
  induction Hs as [|c s Hc Hs IH]; simpl in *; [done|].
  rewrite (proj2 (Z.eqb_neq _ _) Hc), IH by lia. done.
Qed.

(** ** [get_time_ms] *)

(** [(uint64_t)tv.tv_sec * 1000 + (uint64_t)tv.tv_usec / 1000]. *)
Definition get_time_ms (tv_sec tv_usec : Z) : Z :=
  u64 (u64 (u64 tv_sec * 1000) + u64 tv_usec `div` 1000).

(** ** [hash_to_string] *)

Definition hex_digit (d : Z) : Z := if d <? 10 then 48 + d else 87 + d.

(** The digits of [sprintf(p, "%02x", b)], without its NUL. *)
Definition hex_byte (b : Z) : list Z := [hex_digit (b `div` 16); hex_digit (b `mod` 16)].

Definition hash_to_string (hash str : list Z) : option (list Z) :=
  str ← foldl (λ acc i,
          str ← acc;
          b ← hash !! i;
          mwrite str (Z.of_nat i * 2) (hex_byte b ++ [0])) (Some str) (seq 0 32);
  mwrite str 64 [0].

Fixpoint hex_string (bs : list Z) : list Z :=
  match bs with [] => [] | b :: bs => hex_byte b ++ hex_string bs end.

Lemma length_hex_string bs : length (hex_string bs) = (2 * length bs)%nat.
Proof. induction bs; simpl; lia. Qed.

Lemma hex_string_app bs1 bs2 : hex_string (bs1 ++ bs2) = hex_string bs1 ++ hex_string bs2.
Proof. induction bs1 as [|b bs1 IH]; [done|]. cbn. by rewrite IH. Qed.

Lemma hex_digit_inj d1 d2 :
  0 ≤ d1 < 16 → 0 ≤ d2 < 16 → hex_digit d1 = hex_digit d2 → d1 = d2.
Proof. unfold hex_digit. intros ??. destruct (Z.ltb_spec d1 10), (Z.ltb_spec d2 10); lia. Qed.

Lemma hex_byte_inj b1 b2 : is_byte b1 → is_byte b2 → hex_byte b1 = hex_byte b2 → b1 = b2.
Proof.
  unfold is_byte, hex_byte. intros H1 H2 [= E1 E2].
  pose proof (Z.div_mod b1 16 ltac:(lia)). pose proof (Z.div_mod b2 16 ltac:(lia)).
  apply hex_digit_inj in E1; [|by split; [apply Z.div_pos|apply Z.div_lt_upper_bound]; lia..].
  apply hex_digit_inj in E2; [lia|apply Z.mod_pos_bound; lia..].
Qed.

Lemma hex_string_inj bs1 bs2 :
  Forall is_byte bs1 → Forall is_byte bs2 → hex_string bs1 = hex_string bs2 → bs1 = bs2.
Proof.
  intros H1. revert bs2. induction H1 as [|b1 bs1 Hb1 _ IH]; intros [|b2 bs2] H2 He; try done.
  inversion_clear H2 as [|?? Hb2 H2']. cbn in He.
  injection He as E1 E2 E3. f_equal; [|by apply IH].
  apply hex_byte_inj; [done..|]. unfold hex_byte. by rewrite E1, E2.
Qed.

(** After [k] iterations the digits of the first [k] bytes are in place. *)
Lemma hash_to_string_loop hash str k :
  length hash = 32%nat → length str = 65%nat → (k ≤ 32)%nat →
  ∃ rest, foldl (λ acc i, str ← acc; b ← hash !! i;
            mwrite str (Z.of_nat i * 2) (hex_byte b ++ [0])) (Some str) (seq 0 k)
          = Some (hex_string (take k hash) ++ rest) ∧
          length rest = (65 - 2 * k)%nat.
Proof.
  intros Hh Hs. induction k as [|k IH]; intros Hk; [exists str; split; [done|lia]|].
  destruct IH as (rest & IH & Hr); [lia|].
  rewrite seq_S, foldl_snoc, IH. cbn [mbind option_bind Nat.add].
  destruct (lookup_lt_is_Some_2 hash k) as [b Hb]; [lia|]. rewrite Hb. bind_step.
  destruct rest as [|x [|y [|z rest]]]; simpl in Hr; try lia.
  change (x :: y :: z :: rest) with ([x; y; z] ++ rest).
  rewrite mwrite_middle;
    [|rewrite length_hex_string, length_take; lia|done].
  exists (0 :: rest). split; [|simpl; lia].
  rewrite (take_S_r _ _ b), hex_string_app, <-!app_assoc by done. done.
Qed.

(** [hash_to_string] on a 32-byte hash and a 65-byte buffer stays inside
    the buffer and leaves the 64 lowercase hex digits of the hash and a NUL;
    two hashes with the same string are equal. *)
Theorem hash_to_string_spec hash str hash' str' :
  Forall is_byte hash → length hash = 32%nat → length str = 65%nat →
  Forall is_byte hash' → length hash' = 32%nat → length str' = 65%nat →
  hash_to_string hash str = Some (cstr_bytes (hex_string hash)) ∧
  (hash_to_string hash str = hash_to_string hash' str' → hash = hash').
Proof.
  assert (∀ h s, length h = 32%nat → length s = 65%nat →
    hash_to_string h s = Some (cstr_bytes (hex_string h))) as Hrun.
  { intros h s Hh Hs. unfold hash_to_string.
    destruct (hash_to_string_loop h s 32) as (rest & -> & Hr); [done..|].
    destruct rest as [|x [|]]; try done. bind_step.
    rewrite take_ge by lia. change [x] with ([x] ++ []).
    by rewrite mwrite_middle by (rewrite ?length_hex_string; lia || done). }
  intros Hb Hl Hs Hb' Hl' Hs'. rewrite !Hrun by done. split; [done|].
  intros [= He]. apply app_inj_2 in He as [He _]; [|done]. by apply hex_string_inj.
Qed.

Lemma hash_to_string_spec_witness :
  hash_to_string (replicate 32 171) (replicate 65 0)
    = Some (mjoin (replicate 32 [97; 98]) ++ [0]).
Proof.
  apply (hash_to_string_spec (replicate 32 171) (replicate 65 0)
           (replicate 32 7) (replicate 65 1)); try done; by apply Forall_replicate.
Defined.

(** ** Files

    A file system maps a path to the contents of the file there.  What the
    operating system may refuse is an argument: whether [fopen] and [malloc]
    succeed, what [ftell] answers, how much [fread] and [fwrite] transfer. *)

Abbreviation filesystem := (gmap (list Z) (list Z)).

Record read_answers := {
  ra_open : bool;             (** [fopen(filepath, "rb")] succeeds *)
  ra_tell : Z;                (** [ftell] at the end of the file *)
  ra_block : option (list Z); (** the block [malloc(fsize)] returns *)
  ra_bytes : list Z;          (** the bytes [fread] transfers *)
}.

(** The result and, on success, the buffer and size the caller receives. *)
Definition read_file_to_buffer (a : read_answers) : option (Z * option (list Z * Z)) :=
  if negb (ra_open a) then Some (-1, None) else
  if ra_tell a <? 0 then Some (-1, None) else
  match ra_block a with
  | None => Some (-1, None)
  | Some block =>
      buffer ← mwrite block 0 (ra_bytes a);
      if negb (Z.of_nat (length (ra_bytes a)) =? ra_tell a) then Some (-1, None)
      else Some (0, Some (buffer, ra_tell a))
  end.

Record write_answers := {
  wa_open : bool;    (** [fopen(filepath, "wb")] succeeds *)
  wa_written : Z;    (** what [fwrite] returns *)
}.

(** Opening for writing truncates the file, whatever happens next. *)
Definition write_buffer_to_file (filepath buffer : list Z) (size : Z) (a : write_answers)
    (fs : filesystem) : option (Z * filesystem) :=
  if negb (wa_open a) then Some (-1, fs) else
  data ← mread buffer 0 size;
  let fs := <[filepath := take (Z.to_nat (wa_written a)) data]> fs in
  if negb (wa_written a =? size) then Some (-1, fs) else Some (0, fs).

(** What a file system answers to [read_file_to_buffer] when nothing fails. *)
Definition reads (fs : filesystem) (filepath : list Z) (a : read_answers) : Prop :=
  ∃ content block, fs !! filepath = Some content ∧ length block = length content ∧
    a = {| ra_open := true; ra_tell := Z.of_nat (length content); ra_block := Some block;
           ra_bytes := content |}.

Lemma read_file_ok fs filepath content a :
  fs !! filepath = Some content → reads fs filepath a →
  read_file_to_buffer a = Some (0, Some (content, Z.of_nat (length content))).
Proof.
  intros Hfs (content' & block & Hfs' & Hl & ->). simplify_eq. unfold read_file_to_buffer. simpl.
  rewrite (proj2 (Z.ltb_ge _ _)), mwrite_Some by lia. bind_step.
  rewrite Z.eqb_refl. simpl. rewrite drop_ge by lia. by rewrite app_nil_r.
Qed.

(** C30: the file operations against the file system.  A write that reports
    success stores exactly the buffer, so that reading the file back gives
    it, and touches no other path; a short [fwrite] is reported as an error
    but the file has been truncated and holds only a prefix. *)
Theorem write_then_read fs filepath buffer a a' :
  0 ≤ wa_written a ≤ Z.of_nat (length buffer) → wa_open a = true →
  ∃ fs', write_buffer_to_file filepath buffer (Z.of_nat (length buffer)) a fs
      = Some (if wa_written a =? Z.of_nat (length buffer) then 0 else -1, fs') ∧
    (∀ p, p ≠ filepath → fs' !! p = fs !! p) ∧
    fs' !! filepath = Some (take (Z.to_nat (wa_written a)) buffer) ∧
    (wa_written a = Z.of_nat (length buffer) → reads fs' filepath a' →
     read_file_to_buffer a' = Some (0, Some (buffer, Z.of_nat (length buffer)))).
Proof.
  intros Hw Ho. unfold write_buffer_to_file. rewrite Ho. simpl.
  rewrite mread_Some by lia. bind_step.
  rewrite Nat2Z.id, drop_0, (take_ge buffer (length buffer)) by lia.
  exists (<[filepath := take (Z.to_nat (wa_written a)) buffer]> fs).
  split; [by destruct (wa_written a =? _)|]. split_and!.
  - intros p Hp. by rewrite lookup_insert_ne.
  - by rewrite lookup_insert_eq.
  - intros -> Hr. eapply read_file_ok in Hr; [exact Hr|].
    by rewrite lookup_insert_eq, Nat2Z.id, take_ge by lia.
Qed.

Lemma write_then_read_witness :
  ∃ fs', write_buffer_to_file [97] [1; 2; 3] 3 {| wa_open := true; wa_written := 3 |} ∅
    = Some (0, fs') ∧ fs' !! [97] = Some [1; 2; 3].
Proof.
  destruct (write_then_read ∅ [97] [1; 2; 3] {| wa_open := true; wa_written := 3 |}
    {| ra_open := true; ra_tell := 3; ra_block := Some [0; 0; 0]; ra_bytes := [1; 2; 3] |})
    as (fs' & Hw & _ & Hl & _); [simpl; lia|done|].
  exists fs'. split; [exact Hw|exact Hl].
Defined.

(** ** [compute_sha256]

    The digest is OpenSSL's, a parameter; without a context the function
    returns and leaves the output array as it was. *)
Definition compute_sha256 (digest : list Z → list Z) (ctx_ok : bool) (data hash : list Z) : list Z :=
  if negb ctx_ok then hash else digest data.
