(* ===== verification/Sockets.v ===== *)
(** * Sockets: the helpers of [common.c], and the system calls they make

    A computation of [sys] makes system calls.  The state of the system is the
    set of open descriptors, the answers it will give and the calls made so
    far; [os_ebadf] records that some call was given a descriptor that is not
    open, as a second [close] or a use after [close] would.  [triple] is a small
    Hoare logic for the open descriptors: it is total, so that a program with a
    triple neither blocks nor has undefined behaviour. *)

From S2P Require Import Prelude.

Inductive syscall :=
  | SysSocket (dgram : bool)
  | SysReuseAddr (fd : Z)
  | SysBind (fd : Z) (addr : sockaddr_in)
  | SysListen (fd backlog : Z)
  | SysGetSockName (fd : Z)
  | SysConnect (fd : Z) (addr : sockaddr_in)
  | SysGetFl (fd : Z)
  | SysSetFl (fd flags : Z)
  | SysPoll (fd : Z)
  | SysAccept (fd : Z)
  | SysSend (fd : Z)
  | SysRecv (fd : Z)
  | SysClose (fd : Z).

Record os := {
  os_open : gset Z;
  os_answers : list Z;
  os_trace : list syscall;
  os_ebadf : bool;
}.

(** ** The monad *)

Definition sys (A : Type) : Type := os → option (A * os).

#[global] Instance sys_ret : MRet sys := λ A a o, Some (a, o).
#[global] Instance sys_bind : MBind sys := λ A B k m o,
  match m o with Some (a, o') => k a o' | None => None end.

(** A computation that makes no call; [None] is undefined behaviour. *)
Definition lift {A} (x : option A) : sys A := λ o,
  match x with Some a => Some (a, o) | None => None end.

(** The next answer; a system with nothing more to say fails. *)
Definition next_answer (o : os) : Z * os :=
  match os_answers o with
  | [] => (-1, o)
  | z :: zs => (z, {| os_open := os_open o; os_answers := zs; os_trace := os_trace o;
                      os_ebadf := os_ebadf o |})
  end.

Definition log_call (c : syscall) (o : os) : os :=
  {| os_open := os_open o; os_answers := os_answers o; os_trace := os_trace o ++ [c];
     os_ebadf := os_ebadf o |}.

Definition set_open (fds : gset Z) (o : os) : os :=
  {| os_open := fds; os_answers := os_answers o; os_trace := os_trace o; os_ebadf := os_ebadf o |}.

Definition bad_fd (o : os) : os :=
  {| os_open := os_open o; os_answers := os_answers o; os_trace := os_trace o; os_ebadf := true |}.

(** [socket(AF_INET, ...)]: a descriptor that was not open, or -1. *)
Definition sys_socket (dgram : bool) : sys Z := λ o,
  let '(z, o) := next_answer (log_call (SysSocket dgram) o) in
  if bool_decide (0 ≤ z ∧ z ∉ os_open o) then Some (z, set_open ({[z]} ∪ os_open o) o)
  else Some (-1, o).

(** A call on a descriptor: any answer, or EBADF. *)
Definition on_fd (fd : Z) (c : syscall) : sys Z := λ o,
  let o := log_call c o in
  if bool_decide (fd ∈ os_open o) then Some (next_answer o) else Some (-1, bad_fd o).

Definition sys_close (fd : Z) : sys unit := λ o,
  let o := log_call (SysClose fd) o in
  if bool_decide (fd ∈ os_open o) then Some ((), set_open (os_open o ∖ {[fd]}) o)
  else Some ((), bad_fd o).

(** A call on a descriptor whose answer comes from elsewhere (the event loops
    are given theirs as an argument): only the descriptor is checked. *)
Definition call_on (fd : Z) (c : syscall) : sys unit := λ o,
  let o := log_call c o in
  if bool_decide (fd ∈ os_open o) then Some ((), o) else Some ((), bad_fd o).

Fixpoint use_all (call : Z → syscall) (fds : list Z) : sys unit :=
  match fds with
  | [] => mret ()
  | fd :: fds => _ ← call_on fd (call fd); use_all call fds
  end.

(** [accept]: a descriptor that was not open, or -1. *)
Definition accept_fd {A} (answer : option (Z * A)) : sys (option (Z * A)) := λ o,
  match answer with
  | Some (z, a) =>
      if bool_decide (0 ≤ z ∧ z ∉ os_open o) then Some (Some (z, a), set_open ({[z]} ∪ os_open o) o)
      else Some (None, o)
  | None => Some (None, o)
  end.

Definition sys_accept {A} (fd : Z) (answer : option (Z * A)) : sys (option (Z * A)) :=
  _ ← call_on fd (SysAccept fd); accept_fd answer.

(** A value a call stores through a pointer. *)
Definition out_value : sys Z := λ o, Some (next_answer o).

(** [getsockname]: the result, and the port it stored (as it is in memory). *)
Definition sys_getsockname (fd : Z) : sys (Z * Z) :=
  r ← on_fd fd (SysGetSockName fd);
  port ← out_value;
  mret (r, u16 port).

(** ** [common.c] *)

Definition O_NONBLOCK : Z := 2048.

Definition set_nonblocking (fd : Z) : sys Z :=
  flags ← on_fd fd (SysGetFl fd);
  if flags =? -1 then mret (-1)
  else on_fd fd (SysSetFl fd (Z.lor flags O_NONBLOCK)).

Definition create_socket (dgram : bool) : sys Z :=
  fd ← sys_socket dgram;
  if fd <? 0 then mret (-1) else
  r ← on_fd fd (SysReuseAddr fd);
  if r <? 0 then (_ ← sys_close fd; mret (-1)) else mret fd.

Definition create_tcp_socket : sys Z := create_socket false.
Definition create_udp_socket : sys Z := create_socket true.

Definition bind_socket `{Host} (fd port : Z) : sys Z :=
  r ← on_fd fd (SysBind fd {| sin_addr := 0; sin_port := htons port |});
  if r <? 0 then mret (-1) else mret 0.

(** ** A Hoare logic for descriptors *)

Definition triple {A} (F : gset Z) (m : sys A) (Q : A → gset Z → Prop) : Prop :=
  ∀ o, os_open o = F → os_ebadf o = false →
    ∃ a o', m o = Some (a, o') ∧ os_ebadf o' = false ∧ Q a (os_open o').

Create HintDb sys.

Section rules.
Context {A B : Type}.
Implicit Types (F : gset Z).

Lemma triple_ret F (a : A) Q : Q a F → triple F (mret a) Q.
Proof. intros HQ o <- He. by exists a, o. Qed.

Lemma triple_bind F (m : sys A) (k : A → sys B) R Q :
  triple F m R → (∀ a F', R a F' → triple F' (k a) Q) → triple F (m ≫= k) Q.
Proof.
  intros Hm Hk o HF He. destruct (Hm o HF He) as (a & o1 & Hrun & He1 & HR).
  destruct (Hk a _ HR o1 eq_refl He1) as (b & o2 & Hrun2 & He2 & HQ).
  exists b, o2. split; [|done]. unfold mbind, sys_bind. by rewrite Hrun.
Qed.

Lemma triple_weaken F (m : sys A) (R Q : A → gset Z → Prop) :
  triple F m R → (∀ a F', R a F' → Q a F') → triple F m Q.
Proof.
  intros Hm HRQ o HF He. destruct (Hm o HF He) as (a & o1 & ? & ? & ?). exists a, o1. auto.
Qed.

Lemma triple_lift F (x : option A) a (k : A → sys B) Q :
  x = Some a → triple F (k a) Q → triple F (lift x ≫= k) Q.
Proof. intros -> Hk o HF He. exact (Hk o HF He). Qed.

Lemma next_answer_open o :
  os_open (next_answer o).2 = os_open o ∧ os_ebadf (next_answer o).2 = os_ebadf o.
Proof. unfold next_answer. by destruct (os_answers o). Qed.

Lemma triple_on_fd F fd c (Q : Z → gset Z → Prop) :
  fd ∈ F → (∀ z, Q z F) → triple F (on_fd fd c) Q.
Proof.
  intros Hfd HQ o HF He. unfold on_fd. cbn [os_open log_call]. rewrite HF, bool_decide_eq_true_2 by done.
  destruct (next_answer_open (log_call c o)) as [Ho Hb].
  destruct (next_answer _) as [z o1]. exists z, o1. simpl in *. rewrite Ho, HF. split_and!; [done|congruence|done].
Qed.

Lemma triple_out_value F (Q : Z → gset Z → Prop) : (∀ z, Q z F) → triple F out_value Q.
Proof.
  intros HQ o HF He. unfold out_value. destruct (next_answer_open o) as [Ho Hb].
  destruct (next_answer o) as [z o1]. exists z, o1. simpl in *. rewrite Ho, HF. split_and!; [done|congruence|done].
Qed.

Lemma triple_close F fd (Q : unit → gset Z → Prop) :
  fd ∈ F → Q () (F ∖ {[fd]}) → triple F (sys_close fd) Q.
Proof.
  intros Hfd HQ o HF He. unfold sys_close. cbn [os_open log_call]. rewrite HF, bool_decide_eq_true_2 by done.
  eexists _, _. split; [done|]. done.
Qed.

Lemma triple_call_on F fd c (Q : unit → gset Z → Prop) : fd ∈ F → Q () F → triple F (call_on fd c) Q.
Proof.
  intros Hfd HQ o HF He. unfold call_on. cbn [os_open log_call]. rewrite HF, bool_decide_eq_true_2 by done.
  eexists _, _. split; [done|]. cbn [os_open os_ebadf log_call]. by rewrite HF.
Qed.

Lemma triple_socket F dgram (Q : Z → gset Z → Prop) :
  Q (-1) F → (∀ fd, 0 ≤ fd → fd ∉ F → Q fd ({[fd]} ∪ F)) → triple F (sys_socket dgram) Q.
Proof.
  intros Hfail Hok o HF He. unfold sys_socket.
  destruct (next_answer_open (log_call (SysSocket dgram) o)) as [Ho Hb].
  destruct (next_answer _) as [z o1]. simpl in *. rewrite Ho, HF. case_bool_decide as Hz.
  - exists z, (set_open ({[z]} ∪ F) o1). split_and!; [done|simpl; congruence|]. destruct Hz. by apply Hok.
  - exists (-1), o1. rewrite Ho, HF. split_and!; [done|congruence|done].
Qed.
End rules.

Lemma triple_use_all F call fds (Q : unit → gset Z → Prop) :
  Forall (λ fd, fd ∈ F) fds → Q () F → triple F (use_all call fds) Q.
Proof.
  intros Hall HQ. induction Hall as [|fd fds Hfd _ IH]; [by apply triple_ret|].
  eapply triple_bind; [by apply (triple_call_on F fd _ (λ _ F', F' = F))|]. by intros _ ? ->.
Qed.

Lemma triple_accept {A} F fd (answer : option (Z * A)) (Q : option (Z * A) → gset Z → Prop) :
  fd ∈ F → Q None F → (∀ z a, answer = Some (z, a) → z ∉ F → Q answer ({[z]} ∪ F)) →
  triple F (sys_accept fd answer) Q.
Proof.
  intros Hfd Hnone Hsome. eapply triple_bind; [by apply (triple_call_on F fd _ (λ _ F', F' = F))|].
  intros _ ? -> o HF He. unfold accept_fd. destruct answer as [[z a]|]; [|exists None, o; by rewrite HF].
  case_bool_decide as Hz; [|exists None, o; by rewrite HF].
  eexists _, _. split; [done|]. split; [done|]. cbn [os_open set_open]. rewrite HF in *.
  by apply (Hsome z a); [|apply Hz].
Qed.

(** Closing a descriptor that was opened fresh restores the set. *)
Lemma close_fresh (F : gset Z) fd : fd ∉ F → ({[fd]} ∪ F) ∖ {[fd]} = F.
Proof. set_solver. Qed.

#[export] Hint Resolve triple_ret triple_on_fd : sys.

(** ** The helpers *)

(** A descriptor was opened and nothing else happened, or nothing did. *)
Definition opened (F : gset Z) (fd : Z) (F' : gset Z) : Prop :=
  (fd = -1 ∧ F' = F) ∨ (0 ≤ fd ∧ fd ∉ F ∧ F' = {[fd]} ∪ F).

Lemma create_socket_triple F dgram : triple F (create_socket dgram) (opened F).
Proof.
  unfold create_socket. eapply triple_bind; [apply triple_socket with (Q := opened F)|].
  - by left.
  - intros fd Hfd Hni. by right.
  - intros fd F' [[-> ->]|(Hfd & Hni & ->)]; [apply triple_ret; by left|].
    rewrite (proj2 (Z.ltb_ge _ _)) by lia.
    eapply triple_bind; [apply triple_on_fd with (Q := λ _ F', F' = {[fd]} ∪ F); set_solver|].
    intros r F' ->. case_cond as Er; [|apply triple_ret; by right].
    eapply triple_bind; [apply triple_close with (Q := λ _ F', F' = F); [set_solver|by apply close_fresh]|].
    intros _ F' ->. apply triple_ret. by left.
Qed.

Lemma bind_socket_triple `{Host} F fd port :
  fd ∈ F → triple F (bind_socket fd port) (λ r F', F' = F ∧ (r = -1 ∨ r = 0)).
Proof.
  intros Hfd. unfold bind_socket.
  eapply triple_bind; [apply triple_on_fd with (Q := λ _ F', F' = F); done|].
  intros r F' ->. case_cond as Er; apply triple_ret; auto.
Qed.

Lemma getsockname_triple F fd :
  fd ∈ F → triple F (sys_getsockname fd) (λ p F', F' = F ∧ in_width 16 p.2).
Proof.
  intros Hfd. unfold sys_getsockname.
  eapply triple_bind; [apply triple_on_fd with (Q := λ _ F', F' = F); done|].
  intros r F' ->. eapply triple_bind; [apply triple_out_value with (Q := λ _ F', F' = F); done|].
  intros p F' ->. apply triple_ret. split; [done|]. by apply uwrap_range.
Qed.
