(* ===== verification/Arrays.v ===== *)
(** * Tables in fixed-size arrays

    The server and the client keep their tables in static arrays with a
    count of the entries in use.  This file has the loops the code writes on
    them - the search for the first entry that satisfies a test, and the
    removal of entries by shifting the later ones down - with array reads and
    writes that have no result out of bounds, and relates them to lists. *)

From S2P Require Import Prelude.

(** ** Searching *)

(** [for (k = i; k < i + n; k++) if (p(arr[k])) return k; return none]. *)
Fixpoint scan {A} (p : A → bool) (arr : list A) (i n : nat) : option (option nat) :=
  match n with
  | O => Some None
  | S n => x ← arr !! i; if p x then Some (Some i) else scan p arr (S i) n
  end.

(** The first entry of a list that satisfies a test. *)
Fixpoint first_match {A} (p : A → bool) (l : list A) : option A :=
  match l with
  | [] => None
  | x :: l => if p x then Some x else first_match p l
  end.

Lemma first_match_Some {A} (p : A → bool) l x :
  first_match p l = Some x → ∃ k, l !! k = Some x ∧ p x = true.
Proof.
  induction l as [|y l IH]; simpl; [done|]. destruct (p y) eqn:Hp.
  - intros [= ->]. by exists 0%nat.
  - intros [k Hk]%IH. by exists (S k).
Qed.

Lemma first_match_None {A} (p : A → bool) l :
  first_match p l = None ↔ ∀ k x, l !! k = Some x → p x = false.
Proof.
  split.
  - induction l as [|y l IH]; simpl; [done|]. destruct (p y) eqn:Hp; [done|].
    intros Hn [|k] x Hx; [by simplify_eq/=|]. by eapply IH.
  - induction l as [|y l IH]; simpl; [done|]. intros Hall. rewrite (Hall 0%nat y) by done.
    apply IH. intros k x. apply (Hall (S k)).
Qed.

Lemma first_match_app {A} (p : A → bool) l1 l2 :
  first_match p (l1 ++ l2) =
    match first_match p l1 with Some x => Some x | None => first_match p l2 end.
Proof. induction l1 as [|y l1 IH]; simpl; [done|]. by destruct (p y). Qed.

(** With at most one matching entry, the search finds it. *)
Lemma first_match_unique {A} (p : A → bool) l k x :
  l !! k = Some x → p x = true → (∀ j y, l !! j = Some y → p y = true → j = k) →
  first_match p l = Some x.
Proof.
  intros Hx Hp Hu. destruct (first_match p l) as [y|] eqn:Hf.
  - apply first_match_Some in Hf as (j & Hj & Hy). by rewrite (Hu j y Hj Hy), Hx in Hj.
  - by rewrite (proj1 (first_match_None p l) Hf k x) in Hp.
Qed.

Lemma scan_from {A} (p : A → bool) arr i n :
  (i + n ≤ length arr)%nat →
  ∃ r, scan p arr i n = Some r ∧ (r ≫= λ k, arr !! k) = first_match p (take n (drop i arr)) ∧
    ∀ k, r = Some k → (k < i + n)%nat.
Proof.
  revert i. induction n as [|n IH]; intros i Hl; cbn [scan]; [by exists None|].
  destruct (lookup_lt_is_Some_2 arr i) as [x Hx]; [lia|].
  rewrite (drop_S _ _ _ Hx). cbn [take first_match]. rewrite Hx. bind_step.
  destruct (p x) eqn:Hp.
  - exists (Some i). split_and!; [done..|]. intros k [= <-]. lia.
  - rewrite <-Nat.add_succ_comm. apply IH. lia.
Qed.

(** The search loop stays inside the array and finds the first match. *)
Lemma scan_spec {A} (p : A → bool) arr n :
  (n ≤ length arr)%nat →
  ∃ r, scan p arr 0 n = Some r ∧ (r ≫= λ k, arr !! k) = first_match p (take n arr) ∧
    ∀ k, r = Some k → (k < n)%nat.
Proof. intros. by apply (scan_from p arr 0 n). Qed.

(** The two outcomes of a search. *)
Lemma scan_cases {A} (p : A → bool) arr n :
  (n ≤ length arr)%nat →
  (scan p arr 0 n = Some None ∧ first_match p (take n arr) = None) ∨
  ∃ k x, scan p arr 0 n = Some (Some k) ∧ (k < n)%nat ∧ arr !! k = Some x ∧ p x = true ∧
    first_match p (take n arr) = Some x.
Proof.
  intros Hn. destruct (scan_spec p arr n Hn) as ([k|] & -> & Hr & Hk); simpl in Hr; [right|by left].
  specialize (Hk k eq_refl). destruct (lookup_lt_is_Some_2 arr k) as [x Hx]; [lia|].
  rewrite Hx in Hr. symmetry in Hr. exists k, x. split_and!; try done.
  by apply first_match_Some in Hr as (_ & _ & ?).
Qed.

(** Replacing the entry found by another that matches does not move it. *)
Lemma scan_insert {A} (p : A → bool) arr n k x' :
  (k < length arr)%nat → p x' = true →
  scan p arr 0 n = Some (Some k) → scan p (<[k := x']> arr) 0 n = Some (Some k).
Proof.
  intros Hk Hp. generalize 0%nat. induction n as [|n IH]; intros i; cbn [scan]; [done|].
  destruct (decide (i = k)) as [->|Hne].
  - rewrite list_lookup_insert_eq by done. bind_step. by rewrite Hp.
  - rewrite list_lookup_insert_ne by done. destruct (arr !! i) as [x|]; [|done].
    bind_step. destruct (p x); [by intros [= ?]|]. apply IH.
Qed.

(** ** Removing by shifting *)

(** [for (j = i; j < n - 1; j++) arr[j] = arr[j + 1]]. *)
Definition shift_down {A} (arr : list A) (i n : nat) : option (list A) :=
  foldl (λ acc j, arr ← acc; x ← arr !! S j;
           if bool_decide (j < length arr)%nat then Some (<[j := x]> arr) else None)
        (Some arr) (seq i (n - 1 - i)).

Lemma shift_down_spec {A} (arr : list A) i n :
  (i < n ≤ length arr)%nat →
  ∃ arr', shift_down arr i n = Some arr' ∧ length arr' = length arr ∧
    take (n - 1) arr' = take i arr ++ drop (S i) (take n arr).
Proof.
  intros Hn. unfold shift_down.
  assert (∀ m, (i + m < n)%nat → ∃ arr',
    foldl (λ acc j, arr ← acc; x ← arr !! S j;
           if bool_decide (j < length arr)%nat then Some (<[j := x]> arr) else None)
        (Some arr) (seq i m) = Some arr' ∧ length arr' = length arr ∧
    ∀ k, arr' !! k = if decide (i ≤ k < i + m)%nat then arr !! S k else arr !! k) as Hloop.
  { induction m as [|m IH]; intros Hm.
    - exists arr. split_and!; try done. intros k. by rewrite decide_False by lia.
    - destruct IH as (arr' & Hf & Hl & Hk); [lia|].
      rewrite seq_S, foldl_snoc, Hf. bind_step.
      destruct (lookup_lt_is_Some_2 arr' (S (i + m))) as [x Hx]; [lia|].
      rewrite Hx. bind_step. rewrite bool_decide_eq_true_2 by lia.
      eexists. split_and!; [done|by rewrite length_insert|]. intros k.
      destruct (decide (k = i + m)%nat) as [->|Hne].
      + rewrite list_lookup_insert_eq by lia. rewrite decide_True by lia. rewrite <-Hx, Hk.
        by rewrite decide_False by lia.
      + rewrite list_lookup_insert_ne by done. rewrite Hk.
        repeat case_decide; try done; lia. }
  destruct (Hloop (n - 1 - i)%nat) as (arr' & Hf & Hl & Hk); [lia|].
  exists arr'. split_and!; [done..|]. apply list_eq. intros k.
  destruct (decide (k < n - 1)%nat); [|rewrite !lookup_ge_None_2; [done|..];
    rewrite ?length_app, ?length_drop, ?length_take; lia].
  rewrite lookup_take_lt, Hk by done. destruct (decide (k < i)%nat).
  - rewrite decide_False by lia. rewrite lookup_app_l by (rewrite length_take; lia).
    by rewrite lookup_take_lt.
  - rewrite decide_True, lookup_app_r, length_take, Nat.min_l by (rewrite ?length_take; lia).
    rewrite lookup_drop. replace (S i + (k - i))%nat with (S k) by lia.
    by rewrite lookup_take_lt by lia.
Qed.

(** [for (i = 0; i < n; i++) if (p(arr[i])) { shift; n--; i--; }]: the
    entries that satisfy [p] are removed, [n] is the number of the others. *)
Fixpoint remove_loop {A} (fuel : nat) (p : A → bool) (arr : list A) (i n : nat) :
    option (list A * nat) :=
  if bool_decide (i < n)%nat then
    match fuel with
    | O => None
    | S fuel =>
        x ← arr !! i;
        if p x then
          arr ← shift_down arr i n;
          remove_loop fuel p arr i (n - 1)
        else remove_loop fuel p arr (S i) n
    end
  else Some (arr, n).

(** The loop stops (each iteration reduces [n - i]) and keeps, in order,
    exactly the entries that do not satisfy [p]. *)
Lemma remove_loop_spec {A} fuel (p : A → bool) arr i n :
  (i ≤ n ≤ length arr)%nat → (n - i ≤ fuel)%nat →
  ∃ arr' n', remove_loop fuel p arr i n = Some (arr', n') ∧ length arr' = length arr ∧
    (n' ≤ n)%nat ∧
    take n' arr' = take i arr ++ List.filter (λ x, negb (p x)) (drop i (take n arr)).
Proof.
  revert arr i n. induction fuel as [|fuel IH]; intros arr i n Hn Hf; cbn [remove_loop].
  - rewrite bool_decide_eq_false_2 by lia. exists arr, n. split_and!; try done.
    rewrite (drop_ge (take n arr)) by (rewrite length_take; lia). simpl.
    rewrite app_nil_r. f_equal. lia.
  - case_bool_decide as Hlt.
    2:{ exists arr, n. split_and!; try done.
        rewrite (drop_ge (take n arr)) by (rewrite length_take; lia). simpl.
        rewrite app_nil_r. f_equal. lia. }
    destruct (lookup_lt_is_Some_2 arr i) as [x Hx]; [lia|]. rewrite Hx. bind_step.
    assert (drop i (take n arr) = x :: drop (S i) (take n arr)) as Hd
      by (apply drop_S; by rewrite lookup_take_lt).
    destruct (p x) eqn:Hp.
    + destruct (shift_down_spec arr i n) as (arr1 & -> & Hl1 & Ht1); [lia|]. bind_step.
      destruct (IH arr1 i (n - 1)%nat) as (arr' & n' & -> & Hl' & Hn' & Ht'); [lia..|].
      exists arr', n'. split_and!; [done|lia|lia|]. rewrite Ht', Hd. simpl. rewrite Hp. simpl.
      rewrite Ht1. f_equal.
      * transitivity (take i (take (n - 1) arr1)); [by rewrite take_take, Nat.min_l by lia|].
        rewrite Ht1, take_app_length'; [done|]. rewrite length_take. lia.
      * f_equal. rewrite drop_app_length'; [done|]. rewrite length_take. lia.
    + destruct (IH arr (S i) n) as (arr' & n' & -> & Hl' & Hn' & Ht'); [lia..|].
      exists arr', n'. split_and!; [done..|]. rewrite Ht', Hd. simpl. rewrite Hp. simpl.
      rewrite (take_S_r _ _ x) by done. by rewrite <-app_assoc.
Qed.
