(* ===== verification/ShareTable.v ===== *)
(** * The client's table of shared files: [share_file_logic.c]

    The files this client offers to its peers, in a static array with a
    count.  The abstract table is the list of the entries in use. *)

From S2P Require Import Prelude Common Arrays.

Module ShareTable.

Definition MAX_SHARED_FILES : nat := 1024.

Record shared_file_t := {
  file_id : Z;
  file_size : Z;
  hash : list Z;
  file_name : list Z;
}.

Record state := {
  table : list shared_file_t;
  num_files : nat;
}.

Definition zero_file : shared_file_t := {|
  file_id := 0; file_size := 0; hash := replicate 32 0; file_name := replicate 256 0 |}.

(** Static storage is zeroed. *)
Definition init : state := {| table := replicate MAX_SHARED_FILES zero_file; num_files := 0 |}.

(** [filename] and [hash] are the arrays the pointers designate. *)
Definition add_shared_file (id size : Z) (hash filename : list Z) (t : state) : option state :=
  if bool_decide (MAX_SHARED_FILES ≤ num_files t)%nat then Some t
  else
    hash ← mread hash 0 32;
    name ← copy_name filename;
    if bool_decide (num_files t < length (table t))%nat then
      Some {| table := <[num_files t := {| file_id := id; file_size := size; hash := hash;
                                           file_name := name |}]> (table t);
              num_files := S (num_files t) |}
    else None.

(** The pointer returned is the index of the entry; [Some None] is NULL. *)
Definition find_shared_file_by_id (id : Z) (t : state) : option (option nat) :=
  scan (λ f, file_id f =? id) (table t) 0 (num_files t).

Definition entries (t : state) : list shared_file_t := take (num_files t) (table t).

Definition wf (t : state) : Prop :=
  length (table t) = MAX_SHARED_FILES ∧ (num_files t ≤ MAX_SHARED_FILES)%nat ∧
  Forall (λ f, length (hash f) = 32%nat ∧ name_ok (file_name f)) (entries t).

Lemma table_init_wf : wf init.
Proof. split_and!; [by vm_compute|simpl; lia|constructor]. Qed.

(** The entry an identifier designates: the oldest one. *)
Definition lookup_id (id : Z) (es : list shared_file_t) : option shared_file_t :=
  first_match (λ f, file_id f =? id) es.

(** Adding: the table keeps its invariant and its entries; when it is full
    the call has no effect. *)
Lemma add_spec t id size h filename :
  wf t → length h = 32%nat → Forall is_byte filename → is_Some (cstring filename) →
  ∃ t', add_shared_file id size h filename t = Some t' ∧ wf t' ∧
    ((num_files t = MAX_SHARED_FILES ∧ t' = t) ∨
     ∃ name, copy_name filename = Some name ∧
       entries t' = entries t ++ [{| file_id := id; file_size := size; hash := h; file_name := name |}]).
Proof.
  intros (Hl & Hn & Hall) Hh Hb Hs. unfold add_shared_file. case_bool_decide as Hfull.
  { exists t. split_and!; [done..|]. left. split; [lia|done]. }
  rewrite mread_Some by lia. bind_step.
  change (Z.to_nat 0) with 0%nat. change (Z.to_nat 32) with 32%nat.
  rewrite drop_0, take_ge by lia.
  destruct (copy_name_total filename (or_intror Hs)) as [name Hname].
  rewrite Hname. bind_step. rewrite bool_decide_eq_true_2 by lia.
  set (e := {| file_id := id |}).
  set (t' := {| table := <[num_files t := e]> (table t); num_files := S (num_files t) |}).
  assert (entries t' = entries t ++ [e]) as He.
  { unfold entries, t'. cbn [table num_files].
    rewrite (take_S_r _ _ e) by (apply list_lookup_insert_eq; lia). by rewrite take_insert_ge by lia. }
  exists t'. split; [done|]. split; [|right; by exists name].
  split_and!; [by unfold t'; simpl; rewrite length_insert|simpl; lia|]. rewrite He.
  apply Forall_app; split; [done|]. constructor; [|constructor]. split; [done|].
  by eapply copy_name_ok.
Qed.

(** C29: the table of shared files behaves as a finite map from the server's
    identifiers: adding under a fresh identifier makes a later search return
    an entry with exactly the size, hash and name (cut to 255 characters) that
    were added, leaves every other identifier's result as it was, and a full
    table is left unchanged. *)
Theorem share_table_insert_lookup t id size h filename s :
  wf t → length h = 32%nat → Forall is_byte filename → cstring filename = Some s →
  lookup_id id (entries t) = None →
  ∃ t', add_shared_file id size h filename t = Some t' ∧ wf t' ∧
    (num_files t = MAX_SHARED_FILES → t' = t) ∧
    ((num_files t < MAX_SHARED_FILES)%nat →
     ∃ k name, find_shared_file_by_id id t' = Some (Some k) ∧
       table t' !! k = Some {| file_id := id; file_size := size; hash := h; file_name := name |} ∧
       cstring name = Some (take 255 s)) ∧
    ∀ id', id' ≠ id → lookup_id id' (entries t') = lookup_id id' (entries t).
Proof.
  intros Hwf Hh Hb Hs Hfresh.
  destruct (add_spec t id size h filename) as (t' & Hadd & Hwf' & Hcase); [eauto..|].
  exists t'. split_and!; [done..| | |]; destruct Hcase as [[Hfull ->]|(name & Hname & He)]; try done.
  - intros Hfull. unfold add_shared_file in Hadd. rewrite bool_decide_eq_true_2 in Hadd by lia.
    by simplify_eq.
  - lia.
  - intros Hn. destruct Hwf' as (Hl' & Hn' & _).
    destruct (scan_cases (λ f, file_id f =? id) (table t') (num_files t')) as
      [[_ Hno]|(k & x & Hk & _ & Hx & _ & Hsome)]; [by rewrite Hl'| |];
      change (take (num_files t') (table t')) with (entries t') in *;
      rewrite He, first_match_app in *; unfold lookup_id in Hfresh; rewrite Hfresh in *;
      simpl in *; rewrite Z.eqb_refl in *; [done|].
    exists k, name. split_and!; [done|by rewrite Hx|by eapply copy_name_cstring].
  - intros id' Hne. rewrite He. unfold lookup_id. rewrite first_match_app.
    destruct (first_match _ (entries t)); [done|]. simpl. by rewrite (proj2 (Z.eqb_neq _ _)) by done.
Qed.

Lemma share_table_insert_lookup_witness :
  ∃ t' k, add_shared_file 7 5 (replicate 32 1) [104; 105; 0] init = Some t' ∧
    find_shared_file_by_id 7 t' = Some (Some k).
Proof.
  destruct (share_table_insert_lookup init 7 5 (replicate 32 1) [104; 105; 0] [104; 105])
    as (t' & Hadd & _ & _ & Hfind & _).
  - apply table_init_wf.
  - reflexivity.
  - apply (bool_decide_unpack _). by vm_compute.
  - reflexivity.
  - reflexivity.
  - destruct Hfind as (k & name & Hk & _); [simpl; unfold MAX_SHARED_FILES; lia|].
    exists t', k. split; [exact Hadd|exact Hk].
Defined.
End ShareTable.
