(* ===== verification/Packed.v ===== *)
(** * Packed C structs

    The wire format of the program is its structs with
    [__attribute__((packed))], written to a socket byte for byte.  This file
    gives the layouts of such structs as a small combinator library: an
    unsigned field of [n] bytes in the byte order of the host, an array of
    bytes, the concatenation of two layouts, and a layout seen through an
    isomorphism (a Rocq record and the tuple of its fields).  A struct of
    [protocol.h] is an instance of [Packed]; its laws (size, round trips)
    follow from those of the combinators and are an instance of
    [PackedLaws], which is what the other files use. *)

From S2P Require Import Prelude.

Record layout (A : Type) := Layout {
  l_size : nat;
  l_enc : A → list Z;
  l_dec : list Z → A;
  l_fits : A → Prop;
}.
Arguments Layout {_} _ _ _ _.
Arguments l_size {_} _.
Arguments l_enc {_} _ _.
Arguments l_dec {_} _ _.
Arguments l_fits {_} _ _.

(** What a layout promises: [l_fits] values have [l_size] bytes and are
    read back, and every string of [l_size] bytes is a value. *)
Record lawful {A} (l : layout A) : Prop := {
  lawful_len a : l_fits l a → length (l_enc l a) = l_size l;
  lawful_byte a : l_fits l a → Forall is_byte (l_enc l a);
  lawful_dec_enc a : l_fits l a → l_dec l (l_enc l a) = a;
  lawful_fits bs : length bs = l_size l → Forall is_byte bs → l_fits l (l_dec l bs);
  lawful_enc_dec bs : length bs = l_size l → Forall is_byte bs → l_enc l (l_dec l bs) = bs;
}.

(** ** Combinators *)

Definition l_uint `{Host} (n : nat) : layout Z := {|
  l_size := n;
  l_enc := store host_endian (Z.of_nat n);
  l_dec := load host_endian;
  l_fits := in_width (8 * Z.of_nat n);
|}.

Definition l_array (n : nat) : layout (list Z) := {|
  l_size := n;
  l_enc := id;
  l_dec := id;
  l_fits := λ bs, length bs = n ∧ Forall is_byte bs;
|}.

Definition l_pair {A B} (la : layout A) (lb : layout B) : layout (A * B) := {|
  l_size := l_size la + l_size lb;
  l_enc := λ '(a, b), l_enc la a ++ l_enc lb b;
  l_dec := λ bs, (l_dec la (take (l_size la) bs), l_dec lb (drop (l_size la) bs));
  l_fits := λ '(a, b), l_fits la a ∧ l_fits lb b;
|}.

Definition l_iso {A B} (to : A → B) (from : B → A) (lb : layout B) : layout A := {|
  l_size := l_size lb;
  l_enc := λ a, l_enc lb (to a);
  l_dec := λ bs, from (l_dec lb bs);
  l_fits := λ a, l_fits lb (to a);
|}.

Infix "⊗" := l_pair (at level 38, right associativity).

Create HintDb packed.

Lemma lawful_uint `{Host} n : lawful (l_uint n).
Proof.
  split; simpl.
  - intros a _. rewrite length_store; lia.
  - intros a _. apply store_bytes. lia.
  - intros a Ha. apply load_store; [lia|done].
  - intros bs <-. apply load_range.
  - intros bs <- Hb. by apply store_load.
Qed.

Lemma lawful_array n : lawful (l_array n).
Proof. split; simpl; naive_solver. Qed.

Lemma lawful_pair {A B} (la : layout A) (lb : layout B) :
  lawful la → lawful lb → lawful (la ⊗ lb).
Proof.
  intros Ha Hb. split; simpl.
  - intros [a b] [? ?]. by rewrite length_app, (lawful_len la), (lawful_len lb).
  - intros [a b] [? ?]. apply Forall_app; split; by eapply lawful_byte.
  - intros [a b] [? ?].
    rewrite take_app_length' by (by rewrite (lawful_len la)).
    rewrite drop_app_length' by (by rewrite (lawful_len la)).
    by rewrite !lawful_dec_enc.
  - intros bs Hl Hbs. split; apply lawful_fits;
      rewrite ?length_take, ?length_drop; auto using Forall_take, Forall_drop; lia.
  - intros bs Hl Hbs.
    rewrite !lawful_enc_dec; rewrite ?length_take, ?length_drop;
      auto using Forall_take, Forall_drop; try lia.
    apply take_drop.
Qed.

Lemma lawful_iso {A B} (to : A → B) (from : B → A) (lb : layout B) :
  (∀ a, from (to a) = a) → (∀ b, to (from b) = b) → lawful lb → lawful (l_iso to from lb).
Proof.
  intros Hft Htf Hb. split; simpl; intros.
  - by apply lawful_len.
  - by apply lawful_byte.
  - by rewrite lawful_dec_enc.
  - rewrite Htf. by apply lawful_fits.
  - rewrite Htf. by apply lawful_enc_dec.
Qed.

#[export] Hint Resolve lawful_uint lawful_array lawful_pair : packed.

(** [solve_lawful] closes [lawful] for an isomorphism of layouts whose two
    directions compute. *)
Ltac solve_lawful :=
  apply lawful_iso;
  [ by intros [] | by intros; repeat case_match | auto 20 with packed ].

(** ** The class of packed structs *)

Class Packed (A : Type) := packed_layout : layout A.
Class PackedLaws (A : Type) `{Packed A} := packed_lawful : lawful (packed_layout (A:=A)).
#[global] Hint Mode Packed ! : typeclass_instances.

Definition sizeof (A : Type) `{Packed A} : Z := Z.of_nat (l_size (packed_layout (A:=A))).
Definition to_bytes {A} `{Packed A} (a : A) : list Z := l_enc packed_layout a.
Definition of_bytes {A} `{Packed A} (bs : list Z) : A := l_dec packed_layout bs.
Definition fits {A} `{Packed A} (a : A) : Prop := l_fits packed_layout a.

(** The expression [*(T * )(buf + off)]: undefined outside the buffer. *)
Definition cast (A : Type) `{Packed A} (buf : list Z) (off : Z) : option A :=
  of_bytes <$> mread buf off (sizeof A).

Section laws.
Context {A : Type} `{PackedLaws A}.
Implicit Types a : A.

Lemma length_to_bytes a : fits a → Z.of_nat (length (to_bytes a)) = sizeof A.
Proof. intros. unfold to_bytes, sizeof. by rewrite lawful_len. Qed.

Lemma to_bytes_byte a : fits a → Forall is_byte (to_bytes a).
Proof. intros. by apply lawful_byte. Qed.

Lemma of_to_bytes a : fits a → of_bytes (to_bytes a) = a.
Proof. intros. by apply lawful_dec_enc. Qed.

Lemma to_of_bytes (bs : list Z) :
  Z.of_nat (length bs) = sizeof A → Forall is_byte bs →
  to_bytes (of_bytes (A:=A) bs) = bs ∧ fits (of_bytes (A:=A) bs).
Proof.
  unfold sizeof. intros Hl Hb. apply Nat2Z.inj in Hl.
  split; [by apply lawful_enc_dec|by apply lawful_fits].
Qed.

Lemma to_bytes_inj a1 a2 : fits a1 → fits a2 → to_bytes a1 = to_bytes a2 → a1 = a2.
Proof. intros ?? He. rewrite <-(of_to_bytes a1), <-(of_to_bytes a2), He by done. done. Qed.

Lemma cast_to_bytes a (pre post : list Z) off :
  fits a → off = Z.of_nat (length pre) →
  cast A (pre ++ to_bytes a ++ post) off = Some a.
Proof.
  intros Ha ->. pose proof (length_to_bytes a Ha) as Hl. unfold cast.
  rewrite mread_Some; [|lia|lia|rewrite !length_app; lia].
  rewrite Nat2Z.id, drop_app_length, take_app_length' by lia.
  simpl. by rewrite of_to_bytes.
Qed.

Lemma cast_fits (bs : list Z) off a : Forall is_byte bs → cast A bs off = Some a → fits a.
Proof.
  intros Hb. unfold cast. destruct (mread bs off (sizeof A)) as [x|] eqn:Hx; [|done].
  simpl. intros [= <-]. apply to_of_bytes; [by eapply length_mread|].
  unfold mread in Hx. case_bool_decide; simplify_eq. by apply Forall_take, Forall_drop.
Qed.

Lemma cast_total (bs : list Z) off :
  0 ≤ off → off + sizeof A ≤ Z.of_nat (length bs) → Forall is_byte bs →
  ∃ a, cast A bs off = Some a ∧ fits a.
Proof.
  intros Ho Hl Hb. destruct (cast A bs off) as [a|] eqn:Ha; [by eauto using cast_fits|].
  unfold cast in Ha. rewrite mread_Some in Ha; [done|done|unfold sizeof; lia|done].
Qed.

Lemma cast_to_bytes_0 a (post : list Z) : fits a → cast A (to_bytes a ++ post) 0 = Some a.
Proof. intros. by apply (cast_to_bytes a [] post). Qed.
End laws.

(** ** Where a field is

    What the other end of a connection sees of a struct: an unsigned field
    of [w] bytes at offset [off] holds, as a big-endian number, what
    [ntohs] or [ntohl] gives of the field, on every host; an array of [w]
    bytes is there as it is. *)
Definition number_at (A : Type) `{Host} `{Packed A} (off w : Z) (get : A → Z) : Prop :=
  ∀ a, fits a → ∃ bs, mread (to_bytes a) off w = Some bs ∧ load BigEndian bs = hton w (get a).

Definition byte_at (A : Type) `{Packed A} (off : Z) (get : A → Z) : Prop :=
  ∀ a, fits a → mread (to_bytes a) off 1 = Some [get a].

Definition bytes_at (A : Type) `{Packed A} (off w : Z) (get : A → list Z) : Prop :=
  ∀ a, fits a → mread (to_bytes a) off w = Some (get a).

Lemma mread_skip (xs ys : list Z) off w :
  Z.of_nat (length xs) ≤ off → mread (xs ++ ys) off w = mread ys (off - Z.of_nat (length xs)) w.
Proof.
  intros Hoff. unfold mread. rewrite length_app.
  rewrite (bool_decide_ext _ (0 ≤ off - Z.of_nat (length xs) ∧ 0 ≤ w ∧
    off - Z.of_nat (length xs) + w ≤ Z.of_nat (length ys))) by lia.
  case_bool_decide; [|done]. rewrite drop_app_ge by lia. do 3 f_equal. lia.
Qed.

Lemma mread_here (xs ys : list Z) w :
  w = Z.of_nat (length xs) → mread (xs ++ ys) 0 w = Some xs.
Proof.
  intros ->. rewrite mread_Some by (rewrite ?length_app; lia).
  by rewrite Nat2Z.id, drop_0, take_app_length.
Qed.

Lemma mread_all (xs : list Z) w : w = Z.of_nat (length xs) → mread xs 0 w = Some xs.
Proof. intros ->. rewrite mread_Some by lia. by rewrite Nat2Z.id, drop_0, firstn_all. Qed.

(** Whatever the host, the bytes of a field are the big-endian number that
    [ntohs] or [ntohl] reads from it. *)
Lemma load_field `{Host} n x :
  0 ≤ n → in_width (8 * n) x → load BigEndian (store host_endian n x) = hton n x.
Proof.
  intros Hn Hx. rewrite <-(hton_hton n x) at 1 by done. rewrite store_hton by done.
  apply load_store; [done|]. by apply hton_range.
Qed.

(** [at_offset] walks over the fields before the one at the offset. *)
Ltac at_offset :=
  let a := fresh in let Ha := fresh in
  intros a Ha; destruct a; cbn in Ha; unfold id in Ha; destruct_and?;
  unfold to_bytes; cbn; unfold id;
  repeat (rewrite mread_skip by (rewrite ?length_store by lia; lia);
          rewrite ?length_store by lia);
  match goal with |- context [mread _ ?o _] => replace o with 0 by lia end;
  first [ rewrite mread_here by (rewrite ?length_store by lia; lia)
        | rewrite mread_all by (rewrite ?length_store by lia; lia) ];
  first [done | by rewrite store_1 | eexists; split; [done|]; by apply load_field].
