(* ===== verification/Protocol.v ===== *)
(** * The protocol: [protocol.h]

    The constants, the packed structs of the TCP and UDP channels, and the
    additive checksum.  A struct is a record whose fields hold what the C
    expression [p->field] reads, that is the value in the byte order of the
    host: the code calls [htonl] before it assigns and [ntohl] after it
    reads, and so do the definitions that use these records. *)

From S2P Require Import Prelude Packed.

(** ** Constants *)

Definition TCP_REGISTER : Z := 1.
Definition TCP_REGISTER_ACK : Z := 2.
Definition TCP_SHARE_FILE : Z := 3.
Definition TCP_SHARE_ACK : Z := 4.
Definition TCP_LIST_FILES : Z := 5.
Definition TCP_FILE_LIST : Z := 6.
Definition TCP_REQUEST_FILE : Z := 7.
Definition TCP_FILE_LOCATION : Z := 8.
Definition TCP_UNREGISTER : Z := 9.
Definition TCP_ERROR : Z := 10.

Definition ERR_NONE : Z := 0.
Definition ERR_FILE_NOT_FOUND : Z := 1.
Definition ERR_NO_PEERS : Z := 2.
Definition ERR_INVALID_MSG : Z := 3.
Definition ERR_DUPLICATE_FILE : Z := 4.

Definition UDP_DATA : Z := 1.
Definition UDP_ACK : Z := 2.
Definition UDP_REQUEST_FILE : Z := 3.
Definition UDP_FILE_START : Z := 4.

Definition CHUNK_SIZE : Z := 1024.
Definition WINDOW_SIZE : Z := 64.
Definition TIMEOUT_MS : Z := 500.
Definition MAX_RETRIES : Z := 10.

(** ** Structs *)

Record tcp_header_t := {
  th_msg_type : Z;
  th_error_code : Z;
  th_data_len : Z;
}.

Record tcp_register_t := { reg_udp_port : Z }.

Record tcp_register_ack_t := { rack_client_id : Z }.

Record tcp_share_file_t := {
  sf_file_size : Z;
  sf_hash : list Z;
  sf_filename : list Z;
}.

Record tcp_share_ack_t := { sack_file_id : Z }.

Record file_info_t := {
  fi_file_id : Z;
  fi_file_size : Z;
  fi_hash : list Z;
  fi_num_peers : Z;
  fi_filename : list Z;
}.

Record tcp_request_file_t := { rq_file_id : Z }.

Record tcp_file_location_t := {
  loc_file_id : Z;
  loc_file_size : Z;
  loc_hash : list Z;
  loc_peer_ip : Z;
  loc_peer_port : Z;
  loc_filename : list Z;
}.

Record udp_header_t := {
  uh_msg_type : Z;
  uh_flags : Z;
  uh_checksum : Z;
  uh_seq_num : Z;
  uh_ack_num : Z;
  uh_data_len : Z;
  uh_window : Z;
}.

Record udp_request_file_t := {
  urq_file_id : Z;
  urq_hash : list Z;
}.

Record udp_file_start_t := {
  fs_file_size : Z;
  fs_num_chunks : Z;
}.

(** ** Layouts *)

Section layouts.
Context `{Host}.

#[global] Instance tcp_header_packed : Packed tcp_header_t :=
  l_iso (λ h, (th_msg_type h, (th_error_code h, th_data_len h)))
        (λ '(a, (b, c)), Build_tcp_header_t a b c)
        (l_uint 1 ⊗ l_uint 1 ⊗ l_uint 2).

#[global] Instance tcp_register_packed : Packed tcp_register_t :=
  l_iso reg_udp_port Build_tcp_register_t (l_uint 2).

#[global] Instance tcp_register_ack_packed : Packed tcp_register_ack_t :=
  l_iso rack_client_id Build_tcp_register_ack_t (l_uint 4).

#[global] Instance tcp_share_file_packed : Packed tcp_share_file_t :=
  l_iso (λ s, (sf_file_size s, (sf_hash s, sf_filename s)))
        (λ '(a, (b, c)), Build_tcp_share_file_t a b c)
        (l_uint 4 ⊗ l_array 32 ⊗ l_array 256).

#[global] Instance tcp_share_ack_packed : Packed tcp_share_ack_t :=
  l_iso sack_file_id Build_tcp_share_ack_t (l_uint 4).

#[global] Instance file_info_packed : Packed file_info_t :=
  l_iso (λ f, (fi_file_id f, (fi_file_size f, (fi_hash f, (fi_num_peers f, fi_filename f)))))
        (λ '(a, (b, (c, (d, e)))), Build_file_info_t a b c d e)
        (l_uint 4 ⊗ l_uint 4 ⊗ l_array 32 ⊗ l_uint 1 ⊗ l_array 256).

#[global] Instance tcp_request_file_packed : Packed tcp_request_file_t :=
  l_iso rq_file_id Build_tcp_request_file_t (l_uint 4).

#[global] Instance tcp_file_location_packed : Packed tcp_file_location_t :=
  l_iso (λ l, (loc_file_id l, (loc_file_size l, (loc_hash l,
                (loc_peer_ip l, (loc_peer_port l, loc_filename l))))))
        (λ '(a, (b, (c, (d, (e, f))))), Build_tcp_file_location_t a b c d e f)
        (l_uint 4 ⊗ l_uint 4 ⊗ l_array 32 ⊗ l_uint 4 ⊗ l_uint 2 ⊗ l_array 256).

#[global] Instance udp_header_packed : Packed udp_header_t :=
  l_iso (λ h, (uh_msg_type h, (uh_flags h, (uh_checksum h, (uh_seq_num h,
                (uh_ack_num h, (uh_data_len h, uh_window h)))))))
        (λ '(a, (b, (c, (d, (e, (f, g)))))), Build_udp_header_t a b c d e f g)
        (l_uint 1 ⊗ l_uint 1 ⊗ l_uint 2 ⊗ l_uint 4 ⊗ l_uint 4 ⊗ l_uint 2 ⊗ l_uint 2).

#[global] Instance udp_request_file_packed : Packed udp_request_file_t :=
  l_iso (λ r, (urq_file_id r, urq_hash r))
        (λ '(a, b), Build_udp_request_file_t a b)
        (l_uint 4 ⊗ l_array 32).

#[global] Instance udp_file_start_packed : Packed udp_file_start_t :=
  l_iso (λ s, (fs_file_size s, fs_num_chunks s))
        (λ '(a, b), Build_udp_file_start_t a b)
        (l_uint 4 ⊗ l_uint 4).

#[global] Instance tcp_header_laws : PackedLaws tcp_header_t.
Proof. solve_lawful. Qed.
#[global] Instance tcp_register_laws : PackedLaws tcp_register_t.
Proof. solve_lawful. Qed.
#[global] Instance tcp_register_ack_laws : PackedLaws tcp_register_ack_t.
Proof. solve_lawful. Qed.
#[global] Instance tcp_share_file_laws : PackedLaws tcp_share_file_t.
Proof. solve_lawful. Qed.
#[global] Instance tcp_share_ack_laws : PackedLaws tcp_share_ack_t.
Proof. solve_lawful. Qed.
#[global] Instance file_info_laws : PackedLaws file_info_t.
Proof. solve_lawful. Qed.
#[global] Instance tcp_request_file_laws : PackedLaws tcp_request_file_t.
Proof. solve_lawful. Qed.
#[global] Instance tcp_file_location_laws : PackedLaws tcp_file_location_t.
Proof. solve_lawful. Qed.
#[global] Instance udp_header_laws : PackedLaws udp_header_t.
Proof. solve_lawful. Qed.
#[global] Instance udp_request_file_laws : PackedLaws udp_request_file_t.
Proof. solve_lawful. Qed.
#[global] Instance udp_file_start_laws : PackedLaws udp_file_start_t.
Proof. solve_lawful. Qed.
End layouts.

(** ** Checksum *)

(** The loop [sum += bytes[i]] on a [uint32_t]. *)
Definition sum_bytes (bs : list Z) : Z := foldl (λ sum b, sum +₃₂ b) 0 bs.

(** [while (sum >> 16) sum = (sum & 0xFFFF) + (sum >> 16)]. *)
Fixpoint fold_sum (fuel : nat) (sum : Z) : option Z :=
  if Z.shiftr sum 16 =? 0 then Some sum
  else match fuel with
       | O => None
       | S fuel => fold_sum fuel (Z.land sum 0xFFFF +₃₂ Z.shiftr sum 16)
       end.

(** Two iterations are always enough ([fold_sum_terminates]), so the
    default is never returned. *)
Definition calculate_checksum (bs : list Z) : Z :=
  match fold_sum 2 (sum_bytes bs) with
  | Some sum => u16 (Z.lnot sum)
  | None => 0
  end.

Definition verify_checksum (bs : list Z) (expected : Z) : bool :=
  calculate_checksum bs =? expected.

(** The reference definition: the one's-complement reduction of the sum
    modulo 65535, with 65535 and not 0 for a positive multiple. *)
Definition ones_reduce (s : Z) : Z := if s =? 0 then 0 else (s - 1) `mod` 65535 + 1.

Fixpoint byte_total (bs : list Z) : Z :=
  match bs with [] => 0 | b :: bs => b + byte_total bs end.

Lemma byte_total_app bs1 bs2 : byte_total (bs1 ++ bs2) = byte_total bs1 + byte_total bs2.
Proof. induction bs1; simpl; lia. Qed.

Lemma byte_total_bound bs :
  Forall is_byte bs → 0 ≤ byte_total bs ≤ 255 * Z.of_nat (length bs).
Proof. unfold is_byte. induction 1; simpl; lia. Qed.

Lemma byte_total_perm bs1 bs2 : bs1 ≡ₚ bs2 → byte_total bs1 = byte_total bs2.
Proof. induction 1; simpl; lia. Qed.

Lemma foldl_sum_bytes bs s :
  foldl (λ sum b, sum +₃₂ b) (u32 s) bs = u32 (s + byte_total bs).
Proof.
  revert s. induction bs as [|b bs IH]; intros s; simpl.
  - by rewrite Z.add_0_r.
  - rewrite uwrap_add_l, IH. f_equal. lia.
Qed.

Lemma sum_bytes_total bs : sum_bytes bs = u32 (byte_total bs).
Proof. apply (foldl_sum_bytes bs 0). Qed.

Lemma sum_bytes_range bs : 0 ≤ sum_bytes bs < 4294967296.
Proof. rewrite sum_bytes_total. by apply uwrap_range. Qed.

Lemma fold_step s :
  Z.land s 0xFFFF = s `mod` 65536 ∧ Z.shiftr s 16 = s `div` 65536.
Proof.
  split; [|by rewrite Z.shiftr_div_pow2 by lia].
  change 0xFFFF with (Z.ones 16). by rewrite Z.land_ones by lia.
Qed.

Lemma ones_reduce_shift s k :
  0 < s → 0 < s - 65535 * k → ones_reduce (s - 65535 * k) = ones_reduce s.
Proof.
  intros. unfold ones_reduce.
  rewrite (proj2 (Z.eqb_neq _ _)), (proj2 (Z.eqb_neq s 0)) by lia.
  replace (s - 65535 * k - 1) with (s - 1 + (- k) * 65535) by lia.
  by rewrite Z.mod_add by lia.
Qed.

Lemma ones_reduce_small s : 0 ≤ s < 65536 → ones_reduce s = s.
Proof.
  intros. unfold ones_reduce. destruct (Z.eqb_spec s 0); [done|].
  rewrite Z.mod_small; lia.
Qed.

(** One iteration keeps the residue and shrinks the sum. *)
Lemma fold_iter s :
  65536 ≤ s < 4294967296 →
  ones_reduce (Z.land s 0xFFFF +₃₂ Z.shiftr s 16) = ones_reduce s ∧
  0 < Z.land s 0xFFFF +₃₂ Z.shiftr s 16 ≤ 131070 ∧
  (s ≤ 131070 → Z.land s 0xFFFF +₃₂ Z.shiftr s 16 < 65536).
Proof.
  intros Hs. destruct (fold_step s) as [-> ->].
  pose proof (Z.mod_pos_bound s 65536 ltac:(lia)) as Hm.
  pose proof (Z.div_mod s 65536 ltac:(lia)) as Hd.
  assert (1 ≤ s `div` 65536 ≤ 65535) as Hq by (split;
    [apply Z.div_le_lower_bound|apply Z.lt_succ_r, Z.div_lt_upper_bound]; lia).
  usmall. split; [|lia].
  replace (s `mod` 65536 + s `div` 65536) with (s - 65535 * (s `div` 65536)) by lia.
  apply ones_reduce_shift; lia.
Qed.

Lemma shiftr16_zero s : 0 ≤ s → (Z.shiftr s 16 =? 0) = (s <? 65536).
Proof.
  intros. destruct (fold_step s) as [_ ->].
  destruct (Z.ltb_spec s 65536).
  - rewrite Z.div_small by lia. done.
  - assert (1 ≤ s `div` 65536) by (apply Z.div_le_lower_bound; lia).
    apply Z.eqb_neq. lia.
Qed.

(** The fold loop stops after at most two iterations, and computes the
    one's-complement reduction of the sum. *)
Lemma fold_sum_terminates s :
  0 ≤ s < 4294967296 → fold_sum 2 s = Some (ones_reduce s).
Proof.
  intros Hs. unfold fold_sum.
  rewrite shiftr16_zero by lia. case_cond as E1; [by rewrite ones_reduce_small by lia|].
  destruct (fold_iter s) as (He1 & Hr1 & _); [lia|].
  set (s1 := uwrap 32 _) in *. rewrite shiftr16_zero by lia.
  case_cond as E2; [by rewrite <-He1, ones_reduce_small by lia|].
  destruct (fold_iter s1) as (He2 & Hr2 & Hf2); [lia|].
  set (s2 := uwrap 32 (Z.land s1 _ + _)) in *. rewrite shiftr16_zero by lia.
  case_cond as E3; [|lia]. by rewrite <-He1, <-He2, ones_reduce_small by lia.
Qed.

Lemma ones_reduce_range s : 0 ≤ ones_reduce s ≤ 65535.
Proof.
  unfold ones_reduce. case_cond as E; [lia|].
  pose proof (Z.mod_pos_bound (s - 1) 65535). lia.
Qed.

Lemma u16_lnot s : 0 ≤ s ≤ 65535 → u16 (Z.lnot s) = 65535 - s.
Proof.
  intros. unfold uwrap, Z.lnot.
  replace (Z.pred (- s)) with (65535 - s + (-1) * 2 ^ 16) by lia.
  rewrite Z.mod_add, Z.mod_small; lia.
Qed.

Lemma calculate_checksum_sum bs :
  calculate_checksum bs = 65535 - ones_reduce (sum_bytes bs).
Proof.
  unfold calculate_checksum. rewrite fold_sum_terminates by apply sum_bytes_range.
  apply u16_lnot, ones_reduce_range.
Qed.

Lemma calculate_checksum_range bs : 0 ≤ calculate_checksum bs < 65536.
Proof. rewrite calculate_checksum_sum. pose proof (ones_reduce_range (sum_bytes bs)). lia. Qed.

Lemma ones_reduce_inj s1 s2 :
  0 ≤ s1 → 0 ≤ s2 → s1 ≠ s2 → Z.abs (s1 - s2) < 65535 → ones_reduce s1 ≠ ones_reduce s2.
Proof.
  intros ?? Hne Hd He. unfold ones_reduce in He.
  destruct (Z.eqb_spec s1 0), (Z.eqb_spec s2 0);
    pose proof (Z.mod_pos_bound (s1 - 1) 65535 ltac:(lia));
    pose proof (Z.mod_pos_bound (s2 - 1) 65535 ltac:(lia)); try lia.
  pose proof (Z.div_mod (s1 - 1) 65535 ltac:(lia)).
  pose proof (Z.div_mod (s2 - 1) 65535 ltac:(lia)). nia.
Qed.

(** A packet never reaches 2^24 bytes, so the sum does not wrap. *)
Lemma sum_bytes_exact bs :
  Forall is_byte bs → Z.of_nat (length bs) ≤ 16777216 → sum_bytes bs = byte_total bs.
Proof.
  intros Hb Hl. rewrite sum_bytes_total. pose proof (byte_total_bound bs Hb). by usmall.
Qed.

(** Two buffers whose totals differ by less than 65535 have different
    checksums; in particular when one byte differs. *)
Lemma checksum_differs bs1 bs2 :
  Forall is_byte bs1 → Forall is_byte bs2 →
  Z.of_nat (length bs1) ≤ 16777216 → Z.of_nat (length bs2) ≤ 16777216 →
  byte_total bs1 ≠ byte_total bs2 → Z.abs (byte_total bs1 - byte_total bs2) < 65535 →
  calculate_checksum bs1 ≠ calculate_checksum bs2.
Proof.
  intros Hb1 Hb2 Hl1 Hl2 Hne Hd. rewrite !calculate_checksum_sum, !sum_bytes_exact by done.
  pose proof (byte_total_bound bs1 Hb1). pose proof (byte_total_bound bs2 Hb2).
  assert (ones_reduce (byte_total bs1) ≠ ones_reduce (byte_total bs2))
    by (apply ones_reduce_inj; lia). lia.
Qed.

Lemma byte_total_insert (l : list Z) i x b :
  l !! i = Some x → byte_total (<[i := b]> l) = byte_total l - x + b.
Proof.
  revert i. induction l as [|y l IH]; intros [|i]; simpl; intros Hi; simplify_eq; [lia|].
  rewrite (IH i Hi). lia.
Qed.

(** C27: [calculate_checksum] is the one's complement of the byte sum: the
    fold loop stops after at most two iterations and the result is
    [65535 - s], with [s] the 32-bit sum of the bytes reduced modulo 65535
    (a positive multiple of 65535 giving 65535). *)
Theorem calculate_checksum_reference bs :
  fold_sum 2 (sum_bytes bs) = Some (ones_reduce (u32 (byte_total bs))) ∧
  calculate_checksum bs = 65535 - ones_reduce (u32 (byte_total bs)).
Proof.
  rewrite calculate_checksum_sum, <-sum_bytes_total. split; [|done].
  apply fold_sum_terminates, sum_bytes_range.
Qed.

(** C28: what the additive checksum catches and what it cannot: changing any
    one byte of a buffer of at most 2^24 bytes changes the checksum, and
    permuting the bytes never does. *)
Theorem checksum_error_detection bs i x b bs' :
  Forall is_byte bs → Z.of_nat (length bs) ≤ 16777216 →
  bs !! i = Some x → is_byte b → b ≠ x → bs ≡ₚ bs' →
  calculate_checksum (<[i := b]> bs) ≠ calculate_checksum bs ∧
  calculate_checksum bs' = calculate_checksum bs.
Proof.
  intros Hb Hl Hi Hbb Hne Hp. split.
  - pose proof (Forall_lookup_1 _ _ _ _ Hb Hi). unfold is_byte in *.
    apply checksum_differs; rewrite ?length_insert, ?(byte_total_insert _ _ _ _ Hi); try done; try lia.
    by apply Forall_insert.
  - rewrite !calculate_checksum_sum, !sum_bytes_total. by rewrite (byte_total_perm _ _ Hp).
Qed.

Lemma checksum_error_detection_witness :
  calculate_checksum [1; 2; 250] ≠ calculate_checksum [1; 2; 3] ∧
  calculate_checksum [2; 1; 3] = calculate_checksum [1; 2; 3].
Proof.
  apply (checksum_error_detection [1; 2; 3] 2 3 250 [2; 1; 3]).
  - apply (bool_decide_unpack _). by vm_compute.
  - simpl. lia.
  - reflexivity.
  - by vm_compute.
  - lia.
  - apply Permutation_swap.
Defined.

(** ** The types of the wire *)

(** The values of the struct [A] that fit its fields are exactly the strings of
    [n] bytes. *)
Definition wire_type (A : Type) `{Packed A} (n : Z) : Prop :=
  sizeof A = n ∧
  (∀ a : A, fits a →
     Z.of_nat (length (to_bytes a)) = n ∧ Forall is_byte (to_bytes a) ∧ of_bytes (to_bytes a) = a) ∧
  (∀ bs, Z.of_nat (length bs) = n → Forall is_byte bs →
     fits (of_bytes (A := A) bs) ∧ to_bytes (of_bytes (A := A) bs) = bs).

Lemma packed_wire_type A `{PackedLaws A} : wire_type A (sizeof A).
Proof.
  split; [done|]. split.
  - intros a Ha. split_and!; [by apply length_to_bytes|by apply to_bytes_byte|by apply of_to_bytes].
  - intros bs Hl Hb. destruct (to_of_bytes (A := A) bs Hl Hb). by split.
Qed.

(** C26: the types of the messages.  On a host of either byte order every
    struct of [protocol.h] has no padding and the size both ends compute from
    it; a value whose fields are in the range of their C types is that many
    bytes and is read back from them; every string of that many bytes is such
    a value, so no received byte string is outside the type it is cast to;
    and every field is where the struct declares it: its bytes are, at the
    offset that follows from the fields before it, the byte or the array
    itself or the big-endian number that [ntohs] or [ntohl] gives of the
    field, whatever the host. *)
Theorem wire_types `{Host} :
  (wire_type tcp_header_t 4 ∧
   byte_at tcp_header_t 0 th_msg_type ∧ byte_at tcp_header_t 1 th_error_code ∧
   number_at tcp_header_t 2 2 th_data_len) ∧
  (wire_type tcp_register_t 2 ∧ number_at tcp_register_t 0 2 reg_udp_port) ∧
  (wire_type tcp_register_ack_t 4 ∧ number_at tcp_register_ack_t 0 4 rack_client_id) ∧
  (wire_type tcp_share_file_t 292 ∧
   number_at tcp_share_file_t 0 4 sf_file_size ∧ bytes_at tcp_share_file_t 4 32 sf_hash ∧
   bytes_at tcp_share_file_t 36 256 sf_filename) ∧
  (wire_type tcp_share_ack_t 4 ∧ number_at tcp_share_ack_t 0 4 sack_file_id) ∧
  (wire_type file_info_t 297 ∧
   number_at file_info_t 0 4 fi_file_id ∧ number_at file_info_t 4 4 fi_file_size ∧
   bytes_at file_info_t 8 32 fi_hash ∧ byte_at file_info_t 40 fi_num_peers ∧
   bytes_at file_info_t 41 256 fi_filename) ∧
  (wire_type tcp_request_file_t 4 ∧ number_at tcp_request_file_t 0 4 rq_file_id) ∧
  (wire_type tcp_file_location_t 302 ∧
   number_at tcp_file_location_t 0 4 loc_file_id ∧ number_at tcp_file_location_t 4 4 loc_file_size ∧
   bytes_at tcp_file_location_t 8 32 loc_hash ∧ number_at tcp_file_location_t 40 4 loc_peer_ip ∧
   number_at tcp_file_location_t 44 2 loc_peer_port ∧
   bytes_at tcp_file_location_t 46 256 loc_filename) ∧
  (wire_type udp_header_t 16 ∧
   byte_at udp_header_t 0 uh_msg_type ∧ byte_at udp_header_t 1 uh_flags ∧
   number_at udp_header_t 2 2 uh_checksum ∧ number_at udp_header_t 4 4 uh_seq_num ∧
   number_at udp_header_t 8 4 uh_ack_num ∧ number_at udp_header_t 12 2 uh_data_len ∧
   number_at udp_header_t 14 2 uh_window) ∧
  (wire_type udp_request_file_t 36 ∧
   number_at udp_request_file_t 0 4 urq_file_id ∧ bytes_at udp_request_file_t 4 32 urq_hash) ∧
  (wire_type udp_file_start_t 8 ∧
   number_at udp_file_start_t 0 4 fs_file_size ∧ number_at udp_file_start_t 4 4 fs_num_chunks).
Proof.
  split_and!;
    match goal with |- wire_type ?A _ => exact (packed_wire_type A) | |- _ => at_offset end.
Qed.
