(* ===== verification/Tcp.v ===== *)
(** * The TCP stream of the client

    The client writes and reads its server connection with loops around
    [send] and [recv] that tolerate partial transfers; [client.c] repeats the
    two loops for every message.  The connection is modelled by what the
    system will answer: the segments in which the incoming bytes arrive and
    how the stream ends, and how much each [send] accepts. *)

From S2P Require Import Prelude Common Packed.

Record tcp := {
  t_in : list (list Z);   (** segments still to arrive *)
  t_fail : bool;          (** then: an error, or else the end of the stream *)
  t_accepts : list Z;     (** what the next calls of [send] return at most *)
  t_out : list Z;         (** the bytes sent so far *)
}.

(** [recv(fd, buf, len, 0)]: [None] for an error, no bytes at the end of the
    stream, otherwise some bytes of the first segment. *)
Definition tcp_recv (len : Z) (t : tcp) : option (list Z) * tcp :=
  match t_in t with
  | [] => (if t_fail t then None else Some [], t)
  | seg :: rest =>
      let k := Z.to_nat len in
      (Some (take k seg),
       {| t_in := if bool_decide (length seg ≤ k)%nat then rest else drop k seg :: rest;
          t_fail := t_fail t; t_accepts := t_accepts t; t_out := t_out t |})
  end.

(** [send(fd, data, len, 0)]: a negative result is an error. *)
Definition tcp_send (data : list Z) (t : tcp) : Z * tcp :=
  let len := Z.of_nat (length data) in
  let a := match t_accepts t with [] => len | a :: _ => Z.min a len end in
  (a, {| t_in := t_in t; t_fail := t_fail t; t_accepts := tail (t_accepts t);
         t_out := t_out t ++ take (Z.to_nat a) data |}).

(** [while (bytes_sent < total_len)]: the boolean tells whether all was sent.
    Every iteration sends at least one byte, so the number of bytes is
    enough fuel. *)
Fixpoint send_loop (fuel : nat) (data : list Z) (t : tcp) : option (bool * tcp) :=
  match data with
  | [] => Some (true, t)
  | _ =>
      match fuel with
      | O => None
      | S fuel =>
          let '(n, t) := tcp_send data t in
          if n <? 0 then Some (false, t)
          else if n =? 0 then Some (false, t)
          else send_loop fuel (drop (Z.to_nat n) data) t
      end
  end.

Definition send_all (data : list Z) (t : tcp) : option (bool * tcp) :=
  send_loop (length data) data t.

(** [while (bytes_read < len)]: the bytes read, [None] when [recv] fails or
    the stream ends before. *)
Fixpoint recv_loop (fuel : nat) (len : Z) (acc : list Z) (t : tcp) :
    option (option (list Z) * tcp) :=
  if Z.of_nat (length acc) <? len then
    match fuel with
    | O => None
    | S fuel =>
        match tcp_recv (len - Z.of_nat (length acc)) t with
        | (None, t) => Some (None, t)
        | (Some [], t) => Some (None, t)
        | (Some bs, t) => recv_loop fuel len (acc ++ bs) t
        end
    end
  else Some (Some acc, t).

Definition recv_all (len : Z) (t : tcp) : option (option (list Z) * tcp) :=
  recv_loop (Z.to_nat len) len [] t.

(** ** The loops are total, whatever the system answers *)

Definition received (t : tcp) : list Z := concat (t_in t).

Lemma take_app_drop_take {A} (k m : nat) (l : list A) :
  (k ≤ m)%nat → take k l ++ take (m - k) (drop k l) = take m l.
Proof.
  intros Hk. rewrite <-(take_drop k (take m l)), take_take, Nat.min_l by lia.
  by rewrite skipn_firstn_comm.
Qed.

Lemma send_loop_spec fuel data t :
  (length data ≤ fuel)%nat →
  ∃ ok t' k, send_loop fuel data t = Some (ok, t') ∧ t_in t' = t_in t ∧ t_fail t' = t_fail t ∧
    t_out t' = t_out t ++ take k data ∧ (ok = true → take k data = data) ∧
    (t_accepts t = [] → ok = true ∧ t_accepts t' = []).
Proof.
  revert data t. induction fuel as [|fuel IH]; intros data t Hl.
  { destruct data; simpl in Hl; [|lia]. exists true, t, 0%nat. simpl. rewrite app_nil_r. done. }
  destruct data as [|b data]; [exists true, t, 0%nat; simpl; by rewrite app_nil_r|].
  cbn [send_loop]. set (d := b :: data) in *. destruct (tcp_send d t) as [n t1] eqn:Hs.
  unfold tcp_send in Hs. injection Hs as Hn Ht1. rewrite Hn in Ht1.
  change (S (length data)) with (length d) in Hn.
  assert (n ≤ Z.of_nat (length d)) as Hle by (revert Hn; destruct (t_accepts t); lia).
  assert (t_accepts t = [] → n = Z.of_nat (length d)) as Hall by (intros He; rewrite He in Hn; by rewrite Hn).
  clear Hn. assert (0 < Z.of_nat (length d)) as Hpos by (simpl; lia).
  destruct (Z.ltb_spec n 0); [|destruct (Z.eqb_spec n 0)].
  - exists false, t1, (Z.to_nat n). rewrite <-Ht1. split_and!; try done. intros He%Hall. lia.
  - exists false, t1, (Z.to_nat n). rewrite <-Ht1. split_and!; try done. intros He%Hall. lia.
  - destruct (IH (drop (Z.to_nat n) d) t1) as (ok & t' & k & Hrun & Hin & Hf & Hout & Hok & Hacc);
      [rewrite length_drop; lia|].
    exists ok, t', (Z.to_nat n + k)%nat. rewrite Hin, Hf, Hout. rewrite <-Ht1 in *. simpl in *.
    assert (take (Z.to_nat n) d ++ take k (drop (Z.to_nat n) d) = take (Z.to_nat n + k) d) as Htk.
    { rewrite <-(take_app_drop_take (Z.to_nat n) (Z.to_nat n + k)) by lia. by rewrite Nat.add_sub_swap, Nat.sub_diag by lia. }
    split_and!; try done.
    + by rewrite <-app_assoc, Htk.
    + intros ->. rewrite <-Htk, (Hok eq_refl). apply take_drop.
    + intros He. apply Hacc. by rewrite He.
Qed.

(** Sending never blocks: on success exactly the message has been added to
    the stream, on failure a prefix of it. *)
Lemma send_all_spec data t :
  ∃ ok t' k, send_all data t = Some (ok, t') ∧ t_in t' = t_in t ∧ t_fail t' = t_fail t ∧
    t_out t' = t_out t ++ take k data ∧ (ok = true → take k data = data) ∧
    (t_accepts t = [] → ok = true ∧ t_accepts t' = []).
Proof. by apply send_loop_spec. Qed.

(** The stream is a sequence of non-empty segments. *)
Definition stream_ok (t : tcp) : Prop := Forall (λ seg, seg ≠ []) (t_in t).

(** Two connections that differ only in what has been read. *)
Definition same_out (t t' : tcp) : Prop :=
  t_out t' = t_out t ∧ t_fail t' = t_fail t ∧ t_accepts t' = t_accepts t.

Lemma tcp_recv_spec len t :
  0 < len → stream_ok t →
  (t_in t = [] ∧ (tcp_recv len t = (None, t) ∨ tcp_recv len t = (Some [], t))) ∨
  ∃ b bs t', tcp_recv len t = (Some (b :: bs), t') ∧ stream_ok t' ∧ same_out t t' ∧
    Z.of_nat (length (b :: bs)) ≤ len ∧ received t = (b :: bs) ++ received t'.
Proof.
  unfold stream_ok, tcp_recv, received.
  destruct t as [[|seg segs] fl ac out]; cbn [t_in t_fail t_accepts t_out]; intros Hlen Hok.
  { left. split; [done|]. destruct fl; auto. }
  right. inversion_clear Hok as [|?? Hseg Hsegs].
  destruct seg as [|b seg]; [done|]. destruct (Z.to_nat len) as [|k] eqn:Hk; [lia|].
  exists b, (take k seg). eexists. split; [reflexivity|]. cbn [t_in]. split_and!; [|done| |].
  - case_bool_decide as Hle; [done|]. constructor; [|done].
    intros He%(f_equal length). rewrite length_drop in He. simpl in He, Hle. lia.
  - simpl. rewrite length_take. lia.
  - case_bool_decide as Hle; cbn [drop concat] in *; simpl in Hle.
    + rewrite take_ge by lia. done.
    + rewrite app_assoc. simpl. by rewrite take_drop.
Qed.

Lemma same_out_trans t1 t2 t3 : same_out t1 t2 → same_out t2 t3 → same_out t1 t3.
Proof. unfold same_out. intros (? & ? & ?) (? & ? & ?). split_and!; congruence. Qed.

Lemma recv_loop_spec fuel len acc t :
  (Z.to_nat (len - Z.of_nat (length acc)) ≤ fuel)%nat → stream_ok t →
  ∃ r t', recv_loop fuel len acc t = Some (r, t') ∧ stream_ok t' ∧ same_out t t' ∧
    let need := Z.to_nat (len - Z.of_nat (length acc)) in
    if bool_decide (need ≤ length (received t))%nat
    then r = Some (acc ++ take need (received t)) ∧ received t' = drop need (received t)
    else r = None.
Proof.
  assert (∀ acc t, len ≤ Z.of_nat (length acc) → stream_ok t →
    ∃ r t', Some (Some acc, t) = Some (r, t') ∧ stream_ok t' ∧ same_out t t' ∧
    let need := Z.to_nat (len - Z.of_nat (length acc)) in
    if bool_decide (need ≤ length (received t))%nat
    then r = Some (acc ++ take need (received t)) ∧ received t' = drop need (received t)
    else r = None) as Hdone.
  { intros acc' t' Hle Hok. exists (Some acc'), t'. split_and!; try done. cbv zeta.
    replace (Z.to_nat _) with 0%nat by lia. rewrite bool_decide_eq_true_2 by lia.
    by rewrite app_nil_r. }
  revert acc t. induction fuel as [|fuel IH]; intros acc t Hf Hok; cbn [recv_loop].
  { rewrite (proj2 (Z.ltb_ge _ _)) by lia. apply Hdone; [lia|done]. }
  destruct (Z.ltb_spec (Z.of_nat (length acc)) len) as [Hlt|Hge]; [|by apply Hdone].
  destruct (tcp_recv_spec (len - Z.of_nat (length acc)) t) as
    [(Hin & Hr)|(b & bs & t1 & Hr & Hok1 & Hs1 & Hle & Hrec)]; [lia|done| |]; cbv zeta.
  - exists None, t. rewrite bool_decide_eq_false_2 by (unfold received; rewrite Hin; simpl; lia).
    destruct Hr as [-> | ->]; by split_and!.
  - rewrite Hr, Hrec. set (got := b :: bs) in *.
    destruct (IH (acc ++ got) t1) as (r & t' & Hrun & Hok' & Hs' & Hres);
      [rewrite length_app; simpl in *; lia|done|].
    exists r, t'. split; [exact Hrun|]. split; [done|]. split; [by eapply same_out_trans|].
    cbv zeta in Hres. rewrite !length_app in *.
    replace (Z.to_nat (len - Z.of_nat (length acc)))
      with (length got + Z.to_nat (len - Z.of_nat (length acc + length got)))%nat by lia.
    rewrite take_app_add, drop_app_add, app_assoc.
    case_bool_decide; case_bool_decide; try done; lia.
Qed.

(** C34: reading a message of [len] bytes from the server connection does not
    depend on how TCP cuts the stream: whatever the segments, the loop ends,
    returns exactly the next [len] bytes and leaves the rest of the stream
    for the next message, or fails if the stream ends before. *)
Theorem recv_all_any_segmentation len t :
  0 ≤ len → stream_ok t →
  ∃ r t', recv_all len t = Some (r, t') ∧ stream_ok t' ∧ same_out t t' ∧
    if bool_decide (len ≤ Z.of_nat (length (received t)))
    then r = Some (take (Z.to_nat len) (received t)) ∧
         received t' = drop (Z.to_nat len) (received t)
    else r = None.
Proof.
  intros Hlen Hok. destruct (recv_loop_spec (Z.to_nat len) len [] t) as (r & t' & Hrun & Hok' & Hs & Hres);
    [simpl; lia|done|].
  exists r, t'. split_and!; [done..|]. cbn [length] in Hres. rewrite Z.sub_0_r in Hres.
  cbv zeta in Hres. simpl app in Hres.
  case_bool_decide; case_bool_decide; try done; lia.
Qed.

(** The form the client's theorems use: enough bytes are on their way. *)
Lemma recv_all_enough len t bs rest :
  0 ≤ len → stream_ok t → received t = bs ++ rest → Z.of_nat (length bs) = len →
  ∃ t', recv_all len t = Some (Some bs, t') ∧ stream_ok t' ∧ same_out t t' ∧ received t' = rest.
Proof.
  intros Hlen Hok Hrec Hl. destruct (recv_loop_spec (Z.to_nat len) len [] t) as (r & t' & Hrun & Hok' & Hs & Hres);
    [simpl; lia|done|].
  cbn [length] in Hres. rewrite Z.sub_0_r, Hrec in Hres. cbv zeta in Hres.
  rewrite bool_decide_eq_true_2 in Hres by (rewrite length_app; lia).
  rewrite <-Hl, Nat2Z.id, take_app_length, drop_app_length in Hres. destruct Hres as [-> Hrest].
  exists t'. by split_and!.
Qed.

(** Reading is defined whatever the stream holds. *)
Lemma recv_all_total len t :
  0 ≤ len → stream_ok t →
  ∃ r t', recv_all len t = Some (r, t') ∧ stream_ok t' ∧ same_out t t' ∧
    (∀ bs, r = Some bs → Z.of_nat (length bs) = len ∧ received t = bs ++ received t').
Proof.
  intros Hlen Hok. destruct (recv_loop_spec (Z.to_nat len) len [] t) as (r & t' & Hrun & Hok' & Hs & Hres);
    [simpl; lia|done|].
  exists r, t'. split_and!; [done..|]. intros bs ->. cbn [length] in Hres. rewrite Z.sub_0_r in Hres.
  cbv zeta in Hres. case_bool_decide as Hle; [|done]. destruct Hres as [[= ->] ->].
  rewrite take_drop, length_take. split; [lia|done].
Qed.

Lemma recv_all_any_segmentation_witness :
  ∃ t', recv_all 3 {| t_in := [[1]; [2; 3; 4]; [5]]; t_fail := false; t_accepts := []; t_out := [] |}
    = Some (Some [1; 2; 3], t') ∧ received t' = [4; 5].
Proof.
  destruct (recv_all_any_segmentation 3
    {| t_in := [[1]; [2; 3; 4]; [5]]; t_fail := false; t_accepts := []; t_out := [] |})
    as (r & t' & Hrun & _ & _ & Hres).
  - lia.
  - by repeat constructor.
  - destruct Hres as [-> Hrest]. exists t'. split; [exact Hrun|exact Hrest].
Defined.
