(* ===== verification/Lossy.v ===== *)
(** * The lossy link: [lossy_udp.c]

    A pseudo-random generator decides, for each outbound datagram, whether
    it is handed to [sendto] or silently dropped.  A C [double] is an exact
    rational, an infinity or a NaN: [(double)(r >> 11)] is below 2^53 and
    the division by 2^53 is a power of two, so the quotient compared with
    the loss rate is exact. *)

From Stdlib Require Import QArith.
From S2P Require Import Prelude.
#[local] Open Scope Z_scope.
#[local] Open Scope cint_scope.

Inductive cdouble := Finite (q : Q) | PosInf | NegInf | NaN.

(** The C comparison [a < b]; false as soon as one side is a NaN. *)
Definition dlt (a b : cdouble) : bool :=
  match a, b with
  | NaN, _ | _, NaN => false
  | Finite p, Finite q => negb (Qle_bool q p)
  | NegInf, NegInf | PosInf, _ | _, NegInf => false
  | NegInf, _ | _, PosInf => true
  end.

Record lossy_link_t := {
  ll_fd : Z;
  ll_loss : cdouble;
  ll_rng : Z;
}.

(** [xs64]: the new state and the returned value. *)
Definition xs64 (s : Z) : Z * Z :=
  let x := s in
  let x := Z.lxor x (Z.shiftr x 12) in
  let x := Z.lxor x (u64 (Z.shiftl x 25)) in
  let x := Z.lxor x (Z.shiftr x 27) in
  (x, u64 (x * 2685821657736338717)).

Definition lossy_init (fd : Z) (loss : cdouble) (seed : Z) : lossy_link_t :=
  let l := {| ll_fd := fd; ll_loss := loss;
              ll_rng := if seed =? 0 then 88172645463393265 else seed |} in
  let l := if dlt (ll_loss l) (Finite 0)
           then {| ll_fd := ll_fd l; ll_loss := Finite 0; ll_rng := ll_rng l |} else l in
  if dlt (Finite 1) (ll_loss l)
  then {| ll_fd := ll_fd l; ll_loss := Finite 1; ll_rng := ll_rng l |} else l.

(** What a send does: nothing, and the length is returned as if it had
    been sent, or the datagram is handed to [sendto]. *)
Inductive send_action := Dropped (ret : Z) | Sent (dg : datagram).

Definition drop_threshold (r : Z) : cdouble :=
  Finite (Z.shiftr r 11 # 9007199254740992).

Definition lossy_send (l : lossy_link_t) (dg : datagram) : send_action * lossy_link_t :=
  let '(rng', r) := xs64 (ll_rng l) in
  let l' := {| ll_fd := ll_fd l; ll_loss := ll_loss l; ll_rng := rng' |} in
  let u := drop_threshold r in
  if dlt u (ll_loss l') then (Dropped (Z.of_nat (length (dg_bytes dg))), l')
  else (Sent dg, l').

(** ** The generator *)

Create HintDb width.

Lemma lxor_width w x y :
  0 ≤ w → in_width w x → in_width w y → in_width w (Z.lxor x y).
Proof.
  intros Hw Hx Hy. unfold in_width in *.
  assert (0 ≤ Z.lxor x y) by (apply Z.lxor_nonneg; lia).
  split; [done|].
  destruct (decide (Z.lxor x y = 0)) as [->|Hne]; [lia|].
  apply Z.log2_lt_pow2; [lia|].
  eapply Z.le_lt_trans; [apply Z.log2_lxor; lia|].
  assert (∀ z, 0 ≤ z < 2 ^ w → w ≠ 0 → Z.log2 z < w) as Hlog.
  { intros z Hz Hw0. destruct (decide (z = 0)) as [->|]; [simpl; lia|].
    apply Z.log2_lt_pow2; lia. }
  destruct (decide (w = 0)) as [->|]; [|apply Z.max_lub_lt; by apply Hlog].
  exfalso. apply Hne. change (2 ^ 0) with 1 in *.
  replace x with 0 by lia. replace y with 0 by lia. done.
Qed.

Lemma shiftr_width w x n : 0 ≤ n → in_width w x → in_width w (Z.shiftr x n).
Proof.
  unfold in_width. intros Hn Hx. rewrite Z.shiftr_div_pow2 by done.
  assert (1 ≤ 2 ^ n) by lia.
  split; [apply Z.div_pos; lia|]. eapply Z.le_lt_trans; [|apply Hx].
  apply Z.div_le_upper_bound; nia.
Qed.

(** A nonzero word differs from any proper right shift of itself, and from
    its left shift modulo 2^64: no xor of the generator yields zero. *)
Lemma lxor_shiftr_nonzero x n : 0 < n → 0 < x → Z.lxor x (Z.shiftr x n) ≠ 0.
Proof.
  intros Hn Hx He%Z.lxor_eq. revert He. rewrite Z.shiftr_div_pow2 by lia.
  assert (2 ≤ 2 ^ n) by (change 2 with (2 ^ 1) at 1; apply Z.pow_le_mono_r; lia).
  intros He. assert (x `div` 2 ^ n < x) by (apply Z.div_lt; lia). lia.
Qed.

Lemma lxor_shiftl_nonzero x : 0 < x < 2 ^ 64 → Z.lxor x (u64 (Z.shiftl x 25)) ≠ 0.
Proof.
  intros Hx He%Z.lxor_eq. rewrite Z.shiftl_mul_pow2 in He by lia. unfold uwrap in He.
  assert ((2 ^ 64 | (2 ^ 25 - 1) * x)) as Hdiv.
  { exists (x * 2 ^ 25 `div` 2 ^ 64).
    pose proof (Z.div_mod (x * 2 ^ 25) (2 ^ 64) ltac:(lia)). lia. }
  apply Z.gauss in Hdiv; [|by vm_compute].
  apply Z.divide_pos_le in Hdiv; lia.
Qed.

Lemma shl_width w x : 0 ≤ w → in_width w (uwrap w x).
Proof. apply uwrap_range. Qed.

#[local] Hint Resolve lxor_width shiftr_width shl_width : width.
#[local] Hint Extern 1 (_ ≤ _) => lia : width.

Lemma xs64_state_width s : in_width 64 s → in_width 64 (xs64 s).1.
Proof. intros. unfold xs64. simpl. auto 10 with width. Qed.

Lemma xs64_value_width s : in_width 64 (xs64 s).2.
Proof. unfold xs64. simpl. auto with width. Qed.

Lemma in_width_nonzero w x : in_width w x → x ≠ 0 → 0 < x < 2 ^ w.
Proof. unfold in_width. lia. Qed.

Lemma xs64_state_nonzero s : in_width 64 s → s ≠ 0 → (xs64 s).1 ≠ 0.
Proof.
  intros Hs Hs0. unfold xs64. simpl.
  set (x1 := Z.lxor s (Z.shiftr s 12)).
  assert (0 < x1 < 2 ^ 64) as H1.
  { apply in_width_nonzero; [unfold x1; auto with width|].
    apply lxor_shiftr_nonzero; [lia|]. unfold in_width in Hs. lia. }
  set (x2 := Z.lxor x1 _).
  assert (0 < x2 < 2 ^ 64) as H2.
  { apply in_width_nonzero; [|by apply lxor_shiftl_nonzero].
    apply lxor_width; [lia|unfold in_width; lia|apply shl_width; lia]. }
  apply lxor_shiftr_nonzero; lia.
Qed.

(** ** The link *)

(** A loss rate as [lossy_udp.h] documents it: a number from 0.0 to 1.0. *)
Definition is_rate (d : cdouble) : Prop :=
  match d with Finite q => (0 <= q <= 1)%Q | _ => False end.

(** The generator's state: 64 bits, never zero. *)
Definition generator_wf (l : lossy_link_t) : Prop := in_width 64 (ll_rng l) ∧ ll_rng l ≠ 0.

Definition link_wf (l : lossy_link_t) : Prop := generator_wf l ∧ is_rate (ll_loss l).

Lemma dlt_Finite p q : dlt (Finite p) (Finite q) = true ↔ (p < q)%Q.
Proof.
  simpl. rewrite negb_true_iff, <-not_true_iff_false, Qle_bool_iff.
  split; [apply Qnot_le_lt|apply Qlt_not_le].
Qed.

Lemma lossy_init_generator fd loss seed :
  in_width 64 seed → generator_wf (lossy_init fd loss seed).
Proof.
  intros Hs.
  assert (ll_rng (lossy_init fd loss seed) = if seed =? 0 then 88172645463393265 else seed) as Heq
    by (unfold lossy_init; simpl; repeat (case_match; simpl); done).
  unfold generator_wf. rewrite Heq. case_cond as E; [by vm_compute|]. split; [done|lia].
Qed.

(** The two clamps: a number within the range is kept, one outside it is
    moved to the nearer end, and a NaN passes both comparisons. *)
Lemma lossy_init_rate fd loss seed :
  ll_loss (lossy_init fd loss seed) =
  match loss with
  | Finite q => if dlt loss (Finite 0) then Finite 0
                else if dlt (Finite 1) loss then Finite 1 else Finite q
  | NegInf => Finite 0
  | PosInf => Finite 1
  | NaN => NaN
  end.
Proof.
  unfold lossy_init. cbn [ll_loss]. destruct loss as [q| | |]; try done.
  destruct (dlt (Finite q) (Finite 0)); cbn [ll_loss]; [done|].
  by destruct (dlt (Finite 1) (Finite q)).
Qed.

Lemma lossy_init_wf fd loss seed :
  in_width 64 seed → loss ≠ NaN → link_wf (lossy_init fd loss seed).
Proof.
  intros Hs Hnan. split; [by apply lossy_init_generator|]. rewrite lossy_init_rate.
  destruct loss as [q| | |]; try done.
  destruct (dlt (Finite q) (Finite 0)) eqn:E0; [done|].
  destruct (dlt (Finite 1) (Finite q)) eqn:E1; [done|].
  split; apply Qnot_lt_le; intros Hlt%dlt_Finite; congruence.
Qed.

Lemma lossy_init_keeps_rate fd q seed :
  (0 <= q <= 1)%Q → ll_loss (lossy_init fd (Finite q) seed) = Finite q.
Proof.
  intros [H0 H1]. rewrite lossy_init_rate.
  destruct (dlt (Finite q) (Finite 0)) eqn:E0; [by apply dlt_Finite, Qlt_not_le in E0|].
  destruct (dlt (Finite 1) (Finite q)) eqn:E1; [by apply dlt_Finite, Qlt_not_le in E1|done].
Qed.

Lemma lossy_send_link l dg :
  (lossy_send l dg).2 =
  {| ll_fd := ll_fd l; ll_loss := ll_loss l; ll_rng := (xs64 (ll_rng l)).1 |}.
Proof. unfold lossy_send. destruct (xs64 (ll_rng l)). by case_cond as E. Qed.

Lemma lossy_send_generator l dg : generator_wf l → generator_wf (lossy_send l dg).2.
Proof.
  intros (Hw & Hn). rewrite lossy_send_link.
  split; [by apply xs64_state_width|by apply xs64_state_nonzero].
Qed.

Lemma lossy_send_wf l dg : link_wf l → link_wf (lossy_send l dg).2.
Proof.
  intros (Hg & Hr). split; [by apply lossy_send_generator|]. by rewrite lossy_send_link.
Qed.

(** A NaN compares false with every threshold: nothing is dropped. *)
Lemma lossy_send_nan l dg : ll_loss l = NaN → (lossy_send l dg).1 = Sent dg.
Proof. intros Hl. unfold lossy_send. destruct (xs64 (ll_rng l)). simpl. by rewrite Hl. Qed.

Lemma drop_threshold_range r :
  in_width 64 r → (0 <= Z.shiftr r 11 # 9007199254740992 < 1)%Q.
Proof.
  intros Hr. rewrite Z.shiftr_div_pow2 by lia. unfold in_width in Hr.
  assert (0 ≤ r `div` 2 ^ 11) by (apply Z.div_pos; lia).
  assert (r `div` 2 ^ 11 < 9007199254740992) by (apply Z.div_lt_upper_bound; lia).
  unfold Qle, Qlt. simpl. lia.
Qed.

(** A link with rate 0 never drops: what the transfer theorems use. *)
Lemma lossy_send_rate_0 l dg q :
  (q <= 0)%Q → ll_loss l = Finite q → (lossy_send l dg).1 = Sent dg.
Proof.
  intros Hq Hl. unfold lossy_send. pose proof (xs64_value_width (ll_rng l)) as Hv.
  destruct (xs64 (ll_rng l)) as [x r]. simpl in Hv. unfold drop_threshold. simpl.
  rewrite Hl. case_cond as E; [|done]. apply dlt_Finite in E.
  apply drop_threshold_range in Hv as [Hv _].
  exfalso. eapply Qlt_not_le; [exact E|]. eapply Qle_trans; [exact Hq|exact Hv].
Qed.

(** The default rate of the client, 0.0, and a link with it. *)
Definition no_loss : cdouble := Finite 0.

Definition lossless (l : lossy_link_t) : Prop := ll_loss l = no_loss.

Lemma lossless_send l dg :
  lossless l → (lossy_send l dg).1 = Sent dg ∧ lossless (lossy_send l dg).2.
Proof.
  intros Hl. split; [apply (lossy_send_rate_0 l dg 0); [apply Qle_refl|done]|].
  by rewrite lossy_send_link.
Qed.

(** The loss rate means what its comment says at the ends of its range. *)
Lemma lossy_send_extremes l dg :
  (ll_loss l = Finite 0 → (lossy_send l dg).1 = Sent dg) ∧
  (ll_loss l = Finite 1 → (lossy_send l dg).1 = Dropped (Z.of_nat (length (dg_bytes dg)))).
Proof.
  split; intros Hl; [apply (lossy_send_rate_0 l dg 0); [apply Qle_refl|done]|].
  unfold lossy_send. pose proof (xs64_value_width (ll_rng l)) as Hv.
  destruct (xs64 (ll_rng l)) as [x r]. simpl in Hv. cbn [ll_loss]. rewrite Hl.
  apply drop_threshold_range in Hv as [_ Hv]. unfold drop_threshold.
  by rewrite (proj2 (dlt_Finite _ _) Hv).
Qed.

(** C37: the lossy link.  For every seed, zero included, [lossy_init] yields
    a nonzero 64-bit generator state, and every [lossy_send] keeps it so.
    For every loss argument but a NaN the rate is a number from 0.0 to 1.0
    (the argument itself when it already is one), and every [lossy_send]
    keeps it and the descriptor.  With rate 0.0 every datagram reaches
    [sendto]; with rate 1.0 none does, and the caller still sees the full
    length.  A NaN, which [atof] can return, passes both clamps: it stays the
    rate, outside the range, and nothing is ever dropped. *)
Theorem lossy_link_invariant fd loss seed dg l :
  in_width 64 seed → loss ≠ NaN → link_wf l →
  link_wf (lossy_init fd loss seed) ∧
  (is_rate loss → ll_loss (lossy_init fd loss seed) = loss) ∧
  link_wf (lossy_send l dg).2 ∧
  ll_loss (lossy_send l dg).2 = ll_loss l ∧ ll_fd (lossy_send l dg).2 = ll_fd l ∧
  (ll_loss l = Finite 0 → (lossy_send l dg).1 = Sent dg) ∧
  (ll_loss l = Finite 1 → (lossy_send l dg).1 = Dropped (Z.of_nat (length (dg_bytes dg)))) ∧
  (let l' := lossy_init fd NaN seed in
   generator_wf l' ∧ ll_loss l' = NaN ∧ ~ is_rate (ll_loss l') ∧ (lossy_send l' dg).1 = Sent dg).
Proof.
  intros Hs Hnan Hl.
  split; [by apply lossy_init_wf|]. split.
  { destruct loss as [q| | |]; try done. apply lossy_init_keeps_rate. }
  split; [by apply lossy_send_wf|]. split; [by rewrite lossy_send_link|].
  split; [by rewrite lossy_send_link|]. split; [apply lossy_send_extremes|].
  split; [apply lossy_send_extremes|].
  split; [by apply lossy_init_generator|]. rewrite lossy_init_rate. split; [done|].
  split; [by intros []|]. apply lossy_send_nan, lossy_init_rate.
Qed.

Lemma lossy_link_invariant_witness :
  link_wf (lossy_init 5 (Finite (3 # 2)) 0) ∧
  link_wf (lossy_send (lossy_init 5 no_loss 7)
             {| dg_dest := {| sin_addr := 16777343; sin_port := 80 |}; dg_bytes := [1; 2] |}).2.
Proof.
  destruct (lossy_link_invariant 5 (Finite (3 # 2)) 0
      {| dg_dest := {| sin_addr := 16777343; sin_port := 80 |}; dg_bytes := [1; 2] |}
      (lossy_init 5 no_loss 7)) as (H1 & _ & H2 & _).
  - by vm_compute.
  - done.
  - by apply lossy_init_wf.
  - split; [exact H1|exact H2].
Defined.
