(* ===== verification/Packets.v ===== *)
(** * Building and checking UDP packets: [selective_repeat.c]

    [build_data_packet] and [build_ack_packet], with the pure functions
    [data_packet] and [ack_packet] they compute, and the checksum test the
    receiver applies to what it gets. *)

From S2P Require Import Prelude Packed Protocol.

Section packets.
Context `{Host}.

(** [sizeof(udp_header_t)], a constant for [lia]. *)
Lemma sizeof_udp_header : sizeof udp_header_t = 16.
Proof. done. Qed.

Definition set_checksum (h : udp_header_t) (c : Z) : udp_header_t := {|
  uh_msg_type := uh_msg_type h;
  uh_flags := uh_flags h;
  uh_checksum := c;
  uh_seq_num := uh_seq_num h;
  uh_ack_num := uh_ack_num h;
  uh_data_len := uh_data_len h;
  uh_window := uh_window h;
|}.

(** ** Building *)

Definition data_header (seq_num data_len : Z) : udp_header_t := {|
  uh_msg_type := UDP_DATA;
  uh_flags := 0;
  uh_checksum := 0;
  uh_seq_num := htonl seq_num;
  uh_ack_num := 0;
  uh_data_len := htons data_len;
  uh_window := htons WINDOW_SIZE;
|}.

(** The bytes the function leaves in the first [16 + data_len] bytes of
    [packet], a buffer of [sizeof(udp_header_t) + CHUNK_SIZE] bytes. *)
Definition build_data_packet (seq_num : Z) (data : list Z) (data_len : Z) : option (list Z) :=
  let hdr := data_header seq_num data_len in
  payload ← mread data 0 data_len;
  guard (data_len ≤ CHUNK_SIZE);;
  let checksum := calculate_checksum (to_bytes hdr ++ payload) in
  Some (to_bytes (set_checksum hdr checksum) ++ payload).

Definition ack_header (ack_num : Z) : udp_header_t := {|
  uh_msg_type := UDP_ACK;
  uh_flags := 0;
  uh_checksum := 0;
  uh_seq_num := htonl 0;
  uh_ack_num := htonl ack_num;
  uh_data_len := htons 0;
  uh_window := htons WINDOW_SIZE;
|}.

Definition build_ack_packet (ack_num : Z) : list Z :=
  let hdr := ack_header ack_num in
  let checksum := calculate_checksum (to_bytes hdr) in
  to_bytes (set_checksum hdr checksum).

(** ** Checking *)

(** [((udp_header_t * )temp)->checksum = 0] on a copy of the packet. *)
Definition zero_checksum (packet : list Z) : option (list Z) :=
  mwrite packet 2 (store host_endian 2 0).

(** ** What the packets are *)

(** A packet sealed with the checksum of its header and payload. *)
Definition seal (h : udp_header_t) (payload : list Z) : list Z :=
  to_bytes (set_checksum h (calculate_checksum (to_bytes (set_checksum h 0) ++ payload)))
    ++ payload.

Definition data_packet (seq_num : Z) (payload : list Z) : list Z :=
  seal (data_header seq_num (Z.of_nat (length payload))) payload.

Lemma build_data_packet_spec seq_num data data_len :
  0 ≤ data_len ≤ CHUNK_SIZE → data_len ≤ Z.of_nat (length data) →
  build_data_packet seq_num data data_len =
    Some (data_packet seq_num (take (Z.to_nat data_len) data)).
Proof.
  unfold CHUNK_SIZE. intros Hl Hd. unfold build_data_packet, CHUNK_SIZE.
  rewrite mread_Some by lia. simpl. rewrite drop_0, option_guard_True by lia. simpl.
  f_equal. unfold data_packet, seal. rewrite length_take.
  replace (Z.of_nat (Z.to_nat data_len `min` length data)) with data_len by lia. done.
Qed.

Lemma build_ack_packet_spec ack_num : build_ack_packet ack_num = seal (ack_header ack_num) [].
Proof. unfold build_ack_packet, seal. by rewrite !app_nil_r. Qed.

Lemma udp_header_fits (h : udp_header_t) :
  in_width 8 (uh_msg_type h) → in_width 8 (uh_flags h) → in_width 16 (uh_checksum h) →
  in_width 32 (uh_seq_num h) → in_width 32 (uh_ack_num h) →
  in_width 16 (uh_data_len h) → in_width 16 (uh_window h) → fits h.
Proof. intros. unfold fits. simpl. split_and!; assumption. Qed.

Lemma set_checksum_fits h c : fits h → in_width 16 c → fits (set_checksum h c).
Proof. intros (? & ? & ? & ? & ? & ? & ?) Hc. by apply udp_header_fits. Qed.

Lemma data_header_fits seq_num data_len :
  in_width 32 seq_num → in_width 16 data_len → fits (data_header seq_num data_len).
Proof.
  intros. apply udp_header_fits; cbn [data_header ack_header uh_msg_type uh_flags uh_checksum
    uh_seq_num uh_ack_num uh_data_len uh_window];
    first [by apply htonl_range | by apply htons_range | by vm_compute].
Qed.

Lemma ack_header_fits ack_num : in_width 32 ack_num → fits (ack_header ack_num).
Proof.
  intros. apply udp_header_fits; cbn [data_header ack_header uh_msg_type uh_flags uh_checksum
    uh_seq_num uh_ack_num uh_data_len uh_window];
    first [by apply htonl_range | by apply htons_range | by vm_compute].
Qed.

(** Clearing the checksum field of a packet in memory is clearing it in the
    header. *)
Lemma zero_checksum_header h payload :
  zero_checksum (to_bytes h ++ payload) = Some (to_bytes (set_checksum h 0) ++ payload).
Proof.
  unfold zero_checksum, to_bytes, packed_layout, udp_header_packed. cbn [l_iso l_enc l_pair l_uint].
  rewrite <-!app_assoc, !(app_assoc (store _ _ (uh_msg_type _))).
  apply mwrite_middle; rewrite ?length_app, !length_store; lia.
Qed.

(** A sealed packet passes the receiver's test. *)
Lemma seal_valid h payload :
  fits h →
  cast udp_header_t (seal h payload) 0 =
    Some (set_checksum h (calculate_checksum (to_bytes (set_checksum h 0) ++ payload))) ∧
  zero_checksum (seal h payload) = Some (to_bytes (set_checksum h 0) ++ payload).
Proof.
  intros Hf. split.
  - apply cast_to_bytes_0. apply set_checksum_fits; [done|]. apply calculate_checksum_range.
  - unfold seal. rewrite zero_checksum_header. done.
Qed.

Lemma length_seal h payload :
  fits h → Z.of_nat (length (seal h payload)) = 16 + Z.of_nat (length payload).
Proof.
  intros Hf. unfold seal. rewrite length_app, Nat2Z.inj_add, length_to_bytes; [done|].
  apply set_checksum_fits; [done|]. apply calculate_checksum_range.
Qed.

Lemma drop_seal h payload : fits h → drop 16 (seal h payload) = payload.
Proof.
  intros Hf. unfold seal. apply drop_app_length'.
  apply Nat2Z.inj. rewrite length_to_bytes; [done|].
  apply set_checksum_fits; [done|]. apply calculate_checksum_range.
Qed.

(** The two checks of [sr_receiver_handle_data] on an arbitrary packet: the
    checksum is what bytes 2 and 3 hold, and it is compared with that of the
    packet with these bytes cleared. *)
Lemma cast_checksum packet :
  16 ≤ Z.of_nat (length packet) →
  ∃ hdr, cast udp_header_t packet 0 = Some hdr ∧
    uh_checksum hdr = load host_endian (take 2 (drop 2 packet)).
Proof.
  intros Hl. unfold cast. rewrite mread_Some; [|lia|by vm_compute|by rewrite sizeof_udp_header].
  eexists. split; [done|].
  unfold of_bytes, packed_layout, udp_header_packed. cbn [l_iso l_dec l_pair l_uint l_size].
  cbn [uh_checksum]. rewrite !drop_drop, drop_0.
  change (Z.to_nat (sizeof udp_header_t)) with 16%nat.
  by rewrite skipn_firstn_comm, take_take.
Qed.

Lemma zero_checksum_bytes packet :
  16 ≤ Z.of_nat (length packet) →
  zero_checksum packet = Some (take 2 packet ++ store host_endian 2 0 ++ drop 4 packet).
Proof.
  intros Hl. unfold zero_checksum. rewrite mwrite_Some by (rewrite ?length_store; lia).
  by rewrite length_store by lia.
Qed.

Lemma seal_bytes h payload :
  fits h → Forall is_byte payload → Forall is_byte (seal h payload).
Proof.
  intros Hf Hp. apply Forall_app; split; [|done].
  apply to_bytes_byte, set_checksum_fits; [done|]. apply calculate_checksum_range.
Qed.

(** What a receiver reads in a sealed packet: the stored checksum is that of
    the packet with the field cleared. *)
Lemma seal_checksum h payload :
  fits h →
  let c := calculate_checksum (to_bytes (set_checksum h 0) ++ payload) in
  load host_endian (take 2 (drop 2 (seal h payload))) = c ∧
  take 2 (seal h payload) ++ store host_endian 2 0 ++ drop 4 (seal h payload) =
    to_bytes (set_checksum h 0) ++ payload.
Proof.
  intros Hf c. pose proof (length_seal h payload Hf) as Hl.
  destruct (seal_valid h payload Hf) as [Hcast Hzero].
  destruct (cast_checksum (seal h payload)) as (hdr & Hc & Hck); [lia|].
  rewrite zero_checksum_bytes in Hzero by lia. split; [|by apply (inj Some)].
  rewrite Hcast in Hc. apply (inj Some) in Hc. by rewrite <-Hck, <-Hc.
Qed.

Lemma byte_total_zero e : byte_total (store e 2 0) = 0.
Proof. by destruct e; vm_compute. Qed.
End packets.
