(* ===== verification/Window.v ===== *)
(** * The circular window and the chunks of a file

    The sender and the receiver keep [WINDOW_SIZE] slots and put sequence
    number [seq] in slot [seq % WINDOW_SIZE].  This file has what both need:
    the slot function and its injectivity on a window, the chunks a file is
    cut into, and the environment through which [selective_repeat.c] sends:
    the lossy link, the three counters, and the datagrams handed to the
    network so far. *)

From S2P Require Import Prelude Protocol Lossy.

(** ** Slots *)

Definition slot (seq : Z) : nat := Z.to_nat (seq `mod` WINDOW_SIZE).

Lemma slot_lt seq : (slot seq < 64)%nat.
Proof.
  unfold slot, WINDOW_SIZE. pose proof (Z.mod_pos_bound seq 64 ltac:(lia)). lia.
Qed.

Lemma slot_inj base a b :
  base ≤ a < base + WINDOW_SIZE → base ≤ b < base + WINDOW_SIZE → slot a = slot b → a = b.
Proof.
  unfold slot, WINDOW_SIZE. intros.
  pose proof (Z.mod_pos_bound a 64 ltac:(lia)). pose proof (Z.mod_pos_bound b 64 ltac:(lia)).
  pose proof (Z.div_mod a 64 ltac:(lia)). pose proof (Z.div_mod b 64 ltac:(lia)). lia.
Qed.

Lemma slot_insert_eq {A} (w : list A) seq x :
  length w = 64%nat → <[slot seq := x]> w !! slot seq = Some x.
Proof. intros Hw. apply list_lookup_insert_eq. rewrite Hw. apply slot_lt. Qed.

Lemma slot_insert_ne {A} (w : list A) base a b x :
  base ≤ a < base + WINDOW_SIZE → base ≤ b < base + WINDOW_SIZE → a ≠ b →
  <[slot a := x]> w !! slot b = w !! slot b.
Proof. intros Ha Hb Hne. apply list_lookup_insert_ne. by intros ?%(slot_inj base). Qed.

Lemma slot_wrap seq : slot (seq + WINDOW_SIZE) = slot seq.
Proof. unfold slot, WINDOW_SIZE. by rewrite <-(Z.mul_1_l 64) at 1; rewrite Z.mod_add by lia. Qed.

Lemma slot_is_Some {A} (w : list A) seq :
  length w = 64%nat → is_Some (w !! slot seq).
Proof. intros Hw. apply lookup_lt_is_Some. rewrite Hw. apply slot_lt. Qed.

(** ** Chunks *)

(** Chunk [k] of a file, and how many there are. *)
Definition chunk (f : list Z) (k : Z) : list Z :=
  take (Z.to_nat CHUNK_SIZE) (drop (Z.to_nat (k * CHUNK_SIZE)) f).

Definition chunks_of (size : Z) : Z := (size + CHUNK_SIZE - 1) `div` CHUNK_SIZE.

Lemma chunks_of_bounds size :
  0 ≤ size →
  0 ≤ chunks_of size ∧ size ≤ chunks_of size * CHUNK_SIZE < size + CHUNK_SIZE.
Proof.
  unfold chunks_of, CHUNK_SIZE. intros.
  pose proof (Z.div_mod (size + 1024 - 1) 1024 ltac:(lia)).
  pose proof (Z.mod_pos_bound (size + 1024 - 1) 1024 ltac:(lia)). lia.
Qed.

Lemma length_chunk f k :
  0 ≤ k → k * CHUNK_SIZE ≤ Z.of_nat (length f) →
  Z.of_nat (length (chunk f k)) = CHUNK_SIZE `min` (Z.of_nat (length f) - k * CHUNK_SIZE).
Proof. unfold chunk, CHUNK_SIZE. intros. rewrite length_take, length_drop. lia. Qed.

Lemma length_chunk_le f k : Z.of_nat (length (chunk f k)) ≤ CHUNK_SIZE.
Proof. unfold chunk, CHUNK_SIZE. rewrite length_take. lia. Qed.

(** The first [k + 1] chunks are the first [k] and chunk [k]. *)
Lemma take_chunk f k :
  0 ≤ k →
  take (Z.to_nat ((k + 1) * CHUNK_SIZE)) f = take (Z.to_nat (k * CHUNK_SIZE)) f ++ chunk f k.
Proof.
  unfold chunk, CHUNK_SIZE. intros.
  replace (Z.to_nat ((k + 1) * 1024)) with (Z.to_nat (k * 1024) + Z.to_nat 1024)%nat by lia.
  by rewrite take_take_drop.
Qed.

(** The largest file the sender can cut into chunks: above it the sum
    [file_size + CHUNK_SIZE - 1] wraps around in [sr_sender_init]. *)
Definition max_file : Z := 4294966273.

Lemma chunks_of_max n : 0 ≤ n < max_file → 0 ≤ chunks_of n ≤ 4194303.
Proof.
  unfold max_file. intros. pose proof (chunks_of_bounds n). unfold CHUNK_SIZE in *. lia.
Qed.

(** ** Sets of sequence numbers *)

(** [A] is a set of numbers below [n]; it is all of them exactly when it
    has [n] elements. *)
Definition upto (n : Z) : gset Z := list_to_set (seqZ 0 n).

Lemma elem_of_upto n k : k ∈ upto n ↔ 0 ≤ k < n.
Proof. unfold upto. rewrite elem_of_list_to_set, elem_of_seqZ. lia. Qed.

Lemma size_upto n : 0 ≤ n → Z.of_nat (size (upto n)) = n.
Proof.
  intros. unfold upto. rewrite size_list_to_set by apply NoDup_seqZ. rewrite length_seqZ. lia.
Qed.

Lemma subset_upto_size n (A : gset Z) :
  0 ≤ n → (∀ k, k ∈ A → 0 ≤ k < n) →
  Z.of_nat (size A) ≤ n ∧ (n ≤ Z.of_nat (size A) → A = upto n).
Proof.
  intros Hn HA.
  assert (A ⊆ upto n) as Hsub by (intros k Hk; apply elem_of_upto; auto).
  pose proof (subseteq_size _ _ Hsub). pose proof (size_upto n Hn).
  split; [lia|]. intros Hle. apply set_eq. intros k. split; [apply Hsub|]. intros Hk.
  destruct (decide (k ∈ A)) as [|Hni]; [done|exfalso].
  assert (size A < size (upto n))%nat; [|lia].
  apply subset_size. split; [done|]. intros Hsub'. by apply Hni, Hsub'.
Qed.

(** ** The environment *)

(** The [static] counters of [selective_repeat.c].  They are [int]s there and
    unbounded counts here: an operation of the sender adds at most 65 to
    each ([SRSender.sender_stats_growth]), so the two agree until 2^31 is
    reached, and no other value depends on them. *)
Record sr_stats_t := {
  packets_sent : Z;
  packets_retransmitted : Z;
  acks_received : Z;
}.

Record sr_env := {
  env_link : lossy_link_t;
  env_stats : sr_stats_t;
  env_net : list datagram;
}.

(** The values of the [static] counters before the first transfer. *)
Definition stats_init : sr_stats_t :=
  {| packets_sent := 0; packets_retransmitted := 0; acks_received := 0 |}.

(** [sr_get_stats] copies the counters. *)
Definition sr_get_stats (env : sr_env) : sr_stats_t := {|
  packets_sent := packets_sent (env_stats env);
  packets_retransmitted := packets_retransmitted (env_stats env);
  acks_received := acks_received (env_stats env);
|}.

Definition bump_stats (sent retransmitted acks : Z) (env : sr_env) : sr_env := {|
  env_link := env_link env;
  env_stats := {| packets_sent := packets_sent (env_stats env) + sent;
                  packets_retransmitted := packets_retransmitted (env_stats env) + retransmitted;
                  acks_received := acks_received (env_stats env) + acks |};
  env_net := env_net env;
|}.

(** Each counter grew by at most [n]. *)
Definition stats_grow (n : Z) (env env' : sr_env) : Prop :=
  packets_sent (env_stats env) ≤ packets_sent (env_stats env') ≤ packets_sent (env_stats env) + n ∧
  packets_retransmitted (env_stats env) ≤ packets_retransmitted (env_stats env')
    ≤ packets_retransmitted (env_stats env) + n ∧
  acks_received (env_stats env) ≤ acks_received (env_stats env') ≤ acks_received (env_stats env) + n.

Lemma stats_grow_trans n m env1 env2 env3 :
  stats_grow n env1 env2 → stats_grow m env2 env3 → stats_grow (n + m) env1 env3.
Proof. unfold stats_grow. lia. Qed.

Lemma stats_grow_weaken n m env env' : n ≤ m → stats_grow n env env' → stats_grow m env env'.
Proof. unfold stats_grow. lia. Qed.

(** [lossy_send] when the link pointer is set, [sendto] otherwise.  Both
    results are ignored by the callers: a [sendto] that fails is a datagram
    the network loses. *)
Definition env_send (lossy : bool) (dg : datagram) (env : sr_env) : sr_env :=
  if lossy then
    let '(act, link') := lossy_send (env_link env) dg in
    {| env_link := link'; env_stats := env_stats env;
       env_net := match act with Sent dg => env_net env ++ [dg] | Dropped _ => env_net env end |}
  else
    {| env_link := env_link env; env_stats := env_stats env; env_net := env_net env ++ [dg] |}.

Lemma env_send_stats lossy dg env : env_stats (env_send lossy dg env) = env_stats env.
Proof. unfold env_send. destruct lossy; [|done]. by destruct (lossy_send _ _). Qed.

(** A send and the counters it updates. *)
Lemma stats_grow_send lossy dg a b c env :
  0 ≤ a ≤ 1 → 0 ≤ b ≤ 1 → 0 ≤ c ≤ 1 →
  stats_grow 1 env (env_send lossy dg (if lossy then bump_stats a b c env else env)).
Proof. intros. unfold stats_grow. rewrite env_send_stats. destruct lossy; simpl; lia. Qed.

(** What a send can add to the network. *)
Lemma env_send_net lossy dg env :
  env_net (env_send lossy dg env) = env_net env ∨
  env_net (env_send lossy dg env) = env_net env ++ [dg].
Proof.
  unfold env_send, lossy_send. destruct lossy; [|by right].
  destruct (xs64 _). case_cond as E; simpl; auto.
Qed.

Lemma env_send_lossless lossy dg env :
  lossless (env_link env) →
  env_net (env_send lossy dg env) = env_net env ++ [dg] ∧
  lossless (env_link (env_send lossy dg env)).
Proof.
  unfold env_send. intros Hl. destruct lossy; [|done].
  destruct (lossless_send _ dg Hl) as [Hs Hl'].
  destruct (lossy_send _ _) as [act l']. simpl in *. by subst.
Qed.

(** ** What a run of sends adds to the network

    [sends dgs env env']: from [env] to [env'] the datagrams [dgs] went
    through the link in this order; the network got a sublist of them, and
    all of them when the link is lossless. *)
Definition sends (dgs : list datagram) (env env' : sr_env) : Prop :=
  ∃ got, got `sublist_of` dgs ∧ env_net env' = env_net env ++ got ∧
    (lossless (env_link env) → got = dgs ∧ lossless (env_link env')).

Lemma sends_nil env : sends [] env env.
Proof. exists []. split_and!; [done|by rewrite app_nil_r|done]. Qed.

Lemma sends_trans dgs1 dgs2 env1 env2 env3 :
  sends dgs1 env1 env2 → sends dgs2 env2 env3 → sends (dgs1 ++ dgs2) env1 env3.
Proof.
  intros (g1 & Hs1 & He1 & Hl1) (g2 & Hs2 & He2 & Hl2). exists (g1 ++ g2). split_and!.
  - by apply sublist_app.
  - by rewrite He2, He1, app_assoc.
  - naive_solver.
Qed.

Lemma sends_one lossy dg env : sends [dg] env (env_send lossy dg env).
Proof.
  destruct (env_send_net lossy dg env) as [He|He].
  - exists []. split_and!; [by constructor|by rewrite app_nil_r|].
    intros [Hn _]%(env_send_lossless lossy dg env). rewrite He in Hn.
    apply (f_equal length) in Hn. rewrite length_app in Hn. simpl in Hn. lia.
  - exists [dg]. split_and!; [done|done|].
    intros [_ Hn]%(env_send_lossless lossy dg env). done.
Qed.

Lemma sends_bump sent retr acks dgs env env' :
  sends dgs (bump_stats sent retr acks env) env' → sends dgs env env'.
Proof. done. Qed.

Lemma sends_cons lossy dg dgs env env' :
  sends dgs (env_send lossy dg env) env' → sends (dg :: dgs) env env'.
Proof. intros Hs. apply (sends_trans [dg] dgs _ (env_send lossy dg env)); [apply sends_one|done]. Qed.

(** A send preceded by the counters it updates. *)
Lemma sends_cons_bump lossy a b c dg dgs env env' :
  sends dgs (env_send lossy dg (if lossy then bump_stats a b c env else env)) env' →
  sends (dg :: dgs) env env'.
Proof.
  intros Hs%sends_cons. destruct lossy; [|done]. by eapply sends_bump.
Qed.

Lemma sends_elem dgs env env' dg :
  sends dgs env env' → dg ∈ env_net env' → dg ∈ env_net env ∨ dg ∈ dgs.
Proof.
  intros (got & Hs & -> & _) [?|?]%elem_of_app; [by left|right].
  by eapply sublist_subseteq.
Qed.

Lemma sends_mono dgs env env' : sends dgs env env' → env_net env ⊆ env_net env'.
Proof. intros (got & _ & -> & _). set_solver. Qed.
