(* ===== verification/SRSender.v ===== *)
(** * The selective-repeat sender: [selective_repeat.c], first half

    The window entries, the sender state, and one definition per operation:
    [sr_sender_init], [sr_sender_send_window], [sr_sender_handle_ack],
    [sr_sender_check_timeouts], [sr_sender_is_complete].  An operation
    returns what the C function returns, the new sender, and the environment
    with the datagrams it sent; [None] is an access outside an object.

    The abstract view of a sender is the set [A] of acknowledged sequence
    numbers: [sender_rel f s A] says that [s] is sending file [f] and has
    received exactly the acknowledgements of [A].  Every operation is proved
    to be defined and to act on [A] as the protocol says. *)

From S2P Require Import Prelude Packed Protocol Lossy Packets Window.

(** ** Data *)

Inductive packet_state_t := PKT_EMPTY | PKT_PENDING | PKT_ACKED.

#[global] Instance packet_state_eq_dec : EqDecision packet_state_t.
Proof. solve_decision. Defined.

Record send_window_entry_t := {
  se_state : packet_state_t;
  se_seq_num : Z;
  se_data : list Z;
  se_data_len : Z;
  se_send_time_ms : Z;
  se_retries : Z;
}.

Record sr_sender_t := {
  s_udp_fd : Z;
  s_peer_addr : sockaddr_in;
  s_base : Z;
  s_next_seq : Z;
  s_window : list send_window_entry_t;
  s_file_data : list Z;
  s_file_size : Z;
  s_num_chunks : Z;
  s_chunks_acked : Z;
  s_lossy_link : bool;   (* the link pointer is not NULL *)
}.

(** Assignments to the four fields the operations change. *)
Definition upd_sender (s : sr_sender_t) (base next_seq : Z)
    (window : list send_window_entry_t) (chunks_acked : Z) : sr_sender_t := {|
  s_udp_fd := s_udp_fd s; s_peer_addr := s_peer_addr s;
  s_base := base; s_next_seq := next_seq; s_window := window;
  s_file_data := s_file_data s; s_file_size := s_file_size s;
  s_num_chunks := s_num_chunks s; s_chunks_acked := chunks_acked;
  s_lossy_link := s_lossy_link s;
|}.

Definition set_entry_state (e : send_window_entry_t) (st : packet_state_t) := {|
  se_state := st; se_seq_num := se_seq_num e; se_data := se_data e;
  se_data_len := se_data_len e; se_send_time_ms := se_send_time_ms e;
  se_retries := se_retries e;
|}.

(** An entry after [memset] and the loop of [sr_sender_init]. *)
Definition empty_entry : send_window_entry_t := {|
  se_state := PKT_EMPTY; se_seq_num := 0; se_data := replicate (Z.to_nat CHUNK_SIZE) 0;
  se_data_len := 0; se_send_time_ms := 0; se_retries := 0;
|}.

(** ** Operations *)

(** [sr_sender_init]: a pointer argument is [None] when it is NULL; the
    result is the C result and the sender object afterwards. *)
Definition sr_sender_init (sender : option sr_sender_t) (udp_fd : Z)
    (peer_addr : option sockaddr_in) (file_data : option (list Z)) (file_size : Z)
    (lossy_link : bool) : Z * option sr_sender_t :=
  match sender, peer_addr, file_data, lossy_link with
  | Some _, Some peer, Some data, true =>
      (0, Some {|
        s_udp_fd := udp_fd; s_peer_addr := peer;
        s_base := 0; s_next_seq := 0;
        s_window := replicate (Z.to_nat WINDOW_SIZE) empty_entry;
        s_file_data := data; s_file_size := file_size;
        s_num_chunks := (file_size +₃₂ CHUNK_SIZE -₃₂ 1) `div` CHUNK_SIZE;
        s_chunks_acked := 0; s_lossy_link := true |})
  | _, _, _, _ => (-1, sender)
  end.

(** An iteration of the two window loops fills an empty slot, or empties an
    acknowledged one, so there are at most [WINDOW_SIZE] of them, and one
    more test. *)
Definition window_fuel : nat := S (Z.to_nat WINDOW_SIZE).

Section operations.
Context `{Host}.

(** The length of the chunk at [next_seq], as the code computes it. *)
Definition chunk_len_at (s : sr_sender_t) (seq : Z) : Z :=
  let offset := seq *₃₂ CHUNK_SIZE in
  u16 (if s_file_size s <? offset +₃₂ CHUNK_SIZE
       then s_file_size s -₃₂ offset else CHUNK_SIZE).

Fixpoint send_window_loop (fuel : nat) (now : Z) (s : sr_sender_t) (env : sr_env)
    (packets : Z) : option (Z * sr_sender_t * sr_env) :=
  if (s_next_seq s <? s_base s +₃₂ WINDOW_SIZE) && (s_next_seq s <? s_num_chunks s) then
    match fuel with
    | O => None
    | S fuel =>
        let seq := s_next_seq s in
        let idx := slot seq in
        entry ← s_window s !! idx;
        if bool_decide (se_state entry ≠ PKT_EMPTY) then Some (packets, s, env)
        else
          let offset := seq *₃₂ CHUNK_SIZE in
          let chunk_len := chunk_len_at s seq in
          payload ← mread (s_file_data s) offset chunk_len;
          packet ← build_data_packet seq payload chunk_len;
          let env := if s_lossy_link s then bump_stats 1 0 0 env else env in
          let env := env_send (s_lossy_link s)
                       {| dg_dest := s_peer_addr s; dg_bytes := packet |} env in
          data ← mwrite (se_data entry) 0 payload;
          let entry := {| se_state := PKT_PENDING; se_seq_num := seq; se_data := data;
                          se_data_len := chunk_len; se_send_time_ms := now;
                          se_retries := 0 |} in
          let s := upd_sender s (s_base s) (seq +₃₂ 1) (<[idx := entry]> (s_window s))
                     (s_chunks_acked s) in
          send_window_loop fuel now s env (packets + 1)
    end
  else Some (packets, s, env).

(** [now] is the result of [get_time_ms] at the start of the call. *)
Definition sr_sender_send_window (now : Z) (s : sr_sender_t) (env : sr_env) :
    option (Z * sr_sender_t * sr_env) :=
  send_window_loop window_fuel now s env 0.

(** The same function as the code declares it, on a pointer: NULL is refused. *)
Definition sr_sender_send_window_ptr (now : Z) (sender : option sr_sender_t) (env : sr_env) :
    option (Z * option sr_sender_t * sr_env) :=
  match sender with
  | None => Some (-1, None, env)
  | Some s =>
      '(n, s, env) ← sr_sender_send_window now s env;
      Some (n, Some s, env)
  end.

(** The loop that slides the window over acknowledged packets. *)
Fixpoint slide_loop (fuel : nat) (s : sr_sender_t) : option sr_sender_t :=
  if s_base s <? s_num_chunks s then
    match fuel with
    | O => None
    | S fuel =>
        let base_idx := slot (s_base s) in
        entry ← s_window s !! base_idx;
        if bool_decide (se_state entry ≠ PKT_ACKED) then Some s
        else
          slide_loop fuel (upd_sender s (s_base s +₃₂ 1) (s_next_seq s)
            (<[base_idx := set_entry_state entry PKT_EMPTY]> (s_window s)) (s_chunks_acked s))
    end
  else Some s.

Definition sr_sender_handle_ack (s : sr_sender_t) (hdr : udp_header_t) (env : sr_env) :
    option (Z * sr_sender_t * sr_env) :=
  let ack_num := ntohl (uh_ack_num hdr) in
  if ack_num <? s_base s then Some (0, s, env)
  else if negb (uh_msg_type hdr =? UDP_ACK) then Some (0, s, env)
  else if (s_base s +₃₂ WINDOW_SIZE <=? ack_num) || (s_num_chunks s <=? ack_num)
  then Some (0, s, env)
  else
    let idx := slot ack_num in
    entry ← s_window s !! idx;
    let '(s, env) :=
      if bool_decide (se_state entry = PKT_PENDING) && (se_seq_num entry =? ack_num) then
        (upd_sender s (s_base s) (s_next_seq s)
           (<[idx := set_entry_state entry PKT_ACKED]> (s_window s)) (s_chunks_acked s +₃₂ 1),
         bump_stats 0 0 1 env)
      else (s, env) in
    s ← slide_loop window_fuel s;
    Some (0, s, env).

(** The loop [for (seq = base; seq < next_seq; seq++)]: neither bound is
    changed by the body, so it runs over the list of its values of [seq]. *)
Fixpoint check_timeouts_loop (seqs : list Z) (now_ms : Z) (s : sr_sender_t) (env : sr_env)
    (retransmissions : Z) : option (Z * sr_sender_t * sr_env) :=
  match seqs with
  | [] => Some (retransmissions, s, env)
  | seq :: seqs =>
      let idx := slot seq in
      entry ← s_window s !! idx;
      if bool_decide (se_state entry ≠ PKT_PENDING) then
        check_timeouts_loop seqs now_ms s env retransmissions
      else if negb (se_seq_num entry =? seq) then
        check_timeouts_loop seqs now_ms s env retransmissions
      else if TIMEOUT_MS <=? now_ms -₆₄ se_send_time_ms entry then
        if MAX_RETRIES <=? se_retries entry then Some (-1, s, env)
        else
          packet ← build_data_packet (se_seq_num entry) (se_data entry) (se_data_len entry);
          let env := if s_lossy_link s then bump_stats 1 1 0 env else env in
          let env := env_send (s_lossy_link s)
                       {| dg_dest := s_peer_addr s; dg_bytes := packet |} env in
          let entry := {| se_state := se_state entry; se_seq_num := se_seq_num entry;
                          se_data := se_data entry; se_data_len := se_data_len entry;
                          se_send_time_ms := now_ms; se_retries := se_retries entry + 1 |} in
          let s := upd_sender s (s_base s) (s_next_seq s)
                     (<[idx := entry]> (s_window s)) (s_chunks_acked s) in
          check_timeouts_loop seqs now_ms s env (retransmissions + 1)
      else check_timeouts_loop seqs now_ms s env retransmissions
  end.

Definition sr_sender_check_timeouts (s : sr_sender_t) (now_ms : Z) (env : sr_env) :
    option (Z * sr_sender_t * sr_env) :=
  check_timeouts_loop (seqZ (s_base s) (s_next_seq s - s_base s)) now_ms s env 0.
End operations.

Definition sr_sender_is_complete (s : sr_sender_t) : bool :=
  s_num_chunks s <=? s_chunks_acked s.

(** [print_sender_window]: the letters 'E', 'P' and 'A' as characters. *)
Definition state_letter (st : packet_state_t) : Z :=
  match st with PKT_EMPTY => 69 | PKT_PENDING => 80 | PKT_ACKED => 65 end.

(** The printed pairs, by the loop
    [for (i = 0; i < WINDOW_SIZE && base + i < next_seq; i++)]. *)
Fixpoint print_loop (xs : list Z) (s : sr_sender_t) : option (list (Z * Z)) :=
  match xs with
  | [] => Some []
  | i :: xs =>
      if s_base s +₃₂ i <? s_next_seq s then
        let seq := s_base s +₃₂ i in
        entry ← s_window s !! slot seq;
        rest ← print_loop xs s;
        Some ((seq, state_letter (se_state entry)) :: rest)
      else Some []
  end.

Definition print_sender_window (s : sr_sender_t) : option (list (Z * Z)) :=
  print_loop (seqZ 0 WINDOW_SIZE) s.

(** ** The abstraction relation *)

(** What slot [k] of the window holds when the numbers below [next] have
    been sent and those of [A] acknowledged. *)
Definition entry_rel (f : list Z) (next : Z) (A : gset Z) (k : Z) (e : send_window_entry_t) :
    Prop :=
  length (se_data e) = Z.to_nat CHUNK_SIZE ∧
  if decide (k < next) then
    se_seq_num e = k ∧ se_data_len e = Z.of_nat (length (chunk f k)) ∧
    take (length (chunk f k)) (se_data e) = chunk f k ∧
    0 ≤ se_retries e ≤ MAX_RETRIES ∧
    se_state e = (if decide (k ∈ A) then PKT_ACKED else PKT_PENDING)
  else se_state e = PKT_EMPTY.

Record sender_core (f : list Z) (s : sr_sender_t) (A : gset Z) : Prop := {
  sc_data : s_file_data s = f;
  sc_size : s_file_size s = Z.of_nat (length f);
  sc_max : Z.of_nat (length f) < max_file;
  sc_num : s_num_chunks s = chunks_of (Z.of_nat (length f));
  sc_wlen : length (s_window s) = 64%nat;
  sc_base : 0 ≤ s_base s ≤ s_next_seq s;
  sc_next : s_next_seq s ≤ s_num_chunks s ∧ s_next_seq s ≤ s_base s + WINDOW_SIZE;
  sc_slots : ∀ k, s_base s ≤ k < s_base s + WINDOW_SIZE →
    ∃ e, s_window s !! slot k = Some e ∧ entry_rel f (s_next_seq s) A k e;
  sc_below : ∀ k, 0 ≤ k < s_base s → k ∈ A;
  sc_sent : ∀ k, k ∈ A → 0 ≤ k < s_next_seq s;
  sc_count : s_chunks_acked s = Z.of_nat (size A);
}.

(** Between two operations the window has slid as far as it can: [base] is
    the smallest number that is not acknowledged. *)
Definition sender_rel (f : list Z) (s : sr_sender_t) (A : gset Z) : Prop :=
  sender_core f s A ∧ s_base s ∉ A.

Lemma sender_num_max f s A : sender_core f s A → 0 ≤ s_num_chunks s ≤ 4194303.
Proof. intros Hc. rewrite (sc_num _ _ _ Hc). apply chunks_of_max. pose proof (sc_max _ _ _ Hc). lia. Qed.

(** ** Initialisation *)

#[local] Arguments replicate : simpl never.

Lemma sender_init_rel f fd peer sender :
  Z.of_nat (length f) < max_file →
  ∃ s, sr_sender_init (Some sender) fd (Some peer) (Some f) (Z.of_nat (length f)) true
         = (0, Some s) ∧
    sender_rel f s ∅ ∧ s_peer_addr s = peer ∧ s_next_seq s = 0.
Proof.
  intros Hmax. eexists. split; [done|]. simpl.
  pose proof (chunks_of_max (Z.of_nat (length f)) ltac:(lia)) as Hm.
  unfold max_file in Hmax. split; [|done]. split; [|set_solver].
  split; simpl; unfold WINDOW_SIZE; try done; try lia.
  - unfold CHUNK_SIZE, uwrap. rewrite Zminus_mod_idemp_l.
    change (_ `mod` 2 ^ 32) with (u32 (Z.of_nat (length f) + 1024 - 1)). by usmall.
  - unfold CHUNK_SIZE, uwrap. rewrite Zminus_mod_idemp_l.
    change (_ `mod` 2 ^ 32) with (u32 (Z.of_nat (length f) + 1024 - 1)). usmall.
    unfold chunks_of, CHUNK_SIZE in Hm. lia.
  - intros k Hk. exists empty_entry. split.
    + apply lookup_replicate_2. apply (slot_lt k).
    + split; [apply length_replicate|]. by rewrite decide_False by lia.
Qed.

(** ** Sending *)

(** The datagram that carries chunk [k]. *)
Definition data_dg `{Host} (f : list Z) (peer : sockaddr_in) (k : Z) : datagram :=
  {| dg_dest := peer; dg_bytes := data_packet k (chunk f k) |}.

Section sender_facts.
Context `{Host}.
Implicit Types (f : list Z) (s : sr_sender_t) (A : gset Z).

Lemma chunk_len_at_chunk f s A k :
  sender_core f s A → 0 ≤ k < s_num_chunks s →
  k *₃₂ CHUNK_SIZE = k * CHUNK_SIZE ∧
  chunk_len_at s k = Z.of_nat (length (chunk f k)) ∧
  mread f (k * CHUNK_SIZE) (chunk_len_at s k) = Some (chunk f k).
Proof.
  intros Hc Hk. pose proof (sender_num_max _ _ _ Hc) as Hn. pose proof (sc_max _ _ _ Hc).
  pose proof (chunks_of_bounds (Z.of_nat (length f)) ltac:(lia)) as Hb.
  rewrite <-(sc_num _ _ _ Hc) in Hb.
  pose proof (length_chunk f k) as Hl. unfold max_file, CHUNK_SIZE in *.
  assert (k * 1024 ≤ Z.of_nat (length f)) by lia.
  assert (chunk_len_at s k = Z.of_nat (length (chunk f k))) as Hlen.
  { unfold chunk_len_at, CHUNK_SIZE. rewrite (sc_size _ _ _ Hc), Hl by lia. usmall.
    case_cond as E; usmall; lia. }
  split_and!; [by usmall|done|]. rewrite Hlen, Hl, mread_Some by lia.
  f_equal. unfold chunk, CHUNK_SIZE.
  destruct (Z.le_ge_cases 1024 (Z.of_nat (length f) - k * 1024)).
  - f_equal. lia.
  - rewrite !take_ge; rewrite ?length_drop; try done; lia.
Qed.

(** The entry [sr_sender_send_window] leaves in the slot of [k]. *)
Definition fresh_entry f now k data : send_window_entry_t := {|
  se_state := PKT_PENDING; se_seq_num := k; se_data := data;
  se_data_len := Z.of_nat (length (chunk f k)); se_send_time_ms := now; se_retries := 0;
|}.

Lemma core_send f s A now data :
  sender_core f s A →
  s_next_seq s < s_num_chunks s → s_next_seq s < s_base s + WINDOW_SIZE →
  length data = Z.to_nat CHUNK_SIZE →
  take (length (chunk f (s_next_seq s))) data = chunk f (s_next_seq s) →
  sender_core f (upd_sender s (s_base s) (s_next_seq s + 1)
    (<[slot (s_next_seq s) := fresh_entry f now (s_next_seq s) data]> (s_window s))
    (s_chunks_acked s)) A.
Proof.
  intros Hc Hn Hw Hd Ht. destruct Hc. split; simpl; try done; try lia.
  - by rewrite length_insert.
  - intros k Hk. destruct (decide (k = s_next_seq s)) as [->|Hne].
    + exists (fresh_entry f now (s_next_seq s) data).
      split; [by apply slot_insert_eq|]. split; [done|].
      rewrite decide_True by lia. split_and!; try done.
      rewrite decide_False; [done|]. intros Hin%sc_sent0. lia.
    + destruct (sc_slots0 k Hk) as (e & He & Hl & Hr). exists e.
      rewrite (slot_insert_ne _ (s_base s)) by lia. split; [done|]. split; [done|].
      destruct (decide (k < s_next_seq s)); [rewrite decide_True by lia|rewrite decide_False by lia];
        done.
  - intros k Hk. specialize (sc_sent0 k Hk). lia.
Qed.

(** The slot of [next_seq] is free as long as it is in the window. *)
Lemma core_next_free f s A :
  sender_core f s A → s_next_seq s < s_base s + WINDOW_SIZE →
  ∃ e, s_window s !! slot (s_next_seq s) = Some e ∧ se_state e = PKT_EMPTY ∧
    length (se_data e) = Z.to_nat CHUNK_SIZE.
Proof.
  intros Hc Hw. pose proof (sc_base _ _ _ Hc).
  destruct (sc_slots _ _ _ Hc (s_next_seq s)) as (e & He & Hl & Hr); [lia|].
  exists e. rewrite decide_False in Hr by lia. done.
Qed.

(** Where [next_seq] stops. *)
Definition send_limit s : Z := (s_base s + WINDOW_SIZE) `min` s_num_chunks s.

Lemma send_window_loop_spec fuel now f s A env packets :
  sender_core f s A →
  (Z.to_nat (send_limit s - s_next_seq s) < fuel)%nat →
  ∃ w' env',
    let s' := upd_sender s (s_base s) (send_limit s) w' (s_chunks_acked s) in
    send_window_loop fuel now s env packets
      = Some (packets + (send_limit s - s_next_seq s), s', env') ∧
    sender_core f s' A ∧
    sends (data_dg f (s_peer_addr s) <$> seqZ (s_next_seq s) (send_limit s - s_next_seq s)) env env' ∧
    (∀ k, s_base s ≤ k < s_next_seq s → w' !! slot k = s_window s !! slot k) ∧
    (∀ k, s_next_seq s ≤ k < send_limit s → ∃ data, w' !! slot k = Some (fresh_entry f now k data)).
Proof.
  revert s env packets. induction fuel as [|fuel IH]; intros s env packets Hc Hfuel; [lia|].
  pose proof (sender_num_max _ _ _ Hc). pose proof (sc_base _ _ _ Hc). pose proof (sc_next _ _ _ Hc).
  unfold send_limit, WINDOW_SIZE in *. cbn [send_window_loop].
  unfold WINDOW_SIZE. usmall. case_cond as Econd.
  - (* one more packet *)
    destruct (core_next_free f s A Hc) as (e & He & Hst & Hel); [unfold WINDOW_SIZE; lia|].
    destruct (chunk_len_at_chunk f s A (s_next_seq s) Hc) as (Hoff & Hlen & Hrd); [lia|].
    pose proof (length_chunk_le f (s_next_seq s)) as Hle. unfold CHUNK_SIZE in Hle.
    rewrite He. bind_step. rewrite bool_decide_eq_false_2 by (intros Hne; by apply Hne).
    rewrite Hoff, (sc_data _ _ _ Hc), Hrd. bind_step.
    rewrite Hlen, build_data_packet_spec by (unfold CHUNK_SIZE; lia).
    rewrite Nat2Z.id, take_ge by lia. bind_step.
    rewrite mwrite_Some by (rewrite ?Hel; unfold CHUNK_SIZE; lia). bind_step.
    usmall.
    set (data := take (Z.to_nat 0) (se_data e) ++ _).
    set (env1 := env_send _ _ _).
    destruct (IH (upd_sender s (s_base s) (s_next_seq s + 1)
                (<[slot (s_next_seq s) := fresh_entry f now (s_next_seq s) data]> (s_window s))
                (s_chunks_acked s)) env1 (packets + 1)) as (w' & env' & Hrun & Hc' & Hs & Hold & Hnew).
    + apply core_send; unfold WINDOW_SIZE; try done; try lia.
      * unfold data. rewrite take_0, app_nil_l, length_app, length_drop, Hel. unfold CHUNK_SIZE. lia.
      * unfold data. rewrite take_0, app_nil_l. by apply take_app_length.
    + simpl. lia.
    + simpl in *. exists w', env'. split_and!; try done.
      * fold (fresh_entry f now (s_next_seq s) data). rewrite Hrun. f_equal. f_equal. f_equal. lia.
      * rewrite seqZ_cons by lia. cbn [fmap list_fmap].
        apply (sends_cons_bump (s_lossy_link s) 1 0 0).
        replace (Z.succ (s_next_seq s)) with (s_next_seq s + 1) by lia.
        replace (Z.pred _) with ((s_base s + 64) `min` s_num_chunks s - (s_next_seq s + 1)) by lia.
        exact Hs.
      * intros k Hk. rewrite Hold by lia. apply (slot_insert_ne _ (s_base s)); unfold WINDOW_SIZE; lia.
      * intros k Hk. destruct (decide (k = s_next_seq s)) as [->|]; [|apply Hnew; lia].
        exists data. rewrite Hold by lia. apply slot_insert_eq, Hc.
  - (* the window is full or the file is sent *)
    exists (s_window s), env.
    assert ((s_base s + 64) `min` s_num_chunks s = s_next_seq s) as -> by lia.
    rewrite Z.sub_diag, Z.add_0_r. destruct s; simpl in *.
    split_and!; try done; [apply sends_nil|lia].
Qed.

(** ** Acknowledgements *)

(** Marking a pending packet. *)
Lemma core_ack f s A k e :
  sender_core f s A → s_base s ≤ k < s_next_seq s → k ∉ A →
  s_window s !! slot k = Some e →
  sender_core f (upd_sender s (s_base s) (s_next_seq s)
    (<[slot k := set_entry_state e PKT_ACKED]> (s_window s)) (s_chunks_acked s + 1)) ({[k]} ∪ A).
Proof.
  intros Hc Hk HkA He. destruct Hc. split; simpl; try done; try lia.
  - by rewrite length_insert.
  - intros j Hj. destruct (sc_slots0 j Hj) as (ej & Hej & Hl & Hr).
    destruct (decide (j = k)) as [->|Hne].
    + assert (ej = e) as -> by congruence. exists (set_entry_state e PKT_ACKED).
      split; [by apply slot_insert_eq|]. split; [done|].
      rewrite decide_True in Hr by lia. rewrite decide_True by lia. simpl.
      rewrite decide_True by set_solver. naive_solver.
    + exists ej. rewrite (slot_insert_ne _ (s_base s)) by lia. split; [done|]. split; [done|].
      case_decide; [|done]. destruct Hr as (? & ? & ? & ? & ->). split_and!; try done; try lia.
      apply decide_ext. set_solver.
  - set_solver.
  - intros j [->%elem_of_singleton|Hj]%elem_of_union; [lia|]. auto.
  - rewrite size_union, size_singleton, sc_count0 by set_solver. lia.
Qed.

(** Sliding over an acknowledged packet. *)
Lemma core_slide f s A e :
  sender_core f s A → s_base s ∈ A → s_window s !! slot (s_base s) = Some e →
  sender_core f (upd_sender s (s_base s + 1) (s_next_seq s)
    (<[slot (s_base s) := set_entry_state e PKT_EMPTY]> (s_window s)) (s_chunks_acked s)) A.
Proof.
  intros Hc HbA He. pose proof (sc_sent _ _ _ Hc _ HbA) as Hb.
  destruct (sc_slots _ _ _ Hc (s_base s)) as (e' & He' & Hl & _); [unfold WINDOW_SIZE; lia|].
  assert (e' = e) as -> by congruence.
  destruct Hc. split; simpl; try done; try (unfold WINDOW_SIZE in *; lia).
  - by rewrite length_insert.
  - intros k Hk. destruct (decide (k = s_base s + WINDOW_SIZE)) as [->|Hne].
    + exists (set_entry_state e PKT_EMPTY). rewrite slot_wrap.
      split; [by apply slot_insert_eq|]. split; [done|]. by rewrite decide_False by lia.
    + rewrite (slot_insert_ne _ (s_base s)) by lia. apply sc_slots0. lia.
  - intros k Hk. destruct (decide (k = s_base s)) as [->|]; [done|]. apply sc_below0. lia.
Qed.

Lemma core_base_state f s A :
  sender_core f s A → ∃ e, s_window s !! slot (s_base s) = Some e ∧
    (se_state e = PKT_ACKED ↔ s_base s ∈ A).
Proof.
  intros Hc. destruct (sc_slots _ _ _ Hc (s_base s)) as (e & He & _ & Hr); [unfold WINDOW_SIZE; lia|].
  exists e. split; [done|]. case_decide as Hd.
  - destruct Hr as (_ & _ & _ & _ & ->). by case_decide.
  - rewrite Hr. split; [done|]. intros Hin%(sc_sent _ _ _ Hc). lia.
Qed.

Lemma slide_loop_spec fuel f s A :
  sender_core f s A → (Z.to_nat (s_next_seq s - s_base s) < fuel)%nat →
  ∃ base' w',
    let s' := upd_sender s base' (s_next_seq s) w' (s_chunks_acked s) in
    slide_loop fuel s = Some s' ∧ sender_rel f s' A ∧ s_base s ≤ base' ∧
    (∀ k, base' ≤ k < s_next_seq s → w' !! slot k = s_window s !! slot k).
Proof.
  revert s. induction fuel as [|fuel IH]; intros s Hc Hfuel; [lia|]. cbn [slide_loop].
  pose proof (sender_num_max _ _ _ Hc). pose proof (sc_base _ _ _ Hc). pose proof (sc_next _ _ _ Hc).
  assert (s_base s ∉ A →
    ∃ base' w', let s' := upd_sender s base' (s_next_seq s) w' (s_chunks_acked s) in
      Some s = Some s' ∧ sender_rel f s' A ∧ s_base s ≤ base' ∧
      (∀ k, base' ≤ k < s_next_seq s → w' !! slot k = s_window s !! slot k)) as Hstop.
  { intros Hni. exists (s_base s), (s_window s). destruct s; simpl in *. done. }
  case_cond as Econd; [|apply Hstop; intros Hin%(sc_sent _ _ _ Hc); lia].
  destruct (core_base_state f s A Hc) as (e & He & Hst). rewrite He. bind_step.
  case_bool_decide as Hd; [apply Hstop; by rewrite <-Hst|].
  assert (s_base s ∈ A) as HbA by (by apply Hst).
  pose proof (sc_sent _ _ _ Hc _ HbA). usmall.
  destruct (IH _ (core_slide f s A e Hc HbA He)) as (b' & w' & Hrun & Hrel & Hle & Hsame);
    [simpl; lia|]. simpl in *.
  exists b', w'. split_and!; try done; [lia|]. intros k Hk. rewrite Hsame by lia.
  apply (slot_insert_ne _ (s_base s)); unfold WINDOW_SIZE in *; lia.
Qed.

#[local] Arguments slide_loop : simpl never.
#[local] Arguments send_window_loop : simpl never.

(** The numbers acknowledged after an ACK packet with number [ack]. *)
Definition ack_effect s (hdr : udp_header_t) A : gset Z :=
  let ack := ntohl (uh_ack_num hdr) in
  if decide (uh_msg_type hdr = UDP_ACK ∧ 0 ≤ ack < s_next_seq s) then {[ack]} ∪ A else A.

Lemma handle_ack_spec f s A hdr env :
  sender_rel f s A → 0 ≤ ntohl (uh_ack_num hdr) →
  ∃ base' w' acked' env',
    let s' := upd_sender s base' (s_next_seq s) w' acked' in
    sr_sender_handle_ack s hdr env = Some (0, s', env') ∧
    sender_rel f s' (ack_effect s hdr A) ∧ s_base s ≤ base' ∧
    env_net env' = env_net env ∧ env_link env' = env_link env.
Proof.
  intros [Hc Hb] Hack. unfold ack_effect. set (ack := ntohl (uh_ack_num hdr)) in *.
  pose proof (sender_num_max _ _ _ Hc). pose proof (sc_base _ _ _ Hc). pose proof (sc_next _ _ _ Hc).
  unfold sr_sender_handle_ack. fold ack. unfold WINDOW_SIZE in *. usmall.
  assert (∀ A', A' = A → ∃ base' w' acked' env',
      let s' := upd_sender s base' (s_next_seq s) w' acked' in
      Some (0, s, env) = Some (0, s', env') ∧ sender_rel f s' A' ∧ s_base s ≤ base' ∧
      env_net env' = env_net env ∧ env_link env' = env_link env) as Hsame.
  { intros A' ->. exists (s_base s), (s_window s), (s_chunks_acked s), env.
    destruct s; simpl in *. done. }
  case_cond as E1; [apply Hsame|]. { case_decide; [|done].
    pose proof (sc_below _ _ _ Hc ack ltac:(lia)). set_solver. }
  case_cond as E2; [apply Hsame|]. { rewrite decide_False; [done|]. intros [? _]. lia. }
  case_cond as E3; [apply Hsame|]. { rewrite decide_False; [done|]. lia. }
  destruct (sc_slots _ _ _ Hc ack) as (e & He & Hl & Hr); [unfold WINDOW_SIZE; lia|].
  rewrite He. bind_step.
  destruct (bool_decide (se_state e = PKT_PENDING) && (se_seq_num e =? ack)) eqn:Ep.
  - (* a pending packet is acknowledged *)
    apply andb_prop in Ep as [Ep1%bool_decide_eq_true Ep2].
    case_decide as Hlt; [|congruence]. destruct Hr as (_ & _ & _ & _ & Hst).
    rewrite Ep1 in Hst. case_decide as HkA; [done|].
    pose proof (core_ack f s A ack e Hc ltac:(lia) HkA He) as Hc1.
    pose proof (subset_upto_size (s_next_seq s) A ltac:(lia) (sc_sent _ _ _ Hc)) as [Hsz _].
    rewrite u32_small by (rewrite (sc_count _ _ _ Hc); lia).
    destruct (slide_loop_spec window_fuel f _ _ Hc1) as (b' & w' & Hrun & Hrel & Hle & _);
      [simpl; unfold window_fuel, WINDOW_SIZE; lia|].
    rewrite Hrun. bind_step. simpl in *.
    eexists b', w', _, _. split; [done|]. rewrite decide_True by lia. done.
  - (* a number that is not pending *)
    destruct (slide_loop_spec window_fuel f s A Hc) as (b' & w' & Hrun & Hrel & Hle & _);
      [unfold window_fuel, WINDOW_SIZE; lia|].
    rewrite Hrun. bind_step. simpl in *.
    eexists b', w', _, _. split; [done|]. split_and!; try done.
    destruct (decide (_ ∧ _)) as [Hlt|]; [|done]. replace ({[ack]} ∪ A) with A; [done|].
    rewrite decide_True in Hr by lia.
    destruct Hr as (Hseq & _ & _ & _ & Hst). case_decide; [set_solver|].
    rewrite Hst, Hseq, bool_decide_eq_true_2, Z.eqb_refl in Ep by done. done.
Qed.

(** The slots above the new base are left alone, but for the one acknowledged. *)
Lemma handle_ack_window f s A hdr env n s' env' k :
  sender_rel f s A → 0 ≤ ntohl (uh_ack_num hdr) →
  sr_sender_handle_ack s hdr env = Some (n, s', env') →
  s_base s' ≤ k < s_next_seq s → k ≠ ntohl (uh_ack_num hdr) →
  s_window s' !! slot k = s_window s !! slot k.
Proof.
  intros [Hc Hb] Hpos. set (ack := ntohl (uh_ack_num hdr)) in *. unfold sr_sender_handle_ack. fold ack.
  pose proof (sender_num_max _ _ _ Hc). pose proof (sc_base _ _ _ Hc). pose proof (sc_next _ _ _ Hc).
  unfold WINDOW_SIZE in *. usmall.
  case_cond as E1; [by intros [= <- <- <-]|]. case_cond as E2; [by intros [= <- <- <-]|].
  case_cond as E3; [by intros [= <- <- <-]|].
  destruct (sc_slots _ _ _ Hc ack) as (e & He & Hl & Hr); [unfold WINDOW_SIZE; lia|].
  rewrite He. bind_step.
  destruct (bool_decide (se_state e = PKT_PENDING) && (se_seq_num e =? ack)) eqn:Ep.
  - apply andb_prop in Ep as [Ep1%bool_decide_eq_true Ep2]. case_decide as Hlt; [|congruence].
    destruct Hr as (_ & _ & _ & _ & Hst). rewrite Ep1 in Hst. case_decide as HkA; [done|].
    pose proof (core_ack f s A ack e Hc ltac:(lia) HkA He) as Hc1.
    pose proof (subset_upto_size (s_next_seq s) A ltac:(lia) (sc_sent _ _ _ Hc)) as [Hsz _].
    rewrite u32_small by (rewrite (sc_count _ _ _ Hc); lia).
    destruct (slide_loop_spec window_fuel f _ _ Hc1) as (b' & w' & Hrun & Hrel & Hle & Hsame);
      [simpl; unfold window_fuel, WINDOW_SIZE; lia|].
    rewrite Hrun. bind_step. intros [= <- <- <-]. simpl in *. intros Hk Hne. rewrite Hsame by lia.
    apply (slot_insert_ne _ (s_base s)); unfold WINDOW_SIZE; lia.
  - destruct (slide_loop_spec window_fuel f s A Hc) as (b' & w' & Hrun & Hrel & Hle & Hsame);
      [unfold window_fuel, WINDOW_SIZE; lia|].
    rewrite Hrun. bind_step. intros [= <- <- <-] Hk Hne. simpl in *. apply Hsame. lia.
Qed.

(** ** Timeouts *)

(** Packet [k] has timed out: it is pending and was sent at least
    [TIMEOUT_MS] ago; and it has no retransmission left. *)
Definition due (w : list send_window_entry_t) now k : bool :=
  match w !! slot k with
  | Some e => bool_decide (se_state e = PKT_PENDING) && (TIMEOUT_MS <=? now -₆₄ se_send_time_ms e)
  | None => false
  end.

Definition exhausted (w : list send_window_entry_t) k : bool :=
  match w !! slot k with Some e => MAX_RETRIES <=? se_retries e | None => false end.

(** The elements before the first one that satisfies [p]. *)
Fixpoint before (p : Z → bool) (l : list Z) : list Z :=
  match l with [] => [] | x :: l => if p x then [] else x :: before p l end.

Definition bump_entry now (e : send_window_entry_t) : send_window_entry_t := {|
  se_state := se_state e; se_seq_num := se_seq_num e; se_data := se_data e;
  se_data_len := se_data_len e; se_send_time_ms := now; se_retries := se_retries e + 1;
|}.

Lemma before_elem p l k : k ∈ before p l → k ∈ l.
Proof. induction l as [|x l IH]; simpl; [done|]. case_cond as E; set_solver. Qed.

Lemma before_not p l k : k ∈ before p l → p k = false.
Proof.
  induction l as [|x l IH]; simpl; [by intros ?%not_elem_of_nil|].
  destruct (p x) eqn:Hp; [by intros ?%not_elem_of_nil|]. by intros [->|]%elem_of_cons; [|apply IH].
Qed.

Lemma before_all p l : existsb p l = false → before p l = l.
Proof. induction l as [|x l IH]; simpl; [done|]. destruct (p x); simpl; [done|]. by intros ->%IH. Qed.

Lemma before_split p l :
  existsb p l = true →
  ∃ k rest, l = before p l ++ k :: rest ∧ p k = true ∧ existsb p (before p l) = false.
Proof.
  induction l as [|x l IH]; simpl; [done|]. destruct (p x) eqn:Hp; simpl; [by exists x, l|].
  intros (k & rest & Heq & Hk & Hno)%IH. exists k, rest. rewrite Hp. simpl.
  split; [by f_equal|done].
Qed.

Lemma core_bump f s A k e now :
  sender_core f s A → s_base s ≤ k < s_next_seq s → s_window s !! slot k = Some e →
  se_retries e < MAX_RETRIES →
  sender_core f (upd_sender s (s_base s) (s_next_seq s)
    (<[slot k := bump_entry now e]> (s_window s)) (s_chunks_acked s)) A.
Proof.
  intros Hc Hk He Hr. destruct Hc. split; simpl; try done.
  - by rewrite length_insert.
  - intros j Hj. destruct (sc_slots0 j Hj) as (ej & Hej & Hrel).
    destruct (decide (j = k)) as [->|Hne].
    + assert (ej = e) as -> by congruence. exists (bump_entry now e).
      split; [by apply slot_insert_eq|]. unfold entry_rel in *.
      rewrite decide_True in * by lia. simpl. naive_solver lia.
    + exists ej. by rewrite (slot_insert_ne _ (s_base s)) by lia.
Qed.

(** A packet the loop sends again is the packet of its chunk. *)
Lemma core_rebuild f s A k e :
  sender_core f s A → s_base s ≤ k < s_next_seq s → s_window s !! slot k = Some e →
  se_seq_num e = k ∧
  build_data_packet (se_seq_num e) (se_data e) (se_data_len e) = Some (data_packet k (chunk f k)).
Proof.
  intros Hc Hk He. pose proof (sc_next _ _ _ Hc).
  destruct (sc_slots _ _ _ Hc k) as (e' & He' & Hl & Hr); [lia|].
  assert (e' = e) as -> by congruence. rewrite decide_True in Hr by lia.
  destruct Hr as (Hseq & Hlen & Htake & _). split; [done|].
  pose proof (length_chunk_le f k). rewrite Hseq, Hlen, build_data_packet_spec by lia.
  by rewrite Nat2Z.id, Htake.
Qed.

Lemma check_timeouts_loop_spec seqs now f w0 s A env n :
  sender_core f s A → NoDup seqs →
  (∀ k, k ∈ seqs → s_base s ≤ k < s_next_seq s ∧ s_window s !! slot k = w0 !! slot k) →
  let dues := List.filter (due w0 now) seqs in
  let served := before (exhausted w0) dues in
  ∃ w' env',
    let s' := upd_sender s (s_base s) (s_next_seq s) w' (s_chunks_acked s) in
    check_timeouts_loop seqs now s env n = Some
      (if existsb (exhausted w0) dues then -1 else n + Z.of_nat (length dues), s', env') ∧
    sender_core f s' A ∧ sends (data_dg f (s_peer_addr s) <$> served) env env' ∧
    (∀ k, s_base s ≤ k < s_next_seq s → w' !! slot k =
       if decide (k ∈ served) then bump_entry now <$> s_window s !! slot k
       else s_window s !! slot k).
Proof.
  revert s env n. induction seqs as [|k seqs IH]; intros s env n Hc Hnd Hin; simpl.
  { exists (s_window s), env. split_and!; try done.
    - rewrite Z.add_0_r. by destruct s.
    - by destruct s.
    - apply sends_nil. }
  apply NoDup_cons in Hnd as [Hk Hnd].
  destruct (Hin k) as [Hkw Hk0]; [set_solver|].
  destruct (IH s env n Hc Hnd) as (wc & envc & Hcont); [set_solver|].
  pose proof (sc_next _ _ _ Hc).
  destruct (sc_slots _ _ _ Hc k) as (e & He & _); [lia|].
  destruct (core_rebuild f s A k e Hc Hkw He) as [Hseq Hpkt].
  assert (due w0 now k = bool_decide (se_state e = PKT_PENDING) &&
            (TIMEOUT_MS <=? now -₆₄ se_send_time_ms e)) as -> by (unfold due; by rewrite <-Hk0, He).
  rewrite He. bind_step.
  destruct (decide (se_state e = PKT_PENDING)) as [Hp|Hp]; cycle 1.
  { rewrite (bool_decide_eq_true_2 (se_state e ≠ _)) by done.
    rewrite bool_decide_eq_false_2 by done. simpl. by exists wc, envc. }
  rewrite (bool_decide_eq_false_2 (se_state e ≠ _)) by (intros Hne; by apply Hne).
  rewrite bool_decide_eq_true_2, (proj2 (Z.eqb_eq _ _) Hseq) by done. simpl.
  destruct (TIMEOUT_MS <=? _) eqn:Et; [|by exists wc, envc]. simpl.
  assert (exhausted w0 k = (MAX_RETRIES <=? se_retries e)) as ->
    by (unfold exhausted; by rewrite <-Hk0, He).
  destruct (MAX_RETRIES <=? se_retries e) eqn:Er; simpl.
  { exists (s_window s), env. split_and!; try done; [by destruct s|by destruct s|apply sends_nil]. }
  rewrite Hpkt. bind_step. set (env1 := env_send _ _ _).
  fold (bump_entry now e).
  destruct (IH (upd_sender s (s_base s) (s_next_seq s)
              (<[slot k := bump_entry now e]> (s_window s)) (s_chunks_acked s)) env1 (n + 1))
    as (w' & env' & Hrun & Hc' & Hs & Hw); [apply core_bump; done || lia|done| |].
  { intros j Hj. destruct (Hin j) as [Hjw Hj0]; [set_solver|]. split; [done|]. simpl.
    rewrite (slot_insert_ne _ (s_base s)); [done|lia|lia|]. by intros ->. }
  simpl in *. exists w', env'. split_and!; try done.
  - rewrite Hrun. case_cond as Ee; [done|]. do 3 f_equal. lia.
  - apply (sends_cons_bump (s_lossy_link s) 1 1 0). exact Hs.
  - intros j Hj. rewrite (Hw j Hj).
    assert (k ∉ before (exhausted w0) (List.filter (due w0 now) seqs)) as Hkb.
    { intros [Hb _]%before_elem%list_elem_of_In%filter_In. by apply Hk, list_elem_of_In. }
    destruct (decide (j = k)) as [->|Hne].
    + rewrite decide_False, decide_True by set_solver.
      rewrite slot_insert_eq by apply Hc. by rewrite He.
    + rewrite (slot_insert_ne _ (s_base s)) by lia. apply decide_ext. set_solver.
Qed.

(** ** The operations on the abstract view *)

Lemma send_window_spec now f s A env :
  sender_rel f s A →
  ∃ w' env',
    let s' := upd_sender s (s_base s) (send_limit s) w' (s_chunks_acked s) in
    sr_sender_send_window now s env = Some (send_limit s - s_next_seq s, s', env') ∧
    sender_rel f s' A ∧
    sends (data_dg f (s_peer_addr s) <$> seqZ (s_next_seq s) (send_limit s - s_next_seq s)) env env' ∧
    (∀ k, s_base s ≤ k < s_next_seq s → w' !! slot k = s_window s !! slot k) ∧
    (∀ k, s_next_seq s ≤ k < send_limit s → ∃ data, w' !! slot k = Some (fresh_entry f now k data)).
Proof.
  intros [Hc Hb]. pose proof (sc_base _ _ _ Hc).
  destruct (send_window_loop_spec window_fuel now f s A env 0 Hc) as (w' & env' & Hrun & Hc' & Hrest).
  { unfold window_fuel, send_limit, WINDOW_SIZE. lia. }
  exists w', env'. done.
Qed.

Lemma check_timeouts_spec now f s A env :
  sender_rel f s A →
  let dues := List.filter (due (s_window s) now) (seqZ (s_base s) (s_next_seq s - s_base s)) in
  let served := before (exhausted (s_window s)) dues in
  ∃ w' env',
    let s' := upd_sender s (s_base s) (s_next_seq s) w' (s_chunks_acked s) in
    sr_sender_check_timeouts s now env = Some
      (if existsb (exhausted (s_window s)) dues then -1 else Z.of_nat (length dues), s', env') ∧
    sender_rel f s' A ∧ sends (data_dg f (s_peer_addr s) <$> served) env env' ∧
    (∀ k, s_base s ≤ k < s_next_seq s → w' !! slot k =
       if decide (k ∈ served) then bump_entry now <$> s_window s !! slot k
       else s_window s !! slot k).
Proof.
  intros [Hc Hb].
  destruct (check_timeouts_loop_spec (seqZ (s_base s) (s_next_seq s - s_base s)) now f
              (s_window s) s A env 0 Hc) as (w' & env' & Hrun & Hc' & Hrest).
  - apply NoDup_seqZ.
  - intros k Hk%elem_of_seqZ. split; [lia|done].
  - exists w', env'. done.
Qed.

Lemma complete_spec f s A :
  sender_rel f s A →
  (sr_sender_is_complete s = true ↔ A = upto (s_num_chunks s)) ∧
  (sr_sender_is_complete s = true ↔ s_base s = s_num_chunks s).
Proof.
  intros [Hc Hb]. pose proof (sender_num_max _ _ _ Hc). pose proof (sc_base _ _ _ Hc).
  pose proof (sc_next _ _ _ Hc).
  assert (∀ k, k ∈ A → 0 ≤ k < s_num_chunks s) as HA
    by (intros k Hk%(sc_sent _ _ _ Hc); lia).
  destruct (subset_upto_size (s_num_chunks s) A ltac:(lia) HA) as [Hsz Hall].
  unfold sr_sender_is_complete. rewrite (sc_count _ _ _ Hc), Z.leb_le.
  assert (s_num_chunks s ≤ Z.of_nat (size A) ↔ A = upto (s_num_chunks s)) as Heq.
  { split; [done|]. intros ->. rewrite size_upto; lia. }
  split; [done|]. rewrite Heq. split.
  - intros ->. rewrite elem_of_upto in Hb. lia.
  - intros Hn. apply set_eq. intros k. rewrite elem_of_upto. split; [apply HA|].
    rewrite <-Hn. apply (sc_below _ _ _ Hc).
Qed.
End sender_facts.

(** ** Runs of the sender against an arbitrary peer *)

Section sender_runs.
Context `{Host}.
Implicit Types (f : list Z) (s : sr_sender_t) (A : gset Z) (peer : sockaddr_in).

(** The event loop calls the three operations in any order, with any clock
    and on any header that claims to be an acknowledgement. *)
Inductive sender_step : sr_sender_t * sr_env → sr_sender_t * sr_env → Prop :=
  | sstep_send now s env n s' env' :
      sr_sender_send_window now s env = Some (n, s', env') →
      sender_step (s, env) (s', env')
  | sstep_ack hdr s env n s' env' :
      0 ≤ ntohl (uh_ack_num hdr) →
      sr_sender_handle_ack s hdr env = Some (n, s', env') →
      sender_step (s, env) (s', env')
  | sstep_timeout now s env n s' env' :
      sr_sender_check_timeouts s now env = Some (n, s', env') →
      sender_step (s, env) (s', env').

Definition sender_reach f peer (se : sr_sender_t * sr_env) : Prop :=
  ∃ fd s0 s env,
    Z.of_nat (length f) < max_file ∧ env_net env = [] ∧
    sr_sender_init (Some s0) fd (Some peer) (Some f) (Z.of_nat (length f)) true = (0, Some s) ∧
    rtc sender_step (s, env) se.

(** What every reachable sender satisfies. *)
Definition sender_good f peer (se : sr_sender_t * sr_env) : Prop :=
  (∃ A, sender_rel f se.1 A) ∧ s_peer_addr se.1 = peer ∧
  (∀ dg, dg ∈ env_net se.2 →
     ∃ k, 0 ≤ k < chunks_of (Z.of_nat (length f)) ∧ dg = data_dg f peer k).

Lemma sender_good_sends f peer s env s' env' ks A :
  sender_good f peer (s, env) → sender_rel f s' A → s_peer_addr s' = s_peer_addr s →
  sends (data_dg f (s_peer_addr s) <$> ks) env env' →
  (∀ k, k ∈ ks → 0 ≤ k < s_num_chunks s') → sender_good f peer (s', env').
Proof.
  intros (_ & Hp & Hnet) Hrel Hp' Hs Hks. simpl in *. split_and!; simpl; [by exists A|congruence|].
  intros dg [Hdg|Hdg]%(sends_elem _ _ _ _ Hs); [by apply Hnet|].
  apply list_elem_of_fmap in Hdg as (k & -> & Hk). exists k.
  rewrite <-(sc_num _ _ _ (proj1 Hrel)), Hp. auto.
Qed.

Lemma sender_step_good f peer se se' :
  sender_step se se' → sender_good f peer se → sender_good f peer se'.
Proof.
  intros Hstep Hg. pose proof Hg as ((A & Hrel) & Hp & Hnet).
  destruct Hstep as [now s env n s' env' Hrun|hdr s env n s' env' Hpos Hrun|now s env n s' env' Hrun];
    simpl in *; pose proof (sc_base _ _ _ (proj1 Hrel)); pose proof (sc_next _ _ _ (proj1 Hrel)).
  - destruct (send_window_spec now f s A env Hrel) as (w' & env1 & Hrun' & Hrel' & Hs & _).
    rewrite Hrun in Hrun'. injection Hrun' as -> -> ->.
    eapply sender_good_sends; [done|done|done|done|]. simpl. intros k Hk%elem_of_seqZ.
    unfold send_limit in Hk. lia.
  - destruct (handle_ack_spec f s A hdr env Hrel Hpos) as (b' & w' & a' & env1 & Hrun' & Hrel' & _ & Hn & _).
    rewrite Hrun in Hrun'. injection Hrun' as -> -> ->.
    split_and!; simpl; [by eexists|done|]. by rewrite Hn.
  - destruct (check_timeouts_spec now f s A env Hrel) as (w' & env1 & Hrun' & Hrel' & Hs & _).
    rewrite Hrun in Hrun'. injection Hrun' as -> -> ->.
    eapply sender_good_sends; [done|done|done|done|]. simpl.
    intros k [Hk _]%before_elem%list_elem_of_In%filter_In.
    apply list_elem_of_In, elem_of_seqZ in Hk. lia.
Qed.

Lemma sender_reach_good f peer se : sender_reach f peer se → sender_good f peer se.
Proof.
  intros (fd & s0 & s & env & Hmax & Hn & Hinit & Hsteps).
  destruct (sender_init_rel f fd peer s0 Hmax) as (s' & Hinit' & Hrel & Hp & _).
  rewrite Hinit in Hinit'. injection Hinit' as <-.
  assert (sender_good f peer (s, env)) as Hg.
  { split_and!; simpl; [by exists ∅|done|]. rewrite Hn. set_solver. }
  clear -Hsteps Hg. remember (s, env) as se0. clear Heqse0.
  induction Hsteps; [done|]. eauto using sender_step_good.
Qed.

(** C21: the sender is safe against any peer.  Whatever acknowledgements
    arrive (lost, duplicated, forged, for numbers never sent) and whatever
    the clock reads, every operation of a reachable sender is defined (no
    access outside a buffer, no loop that runs on), its state stays the
    state of sending [f], and every datagram it puts on the network is the
    packet of a chunk of [f], addressed to the peer. *)
Theorem sender_robust f peer s env now hdr :
  sender_reach f peer (s, env) → 0 ≤ ntohl (uh_ack_num hdr) →
  (∃ A, sender_rel f s A) ∧
  (∀ dg, dg ∈ env_net env →
     ∃ k, 0 ≤ k < chunks_of (Z.of_nat (length f)) ∧ dg = data_dg f peer k) ∧
  is_Some (sr_sender_send_window now s env) ∧
  is_Some (sr_sender_handle_ack s hdr env) ∧
  is_Some (sr_sender_check_timeouts s now env).
Proof.
  intros ((A & Hrel) & _ & Hnet)%sender_reach_good Hpos. simpl in *.
  split_and!; [by exists A|done| | |].
  - destruct (send_window_spec now f s A env Hrel) as (? & ? & -> & _). done.
  - destruct (handle_ack_spec f s A hdr env Hrel Hpos) as (? & ? & ? & ? & -> & _). done.
  - destruct (check_timeouts_spec now f s A env Hrel) as (? & ? & -> & _). done.
Qed.

(** ** The statistics

    The counters are [int]s in C: what an operation adds to them is bounded,
    so that a run of [n] operations keeps them in the range of [int] as long
    as [65 * n] is. *)
Lemma send_window_loop_stats fuel now s env n n' s' env' :
  send_window_loop fuel now s env n = Some (n', s', env') → stats_grow (Z.of_nat fuel) env env'.
Proof.
  revert s env n. induction fuel as [|fuel IH]; intros s env n Hrun; cbn [send_window_loop] in Hrun.
  { case_match; simplify_eq. unfold stats_grow. lia. }
  assert (stats_grow (Z.of_nat (S fuel)) env env) as Hrefl by (unfold stats_grow; lia).
  case_match; [|by simplify_eq].
  apply bind_Some in Hrun as (e & _ & Hrun). case_bool_decide; [by simplify_eq|].
  apply bind_Some in Hrun as (payload & _ & Hrun). apply bind_Some in Hrun as (packet & _ & Hrun).
  apply bind_Some in Hrun as (data & _ & Hrun). apply IH in Hrun.
  apply (stats_grow_weaken (1 + Z.of_nat fuel)); [lia|].
  eapply stats_grow_trans; [|exact Hrun]. by apply stats_grow_send.
Qed.

Lemma check_timeouts_loop_stats seqs now s env n n' s' env' :
  check_timeouts_loop seqs now s env n = Some (n', s', env') →
  stats_grow (Z.of_nat (length seqs)) env env'.
Proof.
  revert s env n. induction seqs as [|k seqs IH]; intros s env n Hrun; cbn [check_timeouts_loop] in Hrun.
  { simplify_eq. unfold stats_grow. lia. }
  assert (∀ env1, stats_grow 1 env env1 → stats_grow (Z.of_nat (length seqs)) env1 env' →
    stats_grow (Z.of_nat (length (k :: seqs))) env env') as Hnext.
  { intros env1 H1 H2. apply (stats_grow_weaken (1 + Z.of_nat (length seqs))); [simpl; lia|].
    by eapply stats_grow_trans. }
  assert (stats_grow 1 env env) as Hrefl by (unfold stats_grow; lia).
  apply bind_Some in Hrun as (e & _ & Hrun).
  case_bool_decide; [by eapply Hnext, IH|]. case_match; [by eapply Hnext, IH|].
  case_match; [|by eapply Hnext, IH].
  case_match; [simplify_eq; unfold stats_grow; lia|].
  apply bind_Some in Hrun as (packet & _ & Hrun).
  eapply Hnext, IH, Hrun. by apply stats_grow_send.
Qed.

Lemma sender_step_stats f A se se' :
  sender_rel f se.1 A → sender_step se se' → stats_grow 65 se.2 se'.2.
Proof.
  intros [Hc _] Hstep. pose proof (sc_next _ _ _ Hc) as [_ Hnext]. pose proof (sc_base _ _ _ Hc).
  destruct Hstep as [now s env n s' env' Hrun|hdr s env n s' env' _ Hrun|now s env n s' env' Hrun];
    simpl in *.
  - by apply send_window_loop_stats in Hrun.
  - unfold sr_sender_handle_ack in Hrun. assert (stats_grow 65 env env) by (unfold stats_grow; lia).
    case_match; [by simplify_eq|]. case_match; [by simplify_eq|].
    case_match; [by simplify_eq|]. apply bind_Some in Hrun as (e & _ & Hrun).
    destruct (bool_decide _ && _); apply bind_Some in Hrun as (s1 & _ & Hrun); simplify_eq;
      [unfold stats_grow; simpl; lia|done].
  - apply check_timeouts_loop_stats in Hrun. eapply stats_grow_weaken; [|exact Hrun].
    rewrite length_seqZ. unfold WINDOW_SIZE in Hnext. lia.
Qed.

(** A run of [n] operations adds at most [65 * n] to each counter. *)
Lemma sender_stats_growth f peer n se se' :
  sender_good f peer se → nsteps sender_step n se se' → stats_grow (65 * Z.of_nat n) se.2 se'.2.
Proof.
  intros Hg Hsteps. induction Hsteps as [se|n se1 se2 se3 Hstep _ IH]; [unfold stats_grow; lia|].
  destruct Hg as ((A & Hrel) & Hrest). apply (stats_grow_weaken (65 + 65 * Z.of_nat n)); [lia|].
  eapply stats_grow_trans; [by eapply sender_step_stats|]. apply IH.
  eapply sender_step_good; [done|]. split; [by exists A|done].
Qed.
End sender_runs.

(** ** What each operation does *)

Section sender_claims.
Context `{Host}.
Implicit Types (f : list Z) (s : sr_sender_t) (A : gset Z).

(** C23: [sr_sender_send_window] sends exactly the chunks from [next_seq] to
    the end of the window or of the file, in order, each once, returns their
    number, and leaves the acknowledged set unchanged. *)
Theorem send_window_sends_the_window now f s A env :
  sender_rel f s A →
  ∃ s' env',
    sr_sender_send_window now s env = Some (s_next_seq s' - s_next_seq s, s', env') ∧
    s_next_seq s' = (s_base s + WINDOW_SIZE) `min` s_num_chunks s ∧ s_base s' = s_base s ∧
    sender_rel f s' A ∧
    sends (data_dg f (s_peer_addr s) <$> seqZ (s_next_seq s) (s_next_seq s' - s_next_seq s)) env env'.
Proof.
  intros Hrel. destruct (send_window_spec now f s A env Hrel) as (w' & env' & Hrun & Hrel' & Hs & _).
  exists (upd_sender s (s_base s) (send_limit s) w' (s_chunks_acked s)), env'.
  split; [exact Hrun|]. done.
Qed.

(** C8: [sr_sender_handle_ack] refines adding a number to the set of
    acknowledged chunks: an ACK for a number that was sent adds it (once,
    whatever slot of the circular window it lives in), any other packet
    changes nothing; afterwards [base] is the smallest number missing from
    the set, and [sr_sender_is_complete] holds exactly when the set is all
    chunks. *)
Theorem handle_ack_refines_set f s A hdr env :
  sender_rel f s A → 0 ≤ ntohl (uh_ack_num hdr) →
  ∃ s' env',
    let A' := if decide (uh_msg_type hdr = UDP_ACK ∧ ntohl (uh_ack_num hdr) < s_next_seq s)
              then {[ntohl (uh_ack_num hdr)]} ∪ A else A in
    sr_sender_handle_ack s hdr env = Some (0, s', env') ∧
    sender_rel f s' A' ∧ s_chunks_acked s' = Z.of_nat (size A') ∧
    (∀ k, 0 ≤ k < s_base s' → k ∈ A') ∧ s_base s' ∉ A' ∧
    (sr_sender_is_complete s' = true ↔ A' = upto (s_num_chunks s)).
Proof.
  intros Hrel Hpos.
  destruct (handle_ack_spec f s A hdr env Hrel Hpos) as (b' & w' & a' & env' & Hrun & Hrel' & _).
  eexists _, env'. assert ((if decide (uh_msg_type hdr = UDP_ACK ∧ ntohl (uh_ack_num hdr) < s_next_seq s)
    then {[ntohl (uh_ack_num hdr)]} ∪ A else A) = ack_effect s hdr A) as ->
    by (unfold ack_effect; apply decide_ext; intuition lia).
  split; [exact Hrun|]. pose proof Hrel' as [Hc Hb]. split_and!; try done.
  - apply (sc_count _ _ _ Hc).
  - apply (sc_below _ _ _ Hc).
  - apply (complete_spec f _ _ Hrel').
Qed.

(** The packets [served] were sent again, in this order, and only they were
    stamped with the new time and one more retry. *)
Definition retransmitted now f served s s' env env' : Prop :=
  sends (data_dg f (s_peer_addr s) <$> served) env env' ∧
  ∀ k, s_base s ≤ k < s_next_seq s → s_window s' !! slot k =
    if decide (k ∈ served) then bump_entry now <$> s_window s !! slot k
    else s_window s !! slot k.

(** C22: [sr_sender_check_timeouts] is selective: when no timed-out packet
    has used up its retries, it sends again exactly the pending packets
    older than [TIMEOUT_MS], in order, returns their number, stamps them
    with the new time and counts one retry each, and touches no other slot.
    Otherwise it returns -1 at the first timed-out packet whose retries are
    used up, after sending again, stamping and counting exactly the timed-out
    packets before it, in order; that packet and everything behind it are
    neither sent nor changed. *)
Theorem check_timeouts_selective now f s A env :
  sender_rel f s A →
  let dues := List.filter (due (s_window s) now) (seqZ (s_base s) (s_next_seq s - s_base s)) in
  ∃ ret s' env',
    sr_sender_check_timeouts s now env = Some (ret, s', env') ∧ sender_rel f s' A ∧
    (existsb (exhausted (s_window s)) dues = false →
       ret = Z.of_nat (length dues) ∧ retransmitted now f dues s s' env env') ∧
    (existsb (exhausted (s_window s)) dues = true →
       ret = -1 ∧ ∃ served k rest,
         dues = served ++ k :: rest ∧ exhausted (s_window s) k = true ∧
         existsb (exhausted (s_window s)) served = false ∧
         retransmitted now f served s s' env env').
Proof.
  intros Hrel dues.
  destruct (check_timeouts_spec now f s A env Hrel) as (w' & env' & Hrun & Hrel' & Hs & Hw).
  fold dues in Hrun, Hs, Hw. eexists _, _, env'. split; [exact Hrun|]. split; [done|].
  split; intros Hex; rewrite Hex.
  - rewrite before_all in Hs, Hw by done. done.
  - split; [done|]. destruct (before_split _ _ Hex) as (k & rest & Heq & Hk & Hno).
    by exists (before (exhausted (s_window s)) dues), k, rest.
Qed.

(** ** Giving up *)

(** Calls of [sr_sender_check_timeouts] at the given times, until one
    fails. *)
Fixpoint timeouts (times : list Z) s env : option (Z * sr_sender_t * sr_env) :=
  match times with
  | [] => Some (0, s, env)
  | now :: times =>
      '(ret, s, env) ← sr_sender_check_timeouts s now env;
      if ret <? 0 then Some (ret, s, env) else timeouts times s env
  end.

(** Each time is at least [TIMEOUT_MS] after the one before. *)
Fixpoint spaced (last : Z) (times : list Z) : Prop :=
  match times with
  | [] => True
  | now :: times => last + TIMEOUT_MS ≤ now < 18446744073709551616 ∧ spaced now times
  end.

(** One silent timeout of the packet at [base]. *)
Lemma timeout_base now f s A env e :
  sender_rel f s A → s_base s < s_next_seq s → s_window s !! slot (s_base s) = Some e →
  0 ≤ se_send_time_ms e → se_send_time_ms e + TIMEOUT_MS ≤ now < 18446744073709551616 →
  ∃ ret s' env',
    sr_sender_check_timeouts s now env = Some (ret, s', env') ∧ sender_rel f s' A ∧
    (se_retries e = MAX_RETRIES → ret = -1) ∧
    (ret = -1 ∨ 0 ≤ ret ∧ s_base s' = s_base s ∧ s_next_seq s' = s_next_seq s ∧
       s_window s' !! slot (s_base s) = Some (bump_entry now e)).
Proof.
  intros Hrel Hlt He Ht0 Hnow. unfold TIMEOUT_MS in *.
  destruct (check_timeouts_spec now f s A env Hrel) as (w' & env' & Hrun & Hrel' & _ & Hw).
  destruct Hrel as [Hc Hb].
  destruct (sc_slots _ _ _ Hc (s_base s)) as (e' & He' & _ & Hr); [unfold WINDOW_SIZE; lia|].
  assert (e' = e) as -> by congruence. rewrite decide_True in Hr by lia.
  destruct Hr as (_ & _ & _ & Hret & Hst). rewrite decide_False in Hst by done.
  assert (due (s_window s) now (s_base s) = true) as Hdue.
  { unfold due. rewrite He, Hst, bool_decide_eq_true_2 by done. unfold TIMEOUT_MS. usmall. simpl. lia. }
  assert (exhausted (s_window s) (s_base s) = (MAX_RETRIES <=? se_retries e)) as Hex
    by (unfold exhausted; by rewrite He).
  rewrite seqZ_cons in Hrun, Hw by lia. cbn [List.filter] in Hrun, Hw. rewrite Hdue in Hrun, Hw.
  cbn [existsb before] in Hrun, Hw. rewrite Hex in Hrun, Hw.
  eexists _, _, env'. split; [exact Hrun|]. split; [done|].
  destruct (MAX_RETRIES <=? se_retries e) eqn:Emax; simpl; [split; [done|by left]|].
  split; [unfold MAX_RETRIES in *; lia|].
  case_cond as E2; [by left|]. right. simpl. split_and!; try done; try lia.
  rewrite Hw by lia. rewrite decide_True by set_solver. by rewrite He.
Qed.

(** C24: the sender gives up: when the packet at [base] is never
    acknowledged, the transfer is abandoned after at most
    [MAX_RETRIES + 1 - retries] timeouts, so a silent peer costs eleven
    timeouts and never an endless loop. *)
Theorem silent_peer_gives_up times f s A env e :
  sender_rel f s A → s_base s < s_next_seq s → s_window s !! slot (s_base s) = Some e →
  0 ≤ se_send_time_ms e → spaced (se_send_time_ms e) times →
  MAX_RETRIES - se_retries e < Z.of_nat (length times) →
  ∃ s' env', timeouts times s env = Some (-1, s', env') ∧ sender_rel f s' A.
Proof.
  revert s env e. induction times as [|now times IH]; intros s env e Hrel Hlt He Ht0 Hsp Hlen.
  { destruct Hrel as [Hc Hb].
    destruct (sc_slots _ _ _ Hc (s_base s)) as (e' & He' & _ & Hr); [unfold WINDOW_SIZE; lia|].
    assert (e' = e) as -> by congruence. rewrite decide_True in Hr by lia. simpl in Hlen. lia. }
  destruct Hsp as [Hnow Hsp].
  destruct (timeout_base now f s A env e) as (ret & s1 & env1 & Hrun & Hrel1 & _ & Hcase); try done.
  cbn [timeouts]. rewrite Hrun. bind_step.
  destruct Hcase as [->|(Hret & Hb1 & Hn1 & He1)]; [by exists s1, env1|].
  rewrite (proj2 (Z.ltb_ge _ _)) by lia. rewrite <-Hb1 in He1.
  apply (IH s1 env1 (bump_entry now e)); try done; simpl; unfold TIMEOUT_MS in *; lia || (simpl in Hlen; lia).
Qed.

(** The size limit is real: for a file of 4294966273 bytes or more (its
    size still fits [uint32_t]) the sum [file_size + CHUNK_SIZE - 1] wraps
    around in [sr_sender_init], which succeeds with [num_chunks] 0, and the
    sender is complete before it has sent anything. *)
Theorem sender_init_wraps_on_huge_files fd peer sender data size s :
  max_file ≤ size < 4294967296 →
  sr_sender_init (Some sender) fd (Some peer) (Some data) size true = (0, Some s) →
  s_num_chunks s = 0 ∧ sr_sender_is_complete s = true ∧ chunks_of size = 4194304.
Proof.
  unfold max_file. intros Hsize [= <-]. unfold sr_sender_is_complete, chunks_of. simpl.
  assert (((size +₃₂ CHUNK_SIZE) -₃₂ 1) `div` CHUNK_SIZE = 0) as ->.
  { unfold CHUNK_SIZE, uwrap. rewrite Zminus_mod_idemp_l.
    replace (size + 1024 - 1) with (size - 4294966273 + 1 * 2 ^ 32) by lia.
    rewrite Z.mod_add, Z.mod_small, Z.div_small; lia. }
  split_and!; [done|done|]. unfold CHUNK_SIZE.
  symmetry. apply (Z.div_unique _ 1024 _ (size + 1024 - 1 - 4294967296)); lia.
Qed.
End sender_claims.

(** ** A concrete sender, for the witnesses *)

Module SenderExample.
#[local] Instance host : Host := LittleEndian.

Definition file : list Z := [104; 101; 108; 108; 111; 10].
Definition peer : sockaddr_in := {| sin_addr := 16777343; sin_port := 29207 |}.
Definition raw : sr_sender_t := {|
  s_udp_fd := 0; s_peer_addr := peer; s_base := 3; s_next_seq := 9; s_window := [];
  s_file_data := []; s_file_size := 0; s_num_chunks := 0; s_chunks_acked := 0;
  s_lossy_link := false |}.
Definition env0 : sr_env :=
  {| env_link := lossy_init 4 no_loss 1; env_stats := stats_init; env_net := [] |}.

Definition s0 : sr_sender_t :=
  default raw (sr_sender_init (Some raw) 4 (Some peer) (Some file) 6 true).2.
Definition sent : Z * sr_sender_t * sr_env := default (0, raw, env0) (sr_sender_send_window 1000 s0 env0).
Definition s1 : sr_sender_t := sent.1.2.
Definition env1 : sr_env := sent.2.
Definition ack0 : udp_header_t := ack_header 0.

Lemma s0_rel : sender_rel file s0 ∅.
Proof. by destruct (sender_init_rel file 4 peer raw) as (s & [= <-] & Hrel & _). Qed.

Lemma sent_eq : sr_sender_send_window 1000 s0 env0 = Some (1, s1, env1).
Proof. by vm_compute. Qed.

Lemma s1_rel : sender_rel file s1 ∅.
Proof.
  destruct (send_window_spec 1000 file s0 ∅ env0 s0_rel) as (w' & e' & Hrun & Hrel & _).
  rewrite sent_eq in Hrun. by apply Some_triple_inj in Hrun as (_ & -> & _).
Qed.

Lemma s1_reach : sender_reach file peer (s1, env1).
Proof.
  exists 4, raw, s0, env0. split_and!; try done. apply rtc_once. apply (sstep_send 1000) with (n := 1).
  apply sent_eq.
Qed.

Lemma sender_robust_witness :
  is_Some (sr_sender_handle_ack s1 ack0 env1) ∧ length (env_net env1) = 1%nat.
Proof.
  split; [|by vm_compute].
  apply (sender_robust file peer s1 env1 1500 ack0 s1_reach). by vm_compute.
Defined.

Lemma send_window_sends_the_window_witness :
  ∃ s' env', sr_sender_send_window 1000 s0 env0 = Some (s_next_seq s' - 0, s', env') ∧
    s_next_seq s' = 1.
Proof.
  destruct (send_window_sends_the_window 1000 file s0 ∅ env0 s0_rel) as (s' & env' & Hrun & Hn & _).
  exists s', env'. exact (conj Hrun Hn).
Defined.

Lemma handle_ack_refines_set_witness :
  ∃ s' env', sr_sender_handle_ack s1 ack0 env1 = Some (0, s', env') ∧
    sr_sender_is_complete s' = true.
Proof.
  destruct (handle_ack_refines_set file s1 ∅ ack0 env1 s1_rel) as (s' & env' & Hrun & _ & _ & _ & _ & Hd);
    [by vm_compute|].
  exists s', env'. split; [exact Hrun|]. apply Hd. by vm_compute.
Defined.

Lemma check_timeouts_selective_witness :
  ∃ s' env', sr_sender_check_timeouts s1 1500 env1 = Some (1, s', env') ∧
    sends [data_dg file peer 0] env1 env'.
Proof.
  destruct (check_timeouts_selective 1500 file s1 ∅ env1 s1_rel) as (r & s' & env' & Hrun & _ & Hok & _).
  destruct Hok as (Hr & Hs & _); [by vm_compute|].
  exists s', env'. rewrite Hrun, Hr. split; [by vm_compute|exact Hs].
Defined.

Lemma silent_peer_gives_up_witness :
  ∃ s' env', timeouts [1500; 2000; 2500; 3000; 3500; 4000; 4500; 5000; 5500; 6000; 6500] s1 env1
               = Some (-1, s', env') ∧ sender_rel file s' ∅.
Proof.
  apply (silent_peer_gives_up _ file s1 ∅ env1
           (fresh_entry file 1000 0 (file ++ replicate 1018 0)) s1_rel);
    by vm_compute.
Defined.

Lemma sender_init_wraps_on_huge_files_witness :
  s_num_chunks (default raw (sr_sender_init (Some raw) 4 (Some peer) (Some file) 4294967295 true).2) = 0.
Proof.
  apply (sender_init_wraps_on_huge_files 4 peer raw file 4294967295); by vm_compute.
Defined.
End SenderExample.
