(* ===== verification/SRReceiver.v ===== *)
(** * The selective-repeat receiver: [selective_repeat.c], second half

    The receive window, the receiver state and its operations:
    [sr_receiver_init], [sr_receiver_handle_data], [sr_receiver_send_ack],
    [sr_receiver_is_complete], [sr_receiver_get_file] and
    [sr_receiver_cleanup].  [malloc] is an argument: the block it returned
    (with arbitrary contents) or NULL.

    The abstract view of a receiver is the set [R] of the sequence numbers it
    has accepted: [receiver_rel f r R] says that [r] is receiving file [f],
    holds exactly the chunks of [R], and has delivered to its buffer the
    longest prefix they allow. *)

From S2P Require Import Prelude Packed Protocol Lossy Packets Window.

(** ** Data *)

Record recv_window_entry_t := {
  re_received : bool;
  re_seq_num : Z;
  re_data : list Z;
  re_data_len : Z;
}.

Record sr_receiver_t := {
  r_udp_fd : Z;
  r_peer_addr : sockaddr_in;
  r_base : Z;
  r_window : list recv_window_entry_t;
  r_file_buffer : option (list Z);
  r_file_size : Z;
  r_num_chunks : Z;
  r_chunks_received : Z;
  r_lossy_link : bool;   (* the link pointer is not NULL *)
}.

Definition upd_receiver (r : sr_receiver_t) (base : Z) (window : list recv_window_entry_t)
    (file_buffer : option (list Z)) (chunks_received : Z) : sr_receiver_t := {|
  r_udp_fd := r_udp_fd r; r_peer_addr := r_peer_addr r;
  r_base := base; r_window := window; r_file_buffer := file_buffer;
  r_file_size := r_file_size r; r_num_chunks := r_num_chunks r;
  r_chunks_received := chunks_received; r_lossy_link := r_lossy_link r;
|}.

Definition clear_received (e : recv_window_entry_t) : recv_window_entry_t := {|
  re_received := false; re_seq_num := re_seq_num e; re_data := re_data e;
  re_data_len := re_data_len e;
|}.

(** An entry after the loop of [sr_receiver_init]. *)
Definition empty_recv_entry : recv_window_entry_t := {|
  re_received := false; re_seq_num := 0; re_data := replicate (Z.to_nat CHUNK_SIZE) 0;
  re_data_len := 0;
|}.

(** ** Operations *)

(** [malloc] is the block [malloc(file_size)] returned.  When it is NULL
    the function fails after the assignments before it: the receiver is
    zeroed and has no buffer. *)
Definition sr_receiver_init (receiver : option sr_receiver_t) (udp_fd : Z)
    (peer_addr : option sockaddr_in) (file_size num_chunks : Z) (lossy_link : bool)
    (malloc : option (list Z)) : Z * option sr_receiver_t :=
  match receiver, peer_addr, lossy_link with
  | Some _, Some peer, true =>
      (if malloc then 0 else -1,
       Some {|
         r_udp_fd := udp_fd; r_peer_addr := peer; r_base := 0;
         r_window := replicate (Z.to_nat WINDOW_SIZE) empty_recv_entry;
         r_file_buffer := malloc; r_file_size := file_size; r_num_chunks := num_chunks;
         r_chunks_received := 0; r_lossy_link := true |})
  | _, _, _ => (-1, receiver)
  end.

Section operations.
Context `{Host}.

Definition sr_receiver_send_ack (r : sr_receiver_t) (seq_num : Z) (env : sr_env) : sr_env :=
  env_send (r_lossy_link r)
    {| dg_dest := r_peer_addr r; dg_bytes := build_ack_packet seq_num |} env.

(** The loop that delivers consecutive packets to the file buffer. *)
Fixpoint deliver_loop (fuel : nat) (r : sr_receiver_t) : option sr_receiver_t :=
  if r_base r <? r_num_chunks r then
    match fuel with
    | O => None
    | S fuel =>
        let base_idx := slot (r_base r) in
        base_slot ← r_window r !! base_idx;
        if negb (re_received base_slot) then Some r
        else
          let offset := r_base r *₃₂ CHUNK_SIZE in
          data ← mread (re_data base_slot) 0 (re_data_len base_slot);
          buffer ← r_file_buffer r;
          buffer ← mwrite buffer offset data;
          deliver_loop fuel (upd_receiver r (r_base r +₃₂ 1)
            (<[base_idx := clear_received base_slot]> (r_window r)) (Some buffer)
            (r_chunks_received r))
    end
  else Some r.

(** A delivery frees a slot, so there are at most [WINDOW_SIZE], and one
    more test. *)
Definition deliver_fuel : nat := S (Z.to_nat WINDOW_SIZE).

Definition sr_receiver_handle_data (r : sr_receiver_t) (packet : list Z) (env : sr_env) :
    option (Z * sr_receiver_t * sr_env) :=
  let len := Z.of_nat (length packet) in
  if len <? sizeof udp_header_t then Some (0, r, env)
  else
    hdr ← cast udp_header_t packet 0;
    let received_checksum := uh_checksum hdr in
    temp ← zero_checksum packet;
    let computed_checksum := calculate_checksum temp in
    if negb (received_checksum =? computed_checksum) then Some (0, r, env)
    else if negb (uh_msg_type hdr =? UDP_DATA) then Some (0, r, env)
    else
      let seq_num := ntohl (uh_seq_num hdr) in
      let data_len := ntohs (uh_data_len hdr) in
      if len <? sizeof udp_header_t + data_len then Some (0, r, env)
      else if r_num_chunks r <=? seq_num then Some (0, r, env)
      else if seq_num <? r_base r then Some (0, r, sr_receiver_send_ack r seq_num env)
      else if r_base r +₃₂ WINDOW_SIZE <=? seq_num then Some (0, r, env)
      else
        let index := slot seq_num in
        entry ← r_window r !! index;
        r1 ← (if re_received entry then Some r
              else
                payload ← mread packet (sizeof udp_header_t) data_len;
                data ← mwrite (re_data entry) 0 payload;
                Some (upd_receiver r (r_base r)
                  (<[index := {| re_received := true; re_seq_num := seq_num;
                                 re_data := data; re_data_len := data_len |}]> (r_window r))
                  (r_file_buffer r) (r_chunks_received r +₃₂ 1)));
        let env := sr_receiver_send_ack r1 seq_num env in
        r2 ← deliver_loop deliver_fuel r1;
        Some (0, r2, env).
End operations.

Definition sr_receiver_is_complete (r : sr_receiver_t) : bool := r_num_chunks r <=? r_base r.

Definition sr_receiver_get_file (r : sr_receiver_t) : option (list Z) * Z :=
  (r_file_buffer r, r_file_size r).

Definition sr_receiver_cleanup (r : sr_receiver_t) : sr_receiver_t :=
  match r_file_buffer r with
  | Some _ => upd_receiver r (r_base r) (r_window r) None (r_chunks_received r)
  | None => r
  end.

(** ** The abstraction relation *)

Definition recv_entry_rel (f : list Z) (R : gset Z) (k : Z) (e : recv_window_entry_t) : Prop :=
  length (re_data e) = Z.to_nat CHUNK_SIZE ∧
  re_received e = bool_decide (k ∈ R) ∧
  (k ∈ R → re_seq_num e = k ∧ re_data_len e = Z.of_nat (length (chunk f k)) ∧
           take (length (chunk f k)) (re_data e) = chunk f k).

Record receiver_core (f : list Z) (r : sr_receiver_t) (R : gset Z) : Prop := {
  rc_size : r_file_size r = Z.of_nat (length f);
  rc_max : Z.of_nat (length f) < max_file;
  rc_num : r_num_chunks r = chunks_of (Z.of_nat (length f));
  rc_wlen : length (r_window r) = 64%nat;
  rc_base : 0 ≤ r_base r ≤ r_num_chunks r;
  rc_slots : ∀ k, r_base r ≤ k < r_base r + WINDOW_SIZE →
    ∃ e, r_window r !! slot k = Some e ∧ recv_entry_rel f R k e;
  rc_below : ∀ k, 0 ≤ k < r_base r → k ∈ R;
  rc_in : ∀ k, k ∈ R → 0 ≤ k < r_num_chunks r ∧ k < r_base r + WINDOW_SIZE;
  rc_count : r_chunks_received r = Z.of_nat (size R);
  rc_buffer : ∃ buf, r_file_buffer r = Some buf ∧ length buf = length f ∧
    take (Z.to_nat (r_base r * CHUNK_SIZE)) buf = take (Z.to_nat (r_base r * CHUNK_SIZE)) f;
}.

(** Between two packets, [base] is the smallest number not yet received. *)
Definition receiver_rel (f : list Z) (r : sr_receiver_t) (R : gset Z) : Prop :=
  receiver_core f r R ∧ r_base r ∉ R.

Lemma receiver_num_max f r R : receiver_core f r R → 0 ≤ r_num_chunks r ≤ 4194303.
Proof. intros Hc. rewrite (rc_num _ _ _ Hc). apply chunks_of_max. pose proof (rc_max _ _ _ Hc). lia. Qed.

#[local] Arguments replicate : simpl never.

Lemma receiver_init_rel f fd peer receiver block :
  Z.of_nat (length f) < max_file → length block = length f →
  ∃ r, sr_receiver_init (Some receiver) fd (Some peer) (Z.of_nat (length f))
         (chunks_of (Z.of_nat (length f))) true (Some block) = (0, Some r) ∧
    receiver_rel f r ∅ ∧ r_peer_addr r = peer.
Proof.
  intros Hmax Hblock. eexists. split; [done|]. split; [|done].
  pose proof (chunks_of_max (Z.of_nat (length f)) ltac:(lia)) as Hm.
  split; [|set_solver]. split; simpl; unfold WINDOW_SIZE; try done; try lia.
  - intros k Hk. exists empty_recv_entry. split.
    + apply lookup_replicate_2. apply (slot_lt k).
    + split; [apply length_replicate|done].
  - eauto.
Qed.

(** ** Accepting and delivering *)

Section receiver_facts.
Context `{Host}.
Implicit Types (f : list Z) (r : sr_receiver_t) (R : gset Z).

Definition recv_entry k data len : recv_window_entry_t :=
  {| re_received := true; re_seq_num := k; re_data := data; re_data_len := len |}.

Lemma rcore_accept f r R k data :
  receiver_core f r R → r_base r ≤ k < r_base r + WINDOW_SIZE → k < r_num_chunks r → k ∉ R →
  length data = Z.to_nat CHUNK_SIZE → take (length (chunk f k)) data = chunk f k →
  receiver_core f (upd_receiver r (r_base r)
    (<[slot k := recv_entry k data (Z.of_nat (length (chunk f k)))]> (r_window r))
    (r_file_buffer r) (r_chunks_received r + 1)) ({[k]} ∪ R).
Proof.
  intros Hc Hk Hn HkR Hl Ht. destruct Hc. split; simpl; try done.
  - by rewrite length_insert.
  - intros j Hj. destruct (decide (j = k)) as [->|Hne].
    + eexists. split; [by apply slot_insert_eq|]. split; [done|]. split; [|done].
      simpl. symmetry. apply bool_decide_eq_true_2. set_solver.
    + destruct (rc_slots0 j Hj) as (e & He & Hl' & Hrec & Hdat). exists e.
      rewrite (slot_insert_ne _ (r_base r)) by lia. split; [done|]. split_and!; [done| |].
      * rewrite Hrec. apply bool_decide_ext. set_solver.
      * intros Hin. apply Hdat. set_solver.
  - set_solver.
  - intros j [->%elem_of_singleton|Hj]%elem_of_union; [lia|]. auto.
  - rewrite size_union, size_singleton, rc_count0 by set_solver. lia.
Qed.

(** Delivering the packet at [base]. *)
Lemma rcore_deliver f r R e :
  receiver_core f r R → r_base r ∈ R → r_window r !! slot (r_base r) = Some e →
  ∃ buf buf',
    r_file_buffer r = Some buf ∧
    mread (re_data e) 0 (re_data_len e) = Some (chunk f (r_base r)) ∧
    mwrite buf (r_base r * CHUNK_SIZE) (chunk f (r_base r)) = Some buf' ∧
    receiver_core f (upd_receiver r (r_base r + 1)
      (<[slot (r_base r) := clear_received e]> (r_window r)) (Some buf') (r_chunks_received r)) R.
Proof.
  intros Hc HbR He. destruct (rc_in _ _ _ Hc _ HbR) as [Hb _].
  destruct (rc_slots _ _ _ Hc (r_base r)) as (e' & He' & Hl & _ & Hd); [unfold WINDOW_SIZE; lia|].
  assert (e' = e) as -> by congruence. destruct (Hd HbR) as (_ & Hlen & Htake).
  destruct (rc_buffer _ _ _ Hc) as (buf & Hbuf & Hbl & Hpre).
  pose proof (chunks_of_bounds (Z.of_nat (length f)) ltac:(lia)) as Hcb.
  rewrite <-(rc_num _ _ _ Hc) in Hcb.
  pose proof (length_chunk_le f (r_base r)) as Hle.
  pose proof (length_chunk f (r_base r)) as Hcl. unfold CHUNK_SIZE in Hcl, Hcb, Hle.
  destruct (mwrite buf (r_base r * CHUNK_SIZE) (chunk f (r_base r))) as [buf'|] eqn:Hw; cycle 1.
  { rewrite mwrite_Some in Hw; [done|unfold CHUNK_SIZE; lia|unfold CHUNK_SIZE; lia]. }
  exists buf, buf'. split_and!; try done.
  { rewrite mread_Some; [|lia|lia|rewrite Hl; unfold CHUNK_SIZE; lia].
    by rewrite drop_0, Hlen, Nat2Z.id, Htake. }
  pose proof (take_mwrite_prefix _ _ _ _ Hw) as Hpre'. pose proof (length_mwrite _ _ _ _ Hw) as Hl'.
  rewrite Hpre, <-take_chunk in Hpre' by lia.
  destruct Hc. split; simpl; try done; try lia.
  - by rewrite length_insert.
  - intros k Hk. destruct (decide (k = r_base r + WINDOW_SIZE)) as [->|Hne].
    + exists (clear_received e). rewrite slot_wrap. split; [by apply slot_insert_eq|].
      assert (r_base r + WINDOW_SIZE ∉ R) by (intros Hin%rc_in0; lia).
      split; [done|]. simpl. split; [|done]. by rewrite bool_decide_eq_false_2.
    + rewrite (slot_insert_ne _ (r_base r)) by lia. apply rc_slots0. lia.
  - intros k Hk. destruct (decide (k = r_base r)) as [->|]; [done|]. apply rc_below0. lia.
  - intros k Hk%rc_in0. lia.
  - exists buf'. split_and!; [done|lia|]. rewrite <-Hpre'.
    destruct (Z.le_ge_cases ((r_base r + 1) * 1024) (Z.of_nat (length f))).
    + f_equal. unfold CHUNK_SIZE. lia.
    + unfold CHUNK_SIZE. rewrite !take_ge by lia. done.
Qed.

Lemma rcore_base_state f r R :
  receiver_core f r R → ∃ e, r_window r !! slot (r_base r) = Some e ∧
    re_received e = bool_decide (r_base r ∈ R).
Proof.
  intros Hc. destruct (rc_slots _ _ _ Hc (r_base r)) as (e & He & _ & Hr & _);
    [unfold WINDOW_SIZE; lia|]. by exists e.
Qed.

(** Sequence numbers still in the window decrease: the loop ends. *)
Lemma deliver_loop_spec fuel f r R top :
  receiver_core f r R → (∀ k, k ∈ R → k < top) → (Z.to_nat (top - r_base r) < fuel)%nat →
  ∃ base' w' buf',
    let r' := upd_receiver r base' w' buf' (r_chunks_received r) in
    deliver_loop fuel r = Some r' ∧ receiver_rel f r' R ∧ r_base r ≤ base'.
Proof.
  revert r. induction fuel as [|fuel IH]; intros r Hc Htop Hfuel; [lia|]. cbn [deliver_loop].
  pose proof (receiver_num_max _ _ _ Hc). pose proof (rc_base _ _ _ Hc).
  assert (r_base r ∉ R → ∃ base' w' buf',
    let r' := upd_receiver r base' w' buf' (r_chunks_received r) in
    Some r = Some r' ∧ receiver_rel f r' R ∧ r_base r ≤ base') as Hstop.
  { intros Hni. exists (r_base r), (r_window r), (r_file_buffer r). destruct r; simpl in *. done. }
  case_cond as Econd; [|apply Hstop; intros [Hin _]%(rc_in _ _ _ Hc); lia].
  destruct (rcore_base_state f r R Hc) as (e & He & Hst). rewrite He. bind_step.
  rewrite Hst. case_bool_decide as HbR; simpl; [|by apply Hstop].
  destruct (rcore_deliver f r R e Hc HbR He) as (buf & buf' & Hbuf & Hrd & Hwr & Hc').
  pose proof (Htop _ HbR).
  unfold CHUNK_SIZE in *. usmall. rewrite Hrd, Hbuf. bind_step. rewrite Hwr.
  bind_step.
  destruct (IH _ Hc') as (b' & w' & bf' & Hrun & Hrel & Hle); [done|simpl; lia|].
  simpl in *. exists b', w', bf'. split_and!; try done; lia.
Qed.

#[local] Arguments deliver_loop : simpl never.

(** ** Packets *)

(** The datagram that acknowledges [k]. *)
Definition ack_dg peer k : datagram :=
  {| dg_dest := peer; dg_bytes := build_ack_packet k |}.

(** The guards of [sr_receiver_handle_data], all passed: what it does with
    the data packet of [seq] and [payload]. *)
Lemma handle_data_packet r seq payload env :
  in_width 32 seq → Z.of_nat (length payload) ≤ CHUNK_SIZE →
  sr_receiver_handle_data r (data_packet seq payload) env =
    if r_num_chunks r <=? seq then Some (0, r, env)
    else if seq <? r_base r then Some (0, r, sr_receiver_send_ack r seq env)
    else if r_base r +₃₂ WINDOW_SIZE <=? seq then Some (0, r, env)
    else
      entry ← r_window r !! slot seq;
      r1 ← (if re_received entry then Some r
            else
              data ← mwrite (re_data entry) 0 payload;
              Some (upd_receiver r (r_base r)
                (<[slot seq := recv_entry seq data (Z.of_nat (length payload))]> (r_window r))
                (r_file_buffer r) (r_chunks_received r +₃₂ 1)));
      r2 ← deliver_loop deliver_fuel r1;
      Some (0, r2, sr_receiver_send_ack r1 seq env).
Proof.
  unfold CHUNK_SIZE. intros Hseq Hlen. unfold sr_receiver_handle_data.
  set (h := data_header seq (Z.of_nat (length payload))).
  assert (fits h) as Hf by (apply data_header_fits; [done|unfold in_width; lia]).
  destruct (seal_valid h payload Hf) as [Hcast Hzero].
  pose proof (length_seal h payload Hf) as Hsl.
  unfold data_packet. fold h. rewrite sizeof_udp_header, Hsl, Hcast, Hzero.
  rewrite (proj2 (Z.ltb_ge _ _)) by lia.
  assert (uh_msg_type h = UDP_DATA ∧ ntohl (uh_seq_num h) = seq ∧
          ntohs (uh_data_len h) = Z.of_nat (length payload)) as (Hty & Hsq & Hdl).
  { split_and!; [done|by apply ntohl_htonl|apply ntohs_htons; lia]. }
  clearbody h.
  cbn [mbind option_bind set_checksum uh_checksum uh_msg_type uh_seq_num uh_data_len].
  rewrite !Z.eqb_refl, Hty, Hsq, Hdl. simpl negb. cbn iota.
  rewrite (proj2 (Z.ltb_ge _ _)) by lia.
  repeat (case_cond as E; [done|]; clear E).
  destruct (r_window r !! slot seq) as [e|]; [|done]. bind_step.
  rewrite mread_Some by lia. rewrite Nat2Z.id.
  replace (Z.to_nat 16) with 16%nat by done. rewrite drop_seal, take_ge by done.
  bind_step. destruct (re_received e); [done|].
  by destruct (mwrite (re_data e) 0 payload).
Qed.

(** The numbers accepted after the packet of chunk [k]. *)
Definition data_effect r k R : gset Z :=
  if decide (k < r_base r + WINDOW_SIZE) then {[k]} ∪ R else R.

(** The acknowledgements the packet of chunk [k] causes. *)
Definition data_acks r k : list datagram :=
  if decide (k < r_base r + WINDOW_SIZE) then [ack_dg (r_peer_addr r) k] else [].

(** A packet of the window is in its slot afterwards, whether it was there
    before or not. *)
Lemma buffer_chunk f r R k e :
  receiver_core f r R → 0 ≤ k < r_num_chunks r → r_base r ≤ k < r_base r + WINDOW_SIZE →
  r_window r !! slot k = Some e → length (re_data e) = Z.to_nat CHUNK_SIZE →
  ∃ w1 n1, let r1 := upd_receiver r (r_base r) w1 (r_file_buffer r) n1 in
    receiver_core f r1 ({[k]} ∪ R) ∧
    (if bool_decide (k ∈ R) then Some r
     else data ← mwrite (re_data e) 0 (chunk f k);
          Some (upd_receiver r (r_base r)
            (<[slot k := recv_entry k data (Z.of_nat (length (chunk f k)))]> (r_window r))
            (r_file_buffer r) (r_chunks_received r +₃₂ 1))) = Some r1.
Proof.
  intros Hc Hk Hkw He Hl. pose proof (receiver_num_max _ _ _ Hc). case_bool_decide as HkR.
  - exists (r_window r), (r_chunks_received r). replace ({[k]} ∪ R) with R by set_solver.
    by destruct r.
  - pose proof (length_chunk_le f k).
    rewrite mwrite_Some by (rewrite ?Hl; lia). bind_step.
    pose proof (subset_upto_size (r_num_chunks r) R ltac:(lia)
                  (λ j Hj, proj1 (rc_in _ _ _ Hc j Hj))) as [Hsz _].
    rewrite u32_small by (rewrite (rc_count _ _ _ Hc); lia).
    eexists _, _. split; [|done].
    apply rcore_accept; try done; try (unfold WINDOW_SIZE in *; lia).
    + rewrite take_0, app_nil_l, length_app, length_drop, Hl. unfold CHUNK_SIZE in *. lia.
    + rewrite take_0, app_nil_l. by apply take_app_length.
Qed.

Lemma handle_data_spec f r R k env :
  receiver_rel f r R → 0 ≤ k < r_num_chunks r →
  ∃ base' w' buf' n' env',
    let r' := upd_receiver r base' w' buf' n' in
    sr_receiver_handle_data r (data_packet k (chunk f k)) env = Some (0, r', env') ∧
    receiver_rel f r' (data_effect r k R) ∧ r_base r ≤ base' ∧
    sends (data_acks r k) env env'.
Proof.
  intros [Hc Hb] Hk. pose proof (receiver_num_max _ _ _ Hc). pose proof (rc_base _ _ _ Hc).
  unfold data_effect, data_acks.
  rewrite handle_data_packet; [|unfold in_width; lia|apply length_chunk_le].
  unfold WINDOW_SIZE. usmall. rewrite (proj2 (Z.leb_gt _ _)) by lia.
  assert (∀ R' env' acks, R' = R → sends acks env env' → ∃ base' w' buf' n' env'',
    let r' := upd_receiver r base' w' buf' n' in
    Some (0, r, env') = Some (0, r', env'') ∧ receiver_rel f r' R' ∧ r_base r ≤ base' ∧
    sends acks env env'') as Hsame.
  { intros R' env' acks -> Hs. exists (r_base r), (r_window r), (r_file_buffer r), (r_chunks_received r), env'.
    destruct r; simpl in *. done. }
  case_cond as E1; [apply Hsame|].
  { rewrite decide_True by lia. pose proof (rc_below _ _ _ Hc k ltac:(lia)). set_solver. }
  { rewrite decide_True by lia. apply sends_one. }
  case_cond as E2; [apply Hsame; rewrite decide_False by lia; [done|apply sends_nil]|].
  rewrite !decide_True by lia.
  destruct (rc_slots _ _ _ Hc k) as (e & He & Hl & Hrec & _); [unfold WINDOW_SIZE; lia|].
  rewrite He. bind_step. rewrite Hrec.
  destruct (buffer_chunk f r R k e Hc Hk) as (w1 & n1 & Hc1 & ->); [unfold WINDOW_SIZE; lia|done|done|].
  bind_step.
  destruct (deliver_loop_spec deliver_fuel f _ _ (r_base r + 64) Hc1) as (b' & w' & bf' & Hrun & Hrel & Hle).
  { intros j [->%elem_of_singleton|Hj]%elem_of_union; [lia|].
    pose proof (rc_in _ _ _ Hc _ Hj). unfold WINDOW_SIZE in *. lia. }
  { simpl. unfold deliver_fuel, WINDOW_SIZE. lia. }
  rewrite Hrun. bind_step. simpl in *.
  eexists b', w', bf', _, _. split_and!; [done|done|done|]. apply sends_one.
Qed.

(** ** Corrupted packets *)

(** The receiver's test as a predicate on bytes. *)
Definition checksum_ok (packet : list Z) : Prop :=
  load host_endian (take 2 (drop 2 packet)) =
  calculate_checksum (take 2 packet ++ store host_endian 2 0 ++ drop 4 packet).

#[global] Instance checksum_ok_dec packet : Decision (checksum_ok packet) := Z.eq_dec _ _.

Lemma handle_data_reject r packet env :
  16 ≤ Z.of_nat (length packet) → ¬ checksum_ok packet →
  sr_receiver_handle_data r packet env = Some (0, r, env).
Proof.
  intros Hl Hbad. unfold sr_receiver_handle_data. rewrite sizeof_udp_header.
  rewrite (proj2 (Z.ltb_ge _ _)) by lia.
  destruct (cast_checksum packet Hl) as (hdr & -> & Hck). rewrite zero_checksum_bytes by done.
  bind_step. rewrite Hck, (proj2 (Z.eqb_neq _ _) Hbad). done.
Qed.

Lemma checksum_ok_seal h payload : fits h → checksum_ok (seal h payload).
Proof. intros Hf. unfold checksum_ok. by destruct (seal_checksum h payload Hf) as [-> ->]. Qed.

(** A complete receiver holds the file. *)
Lemma receiver_file f r R :
  receiver_rel f r R → sr_receiver_is_complete r = true →
  sr_receiver_get_file r = (Some f, Z.of_nat (length f)).
Proof.
  intros [Hc _] Hdone. unfold sr_receiver_is_complete in Hdone.
  destruct (rc_buffer _ _ _ Hc) as (buf & Hbuf & Hl & Hpre).
  pose proof (chunks_of_bounds (Z.of_nat (length f)) ltac:(lia)) as Hcb.
  rewrite <-(rc_num _ _ _ Hc) in Hcb.
  assert (length f ≤ Z.to_nat (r_base r * CHUNK_SIZE))%nat by (unfold CHUNK_SIZE in *; lia).
  rewrite !take_ge in Hpre by lia.
  unfold sr_receiver_get_file. by rewrite Hbuf, (rc_size _ _ _ Hc), Hpre.
Qed.

(** Changing one byte of a packet that passes the test makes it fail. *)
Lemma checksum_ok_one_byte packet i x b :
  Forall is_byte packet → 16 ≤ Z.of_nat (length packet) ≤ 65536 → checksum_ok packet →
  packet !! i = Some x → is_byte b → b ≠ x → ¬ checksum_ok (<[i := b]> packet).
Proof.
  unfold checksum_ok. intros Hp Hl Hok Hi Hb Hne Hok'.
  assert (is_byte x) as Hx by (by eapply Forall_lookup_1).
  assert (Forall is_byte (<[i := b]> packet)) as Hp' by (by apply Forall_insert).
  set (z := λ p, take 2 p ++ store host_endian 2 0 ++ drop 4 p) in *.
  assert (∀ p, Forall is_byte p → 16 ≤ Z.of_nat (length p) ≤ 65536 →
    Forall is_byte (z p) ∧ Z.of_nat (length (z p)) ≤ 16777216 ∧
    byte_total (z p) = byte_total (take 2 p) + byte_total (drop 4 p)) as Hz.
  { intros p Hbp Hlp. unfold z. split_and!.
    - auto with bytes.
    - rewrite !length_app, length_take, length_store, length_drop; lia.
    - rewrite !byte_total_app, byte_total_zero. lia. }
  destruct (Hz packet Hp Hl) as (Hz1 & Hz2 & Hz3).
  destruct (Hz (<[i:=b]> packet) Hp') as (Hz1' & Hz2' & Hz3'); [by rewrite length_insert|].
  destruct (decide (i = 2 ∨ i = 3)%nat) as [Hf|Hf].
  - (* the checksum field *)
    assert (z (<[i:=b]> packet) = z packet) as Hsame.
    { unfold z. rewrite take_insert_ge, drop_insert_lt by lia. done. }
    fold (z packet) in Hok. fold (z (<[i:=b]> packet)) in Hok'. rewrite Hsame, <-Hok in Hok'.
    apply load_inj in Hok'; rewrite ?length_take, ?length_drop, ?length_insert; auto using Forall_take, Forall_drop.
    apply (f_equal (.!! (i - 2)%nat)) in Hok'.
    rewrite !lookup_take_lt, !lookup_drop in Hok' by lia.
    replace (2 + (i - 2))%nat with i in Hok' by lia.
    rewrite list_lookup_insert_eq, Hi in Hok' by (by eapply lookup_lt_Some). congruence.
  - (* a summed byte *)
    assert (take 2 (drop 2 (<[i:=b]> packet)) = take 2 (drop 2 packet)) as Hsame.
    { destruct (decide (i < 2)%nat); [by rewrite drop_insert_lt by lia|].
      rewrite drop_insert_ge, take_insert_ge by lia. done. }
    rewrite Hsame, Hok in Hok'. revert Hok'.
    fold (z packet) (z (<[i:=b]> packet)).
    assert (byte_total (z (<[i:=b]> packet)) = byte_total (z packet) - x + b) as Htot.
    { rewrite Hz3, Hz3'. destruct (decide (i < 2)%nat).
      - rewrite take_insert_lt, drop_insert_lt by lia.
        rewrite (byte_total_insert _ _ x); [lia|]. by rewrite lookup_take_lt.
      - rewrite take_insert_ge, drop_insert_ge by lia.
        rewrite (byte_total_insert _ _ x); [lia|].
        rewrite lookup_drop. by replace (4 + (i - 4))%nat with i by lia. }
    unfold is_byte in *. apply checksum_differs; rewrite ?Htot; try done; lia.
Qed.
End receiver_facts.

(** ** What the receiver guarantees *)

Section receiver_claims.
Context `{Host}.
Implicit Types (f : list Z) (r : sr_receiver_t) (R : gset Z).

Lemma receiver_complete_spec f r R :
  receiver_rel f r R → (sr_receiver_is_complete r = true ↔ R = upto (r_num_chunks r)).
Proof.
  intros [Hc Hb]. pose proof (receiver_num_max _ _ _ Hc). pose proof (rc_base _ _ _ Hc).
  unfold sr_receiver_is_complete. rewrite Z.leb_le. split.
  - intros Hn. apply set_eq. intros k. rewrite elem_of_upto. split.
    + intros [Hk _]%(rc_in _ _ _ Hc). done.
    + intros Hk. apply (rc_below _ _ _ Hc). lia.
  - intros ->. rewrite elem_of_upto in Hb. lia.
Qed.

(** An acknowledgement on the network, seen by the sender. *)
Lemma ack_packet_facts k :
  in_width 32 k →
  ∃ hdr, cast udp_header_t (build_ack_packet k) 0 = Some hdr ∧
    uh_msg_type hdr = UDP_ACK ∧ ntohl (uh_ack_num hdr) = k.
Proof.
  intros Hk. rewrite build_ack_packet_spec.
  destruct (seal_valid (ack_header k) []) as [Hc _]; [by apply ack_header_fits|].
  eexists. split; [exact Hc|]. split; [done|]. by apply ntohl_htonl.
Qed.

(** C7: [sr_receiver_handle_data] refines adding a number to the set of
    received chunks: the packet of chunk [k] inside or behind the window adds
    [k] (a duplicate changes nothing) and is acknowledged, one ahead of the
    window is ignored without an acknowledgement; afterwards [base] is the
    smallest missing number, the first [base] chunks are in the file buffer,
    and [sr_receiver_is_complete] holds exactly when all chunks are received.
    The acknowledgement carries the number of the packet, as README describes
    and the sender expects; a comment of [protocol.h] says the next expected
    number, which is [base] and always another one. *)
Theorem handle_data_refines_set f r R k env :
  receiver_rel f r R → 0 ≤ k < r_num_chunks r →
  ∃ r' env',
    let accepted := bool_decide (k < r_base r + WINDOW_SIZE) in
    let R' := if accepted then {[k]} ∪ R else R in
    sr_receiver_handle_data r (data_packet k (chunk f k)) env = Some (0, r', env') ∧
    receiver_rel f r' R' ∧
    sends (if accepted then [ack_dg (r_peer_addr r) k] else []) env env' ∧
    r_chunks_received r' = Z.of_nat (size R') ∧
    (∀ j, 0 ≤ j < r_base r' → j ∈ R') ∧ r_base r' ∉ R' ∧
    (∃ buf, r_file_buffer r' = Some buf ∧
       take (Z.to_nat (r_base r' * CHUNK_SIZE)) buf = take (Z.to_nat (r_base r' * CHUNK_SIZE)) f) ∧
    (sr_receiver_is_complete r' = true ↔ R' = upto (r_num_chunks r)) ∧
    (accepted = true →
       (∃ hdr, cast udp_header_t (dg_bytes (ack_dg (r_peer_addr r) k)) 0 = Some hdr ∧
          uh_msg_type hdr = UDP_ACK ∧ ntohl (uh_ack_num hdr) = k) ∧ r_base r' ≠ k).
Proof.
  intros Hrel Hk.
  destruct (handle_data_spec f r R k env Hrel Hk) as (b' & w' & bf' & n' & env' & Hrun & Hrel' & _ & Hs).
  eexists _, env'. cbv zeta.
  assert ((if bool_decide (k < r_base r + WINDOW_SIZE) then {[k]} ∪ R else R) = data_effect r k R) as ->
    by (unfold data_effect; by case_bool_decide; case_decide).
  split; [exact Hrun|]. pose proof Hrel' as [Hc Hb]. split_and!; try done.
  - unfold data_acks in Hs. by case_bool_decide; case_decide.
  - apply (rc_count _ _ _ Hc).
  - apply (rc_below _ _ _ Hc).
  - destruct (rc_buffer _ _ _ Hc) as (buf & Hbuf & _ & Hpre). by exists buf.
  - apply (receiver_complete_spec f _ _ Hrel').
  - intros Hacc%bool_decide_eq_true. split.
    + apply ack_packet_facts. pose proof (rc_num _ _ _ (proj1 Hrel)) as Hnum.
      pose proof (rc_max _ _ _ (proj1 Hrel)) as Hmax.
      pose proof (chunks_of_max (Z.of_nat (length f)) ltac:(lia)). unfold in_width. lia.
    + intros Heq. apply Hb. rewrite Heq. unfold data_effect. rewrite decide_True by done. set_solver.
Qed.

(** C25: a data packet with one corrupted byte, anywhere in its header, its
    checksum or its payload, is dropped by any receiver in any state: the
    state does not change and nothing is acknowledged. *)
Theorem corrupted_packet_dropped r seq payload i x b env :
  in_width 32 seq → Forall is_byte payload → Z.of_nat (length payload) ≤ CHUNK_SIZE →
  data_packet seq payload !! i = Some x → is_byte b → b ≠ x →
  sr_receiver_handle_data r (<[i := b]> (data_packet seq payload)) env = Some (0, r, env).
Proof.
  unfold CHUNK_SIZE. intros Hseq Hp Hl Hi Hb Hne.
  unfold data_packet in *. set (h := data_header _ _) in *.
  assert (fits h) as Hf by (apply data_header_fits; [done|unfold in_width; lia]).
  pose proof (length_seal h payload Hf).
  apply handle_data_reject; [rewrite length_insert; lia|].
  eapply checksum_ok_one_byte; try done; [by apply seal_bytes|lia|by apply checksum_ok_seal].
Qed.

(** A duplicate of a chunk already delivered is acknowledged again, so
    that a lost acknowledgement cannot stall the sender, and leaves the
    receiver as it is. *)
Theorem duplicate_is_acknowledged r seq payload env :
  0 ≤ seq < r_base r → r_base r ≤ r_num_chunks r → r_num_chunks r < 4294967296 →
  Z.of_nat (length payload) ≤ CHUNK_SIZE →
  sr_receiver_handle_data r (data_packet seq payload) env
    = Some (0, r, env_send (r_lossy_link r) (ack_dg (r_peer_addr r) seq) env).
Proof.
  intros Hseq Hb Hn Hl. rewrite handle_data_packet; [|unfold in_width; lia|done].
  rewrite (proj2 (Z.leb_gt _ _)), (proj2 (Z.ltb_lt _ _)) by lia. done.
Qed.
End receiver_claims.

(** ** Two hosts of different byte order *)

(** The checksum travels in the byte order of the host (the other
    multi-byte fields go through [htonl] and [htons]): a data packet built on
    a little-endian host is dropped by a big-endian receiver, whatever its
    state, unless the two bytes of the checksum happen to be equal. *)
Theorem checksum_byte_order_matters r seq payload env :
  let h := @data_header LittleEndian seq (Z.of_nat (length payload)) in
  let c := calculate_checksum (to_bytes (H := @udp_header_packed LittleEndian) h ++ payload) in
  in_width 32 seq → Forall is_byte payload → Z.of_nat (length payload) ≤ CHUNK_SIZE →
  byte_swap 2 c ≠ c →
  @sr_receiver_handle_data BigEndian r (@data_packet LittleEndian seq payload) env
    = Some (0, r, env).
Proof.
  intros h c Hseq Hp Hl Hne. unfold CHUNK_SIZE in Hl.
  assert (@fits _ (@udp_header_packed LittleEndian) h) as Hf
    by (apply (@data_header_fits LittleEndian); [done|unfold in_width; lia]).
  pose proof (@length_seal LittleEndian h payload Hf) as Hlen.
  pose proof (@seal_bytes LittleEndian h payload Hf Hp) as Hb.
  destruct (@seal_checksum LittleEndian h payload Hf) as [Hck Hzero].
  change (@data_packet LittleEndian seq payload) with (@seal LittleEndian h payload).
  set (p := @seal LittleEndian h payload) in *. clearbody p.
  change (@set_checksum h 0) with h in *. fold c in Hck.
  apply (@handle_data_reject BigEndian); [lia|]. unfold checksum_ok.
  change (@host_endian BigEndian) with BigEndian. change (@host_endian LittleEndian) with LittleEndian in *.
  change (store BigEndian 2 0) with (store LittleEndian 2 0). rewrite Hzero. fold c.
  intros Heq. apply Hne. rewrite <-Heq at 2. unfold byte_swap. f_equal. rewrite <-Hck.
  apply store_load; [by apply Forall_take, Forall_drop|rewrite length_take, length_drop; lia].
Qed.

(** ** A peer that does not respect the announced size *)

Lemma deliver_loop_overflow fuel r e data buf :
  r_base r < r_num_chunks r → r_window r !! slot (r_base r) = Some e → re_received e = true →
  mread (re_data e) 0 (re_data_len e) = Some data → r_file_buffer r = Some buf →
  mwrite buf (r_base r *₃₂ CHUNK_SIZE) data = None →
  deliver_loop (S fuel) r = None.
Proof.
  intros Hlt He Hrec Hrd Hbuf Hwr. cbn [deliver_loop].
  rewrite (proj2 (Z.ltb_lt _ _)), He by done. bind_step. rewrite Hrec. cbn [negb].
  rewrite Hrd. bind_step. rewrite Hbuf. bind_step. by rewrite Hwr.
Qed.

(** C38: [sr_receiver_handle_data] trusts the length of a chunk: after
    [sr_receiver_init] with a buffer of [size] bytes, a correctly sealed
    packet for chunk 0 that carries more than [size] bytes passes every check
    and the delivery writes past the end of the heap block. *)
Theorem oversized_chunk_overflows_buffer `{Host} fd peer size num block r0 r payload env :
  sr_receiver_init (Some r0) fd (Some peer) size num true (Some block) = (0, Some r) →
  Z.of_nat (length block) = size → 0 < num < 4294967296 →
  size < Z.of_nat (length payload) ≤ CHUNK_SIZE →
  sr_receiver_handle_data r (data_packet 0 payload) env = None.
Proof.
  intros Hinit Hblock Hnum Hl. unfold CHUNK_SIZE in Hl.
  assert (r_base r = 0 ∧ r_num_chunks r = num ∧ r_file_buffer r = Some block ∧
    length (r_window r) = 64%nat ∧ r_window r !! slot 0 = Some empty_recv_entry) as (Hb & Hn & Hf & Hwl & Hw).
  { injection Hinit as <-. by split_and!. }
  clear Hinit. rewrite handle_data_packet by (done || (unfold CHUNK_SIZE; lia)).
  rewrite Hb, Hn, (proj2 (Z.leb_gt _ _)), Hw by lia. bind_step.
  change (0 <? 0) with false. change (0 +₃₂ WINDOW_SIZE <=? 0) with false.
  change (re_received empty_recv_entry) with false. cbn iota.
  assert (length (re_data empty_recv_entry) = Z.to_nat CHUNK_SIZE) as Hz by apply length_replicate.
  rewrite mwrite_Some by (rewrite ?Hz; unfold CHUNK_SIZE; lia). bind_step.
  change deliver_fuel with (S (Z.to_nat WINDOW_SIZE)).
  rewrite (deliver_loop_overflow _ _ (recv_entry 0 (payload ++
    drop (length payload) (re_data empty_recv_entry)) (Z.of_nat (length payload))) payload block);
    try done; simpl; rewrite ?Hn, ?Hb.
  - lia.
  - by apply slot_insert_eq.
  - rewrite mread_Some by (rewrite ?length_app; lia). by rewrite drop_0, Nat2Z.id, take_app_length.
  - unfold mwrite. rewrite bool_decide_eq_false_2; [done|]. change (0 *₃₂ CHUNK_SIZE) with 0. lia.
Qed.

(** ** A concrete receiver, for the witnesses *)

Module ReceiverExample.
#[local] Instance host : Host := LittleEndian.

Definition file : list Z := [104; 101; 108; 108; 111; 10].
Definition peer : sockaddr_in := {| sin_addr := 16777343; sin_port := 28951 |}.
Definition raw : sr_receiver_t := {|
  r_udp_fd := 0; r_peer_addr := peer; r_base := 3; r_window := []; r_file_buffer := None;
  r_file_size := 0; r_num_chunks := 0; r_chunks_received := 0; r_lossy_link := false |}.
Definition env0 : sr_env :=
  {| env_link := lossy_init 4 no_loss 1; env_stats := stats_init; env_net := [] |}.
Definition block : list Z := [255; 255; 255; 255; 255; 255].
Definition r0 : sr_receiver_t :=
  default raw (sr_receiver_init (Some raw) 4 (Some peer) 6 1 true (Some block)).2.
Definition r1 : sr_receiver_t :=
  default raw ('(_, r, _) ← sr_receiver_handle_data r0 (data_packet 0 file) env0; Some r).

Lemma r0_rel : receiver_rel file r0 ∅.
Proof. by destruct (receiver_init_rel file 4 peer raw block) as (r & [= <-] & Hrel & _). Qed.

Lemma handle_data_refines_set_witness :
  ∃ r' env', sr_receiver_handle_data r0 (data_packet 0 file) env0 = Some (0, r', env') ∧
    sr_receiver_is_complete r' = true.
Proof.
  destruct (handle_data_refines_set file r0 ∅ 0 env0 r0_rel)
    as (r' & env' & Hrun & _ & _ & _ & _ & _ & _ & Hd & _); [by vm_compute|].
  exists r', env'. split; [exact Hrun|]. apply Hd. by vm_compute.
Defined.

Lemma corrupted_packet_dropped_witness :
  sr_receiver_handle_data r0 (<[17%nat := 102]> (data_packet 0 file)) env0 = Some (0, r0, env0).
Proof.
  apply (corrupted_packet_dropped r0 0 file 17 101 102 env0); try by vm_compute.
  apply (bool_decide_unpack _). by vm_compute.
Defined.

Lemma duplicate_is_acknowledged_witness :
  sr_receiver_handle_data r1 (data_packet 0 file) env0
    = Some (0, r1, env_send true (ack_dg peer 0) env0).
Proof. apply (duplicate_is_acknowledged r1 0 file env0); by vm_compute. Defined.

Lemma checksum_byte_order_matters_witness :
  @sr_receiver_handle_data BigEndian r0 (data_packet 0 file) env0 = Some (0, r0, env0).
Proof.
  apply (checksum_byte_order_matters r0 0 file env0); try by vm_compute.
  apply (bool_decide_unpack _). by vm_compute.
Defined.

Lemma oversized_chunk_overflows_buffer_witness :
  sr_receiver_handle_data r0 (data_packet 0 (file ++ [33])) env0 = None.
Proof.
  apply (oversized_chunk_overflows_buffer 4 peer 6 1 block raw r0 (file ++ [33]) env0);
    by vm_compute.
Defined.
End ReceiverExample.
