(* ===== verification/ReceiverSafety.v ===== *)
(** * The receiver against an arbitrary peer

    [SRReceiver] relates a receiver to the file its peer sends.  Here the peer
    may send anything: packets of no file, contradictory copies of a chunk, a
    number of chunks that does not fit the size.  The one thing the code takes
    on trust is that a chunk lies within the announced size; under that
    condition no operation leaves a buffer. *)

From S2P Require Import Prelude Packed Protocol Lossy Packets Window SRReceiver.

Section safety.
Context `{Host}.
Implicit Types (r : sr_receiver_t).

(** The packets the receiver takes as chunks of a transfer of [num] chunks:
    the guards of [sr_receiver_handle_data] (the checksum, the type, the
    length against [data_len], the number against [num_chunks]).  Everything
    else it drops. *)
Definition taken_as_chunk (num : Z) (packet : list Z) (hdr : udp_header_t) : Prop :=
  cast udp_header_t packet 0 = Some hdr ∧ checksum_ok packet ∧ uh_msg_type hdr = UDP_DATA ∧
  16 + ntohs (uh_data_len hdr) ≤ Z.of_nat (length packet) ∧ ntohl (uh_seq_num hdr) < num.

(** Such a packet carries a chunk that ends within [size] bytes; any other
    packet is not restricted. *)
Definition within (size num : Z) (packet : list Z) : Prop :=
  ∀ hdr, taken_as_chunk num packet hdr →
    ntohl (uh_seq_num hdr) * CHUNK_SIZE + ntohs (uh_data_len hdr) ≤ size.

#[global] Instance within_dec size num packet : Decision (within size num packet).
Proof.
  unfold within, taken_as_chunk. destruct (cast udp_header_t packet 0) as [hdr|].
  - destruct (decide ((checksum_ok packet ∧ uh_msg_type hdr = UDP_DATA ∧
      16 + ntohs (uh_data_len hdr) ≤ Z.of_nat (length packet) ∧ ntohl (uh_seq_num hdr) < num) →
      ntohl (uh_seq_num hdr) * CHUNK_SIZE + ntohs (uh_data_len hdr) ≤ size)) as [Hin|Hout].
    + left. intros ? ([= <-] & Ht). by apply Hin.
    + right. intros Hin. apply Hout. intros Ht. by apply (Hin hdr).
  - left. by intros ? [? _].
Defined.

(** What a buffered entry at position [k] of the window guarantees. *)
Definition safe_entry (size k : Z) (e : recv_window_entry_t) : Prop :=
  length (re_data e) = Z.to_nat CHUNK_SIZE ∧
  (re_received e = true → 0 ≤ re_data_len e ≤ CHUNK_SIZE ∧ k * CHUNK_SIZE + re_data_len e ≤ size).

Record receiver_safe r : Prop := {
  rs_size : in_width 32 (r_file_size r);
  rs_num : in_width 32 (r_num_chunks r);
  rs_base : 0 ≤ r_base r ≤ r_num_chunks r;
  rs_wlen : length (r_window r) = 64%nat;
  rs_slots : ∀ k, r_base r ≤ k < r_base r + WINDOW_SIZE →
    ∃ e, r_window r !! slot k = Some e ∧ safe_entry (r_file_size r) k e;
  rs_buffer : ∃ buf, r_file_buffer r = Some buf ∧ Z.of_nat (length buf) = r_file_size r;
}.

#[local] Arguments replicate : simpl never.

Lemma receiver_init_safe r0 fd peer size num block :
  in_width 32 size → in_width 32 num → Z.of_nat (length block) = size →
  ∃ r, sr_receiver_init (Some r0) fd (Some peer) size num true (Some block) = (0, Some r) ∧
    receiver_safe r ∧ r_file_size r = size ∧ r_num_chunks r = num ∧ r_peer_addr r = peer.
Proof.
  intros Hsize Hnum Hblock. eexists. split; [done|]. split; [|done]. destruct Hnum.
  split; simpl; try done.
  - intros k Hk. exists empty_recv_entry. split.
    + apply lookup_replicate_2. apply (slot_lt k).
    + split; [apply length_replicate|done].
  - by exists block.
Qed.

(** Buffering a chunk. *)
Lemma safe_accept r k data len n :
  receiver_safe r → r_base r ≤ k < r_base r + WINDOW_SIZE → length data = Z.to_nat CHUNK_SIZE →
  0 ≤ len ≤ CHUNK_SIZE → k * CHUNK_SIZE + len ≤ r_file_size r →
  receiver_safe (upd_receiver r (r_base r) (<[slot k := recv_entry k data len]> (r_window r))
    (r_file_buffer r) n).
Proof.
  intros [] Hk Hd Hl Hin. split; simpl; try done; [by rewrite length_insert|].
  intros j Hj. destruct (decide (j = k)) as [->|Hne].
  - eexists. split; [by apply slot_insert_eq|]. done.
  - rewrite (slot_insert_ne _ (r_base r)) by lia. auto.
Qed.

(** Delivering the chunk at [base]. *)
Lemma safe_deliver r e :
  receiver_safe r → r_base r < r_num_chunks r → r_window r !! slot (r_base r) = Some e →
  re_received e = true →
  ∃ data buf buf',
    mread (re_data e) 0 (re_data_len e) = Some data ∧ r_file_buffer r = Some buf ∧
    mwrite buf (r_base r *₃₂ CHUNK_SIZE) data = Some buf' ∧
    receiver_safe (upd_receiver r (r_base r + 1)
      (<[slot (r_base r) := clear_received e]> (r_window r)) (Some buf') (r_chunks_received r)).
Proof.
  intros Hs Hlt He Hrec. pose proof (rs_base _ Hs). pose proof (rs_size _ Hs) as [_ Hmax].
  destruct (rs_slots _ Hs (r_base r)) as (e' & He' & Hl & Hok); [unfold WINDOW_SIZE; lia|].
  assert (e' = e) as -> by congruence. destruct (Hok Hrec) as [Hlen Hin].
  destruct (rs_buffer _ Hs) as (buf & Hbuf & Hbl). unfold CHUNK_SIZE in *.
  pose proof (mread_Some (re_data e) 0 (re_data_len e)) as Hrd.
  rewrite Hrd by lia. clear Hrd. eexists _, buf, _. split; [done|]. split; [done|].
  rewrite u32_small by lia.
  rewrite mwrite_Some by (rewrite ?length_take, ?drop_0; lia). split; [done|].
  destruct Hs. split; simpl; try done; try lia.
  - by rewrite length_insert.
  - intros k Hk. destruct (decide (k = r_base r + WINDOW_SIZE)) as [->|Hne].
    + exists (clear_received e). rewrite slot_wrap. split; [by apply slot_insert_eq|]. done.
    + rewrite (slot_insert_ne _ (r_base r)) by lia. apply rs_slots0. lia.
  - eexists. split; [done|]. rewrite !length_app, !length_take, !length_drop. lia.
Qed.

Lemma safe_deliver_loop fuel r top :
  receiver_safe r → (Z.to_nat (top - r_base r) < fuel)%nat →
  (∀ k e, r_base r ≤ k < r_base r + WINDOW_SIZE → r_window r !! slot k = Some e →
     re_received e = true → k < top) →
  ∃ base' w' buf', let r' := upd_receiver r base' w' buf' (r_chunks_received r) in
    deliver_loop fuel r = Some r' ∧ receiver_safe r' ∧ r_base r ≤ base'.
Proof.
  revert r. induction fuel as [|fuel IH]; intros r Hs Hfuel Htop; [lia|]. cbn [deliver_loop].
  assert (∃ base' w' buf', let r' := upd_receiver r base' w' buf' (r_chunks_received r) in
    Some r = Some r' ∧ receiver_safe r' ∧ r_base r ≤ base') as Hstop.
  { exists (r_base r), (r_window r), (r_file_buffer r). by destruct r. }
  case_cond as Elt; [|done]. pose proof (rs_num _ Hs) as [_ Hn]. pose proof (rs_base _ Hs).
  destruct (rs_slots _ Hs (r_base r)) as (e & He & Hl & _); [unfold WINDOW_SIZE; lia|].
  rewrite He. bind_step. destruct (re_received e) eqn:Hrec; cbn [negb]; [|done].
  destruct (safe_deliver r e Hs ltac:(lia) He Hrec) as (data & buf & buf' & -> & -> & Hw & Hs').
  bind_step. rewrite Hw. bind_step. usmall. pose proof (Htop (r_base r) e ltac:(unfold WINDOW_SIZE; lia) He Hrec).
  destruct (IH _ Hs') as (b' & w' & bf' & Hrun & Hsafe & Hle); [simpl; lia| |].
  - simpl. intros k e' Hk He' Hrec'. destruct (decide (k = r_base r + WINDOW_SIZE)) as [->|Hne].
    + rewrite slot_wrap, slot_insert_eq in He' by apply Hs. by simplify_eq/=.
    + rewrite (slot_insert_ne _ (r_base r)) in He' by lia. apply (Htop k e'); [lia|done|done].
  - simpl in *. exists b', w', bf'. split_and!; [done|done|lia].
Qed.

#[local] Arguments deliver_loop : simpl never.

(** The header of any packet that is long enough, and its ranges. *)
Lemma header_ranges packet :
  16 ≤ Z.of_nat (length packet) → Forall is_byte packet →
  ∃ hdr, cast udp_header_t packet 0 = Some hdr ∧ in_width 8 (uh_msg_type hdr) ∧
    in_width 32 (ntohl (uh_seq_num hdr)) ∧ in_width 32 (ntohl (uh_ack_num hdr)) ∧
    in_width 16 (ntohs (uh_data_len hdr)).
Proof.
  intros Hl Hb. destruct (cast_total (A := udp_header_t) packet 0) as (hdr & Hc & Hf);
    [done|by rewrite sizeof_udp_header|done|].
  exists hdr. split; [done|]. destruct Hf as (Hm & _ & _ & Hs & Ha & Hd & _).
  split_and!; [exact Hm|by apply (hton_range 4)..|by apply (hton_range 2)].
Qed.

(** What the receiver may have put on the network. *)
Definition only_acks r (env env' : sr_env) : Prop :=
  ∃ ks, Forall (λ k, 0 ≤ k < r_num_chunks r) ks ∧ sends (ack_dg (r_peer_addr r) <$> ks) env env'.

(** Two receivers of the same transfer. *)
Definition same_transfer r r' : Prop :=
  r_file_size r' = r_file_size r ∧ r_num_chunks r' = r_num_chunks r ∧
  r_peer_addr r' = r_peer_addr r.

Lemma handle_data_safe r packet env :
  receiver_safe r → Forall is_byte packet → Z.of_nat (length packet) ≤ 16 + CHUNK_SIZE →
  within (r_file_size r) (r_num_chunks r) packet →
  ∃ r' env', sr_receiver_handle_data r packet env = Some (0, r', env') ∧ receiver_safe r' ∧
    same_transfer r r' ∧ only_acks r env env' ∧ r_base r ≤ r_base r'.
Proof.
  intros Hs Hb Hlen Hin. unfold CHUNK_SIZE in Hlen. unfold sr_receiver_handle_data. rewrite sizeof_udp_header.
  assert (∀ env', only_acks r env env' → ∃ r' env'', Some (0, r, env') = Some (0, r', env'') ∧
    receiver_safe r' ∧ same_transfer r r' ∧ only_acks r env env'' ∧ r_base r ≤ r_base r') as Hsame
    by (intros env' Ha; by exists r, env').
  assert (only_acks r env env) as Hnone by (exists []; split; [constructor|apply sends_nil]).
  case_cond as E1; [by apply Hsame|].
  destruct (header_ranges packet) as (hdr & Hcast & _ & Hseq & _ & Hdl); [lia|done|].
  destruct (cast_checksum packet ltac:(lia)) as (hdr' & Hcast' & Hck).
  assert (hdr' = hdr) as -> by congruence.
  rewrite Hcast. bind_step. rewrite zero_checksum_bytes by lia. bind_step.
  specialize (Hin hdr). unfold taken_as_chunk in Hin. set (seq := ntohl _) in *. set (dlen := ntohs _) in *.
  unfold in_width in Hseq, Hdl.
  case_cond as E2; [by apply Hsame|]. case_cond as E3; [by apply Hsame|].
  case_cond as E4; [by apply Hsame|]. case_cond as E5; [by apply Hsame|].
  assert (seq * CHUNK_SIZE + dlen ≤ r_file_size r) as Hend.
  { apply Hin. split_and!; [done|unfold checksum_ok; lia|lia|lia|lia]. }
  clear Hin.
  assert (only_acks r env (sr_receiver_send_ack r seq env)) as Hone.
  { exists [seq]. split; [|apply sends_one]. constructor; [lia|constructor]. }
  case_cond as E6; [by apply Hsame|]. case_cond as E7; [by apply Hsame|].
  pose proof (rs_base _ Hs). pose proof (rs_num _ Hs) as Hn. unfold in_width in Hn.
  assert (r_base r ≤ seq < r_base r + WINDOW_SIZE) as Hwin.
  { unfold uwrap, WINDOW_SIZE in *. pose proof (Z.mod_le (r_base r + 64) (2 ^ 32)). lia. }
  destruct (rs_slots _ Hs seq Hwin) as (e & He & Hl & _). rewrite He. bind_step.
  assert (∃ w1 n1, let r1 := upd_receiver r (r_base r) w1 (r_file_buffer r) n1 in
    receiver_safe r1 ∧
    (if re_received e then Some r
     else payload ← mread packet 16 dlen; data ← mwrite (re_data e) 0 payload;
          Some (upd_receiver r (r_base r)
            (<[slot seq := recv_entry seq data dlen]> (r_window r))
            (r_file_buffer r) (r_chunks_received r +₃₂ 1))) = Some r1) as (w1 & n1 & Hs1 & Hr1).
  { destruct (re_received e).
    - exists (r_window r), (r_chunks_received r). by destruct r.
    - unfold CHUNK_SIZE in Hl. rewrite mread_Some by lia. bind_step.
      rewrite mwrite_Some by (rewrite ?length_take, ?length_drop; lia). bind_step.
      eexists _, _. split; [|done]. apply safe_accept; try done; try (unfold CHUNK_SIZE; lia).
      unfold CHUNK_SIZE. rewrite !length_app, !length_take, !length_drop. rewrite ?length_take, ?length_drop. lia. }
  unfold recv_entry in Hr1. rewrite Hr1. bind_step.
  destruct (safe_deliver_loop deliver_fuel _ (r_base r + WINDOW_SIZE) Hs1) as (b' & w' & bf' & Hrun & Hs' & Hle).
  - simpl. unfold deliver_fuel, WINDOW_SIZE. lia.
  - simpl. intros. lia.
  - rewrite Hrun. bind_step. eexists _, _. split; [done|]. by split_and!.
Qed.

(** ** A run against the peer *)

Fixpoint feed (packets : list (list Z)) r (env : sr_env) : option (sr_receiver_t * sr_env) :=
  match packets with
  | [] => Some (r, env)
  | p :: packets =>
      '(_, r, env) ← sr_receiver_handle_data r p env;
      feed packets r env
  end.

(** What the socket can hand over, from a peer that respects its announcement. *)
Definition input_within (size num : Z) (packet : list Z) : Prop :=
  Forall is_byte packet ∧ Z.of_nat (length packet) ≤ 16 + CHUNK_SIZE ∧ within size num packet.

Lemma same_transfer_trans r1 r2 r3 : same_transfer r1 r2 → same_transfer r2 r3 → same_transfer r1 r3.
Proof. unfold same_transfer. intros (? & ? & ?) (? & ? & ?). split_and!; congruence. Qed.

Lemma only_acks_trans r r' env1 env2 env3 :
  same_transfer r r' → only_acks r env1 env2 → only_acks r' env2 env3 → only_acks r env1 env3.
Proof.
  intros (_ & Hn & Hp) (k1 & Hk1 & Hs1) (k2 & Hk2 & Hs2). rewrite Hn, Hp in *.
  exists (k1 ++ k2). rewrite fmap_app. split; [by apply Forall_app|by eapply sends_trans].
Qed.

Lemma feed_safe packets r env :
  receiver_safe r → Forall (input_within (r_file_size r) (r_num_chunks r)) packets →
  ∃ r' env', feed packets r env = Some (r', env') ∧ receiver_safe r' ∧ same_transfer r r' ∧
    only_acks r env env'.
Proof.
  revert r env. induction packets as [|p packets IH]; intros r env Hs Hall.
  { exists r, env. split_and!; try done. exists []. split; [constructor|apply sends_nil]. }
  inversion_clear Hall as [|?? (Hb & Hl & Hin) Hall']. cbn [feed].
  destruct (handle_data_safe r p env Hs Hb Hl Hin) as (r1 & env1 & -> & Hs1 & Hsame & Ha1 & _).
  bind_step. destruct (IH r1 env1 Hs1) as (r2 & env2 & -> & Hs2 & Hsame2 & Ha2).
  { by rewrite (proj1 Hsame), (proj1 (proj2 Hsame)). }
  exists r2, env2. split_and!; [done|done|by eapply same_transfer_trans|by eapply only_acks_trans].
Qed.

(** C16: the receiver is memory safe against any peer whose accepted chunks
    lie within the size it announced.  The condition is only on the packets
    that pass every guard of the code (checksum, type, length, number below
    [num_chunks]): each of those ends within the announced size.  Whatever
    else arrives (a number of chunks that does not match the size, packets
    that are too short, corrupted, of another type or out of range, chunks of
    no file, contradictory copies), every packet is handled without leaving a
    buffer, the file buffer keeps its size, and all the receiver ever sends
    are acknowledgements to that peer for numbers below its number of
    chunks. *)
Theorem receiver_robust r0 fd peer size num block packets env :
  in_width 32 size → in_width 32 num → Z.of_nat (length block) = size →
  Forall (input_within size num) packets →
  ∃ r r' env',
    sr_receiver_init (Some r0) fd (Some peer) size num true (Some block) = (0, Some r) ∧
    feed packets r env = Some (r', env') ∧
    (∃ buf, r_file_buffer r' = Some buf ∧ Z.of_nat (length buf) = size) ∧
    0 ≤ r_base r' ≤ num ∧
    ∃ ks, Forall (λ k, 0 ≤ k < num) ks ∧ sends (ack_dg peer <$> ks) env env'.
Proof.
  intros Hsize Hnum Hblock Hall.
  destruct (receiver_init_safe r0 fd peer size num block) as (r & Hinit & Hs & Hsz & Hn & Hp); [done..|].
  destruct (feed_safe packets r env Hs) as (r' & env' & Hrun & Hs' & (Hsz' & Hn' & _) & ks & Hks & Hsends);
    [by rewrite Hsz, Hn|].
  rewrite Hn in Hn', Hks. rewrite Hp in Hsends. pose proof (rs_base _ Hs') as Hbase. rewrite Hn' in Hbase.
  destruct (rs_buffer _ Hs') as (buf & Hbuf & Hbl). rewrite Hsz', Hsz in Hbl.
  exists r, r', env'. split_and!; try done; try lia; [by exists buf|by exists ks].
Qed.
End safety.

(** ** A peer without a file *)

Module HostilePeer.
#[local] Instance host : Host := LittleEndian.
Import ReceiverExample.

(** Six bytes announced as nine chunks, then two copies of chunk 0 that
    differ, an acknowledgement, a chunk whose number is out of range, one
    that ends outside the file with a byte changed, and a packet that is no
    packet. *)
Definition packets : list (list Z) :=
  [data_packet 0 [1; 2]; data_packet 0 file; build_ack_packet 3; data_packet 200 file;
   <[3%nat := 77]> (data_packet 8 file); [1; 2; 3]].

Lemma receiver_robust_witness :
  ∃ r r' env', sr_receiver_init (Some raw) 4 (Some peer) 6 9 true (Some block) = (0, Some r) ∧
    feed packets r env0 = Some (r', env') ∧ 0 ≤ r_base r' ≤ 9.
Proof.
  destruct (receiver_robust raw 4 peer 6 9 block packets env0) as (r & r' & env' & Hi & Hr & _ & Hb & _).
  - by vm_compute.
  - by vm_compute.
  - reflexivity.
  - repeat constructor; apply (bool_decide_unpack _); by vm_compute.
  - exists r, r', env'. exact (conj Hi (conj Hr Hb)).
Defined.
End HostilePeer.
