(* ===== verification/SRTransfer.v ===== *)
(** * A transfer: sender, receiver and the network between them

    The sender and the receiver of one file composed with a network that may
    lose, duplicate, delay and reorder datagrams, and change any single byte
    of a data packet.  The network is the list of all datagrams ever handed
    to it ([env_net] of the two environments): a step delivers any of them,
    at any time, as often as it likes.

    Two step relations: in [transfer_step] acknowledgements arrive as they
    were sent; in [noisy_step] the sender may also be handed any bytes at all
    in place of an acknowledgement, since [sr_sender_handle_ack] and its
    caller never look at the checksum.

    [noisy_inv] is the invariant of every state the noisy network can reach;
    from it follow the safety of the transfer (what is delivered is a prefix
    of the file, and a completed transfer is the file), its refinement of
    in-order delivery, and that no step has undefined behaviour.
    [transfer_inv] adds, for genuine acknowledgements, that the sender knows
    only of chunks the receiver has.  [round] is the executable exchange over
    links that lose nothing. *)

From S2P Require Import Prelude Packed Protocol Lossy Packets Window SRSender SRReceiver.

Record transfer := {
  y_sender : sr_sender_t;
  y_senv : sr_env;
  y_receiver : sr_receiver_t;
  y_renv : sr_env;
}.

Section transfer.
Context `{Host}.
Implicit Types (f : list Z) (y : transfer).

(** ** Steps *)

Inductive transfer_step : transfer → transfer → Prop :=
  | step_send now s senv r renv n s' senv' :
      sr_sender_send_window now s senv = Some (n, s', senv') →
      transfer_step {| y_sender := s; y_senv := senv; y_receiver := r; y_renv := renv |}
                    {| y_sender := s'; y_senv := senv'; y_receiver := r; y_renv := renv |}
  | step_timeout now s senv r renv n s' senv' :
      sr_sender_check_timeouts s now senv = Some (n, s', senv') →
      transfer_step {| y_sender := s; y_senv := senv; y_receiver := r; y_renv := renv |}
                    {| y_sender := s'; y_senv := senv'; y_receiver := r; y_renv := renv |}
  | step_data dg s senv r renv n r' renv' :
      dg ∈ env_net senv →
      sr_receiver_handle_data r (dg_bytes dg) renv = Some (n, r', renv') →
      transfer_step {| y_sender := s; y_senv := senv; y_receiver := r; y_renv := renv |}
                    {| y_sender := s; y_senv := senv; y_receiver := r'; y_renv := renv' |}
  | step_garbled dg i x b s senv r renv n r' renv' :
      dg ∈ env_net senv → dg_bytes dg !! i = Some x → is_byte b → b ≠ x →
      sr_receiver_handle_data r (<[i := b]> (dg_bytes dg)) renv = Some (n, r', renv') →
      transfer_step {| y_sender := s; y_senv := senv; y_receiver := r; y_renv := renv |}
                    {| y_sender := s; y_senv := senv; y_receiver := r'; y_renv := renv' |}
  | step_ack dg hdr s senv r renv n s' senv' :
      dg ∈ env_net renv → cast udp_header_t (dg_bytes dg) 0 = Some hdr →
      sr_sender_handle_ack s hdr senv = Some (n, s', senv') →
      transfer_step {| y_sender := s; y_senv := senv; y_receiver := r; y_renv := renv |}
                    {| y_sender := s'; y_senv := senv'; y_receiver := r; y_renv := renv |}.

(** The network may also hand the sender arbitrary bytes as an
    acknowledgement: a genuine one with any number of bytes changed, or a
    forged one. *)
Inductive noisy_step : transfer → transfer → Prop :=
  | noisy_transfer y y' : transfer_step y y' → noisy_step y y'
  | noisy_ack bytes hdr s senv r renv n s' senv' :
      Forall is_byte bytes → cast udp_header_t bytes 0 = Some hdr →
      sr_sender_handle_ack s hdr senv = Some (n, s', senv') →
      noisy_step {| y_sender := s; y_senv := senv; y_receiver := r; y_renv := renv |}
                 {| y_sender := s'; y_senv := senv'; y_receiver := r; y_renv := renv |}.

(** The two ends agree on the file, nothing is on the network yet. *)
Definition transfer_init f y : Prop :=
  ∃ fd fd' speer rpeer s0 r0 block,
    Z.of_nat (length f) < max_file ∧ Forall is_byte f ∧ length block = length f ∧
    sr_sender_init (Some s0) fd (Some speer) (Some f) (Z.of_nat (length f)) true
      = (0, Some (y_sender y)) ∧
    sr_receiver_init (Some r0) fd' (Some rpeer) (Z.of_nat (length f))
      (chunks_of (Z.of_nat (length f))) true (Some block) = (0, Some (y_receiver y)) ∧
    env_net (y_senv y) = [] ∧ env_net (y_renv y) = [].

Definition reachable f y : Prop := ∃ y0, transfer_init f y0 ∧ rtc transfer_step y0 y.

Definition noisy_reachable f y : Prop := ∃ y0, transfer_init f y0 ∧ rtc noisy_step y0 y.

Lemma reachable_noisy f y : reachable f y → noisy_reachable f y.
Proof.
  intros (y0 & Hinit & Hsteps). exists y0. split; [done|].
  eapply rtc_subrel; [|done]. intros. by apply noisy_transfer.
Qed.

(** ** The invariant *)

(** [A] acknowledged, [R] received: everything received was sent, and the
    network carries only packets of the file's chunks and acknowledgements
    of received chunks. *)
Record noisy_rel f y (A R : gset Z) : Prop := {
  nr_bytes : Forall is_byte f;
  nr_sender : sender_rel f (y_sender y) A;
  nr_receiver : receiver_rel f (y_receiver y) R;
  nr_sent : ∀ k, k ∈ R → k < s_next_seq (y_sender y);
  nr_data : ∀ dg, dg ∈ env_net (y_senv y) →
    ∃ k, 0 ≤ k < s_next_seq (y_sender y) ∧ dg = data_dg f (s_peer_addr (y_sender y)) k;
  nr_acks : ∀ dg, dg ∈ env_net (y_renv y) →
    ∃ k, k ∈ R ∧ dg = ack_dg (r_peer_addr (y_receiver y)) k;
}.

(** With genuine acknowledgements, everything acknowledged was received. *)
Record transfer_rel f y (A R : gset Z) : Prop := {
  tr_noisy :> noisy_rel f y A R;
  tr_acked : A ⊆ R;
}.

Definition noisy_inv f y : Prop := ∃ A R, noisy_rel f y A R.
Definition transfer_inv f y : Prop := ∃ A R, transfer_rel f y A R.

Lemma transfer_init_inv f y : transfer_init f y → transfer_inv f y.
Proof.
  intros (fd & fd' & speer & rpeer & s0 & r0 & block & Hmax & Hb & Hbl & Hs & Hr & Hn1 & Hn2).
  destruct (sender_init_rel f fd speer s0 Hmax) as (s & Hs' & Hrel & _ & Hn).
  destruct (receiver_init_rel f fd' rpeer r0 block Hmax Hbl) as (r & Hr' & Hrrel & _).
  rewrite Hs in Hs'. rewrite Hr in Hr'. injection Hs' as <-. injection Hr' as <-.
  exists ∅, ∅. split; [|done]. split; try done; rewrite ?Hn1, ?Hn2; set_solver.
Qed.

(** The packets of the network are well-formed. *)
Lemma chunk_bytes f k : Forall is_byte f → Forall is_byte (chunk f k).
Proof. intros. by apply Forall_take, Forall_drop. Qed.

Lemma data_packet_facts f k :
  Forall is_byte f → in_width 32 k →
  checksum_ok (data_packet k (chunk f k)) ∧ Forall is_byte (data_packet k (chunk f k)) ∧
  16 ≤ Z.of_nat (length (data_packet k (chunk f k))) ≤ 65536.
Proof.
  intros Hb Hk. pose proof (length_chunk_le f k) as Hle. unfold CHUNK_SIZE in Hle.
  unfold data_packet. set (h := data_header _ _).
  assert (fits h) as Hf by (apply data_header_fits; [done|unfold in_width; lia]).
  split_and!; [by apply checksum_ok_seal| |rewrite length_seal by done; lia..].
  apply seal_bytes; [done|by apply chunk_bytes].
Qed.

(** ** The steps on the invariant

    Each lemma says that the operation is defined and gives the sets
    afterwards. *)

Abbreviation st s senv r renv :=
  {| y_sender := s; y_senv := senv; y_receiver := r; y_renv := renv |}.

Lemma nrel_send now f s senv r renv A R :
  noisy_rel f (st s senv r renv) A R →
  ∃ n s' senv', sr_sender_send_window now s senv = Some (n, s', senv') ∧
    noisy_rel f (st s' senv' r renv) A R.
Proof.
  intros [Hb Hs Hr Hsent Hdata Hacks]. simpl in *.
  destruct (send_window_spec now f s A senv Hs) as (w' & env' & Hrun & Hs' & Hsends & _).
  pose proof (proj1 Hs) as Hc. pose proof (sc_base _ _ _ Hc). pose proof (sc_next _ _ _ Hc).
  assert (s_next_seq s ≤ send_limit s) by (unfold send_limit; lia).
  do 3 eexists. split; [exact Hrun|]. split; simpl; try done.
  - intros k Hk%Hsent. lia.
  - intros dg [Hdg|Hdg]%(sends_elem _ _ _ _ Hsends).
    + destruct (Hdata dg Hdg) as (k & Hk & ->). exists k. split; [lia|done].
    + apply list_elem_of_fmap in Hdg as (k & -> & Hk%elem_of_seqZ). exists k. split; [lia|done].
Qed.

Lemma nrel_timeout now f s senv r renv A R :
  noisy_rel f (st s senv r renv) A R →
  ∃ n s' senv', sr_sender_check_timeouts s now senv = Some (n, s', senv') ∧
    noisy_rel f (st s' senv' r renv) A R.
Proof.
  intros [Hb Hs Hr Hsent Hdata Hacks]. simpl in *.
  destruct (check_timeouts_spec now f s A senv Hs) as (w' & env' & Hrun & Hs' & Hsends & _).
  pose proof (sc_base _ _ _ (proj1 Hs)).
  do 3 eexists. split; [exact Hrun|]. split; simpl; try done.
  intros dg [Hdg|Hdg]%(sends_elem _ _ _ _ Hsends); [by apply Hdata|].
  apply list_elem_of_fmap in Hdg as (k & -> & Hk). exists k. split; [|done].
  apply before_elem, list_elem_of_In, filter_In in Hk as [Hk _].
  apply list_elem_of_In, elem_of_seqZ in Hk. lia.
Qed.

Lemma nrel_data k f s senv r renv A R :
  noisy_rel f (st s senv r renv) A R → 0 ≤ k < s_next_seq s →
  ∃ r' renv', sr_receiver_handle_data r (data_packet k (chunk f k)) renv = Some (0, r', renv') ∧
    noisy_rel f (st s senv r' renv') A (data_effect r k R) ∧
    r_base r ≤ r_base r' ∧ sends (data_acks r k) renv renv' ∧ r_peer_addr r' = r_peer_addr r.
Proof.
  intros [Hb Hs Hr Hsent Hdata Hacks] Hk. simpl in *.
  pose proof (sc_next _ _ _ (proj1 Hs)).
  assert (r_num_chunks r = s_num_chunks s) as Hnum
    by (by rewrite (rc_num _ _ _ (proj1 Hr)), (sc_num _ _ _ (proj1 Hs))).
  destruct (handle_data_spec f r R k renv Hr) as (b' & w' & bf' & n' & env' & Hrun & Hr' & Hle & Hsends);
    [lia|].
  assert (∀ j, j ∈ data_effect r k R → j = k ∨ j ∈ R) as Heff
    by (intros j; unfold data_effect; case_decide; set_solver).
  assert (R ⊆ data_effect r k R) by (unfold data_effect; case_decide; set_solver).
  do 2 eexists. split; [exact Hrun|]. split; [|done]. split; simpl; try done.
  - intros j [->|Hj]%Heff; [lia|auto].
  - intros dg [Hdg|Hdg]%(sends_elem _ _ _ _ Hsends).
    + destruct (Hacks dg Hdg) as (j & Hj & ->). exists j. split; [set_solver|done].
    + exists k. unfold data_acks, data_effect in *. case_decide; set_solver.
Qed.

Lemma nrel_garbled k i x b f s senv r renv A R :
  noisy_rel f (st s senv r renv) A R → 0 ≤ k < s_next_seq s →
  data_packet k (chunk f k) !! i = Some x → is_byte b → b ≠ x →
  sr_receiver_handle_data r (<[i := b]> (data_packet k (chunk f k))) renv = Some (0, r, renv).
Proof.
  intros [Hb Hs _ _ _ _] Hk Hi Hbb Hne. simpl in *.
  pose proof (sender_num_max _ _ _ (proj1 Hs)). pose proof (sc_next _ _ _ (proj1 Hs)).
  destruct (data_packet_facts f k Hb) as (Hok & Hbytes & Hlen); [unfold in_width; lia|].
  apply handle_data_reject; [rewrite length_insert; lia|]. by eapply checksum_ok_one_byte.
Qed.

(** Whatever header the sender is handed. *)
Lemma nrel_ack hdr f s senv r renv A R :
  noisy_rel f (st s senv r renv) A R → 0 ≤ ntohl (uh_ack_num hdr) →
  ∃ s' senv',
    sr_sender_handle_ack s hdr senv = Some (0, s', senv') ∧
    noisy_rel f (st s' senv' r renv) (ack_effect s hdr A) R ∧
    s_next_seq s' = s_next_seq s ∧ s_base s ≤ s_base s' ∧ s_num_chunks s' = s_num_chunks s ∧
    env_net senv' = env_net senv ∧ env_link senv' = env_link senv.
Proof.
  intros [Hb Hs Hr Hsent Hdata Hacks] Hpos. simpl in *.
  destruct (handle_ack_spec f s A hdr senv Hs Hpos)
    as (b' & w' & a' & env' & Hrun & Hs' & Hle & Hnet & Hlink).
  do 2 eexists. split; [exact Hrun|]. split; [|done]. split; simpl; try done. by rewrite Hnet.
Qed.

(** The bytes the sender is handed, when they are long enough to be cast. *)
Lemma ack_bytes_num bytes hdr :
  Forall is_byte bytes → cast udp_header_t bytes 0 = Some hdr → 0 ≤ ntohl (uh_ack_num hdr).
Proof.
  intros Hb Hcast. pose proof (cast_fits bytes 0 hdr Hb Hcast) as (_ & _ & _ & _ & Ha & _).
  by apply (hton_range 4) in Ha as [? _].
Qed.

(** The same steps while acknowledgements are genuine. *)
Lemma rel_send now f s senv r renv A R :
  transfer_rel f (st s senv r renv) A R →
  ∃ n s' senv', sr_sender_send_window now s senv = Some (n, s', senv') ∧
    transfer_rel f (st s' senv' r renv) A R.
Proof.
  intros [Hrel HA]. destruct (nrel_send now _ _ _ _ _ _ _ Hrel) as (n & s' & senv' & ? & ?).
  by exists n, s', senv'.
Qed.

Lemma rel_timeout now f s senv r renv A R :
  transfer_rel f (st s senv r renv) A R →
  ∃ n s' senv', sr_sender_check_timeouts s now senv = Some (n, s', senv') ∧
    transfer_rel f (st s' senv' r renv) A R.
Proof.
  intros [Hrel HA]. destruct (nrel_timeout now _ _ _ _ _ _ _ Hrel) as (n & s' & senv' & ? & ?).
  by exists n, s', senv'.
Qed.

Lemma rel_data k f s senv r renv A R :
  transfer_rel f (st s senv r renv) A R → 0 ≤ k < s_next_seq s →
  ∃ r' renv', sr_receiver_handle_data r (data_packet k (chunk f k)) renv = Some (0, r', renv') ∧
    transfer_rel f (st s senv r' renv') A (data_effect r k R) ∧
    r_base r ≤ r_base r' ∧ sends (data_acks r k) renv renv' ∧ r_peer_addr r' = r_peer_addr r.
Proof.
  intros [Hrel HA] Hk. destruct (nrel_data k _ _ _ _ _ _ _ Hrel Hk) as (r' & renv' & ? & ? & ?).
  exists r', renv'. split; [done|]. split; [|done]. split; [done|].
  unfold data_effect. case_decide; set_solver.
Qed.

Lemma rel_ack k f s senv r renv A R :
  transfer_rel f (st s senv r renv) A R → k ∈ R →
  ∃ hdr s' senv',
    cast udp_header_t (build_ack_packet k) 0 = Some hdr ∧
    sr_sender_handle_ack s hdr senv = Some (0, s', senv') ∧
    transfer_rel f (st s' senv' r renv) ({[k]} ∪ A) R ∧
    s_next_seq s' = s_next_seq s ∧ s_base s ≤ s_base s' ∧ s_num_chunks s' = s_num_chunks s ∧
    env_net senv' = env_net senv ∧ env_link senv' = env_link senv.
Proof.
  intros [Hrel HA] Hk. pose proof Hrel as [_ Hs Hr Hsent _ _]. simpl in *.
  pose proof (sender_num_max _ _ _ (proj1 Hs)). pose proof (sc_next _ _ _ (proj1 Hs)).
  pose proof (rc_in _ _ _ (proj1 Hr) k Hk) as [Hk0 _]. pose proof (Hsent k Hk).
  destruct (ack_packet_facts k) as (hdr & Hcast & Hty & Hnum); [unfold in_width; lia|].
  destruct (nrel_ack hdr _ _ _ _ _ _ _ Hrel) as (s' & senv' & Hrun & Hrel' & Hrest); [lia|].
  exists hdr, s', senv'. split; [done|]. split; [done|]. split; [|done].
  unfold ack_effect in Hrel'. rewrite Hnum, decide_True in Hrel' by (split; [done|lia]).
  split; [done|set_solver].
Qed.

(** Every step keeps the invariant. *)
Lemma transfer_step_inv f y y' : transfer_step y y' → transfer_inv f y → transfer_inv f y'.
Proof.
  intros Hstep (A & R & Hrel). destruct Hstep as
    [now s senv r renv n s' senv' Hrun|now s senv r renv n s' senv' Hrun
    |dg s senv r renv n r' renv' Hdg Hrun|dg i x b s senv r renv n r' renv' Hdg Hi Hb Hne Hrun
    |dg hdr s senv r renv n s' senv' Hdg Hcast Hrun].
  - destruct (rel_send now _ _ _ _ _ _ _ Hrel) as (? & ? & ? & Hrun' & ?). simplify_eq. by exists A, R.
  - destruct (rel_timeout now _ _ _ _ _ _ _ Hrel) as (? & ? & ? & Hrun' & ?). simplify_eq. by exists A, R.
  - destruct (nr_data _ _ _ _ Hrel dg Hdg) as (k & Hk & ->).
    destruct (rel_data k _ _ _ _ _ _ _ Hrel Hk) as (? & ? & Hrun' & ? & _). simpl in Hrun.
    simplify_eq. by eexists _, _.
  - destruct (nr_data _ _ _ _ Hrel dg Hdg) as (k & Hk & ->). simpl in *.
    rewrite (nrel_garbled k i x b _ _ _ _ _ _ _ Hrel) in Hrun by done. simplify_eq. by exists A, R.
  - destruct (nr_acks _ _ _ _ Hrel dg Hdg) as (k & Hk & ->). simpl in Hcast.
    destruct (rel_ack k _ _ _ _ _ _ _ Hrel Hk) as (? & ? & ? & Hcast' & Hrun' & ? & _).
    simplify_eq. by eexists _, _.
Qed.

Lemma reachable_inv f y : reachable f y → transfer_inv f y.
Proof.
  intros (y0 & Hinit & Hsteps). apply transfer_init_inv in Hinit.
  induction Hsteps; [done|]. eauto using transfer_step_inv.
Qed.

(** The noisy steps, and that [base] of the receiver never goes back. *)
Lemma noisy_step_rel f y y' A R :
  noisy_step y y' → noisy_rel f y A R →
  noisy_inv f y' ∧ r_base (y_receiver y) ≤ r_base (y_receiver y').
Proof.
  assert (∀ s senv r renv hdr n s' senv', noisy_rel f (st s senv r renv) A R →
    0 ≤ ntohl (uh_ack_num hdr) → sr_sender_handle_ack s hdr senv = Some (n, s', senv') →
    noisy_inv f (st s' senv' r renv)) as Hack.
  { intros s senv r renv hdr n s' senv' Hrel Hpos Hrun.
    destruct (nrel_ack hdr _ _ _ _ _ _ _ Hrel Hpos) as (? & ? & Hrun' & ? & _).
    simplify_eq. by eexists _, _. }
  intros Hstep Hrel. destruct Hstep as [y y' Hstep|bytes hdr s senv r renv n s' senv' Hb Hcast Hrun];
    [|split; [eapply Hack; [done|by eapply ack_bytes_num|done]|done]].
  destruct Hstep as
    [now s senv r renv n s' senv' Hrun|now s senv r renv n s' senv' Hrun
    |dg s senv r renv n r' renv' Hdg Hrun|dg i x b s senv r renv n r' renv' Hdg Hi Hb Hne Hrun
    |dg hdr s senv r renv n s' senv' Hdg Hcast Hrun]; simpl.
  - destruct (nrel_send now _ _ _ _ _ _ _ Hrel) as (? & ? & ? & Hrun' & ?). simplify_eq.
    split; [by exists A, R|done].
  - destruct (nrel_timeout now _ _ _ _ _ _ _ Hrel) as (? & ? & ? & Hrun' & ?). simplify_eq.
    split; [by exists A, R|done].
  - destruct (nr_data _ _ _ _ Hrel dg Hdg) as (k & Hk & ->).
    destruct (nrel_data k _ _ _ _ _ _ _ Hrel Hk) as (? & ? & Hrun' & ? & ? & _). simpl in Hrun.
    simplify_eq. split; [by eexists _, _|done].
  - destruct (nr_data _ _ _ _ Hrel dg Hdg) as (k & Hk & ->). simpl in *.
    rewrite (nrel_garbled k i x b _ _ _ _ _ _ _ Hrel) in Hrun by done. simplify_eq.
    split; [by exists A, R|done].
  - split; [|done]. eapply Hack; [done| |done].
    destruct (nr_acks _ _ _ _ Hrel dg Hdg) as (k & Hk & ->). simpl in Hcast.
    pose proof Hrel as [_ Hs Hr Hsent _ _]. simpl in *. pose proof (Hsent k Hk).
    pose proof (sender_num_max _ _ _ (proj1 Hs)). pose proof (sc_next _ _ _ (proj1 Hs)).
    pose proof (rc_in _ _ _ (proj1 Hr) k Hk) as [Hk0 _].
    destruct (ack_packet_facts k) as (hdr' & Hcast' & _ & Hnum); [unfold in_width; lia|].
    simplify_eq. lia.
Qed.

Lemma noisy_reachable_inv f y : noisy_reachable f y → noisy_inv f y.
Proof.
  intros (y0 & Hinit & Hsteps). apply transfer_init_inv in Hinit as (A & R & [Hrel _]).
  assert (noisy_inv f y0) as Hinv by (by exists A, R). clear A R Hrel.
  induction Hsteps as [|y1 y2 y3 Hstep _ IH]; [done|]. apply IH.
  destruct Hinv as (A & R & Hrel). by eapply noisy_step_rel.
Qed.

(** ** In-order delivery *)

(** The specification: the receiver's user sees the file grow by one chunk
    at a time, in order. *)
Definition delivery f (p p' : list Z) : Prop :=
  ∃ k, 0 ≤ k < chunks_of (Z.of_nat (length f)) ∧
    p = take (Z.to_nat (k * CHUNK_SIZE)) f ∧ p' = p ++ chunk f k.

(** What the receiver has delivered: the part of its buffer below [base]. *)
Definition delivered y : list Z :=
  match r_file_buffer (y_receiver y) with
  | Some buf => take (Z.to_nat (r_base (y_receiver y) * CHUNK_SIZE)) buf
  | None => []
  end.

Lemma delivered_prefix f y A R :
  noisy_rel f y A R →
  delivered y = take (Z.to_nat (r_base (y_receiver y) * CHUNK_SIZE)) f.
Proof.
  intros Hrel. destruct (nr_receiver _ _ _ _ Hrel) as [Hc _].
  destruct (rc_buffer _ _ _ Hc) as (buf & Hbuf & _ & Hpre). unfold delivered. by rewrite Hbuf.
Qed.

Lemma rtc_delivery f (b : Z) (n : nat) :
  0 ≤ b → b + Z.of_nat n ≤ chunks_of (Z.of_nat (length f)) →
  rtc (delivery f) (take (Z.to_nat (b * CHUNK_SIZE)) f)
                   (take (Z.to_nat ((b + Z.of_nat n) * CHUNK_SIZE)) f).
Proof.
  revert b. induction n as [|n IH]; intros b Hb Hn.
  - rewrite Z.add_0_r. apply rtc_refl.
  - apply (rtc_l _ _ (take (Z.to_nat ((b + 1) * CHUNK_SIZE)) f)).
    + exists b. split_and!; [lia|lia|done|]. by apply take_chunk.
    + replace (b + Z.of_nat (S n)) with (b + 1 + Z.of_nat n) by lia. apply IH; lia.
Qed.

Lemma complete_file f y A R :
  noisy_rel f y A R → sr_receiver_is_complete (y_receiver y) = true →
  sr_receiver_get_file (y_receiver y) = (Some f, Z.of_nat (length f)).
Proof.
  intros Hrel Hdone. by eapply receiver_file; [apply (nr_receiver _ _ _ _ Hrel)|].
Qed.

(** All received means all delivered. *)
Lemma received_all f y A R :
  noisy_rel f y A R → upto (s_num_chunks (y_sender y)) ⊆ R →
  sr_receiver_is_complete (y_receiver y) = true.
Proof.
  intros Hrel HR. destruct (nr_receiver _ _ _ _ Hrel) as [Hc Hb].
  assert (r_num_chunks (y_receiver y) = s_num_chunks (y_sender y)) as Hnum
    by (by rewrite (rc_num _ _ _ Hc), (sc_num _ _ _ (proj1 (nr_sender _ _ _ _ Hrel)))).
  unfold sr_receiver_is_complete. apply Z.leb_le.
  destruct (decide (r_num_chunks (y_receiver y) ≤ r_base (y_receiver y))); [done|].
  exfalso. apply Hb, HR, elem_of_upto. pose proof (rc_base _ _ _ Hc). lia.
Qed.

(** ** A lossless exchange

    What the two event loops do when nothing is lost: the sender fills its
    window, the receiver handles the new datagrams in order, the sender
    handles the new acknowledgements in order. *)

Fixpoint recv_all (dgs : list datagram) (r : sr_receiver_t) (renv : sr_env) :
    option (sr_receiver_t * sr_env) :=
  match dgs with
  | [] => Some (r, renv)
  | dg :: dgs =>
      '(_, r, renv) ← sr_receiver_handle_data r (dg_bytes dg) renv;
      recv_all dgs r renv
  end.

Fixpoint ack_all (dgs : list datagram) (s : sr_sender_t) (senv : sr_env) :
    option (sr_sender_t * sr_env) :=
  match dgs with
  | [] => Some (s, senv)
  | dg :: dgs =>
      hdr ← cast udp_header_t (dg_bytes dg) 0;
      '(_, s, senv) ← sr_sender_handle_ack s hdr senv;
      ack_all dgs s senv
  end.

Definition round (now : Z) y : option transfer :=
  '(_, s, senv) ← sr_sender_send_window now (y_sender y) (y_senv y);
  let packets := drop (length (env_net (y_senv y))) (env_net senv) in
  '(r, renv) ← recv_all packets (y_receiver y) (y_renv y);
  let acks := drop (length (env_net (y_renv y))) (env_net renv) in
  '(s, senv) ← ack_all acks s senv;
  Some (st s senv r renv).

Fixpoint rounds (times : list Z) y : option transfer :=
  match times with
  | [] => Some y
  | now :: times => y ← round now y; rounds times y
  end.

(** A round is a run of the transfer. *)
Lemma recv_all_steps dgs s senv r renv r' renv' :
  dgs ⊆ env_net senv → recv_all dgs r renv = Some (r', renv') →
  rtc transfer_step (st s senv r renv) (st s senv r' renv').
Proof.
  revert r renv. induction dgs as [|dg dgs IH]; intros r renv Hsub Hrun; simpl in Hrun.
  { simplify_eq. apply rtc_refl. }
  destruct (sr_receiver_handle_data r (dg_bytes dg) renv) as [[[n r1] renv1]|] eqn:E; [|done].
  apply (rtc_l _ _ (st s senv r1 renv1)); [|apply IH; [set_solver|done]].
  eapply step_data; [|done]. set_solver.
Qed.

Lemma ack_all_steps dgs s senv r renv s' senv' :
  dgs ⊆ env_net renv → ack_all dgs s senv = Some (s', senv') →
  rtc transfer_step (st s senv r renv) (st s' senv' r renv).
Proof.
  revert s senv. induction dgs as [|dg dgs IH]; intros s senv Hsub Hrun; simpl in Hrun.
  { simplify_eq. apply rtc_refl. }
  destruct (cast udp_header_t (dg_bytes dg) 0) as [hdr|] eqn:Ec; [|done]. simpl in Hrun.
  destruct (sr_sender_handle_ack s hdr senv) as [[[n s1] senv1]|] eqn:E; [|done].
  apply (rtc_l _ _ (st s1 senv1 r renv)); [|apply IH; [set_solver|done]].
  eapply step_ack; [|done|done]. set_solver.
Qed.

Lemma subseteq_drop {A} (l : list A) n : drop n l ⊆ l.
Proof. intros x Hx. rewrite <-(take_drop n l). set_solver. Qed.

Lemma round_steps now y y' : round now y = Some y' → rtc transfer_step y y'.
Proof.
  destruct y as [s senv r renv]. unfold round. simpl.
  destruct (sr_sender_send_window now s senv) as [[[n s1] senv1]|] eqn:E1; [|done]. simpl.
  destruct (recv_all _ r renv) as [[r1 renv1]|] eqn:E2; [|done]. simpl.
  destruct (ack_all _ s1 senv1) as [[s2 senv2]|] eqn:E3; [|done]. simpl. intros [= <-].
  apply (rtc_l _ _ (st s1 senv1 r renv)); [by eapply step_send|].
  apply (rtc_trans _ (st s1 senv1 r1 renv1)).
  - eapply recv_all_steps; [apply subseteq_drop|done].
  - eapply ack_all_steps; [apply subseteq_drop|done].
Qed.

Lemma rounds_steps times y y' : rounds times y = Some y' → rtc transfer_step y y'.
Proof.
  revert y. induction times as [|now times IH]; intros y Hrun; simpl in Hrun.
  { simplify_eq. apply rtc_refl. }
  destruct (round now y) as [y1|] eqn:E; [|done]. apply (rtc_trans _ y1); [|by apply IH].
  by eapply round_steps.
Qed.

Lemma upto_succ k : 0 ≤ k → {[k]} ∪ upto k = upto (k + 1).
Proof. intros. apply set_eq. intros j. rewrite elem_of_union, elem_of_singleton, !elem_of_upto. lia. Qed.

Lemma receiver_base_upto f r k : receiver_rel f r (upto k) → 0 ≤ k → r_base r = k.
Proof.
  intros [Hc Hb] Hk. pose proof (rc_base _ _ _ Hc). rewrite elem_of_upto in Hb.
  destruct (decide (k < r_base r)); [|lia].
  pose proof (rc_below _ _ _ Hc k ltac:(lia)) as Hin. rewrite elem_of_upto in Hin. lia.
Qed.

Lemma sender_base_upto f s k : sender_rel f s (upto k) → 0 ≤ k → s_base s = k.
Proof.
  intros [Hc Hb] Hk. pose proof (sc_base _ _ _ Hc). rewrite elem_of_upto in Hb.
  destruct (decide (k < s_base s)); [|lia].
  pose proof (sc_below _ _ _ Hc k ltac:(lia)) as Hin. rewrite elem_of_upto in Hin. lia.
Qed.

Lemma recv_all_spec (m : nat) k peer f s senv r renv A :
  transfer_rel f (st s senv r renv) A (upto k) → 0 ≤ k → k + Z.of_nat m ≤ s_next_seq s →
  lossless (env_link renv) →
  ∃ r' renv',
    recv_all (data_dg f peer <$> seqZ k (Z.of_nat m)) r renv = Some (r', renv') ∧
    transfer_rel f (st s senv r' renv') A (upto (k + Z.of_nat m)) ∧
    env_net renv' = env_net renv ++ (ack_dg (r_peer_addr r) <$> seqZ k (Z.of_nat m)) ∧
    lossless (env_link renv').
Proof.
  revert k r renv. induction m as [|m IH]; intros k r renv Hrel Hk Hm Hl.
  { exists r, renv. rewrite Z.add_0_r. split_and!; try done. simpl. by rewrite app_nil_r. }
  rewrite seqZ_cons by lia. cbn [fmap list_fmap recv_all].
  pose proof (receiver_base_upto f r k (nr_receiver _ _ _ _ Hrel) Hk) as Hb.
  destruct (rel_data k _ _ _ _ _ _ _ Hrel) as (r1 & renv1 & Hrun & Hrel1 & _ & Hsends & Hpeer); [lia|].
  unfold data_effect, data_acks in *. rewrite Hb in *.
  rewrite decide_True in Hrel1 by (unfold WINDOW_SIZE; lia).
  rewrite decide_True in Hsends by (unfold WINDOW_SIZE; lia).
  rewrite upto_succ in Hrel1 by done.
  destruct Hsends as (got & _ & Hnet & Hgot). destruct (Hgot Hl) as [-> Hl1].
  destruct (IH (k + 1) r1 renv1) as (r2 & renv2 & Hrun2 & Hrel2 & Hnet2 & Hl2); try done; [lia|lia|].
  exists r2, renv2. cbn [data_dg dg_bytes]. rewrite Hrun. bind_step.
  replace (Z.succ k) with (k + 1) by lia. replace (Z.pred (Z.of_nat (S m))) with (Z.of_nat m) by lia.
  replace (k + Z.of_nat (S m)) with (k + 1 + Z.of_nat m) by lia.
  split_and!; try done. by rewrite Hnet2, Hnet, Hpeer, <-app_assoc.
Qed.

Lemma ack_all_spec (m : nat) k peer f s senv r renv R :
  transfer_rel f (st s senv r renv) (upto k) R → 0 ≤ k →
  (∀ j, k ≤ j < k + Z.of_nat m → j ∈ R) →
  ∃ s' senv',
    ack_all (ack_dg peer <$> seqZ k (Z.of_nat m)) s senv = Some (s', senv') ∧
    transfer_rel f (st s' senv' r renv) (upto (k + Z.of_nat m)) R ∧
    s_next_seq s' = s_next_seq s ∧ s_num_chunks s' = s_num_chunks s ∧
    env_link senv' = env_link senv.
Proof.
  revert k s senv. induction m as [|m IH]; intros k s senv Hrel Hk Hin.
  { exists s, senv. rewrite Z.add_0_r. done. }
  rewrite seqZ_cons by lia. cbn [fmap list_fmap ack_all].
  destruct (rel_ack k _ _ _ _ _ _ _ Hrel) as
    (hdr & s1 & senv1 & Hcast & Hrun & Hrel1 & Hn1 & _ & Hc1 & _ & Hl1); [apply Hin; lia|].
  rewrite upto_succ in Hrel1 by done.
  destruct (IH (k + 1) s1 senv1) as (s2 & senv2 & Hrun2 & Hrel2 & Hn2 & Hc2 & Hl2); try done; [lia| |].
  { intros j Hj. apply Hin. lia. }
  exists s2, senv2. cbn [ack_dg dg_bytes]. rewrite Hcast. bind_step.
  rewrite Hrun. bind_step.
  replace (Z.succ k) with (k + 1) by lia. replace (Z.pred (Z.of_nat (S m))) with (Z.of_nat m) by lia.
  replace (k + Z.of_nat (S m)) with (k + 1 + Z.of_nat m) by lia.
  split_and!; try done; congruence.
Qed.

(** Both ends have exactly the first [b] chunks, nothing is in flight. *)
Definition synced f b y : Prop :=
  transfer_rel f y (upto b) (upto b) ∧ s_next_seq (y_sender y) = b ∧
  0 ≤ b ≤ chunks_of (Z.of_nat (length f)) ∧
  lossless (env_link (y_senv y)) ∧ lossless (env_link (y_renv y)).

Lemma round_synced now f b y :
  synced f b y →
  ∃ y', round now y = Some y' ∧
    synced f ((b + WINDOW_SIZE) `min` chunks_of (Z.of_nat (length f))) y'.
Proof.
  destruct y as [s senv r renv]. intros (Hrel & Hn & Hb & Hl1 & Hl2). simpl in *.
  pose proof (nr_sender _ _ _ _ Hrel) as Hs. simpl in Hs.
  pose proof (sender_base_upto f s b Hs ltac:(lia)) as Hbase.
  pose proof (sc_num _ _ _ (proj1 Hs)) as Hnum.
  destruct (send_window_spec now f s (upto b) senv Hs) as (w' & senv1 & Hrun & _ & Hsends & _).
  destruct (rel_send now _ _ _ _ _ _ _ Hrel) as (n & s1 & senv1' & Hrun' & Hrel1).
  rewrite Hrun in Hrun'. injection Hrun' as <- <- <-.
  destruct Hsends as (got & _ & Hnet & Hgot). destruct (Hgot Hl1) as [-> Hl1'].
  set (b' := (b + WINDOW_SIZE) `min` chunks_of (Z.of_nat (length f))).
  assert (send_limit s = b') as Hlim by (unfold send_limit, b'; by rewrite Hbase, Hnum).
  rewrite Hlim, Hn in *. set (m := Z.to_nat (b' - b)).
  assert (b' - b = Z.of_nat m) as Hm by (unfold m, b', WINDOW_SIZE; lia). rewrite Hm in *.
  destruct (recv_all_spec m b (s_peer_addr s) _ _ _ _ _ _ Hrel1) as (r1 & renv1 & Hrecv & Hrel2 & Hnet2 & Hl2');
    [lia|simpl; lia|done|].
  destruct (ack_all_spec m b (r_peer_addr r) _ _ _ _ _ _ Hrel2) as (s2 & senv2 & Hack & Hrel3 & Hn3 & _ & Hl3);
    [lia|intros j Hj; apply elem_of_upto; lia|].
  exists (st s2 senv2 r1 renv1). split.
  - unfold round. simpl. rewrite Hrun. bind_step.
    rewrite Hnet, drop_app_length, Hrecv. bind_step.
    rewrite Hnet2, drop_app_length, Hack. done.
  - replace (b + Z.of_nat m) with b' in * by lia.
    split_and!; simpl; try done; [unfold b', WINDOW_SIZE; lia|unfold b'; lia|by rewrite Hl3].
Qed.

Lemma rounds_synced times f b y :
  synced f b y →
  ∃ y', rounds times y = Some y' ∧
    synced f ((b + WINDOW_SIZE * Z.of_nat (length times)) `min` chunks_of (Z.of_nat (length f))) y'.
Proof.
  revert b y. induction times as [|now times IH]; intros b y Hy; simpl.
  - exists y. split; [done|]. destruct Hy as (? & ? & Hb & ?).
    by replace (_ `min` _) with b by (unfold WINDOW_SIZE; lia).
  - destruct (round_synced now f b y Hy) as (y1 & -> & Hy1). bind_step.
    destruct (IH _ _ Hy1) as (y2 & Hrun & Hy2). exists y2. split; [done|].
    by replace ((b + WINDOW_SIZE * Z.of_nat (S (length times))) `min` chunks_of (Z.of_nat (length f)))
      with (((b + WINDOW_SIZE) `min` chunks_of (Z.of_nat (length f)) +
             WINDOW_SIZE * Z.of_nat (length times)) `min` chunks_of (Z.of_nat (length f)))
      by (unfold WINDOW_SIZE; lia).
Qed.

Lemma init_synced f y :
  transfer_init f y → lossless (env_link (y_senv y)) → lossless (env_link (y_renv y)) →
  synced f 0 y.
Proof.
  intros Hinit Hl1 Hl2. pose proof (transfer_init_inv f y Hinit) as (A & R & Hrel).
  destruct Hinit as (fd & fd' & speer & rpeer & s0 & r0 & block & Hmax & _ & _ & Hs & Hr & _ & _).
  assert (s_next_seq (y_sender y) = 0) as Hn by (injection Hs as Hs; by rewrite <-Hs).
  pose proof (chunks_of_bounds (Z.of_nat (length f)) ltac:(lia)).
  assert (R = ∅) as ->.
  { apply set_eq. intros k. split; [|set_solver]. intros Hk.
    pose proof (nr_sent _ _ _ _ Hrel k Hk). destruct (nr_receiver _ _ _ _ Hrel) as [Hc _].
    pose proof (rc_in _ _ _ Hc k Hk). lia. }
  assert (A = ∅) as -> by (pose proof (tr_acked _ _ _ _ Hrel); set_solver).
  split_and!; try done; lia.
Qed.

(** ** The theorems *)

(** C3: safety of a transfer.  Whatever datagrams the network loses,
    duplicates, delays or reorders, whichever single byte of a data packet it
    changes, whatever bytes it hands the sender as acknowledgements, and
    whatever the clock and the lossy links do: at every moment the delivered
    bytes are a prefix of the file, and when the receiver says it is complete
    its buffer is exactly the file. *)
Theorem transfer_safety f y :
  noisy_reachable f y →
  delivered y `prefix_of` f ∧
  (sr_receiver_is_complete (y_receiver y) = true →
   sr_receiver_get_file (y_receiver y) = (Some f, Z.of_nat (length f))).
Proof.
  intros (A & R & Hrel)%noisy_reachable_inv. split; [|by eapply complete_file].
  erewrite delivered_prefix by done. apply prefix_take.
Qed.

(** C10: while every acknowledgement arrives as the receiver sent it (data
    packets may be lost, duplicated, reordered or changed in one byte,
    acknowledgements lost, duplicated or reordered), the sender never
    declares success too early: when [sr_sender_is_complete] holds, the
    receiver has the whole file.  The condition is needed, as
    [changed_ack_completes_early] shows. *)
Theorem sender_complete_implies_received f y :
  reachable f y → sr_sender_is_complete (y_sender y) = true →
  sr_receiver_is_complete (y_receiver y) = true ∧
  sr_receiver_get_file (y_receiver y) = (Some f, Z.of_nat (length f)).
Proof.
  intros (A & R & Hrel)%reachable_inv Hdone.
  assert (sr_receiver_is_complete (y_receiver y) = true) as Hr.
  { apply (received_all f y A R Hrel).
    apply (proj1 (complete_spec f _ A (nr_sender _ _ _ _ Hrel))) in Hdone. rewrite <-Hdone.
    apply (tr_acked _ _ _ _ Hrel). }
  split; [done|]. by apply (complete_file f y A R Hrel).
Qed.

(** C9: the implementation refines in-order delivery: every step of the
    sender, the receiver or the network, changed acknowledgements included,
    is a finite sequence (possibly empty) of deliveries of the next chunk of
    the file. *)
Theorem transfer_refines_delivery f y y' :
  noisy_reachable f y → noisy_step y y' → rtc (delivery f) (delivered y) (delivered y').
Proof.
  intros Hy Hstep. destruct (noisy_reachable_inv f y Hy) as (A & R & Hrel).
  destruct (noisy_step_rel f y y' A R Hstep Hrel) as [(A' & R' & Hrel') Hmono].
  rewrite (delivered_prefix f y A R Hrel), (delivered_prefix f y' A' R' Hrel').
  destruct (nr_receiver _ _ _ _ Hrel) as [Hc _]. destruct (nr_receiver _ _ _ _ Hrel') as [Hc' _].
  pose proof (rc_base _ _ _ Hc). pose proof (rc_base _ _ _ Hc'). pose proof (rc_num _ _ _ Hc').
  replace (r_base (y_receiver y')) with
    (r_base (y_receiver y) + Z.of_nat (Z.to_nat (r_base (y_receiver y') - r_base (y_receiver y))))
    by lia.
  apply rtc_delivery; lia.
Qed.

(** C11: memory safety of a transfer: in every state the noisy network can
    reach, whatever the clock says, every operation of the two ends is
    defined on every datagram of the network, the receiver's also on a data
    packet with one byte changed, the sender's on any bytes that hold a
    header: no access leaves a buffer and no loop runs out. *)
Theorem transfer_no_undefined_behaviour f y now :
  noisy_reachable f y →
  is_Some (sr_sender_send_window now (y_sender y) (y_senv y)) ∧
  is_Some (sr_sender_check_timeouts (y_sender y) now (y_senv y)) ∧
  (∀ dg, dg ∈ env_net (y_senv y) →
     is_Some (sr_receiver_handle_data (y_receiver y) (dg_bytes dg) (y_renv y)) ∧
     ∀ i x b, dg_bytes dg !! i = Some x → is_byte b → b ≠ x →
       is_Some (sr_receiver_handle_data (y_receiver y) (<[i := b]> (dg_bytes dg)) (y_renv y))) ∧
  (∀ dg, dg ∈ env_net (y_renv y) →
     ∃ hdr, cast udp_header_t (dg_bytes dg) 0 = Some hdr ∧
            is_Some (sr_sender_handle_ack (y_sender y) hdr (y_senv y))) ∧
  (∀ bytes, Forall is_byte bytes → (16 ≤ length bytes)%nat →
     ∃ hdr, cast udp_header_t bytes 0 = Some hdr ∧
            is_Some (sr_sender_handle_ack (y_sender y) hdr (y_senv y))).
Proof.
  intros (A & R & Hrel)%noisy_reachable_inv. destruct y as [s senv r renv]. simpl.
  assert (∀ hdr, 0 ≤ ntohl (uh_ack_num hdr) → is_Some (sr_sender_handle_ack s hdr senv)) as Hack.
  { intros hdr Hpos. by destruct (nrel_ack hdr _ _ _ _ _ _ _ Hrel Hpos) as (? & ? & -> & _). }
  split_and!.
  - destruct (nrel_send now _ _ _ _ _ _ _ Hrel) as (? & ? & ? & -> & _). done.
  - destruct (nrel_timeout now _ _ _ _ _ _ _ Hrel) as (? & ? & ? & -> & _). done.
  - intros dg Hdg. destruct (nr_data _ _ _ _ Hrel dg Hdg) as (k & Hk & ->). split.
    + destruct (nrel_data k _ _ _ _ _ _ _ Hrel Hk) as (? & ? & Hrun & _). simpl. by rewrite Hrun.
    + simpl. intros i x b Hi Hb Hne. by rewrite (nrel_garbled k i x b _ _ _ _ _ _ _ Hrel).
  - intros dg Hdg. destruct (nr_acks _ _ _ _ Hrel dg Hdg) as (k & Hk & ->).
    pose proof Hrel as [_ Hs Hr Hsent _ _]. simpl in *. pose proof (Hsent k Hk).
    pose proof (sender_num_max _ _ _ (proj1 Hs)). pose proof (sc_next _ _ _ (proj1 Hs)).
    pose proof (rc_in _ _ _ (proj1 Hr) k Hk) as [Hk0 _].
    destruct (ack_packet_facts k) as (hdr & Hcast & _ & Hnum); [unfold in_width; lia|].
    exists hdr. split; [done|]. apply Hack. lia.
  - intros bytes Hb Hl.
    destruct (cast_total (A := udp_header_t) bytes 0) as (hdr & Hc & _);
      [done|rewrite sizeof_udp_header; lia|done|].
    exists hdr. split; [done|]. by apply Hack, (ack_bytes_num bytes).
Qed.

(** C6: total correctness over links that lose nothing: for every file below
    the size limit, [ceil(num_chunks / WINDOW_SIZE)] rounds, at any clock
    readings, are a run of the transfer that completes both ends, and the
    receiver holds exactly the file. *)
Theorem lossless_transfer_completes f y times :
  transfer_init f y → lossless (env_link (y_senv y)) → lossless (env_link (y_renv y)) →
  chunks_of (Z.of_nat (length f)) ≤ WINDOW_SIZE * Z.of_nat (length times) →
  ∃ y', rounds times y = Some y' ∧ rtc transfer_step y y' ∧
    sr_sender_is_complete (y_sender y') = true ∧
    sr_receiver_is_complete (y_receiver y') = true ∧
    sr_receiver_get_file (y_receiver y') = (Some f, Z.of_nat (length f)).
Proof.
  intros Hinit Hl1 Hl2 Hn.
  destruct (rounds_synced times f 0 y (init_synced f y Hinit Hl1 Hl2)) as (y' & Hrun & Hy').
  exists y'. split; [done|]. split; [by eapply rounds_steps|].
  rewrite Z.add_0_l, Z.min_r in Hy' by done.
  destruct Hy' as (Hrel & _ & _).
  pose proof (sc_num _ _ _ (proj1 (nr_sender _ _ _ _ Hrel))) as Hnum.
  assert (sr_receiver_is_complete (y_receiver y') = true) as Hr
    by (apply (received_all f y' _ _ Hrel); by rewrite Hnum).
  split_and!; [|done|by apply (complete_file f y' _ _ Hrel)].
  apply (proj1 (complete_spec f _ _ (nr_sender _ _ _ _ Hrel))). by rewrite Hnum.
Qed.
End transfer.

(** ** A concrete transfer

    The witnesses: a file of two chunks, a little-endian host, links that
    lose nothing. *)

Module Example.
#[local] Instance host : Host := LittleEndian.

Definition file : list Z := replicate 1024 7 ++ [104; 105; 10].
Definition sender_addr : sockaddr_in := {| sin_addr := 16777343; sin_port := 28951 |}.
Definition receiver_addr : sockaddr_in := {| sin_addr := 16777343; sin_port := 29207 |}.
Definition env0 : sr_env :=
  {| env_link := lossy_init 4 no_loss 1; env_stats := stats_init; env_net := [] |}.

(** Objects before initialisation; their contents are overwritten. *)
Definition raw_sender : sr_sender_t := {|
  s_udp_fd := 0; s_peer_addr := sender_addr; s_base := 3; s_next_seq := 9; s_window := [];
  s_file_data := []; s_file_size := 0; s_num_chunks := 0; s_chunks_acked := 0;
  s_lossy_link := false |}.
Definition raw_receiver : sr_receiver_t := {|
  r_udp_fd := 0; r_peer_addr := sender_addr; r_base := 3; r_window := []; r_file_buffer := None;
  r_file_size := 0; r_num_chunks := 0; r_chunks_received := 0; r_lossy_link := false |}.

Definition start : transfer := {|
  y_sender := default raw_sender
    (sr_sender_init (Some raw_sender) 4 (Some receiver_addr) (Some file) 1027 true).2;
  y_senv := env0;
  y_receiver := default raw_receiver
    (sr_receiver_init (Some raw_receiver) 5 (Some sender_addr) 1027 2 true
       (Some (replicate 1027 255))).2;
  y_renv := env0;
|}.

Definition finish : transfer := default start (rounds [1000] start).

Lemma start_init : transfer_init file start.
Proof.
  exists 4, 5, receiver_addr, sender_addr, raw_sender, raw_receiver, (replicate 1027 255).
  split_and!; try done; apply (bool_decide_unpack _); by vm_compute.
Qed.

Lemma finish_run : rounds [1000] start = Some finish.
Proof. by vm_compute. Qed.

Lemma finish_reachable : reachable file finish.
Proof. exists start. split; [apply start_init|]. apply (rounds_steps [1000]), finish_run. Qed.
End Example.

Module Witness.
Import Example.
#[local] Existing Instance host.

Lemma transfer_safety_witness :
  sr_receiver_is_complete (y_receiver finish) = true ∧
  sr_receiver_get_file (y_receiver finish) = (Some file, 1027).
Proof.
  split; [by vm_compute|].
  apply (transfer_safety file finish (reachable_noisy _ _ finish_reachable)). by vm_compute.
Defined.

Lemma sender_complete_witness :
  sr_sender_is_complete (y_sender finish) = true ∧
  sr_receiver_get_file (y_receiver finish) = (Some file, 1027).
Proof.
  split; [by vm_compute|].
  apply (sender_complete_implies_received file finish finish_reachable). by vm_compute.
Defined.

(** The states after the first window is sent, and after the receiver has
    handled one of its packets. *)
Definition sent_run : Z * sr_sender_t * sr_env :=
  default (0, y_sender start, y_senv start)
    (sr_sender_send_window 1000 (y_sender start) (y_senv start)).
Definition handled_run : Z * sr_receiver_t * sr_env :=
  default (0, y_receiver start, y_renv start)
    (sr_receiver_handle_data (y_receiver start) (data_packet 0 (chunk file 0)) (y_renv start)).

Definition sent : transfer :=
  Build_transfer sent_run.1.2 sent_run.2 (y_receiver start) (y_renv start).
Definition middle : transfer :=
  Build_transfer sent_run.1.2 sent_run.2 handled_run.1.2 handled_run.2.

Lemma sent_reachable : reachable file sent.
Proof.
  exists start. split; [apply start_init|]. apply rtc_once.
  apply (step_send 1000) with (n := 2). by vm_compute.
Qed.

Lemma sent_middle : transfer_step sent middle.
Proof.
  apply (step_data (data_dg file receiver_addr 0)) with (n := 0); [|by vm_compute].
  apply list_elem_of_lookup. exists 0%nat. by vm_compute.
Qed.

Lemma transfer_refines_delivery_witness :
  rtc (delivery file) (delivered sent) (delivered middle) ∧
  delivered sent = [] ∧ delivered middle = replicate 1024 7.
Proof.
  split; [exact (transfer_refines_delivery file sent middle
    (reachable_noisy _ _ sent_reachable) (noisy_transfer _ _ sent_middle))|].
  by vm_compute.
Defined.

Lemma transfer_no_undefined_behaviour_witness :
  is_Some (sr_sender_check_timeouts (y_sender middle) 1700 (y_senv middle)) ∧
  length (env_net (y_senv middle)) = 2%nat.
Proof.
  split; [|by vm_compute].
  apply (transfer_no_undefined_behaviour file middle 1700), reachable_noisy.
  exists start. split; [apply start_init|]. apply (rtc_l _ _ sent); [|apply rtc_once, sent_middle].
  apply (step_send 1000) with (n := 2). by vm_compute.
Defined.

Lemma lossless_transfer_completes_witness :
  ∃ y', rounds [1000; 1200] start = Some y' ∧
    sr_receiver_get_file (y_receiver y') = (Some file, 1027).
Proof.
  destruct (lossless_transfer_completes file start [1000; 1200] start_init) as (y' & Hrun & _ & _ & _ & Hf);
    [done|done|by vm_compute|]. exists y'. exact (conj Hrun Hf).
Defined.

(** ** A changed acknowledgement

    Chunk 0 of the two was delivered and acknowledged, chunk 1 is lost.  The
    acknowledgement arrives twice, the second time with the last byte of its
    number changed from 0 to 1: its checksum no longer matches, but nobody
    looks, and the sender takes chunk 1 as acknowledged. *)
Definition changed_ack : list Z := <[11%nat := 1]> (build_ack_packet 0).

Definition take_ack (bytes : list Z) (y : transfer) : transfer :=
  default y (hdr ← cast udp_header_t bytes 0;
             '(_, s, senv) ← sr_sender_handle_ack (y_sender y) hdr (y_senv y);
             Some (Build_transfer s senv (y_receiver y) (y_renv y))).

Definition fooled : transfer := take_ack changed_ack (take_ack (build_ack_packet 0) middle).

Lemma take_ack_step bytes y n hdr s senv :
  Forall is_byte bytes → cast udp_header_t bytes 0 = Some hdr →
  sr_sender_handle_ack (y_sender y) hdr (y_senv y) = Some (n, s, senv) →
  noisy_step y (take_ack bytes y).
Proof.
  intros Hb Hcast Hrun. unfold take_ack. rewrite Hcast. bind_step. rewrite Hrun. simpl.
  destruct y. by eapply noisy_ack.
Qed.

Lemma fooled_reachable : noisy_reachable file fooled.
Proof.
  destruct (reachable_noisy _ _ sent_reachable) as (y0 & Hinit & Hsent). exists y0. split; [done|].
  apply (rtc_r _ (take_ack (build_ack_packet 0) middle)).
  - apply (rtc_r _ middle); [by apply (rtc_r _ sent), noisy_transfer, sent_middle|].
    eapply take_ack_step; [|by vm_compute..]. apply (bool_decide_unpack _). by vm_compute.
  - eapply take_ack_step; [|by vm_compute..]. apply (bool_decide_unpack _). by vm_compute.
Qed.

(** Without the condition on acknowledgements the sender can declare success
    while a chunk is missing: one changed byte of one acknowledgement is
    enough. *)
Theorem changed_ack_completes_early :
  build_ack_packet 0 !! 11%nat = Some 0 ∧ ~ checksum_ok changed_ack ∧
  noisy_reachable file fooled ∧
  sr_sender_is_complete (y_sender fooled) = true ∧
  sr_receiver_is_complete (y_receiver fooled) = false ∧
  delivered fooled = replicate 1024 7.
Proof.
  split; [by vm_compute|]. split.
  { apply (bool_decide_eq_false_1 (checksum_ok changed_ack)). by vm_compute. }
  split; [apply fooled_reachable|]. by vm_compute.
Qed.
End Witness.
