(* ===== verification/SRLiveness.v ===== *)
(** * A transfer over a network that loses packets

    [SRTransfer] shows that nothing wrong is ever delivered, and that a network
    without loss delivers everything.  Here the network loses what it likes in
    every round, in both directions, as long as no chunk is unlucky for
    [MAX_RETRIES + 1] rounds in a row; the sender retransmits what has timed
    out, and the receiver stops reading when it is complete, as the client does.
    Then the file arrives, and the sender never gives up before. *)

From S2P Require Import Prelude Packed Protocol Lossy Packets Window SRSender SRReceiver SRTransfer.

(** One round: the time, and which data packets and which acknowledgements the
    network delivers. *)
Record round_t := {
  rd_now : Z;
  rd_data : datagram → bool;
  rd_ack : datagram → bool;
}.

Section liveness.
Context `{Host}.
Implicit Types (f : list Z) (y : transfer) (rd : round_t) (A R : gset Z).

Abbreviation st s senv r renv :=
  {| y_sender := s; y_senv := senv; y_receiver := r; y_renv := renv |}.

(** ** The rounds *)

(** [while (!sr_receiver_is_complete)] on the datagrams that arrive. *)
Fixpoint recv_until (dgs : list datagram) (r : sr_receiver_t) (renv : sr_env) :
    option (sr_receiver_t * sr_env) :=
  if sr_receiver_is_complete r then Some (r, renv) else
  match dgs with
  | [] => Some (r, renv)
  | dg :: dgs =>
      '(_, r, renv) ← sr_receiver_handle_data r (dg_bytes dg) renv;
      recv_until dgs r renv
  end.

(** What the event loop of the sender does in an iteration, then the receiver
    and the acknowledgements; [false] when the sender gave up. *)
Definition lossy_round rd y : option (bool * transfer) :=
  '(_, s, senv) ← sr_sender_send_window (rd_now rd) (y_sender y) (y_senv y);
  '(ret, s, senv) ← sr_sender_check_timeouts s (rd_now rd) senv;
  if ret <? 0 then Some (false, st s senv (y_receiver y) (y_renv y)) else
  let packets := drop (length (env_net (y_senv y))) (env_net senv) in
  '(r, renv) ← recv_until (List.filter (rd_data rd) packets) (y_receiver y) (y_renv y);
  let acks := drop (length (env_net (y_renv y))) (env_net renv) in
  '(s, senv) ← ack_all (List.filter (rd_ack rd) acks) s senv;
  Some (true, st s senv r renv).

(** Rounds until the receiver is complete or the sender gives up; the boolean
    tells whether the file arrived. *)
Fixpoint lossy_rounds (sched : list round_t) y : option (bool * transfer) :=
  if sr_receiver_is_complete (y_receiver y) then Some (true, y) else
  match sched with
  | [] => Some (false, y)
  | rd :: sched =>
      '(go, y) ← lossy_round rd y;
      if go : bool then lossy_rounds sched y else Some (false, y)
  end.

(** ** Deliveries in any order *)

Lemma filter_fmap {B C} (g : B → C) (p : C → bool) (l : list B) :
  List.filter p (g <$> l) = g <$> List.filter (λ x, p (g x)) l.
Proof. induction l as [|x l IH]; [done|]. cbn. destruct (p (g x)); cbn; by rewrite IH. Qed.

Lemma recv_until_spec ks peer f s senv r renv A R :
  transfer_rel f (st s senv r renv) A R → lossless (env_link renv) →
  (∀ k, k ∈ ks → 0 ≤ k < s_next_seq s ∧ k < r_base r + WINDOW_SIZE) →
  ∃ r' renv' R' got,
    recv_until (data_dg f peer <$> ks) r renv = Some (r', renv') ∧
    transfer_rel f (st s senv r' renv') A R' ∧ lossless (env_link renv') ∧
    r_peer_addr r' = r_peer_addr r ∧
    env_net renv' = env_net renv ++ (ack_dg (r_peer_addr r) <$> got) ∧ (∀ k, k ∈ got → k ∈ R') ∧ R ⊆ R' ∧
    (sr_receiver_is_complete r' = true ∨ got = ks).
Proof.
  revert r renv R. induction ks as [|k ks IH]; intros r renv R Hrel Hl Hks; cbn [recv_until fmap list_fmap].
  { exists r, renv, R, []. cbn [fmap list_fmap]. rewrite app_nil_r.
    split_and!; try done; [by case_cond as E|set_solver|by right]. }
  case_cond as Ec.
  { exists r, renv, R, []. cbn [fmap list_fmap]. rewrite app_nil_r. split_and!; try done; [set_solver|by left]. }
  destruct (Hks k) as [Hk Hkw]; [set_solver|].
  destruct (rel_data k _ _ _ _ _ _ _ Hrel Hk) as (r1 & renv1 & Hrun & Hrel1 & Hb & Hsends & Hpeer).
  unfold data_effect, data_acks in *. rewrite decide_True in Hrel1 by done.
  rewrite decide_True in Hsends by done.
  destruct Hsends as (g1 & _ & Hnet & Hg). destruct (Hg Hl) as [-> Hl1].
  destruct (IH r1 renv1 ({[k]} ∪ R) Hrel1 Hl1) as
    (r2 & renv2 & R2 & got & Hrun2 & Hrel2 & Hl2 & Hp2 & Hnet2 & Hgot & Hsub & Hcase).
  { intros j Hj. destruct (Hks j); [set_solver|]. lia. }
  exists r2, renv2, R2, (k :: got). cbn [data_dg dg_bytes]. rewrite Hrun. bind_step.
  split_and!; try done.
  - congruence.
  - rewrite Hnet2, Hnet, Hpeer, <-app_assoc. done.
  - set_solver.
  - set_solver.
  - destruct Hcase as [?| ->]; [by left|by right].
Qed.

Lemma ack_all_many ks peer f s senv r renv A R :
  transfer_rel f (st s senv r renv) A R → (∀ k, k ∈ ks → k ∈ R) →
  ∃ s' senv',
    ack_all (ack_dg peer <$> ks) s senv = Some (s', senv') ∧
    transfer_rel f (st s' senv' r renv) (list_to_set ks ∪ A) R ∧
    s_next_seq s' = s_next_seq s ∧ s_base s ≤ s_base s' ∧ s_peer_addr s' = s_peer_addr s ∧
    env_net senv' = env_net senv ∧ env_link senv' = env_link senv ∧
    (∀ k, s_base s' ≤ k < s_next_seq s → k ∉ ks → s_window s' !! slot k = s_window s !! slot k).
Proof.
  revert s senv A. induction ks as [|k ks IH]; intros s senv A Hrel Hks.
  { exists s, senv. cbn. rewrite (left_id_L ∅ _). by split_and!. }
  cbn [fmap list_fmap ack_all ack_dg dg_bytes].
  pose proof (nr_sender _ _ _ _ Hrel) as Hs. simpl in Hs.
  destruct (rel_ack k _ _ _ _ _ _ _ Hrel) as
    (hdr & s1 & senv1 & Hcast & Hrun & Hrel1 & Hn1 & Hb1 & Hc1 & Hnet1 & Hl1); [set_solver|].
  rewrite Hcast. bind_step. rewrite Hrun. bind_step.
  destruct (IH s1 senv1 ({[k]} ∪ A) Hrel1) as (s2 & senv2 & Hrun2 & Hrel2 & Hn2 & Hb2 & Hp2 & Hnet2 & Hl2 & Hw2);
    [set_solver|].
  assert (ntohl (uh_ack_num hdr) = k ∧ s_peer_addr s1 = s_peer_addr s) as [Hk Hp1].
  { assert (in_width 32 k) as Hkw.
    { pose proof (sender_num_max _ _ _ (proj1 Hs)). pose proof (sc_next _ _ _ (proj1 Hs)).
      pose proof (nr_sent _ _ _ _ Hrel k ltac:(set_solver)).
      pose proof (rc_in _ _ _ (proj1 (nr_receiver _ _ _ _ Hrel)) k ltac:(set_solver)). simpl in *. unfold in_width. lia. }
    destruct (ack_packet_facts k Hkw) as (hdr' & Hcast' & _ & Hnum). split; [congruence|].
    destruct (handle_ack_spec f s A hdr senv Hs) as (b' & w' & a' & e' & Hrun' & _);
      [rewrite Hcast in Hcast'; simplify_eq; unfold in_width in Hkw; lia|].
    rewrite Hrun in Hrun'. injection Hrun' as -> _. done. }
  exists s2, senv2. split_and!; try congruence; try lia.
  - cbn [list_to_set]. by replace ({[k]} ∪ list_to_set ks ∪ A) with (list_to_set ks ∪ ({[k]} ∪ A)) by set_solver.
  - intros j Hj Hjk. rewrite Hw2 by (lia || set_solver).
    assert (j ≠ k) by set_solver.
    eapply handle_ack_window; [exact Hs| |exact Hrun| |]; rewrite ?Hk; try done; try lia.
    pose proof (rc_in _ _ _ (proj1 (nr_receiver _ _ _ _ Hrel)) k ltac:(set_solver)). lia.
Qed.

(** ** The sender in a round *)

(** Chunk [k] was sent and is not acknowledged; its slot holds [e]. *)
Definition pending s A k (e : send_window_entry_t) : Prop :=
  s_base s ≤ k < s_next_seq s ∧ k ∉ A ∧ s_window s !! slot k = Some e.

Lemma pending_state f s A k e :
  sender_rel f s A → pending s A k e → se_state e = PKT_PENDING ∧ 0 ≤ se_retries e.
Proof.
  intros [Hc _] (Hk & HkA & He). pose proof (sc_next _ _ _ Hc).
  destruct (sc_slots _ _ _ Hc k) as (e' & He' & _ & Hr); [lia|]. assert (e' = e) as -> by congruence.
  rewrite decide_True in Hr by lia. destruct Hr as (_ & _ & _ & Hret & Hst).
  rewrite decide_False in Hst by done. split; [done|lia].
Qed.

(** After the window is filled, what has timed out is exactly what was pending
    before, and none of it has used up its retries. *)
Lemma dues_after_send now last f s A w1 :
  sender_rel f s A → last + TIMEOUT_MS ≤ now < 18446744073709551616 →
  (∀ k e, pending s A k e → 0 ≤ se_send_time_ms e ≤ last ∧ se_retries e < MAX_RETRIES) →
  (∀ k, s_base s ≤ k < s_next_seq s → w1 !! slot k = s_window s !! slot k) →
  (∀ k, s_next_seq s ≤ k < send_limit s → ∃ data, w1 !! slot k = Some (fresh_entry f now k data)) →
  let dues := List.filter (due w1 now) (seqZ (s_base s) (send_limit s - s_base s)) in
  (∀ k, k ∈ dues ↔ s_base s ≤ k < s_next_seq s ∧ k ∉ A) ∧ existsb (exhausted w1) dues = false.
Proof.
  intros Hrel Hnow Hpend Hold Hnew dues. pose proof (sc_base _ _ _ (proj1 Hrel)) as Hb.
  pose proof (sc_next _ _ _ (proj1 Hrel)) as Hn. unfold TIMEOUT_MS in *.
  assert (s_next_seq s ≤ send_limit s) as Hlim by (unfold send_limit; lia).
  assert (∀ k, k ∈ dues ↔ s_base s ≤ k < s_next_seq s ∧ k ∉ A) as Hin.
  { intros k. unfold dues. rewrite list_elem_of_In, filter_In, <-list_elem_of_In, elem_of_seqZ.
    destruct (decide (s_base s ≤ k < s_next_seq s)) as [Hk|Hk].
    - destruct (sc_slots _ _ _ (proj1 Hrel) k) as (e & He & _ & Hr); [lia|]. unfold due.
      rewrite Hold, He by done. rewrite decide_True in Hr by lia. destruct Hr as (_ & _ & _ & _ & Hst).
      destruct (decide (k ∈ A)) as [HkA|HkA]; rewrite Hst.
      + rewrite bool_decide_eq_false_2 by done. naive_solver.
      + rewrite bool_decide_eq_true_2 by done. destruct (Hpend k e) as [Ht _]; [done|]. unfold TIMEOUT_MS.
        rewrite u64_small by lia. simpl. split; [intros _; split; [lia|done]|intros _; split; [lia|]]. lia.
    - split; [|naive_solver]. intros [Hk' Hdue]. exfalso.
      destruct (Hnew k) as [data Hw]; [lia|]. unfold due in Hdue. rewrite Hw in Hdue.
      cbn [fresh_entry se_state se_send_time_ms] in Hdue. rewrite Z.sub_diag in Hdue. done. }
  split; [done|]. destruct (existsb (exhausted w1) dues) eqn:Hex; [exfalso|done].
  apply existsb_exists in Hex as (k & Hk%list_elem_of_In%Hin & Hexh). destruct Hk as [Hk HkA].
  unfold exhausted in Hexh. rewrite Hold in Hexh by done.
  destruct (s_window s !! slot k) as [e|] eqn:He; [|done]. destruct (Hpend k e) as [_ Hr]; [done|]. lia.
Qed.

(** What the iteration of the sender transmits: every chunk of the window that
    is not acknowledged, the new ones for the first time. *)
Lemma sender_tick now last f s A senv :
  sender_rel f s A → lossless (env_link senv) → last + TIMEOUT_MS ≤ now < 18446744073709551616 →
  (∀ k e, pending s A k e → 0 ≤ se_send_time_ms e ≤ last ∧ se_retries e < MAX_RETRIES) →
  ∃ n1 s1 senv1 ret s2 senv2 ks,
    sr_sender_send_window now s senv = Some (n1, s1, senv1) ∧
    sr_sender_check_timeouts s1 now senv1 = Some (ret, s2, senv2) ∧ 0 ≤ ret ∧
    s_base s2 = s_base s ∧ s_next_seq s2 = send_limit s ∧ s_peer_addr s2 = s_peer_addr s ∧
    lossless (env_link senv2) ∧
    env_net senv2 = env_net senv ++ (data_dg f (s_peer_addr s) <$> ks) ∧
    (∀ k, k ∈ ks → s_base s ≤ k < send_limit s) ∧
    (∀ k, s_base s ≤ k < send_limit s → k ∉ A → k ∈ ks) ∧
    (∀ k e', pending s2 A k e' → se_send_time_ms e' = now ∧
       if decide (k < s_next_seq s) then ∃ e, pending s A k e ∧ se_retries e' = se_retries e + 1
       else se_retries e' = 0).
Proof.
  intros Hrel Hl Hnow Hpend. pose proof (sc_base _ _ _ (proj1 Hrel)) as Hb.
  destruct (send_window_spec now f s A senv Hrel) as (w1 & senv1 & Hrun1 & Hrel1 & Hs1 & Hold & Hnew).
  destruct (dues_after_send now last f s A w1 Hrel Hnow Hpend Hold Hnew) as [Hdue Hex].
  destruct Hs1 as (g1 & _ & Hnet1 & Hg1). destruct (Hg1 Hl) as [-> Hl1].
  set (s1 := upd_sender s (s_base s) (send_limit s) w1 (s_chunks_acked s)) in *.
  destruct (check_timeouts_spec now f s1 A senv1 Hrel1) as (w2 & senv2 & Hrun2 & Hrel2 & Hs2 & Hw2).
  change (s_window s1) with w1 in *. change (s_base s1) with (s_base s) in *.
  change (s_next_seq s1) with (send_limit s) in *.
  set (dues := List.filter (due w1 now) (seqZ (s_base s) (send_limit s - s_base s))) in *.
  rewrite Hex in Hrun2. rewrite (before_all _ _ Hex) in Hs2, Hw2.
  destruct Hs2 as (g2 & _ & Hnet2 & Hg2). destruct (Hg2 Hl1) as [-> Hl2].
  assert (s_next_seq s ≤ send_limit s) as Hlim
    by (pose proof (sc_next _ _ _ (proj1 Hrel)); unfold send_limit; lia).
  eexists _, s1, senv1, _, _, senv2, (seqZ (s_next_seq s) (send_limit s - s_next_seq s) ++ dues).
  split; [exact Hrun1|]. split; [exact Hrun2|]. split_and!; try done; try lia.
  - by rewrite Hnet2, Hnet1, fmap_app, app_assoc.
  - intros k [Hk%elem_of_seqZ|Hk%Hdue]%elem_of_app; lia.
  - intros k Hk HkA. rewrite elem_of_app, elem_of_seqZ, Hdue.
    destruct (decide (k < s_next_seq s)); [right; split; [lia|done]|left; lia].
  - intros k e' (Hk & HkA & He'). simpl in Hk, He'. rewrite Hw2 in He' by done.
    destruct (decide (k < s_next_seq s)) as [Hlt|Hge].
    + rewrite decide_True in He' by (apply Hdue; split; [lia|done]). rewrite Hold in He' by lia.
      destruct (s_window s !! slot k) as [e|] eqn:He; [|done]. simpl in He'. injection He' as <-.
      split; [done|]. exists e. split; [|done]. split_and!; [lia|lia|done|done].
    + rewrite decide_False in He' by (rewrite Hdue; lia). destruct (Hnew k) as [data Hw]; [lia|].
      rewrite Hw in He'. by injection He' as <-.
Qed.

(** A round is a run of the transfer. *)
Lemma recv_until_steps dgs s senv r renv r' renv' :
  dgs ⊆ env_net senv → recv_until dgs r renv = Some (r', renv') →
  rtc transfer_step (st s senv r renv) (st s senv r' renv').
Proof.
  revert r renv. induction dgs as [|dg dgs IH]; intros r renv Hsub Hrun; simpl in Hrun; case_match.
  1-3: simplify_eq; apply rtc_refl.
  destruct (sr_receiver_handle_data r (dg_bytes dg) renv) as [[[n r1] renv1]|] eqn:E; [|done].
  apply (rtc_l _ _ (st s senv r1 renv1)); [|apply IH; [set_solver|done]].
  eapply step_data; [|done]. set_solver.
Qed.

Lemma filter_subseteq {B} (p : B → bool) (l : list B) : List.filter p l ⊆ l.
Proof. intros x. rewrite !list_elem_of_In, filter_In. tauto. Qed.

Lemma lossy_round_steps rd y go y' : lossy_round rd y = Some (go, y') → rtc transfer_step y y'.
Proof.
  destruct y as [s senv r renv]. unfold lossy_round. cbn [y_sender y_senv y_receiver y_renv].
  destruct (sr_sender_send_window _ s senv) as [[[n s1] senv1]|] eqn:E1; [|done]. bind_step.
  destruct (sr_sender_check_timeouts s1 _ senv1) as [[[ret s2] senv2]|] eqn:E2; [|done]. bind_step.
  intros Hrun. apply (rtc_l _ _ (st s1 senv1 r renv)); [by eapply step_send|].
  apply (rtc_l _ _ (st s2 senv2 r renv)); [by eapply step_timeout|].
  destruct (ret <? 0); [injection Hrun as <- <-; apply rtc_refl|].
  destruct (recv_until _ r renv) as [[r1 renv1]|] eqn:E3; [|done]. cbn [mbind option_bind] in Hrun.
  destruct (ack_all _ s2 senv2) as [[s3 senv3]|] eqn:E4; [|done]. cbn [mbind option_bind] in Hrun.
  injection Hrun as <- <-. apply (rtc_trans _ (st s2 senv2 r1 renv1)).
  - eapply recv_until_steps; [|done]. etrans; [apply filter_subseteq|apply subseteq_drop].
  - eapply ack_all_steps; [|done]. etrans; [apply filter_subseteq|apply subseteq_drop].
Qed.

Lemma lossy_rounds_steps sched y go y' : lossy_rounds sched y = Some (go, y') → rtc transfer_step y y'.
Proof.
  revert y. induction sched as [|rd sched IH]; intros y Hrun; simpl in Hrun; case_match.
  1-3: simplify_eq; apply rtc_refl.
  destruct (lossy_round rd y) as [[go1 y1]|] eqn:E; [|done]. simpl in Hrun.
  apply (rtc_trans _ y1); [by eapply lossy_round_steps|].
  destruct go1; [by apply IH|]. simplify_eq. apply rtc_refl.
Qed.
End liveness.

(** ** Fair schedules *)

(** The network delivers both the packet of chunk [k] and its
    acknowledgement. *)
Definition passes `{Host} f (speer rpeer : sockaddr_in) k (rd : round_t) : bool :=
  rd_data rd (data_dg f speer k) && rd_ack rd (ack_dg rpeer k).

(** A packet is sent once and then [MAX_RETRIES] times again. *)
Definition attempts : nat := 11.

Record fair `{Host} f (speer rpeer : sockaddr_in) (sched : list round_t) : Prop := {
  fair_clock : ∀ i rd, sched !! i = Some rd → 0 ≤ rd_now rd < 18446744073709551616;
  fair_spaced : ∀ i rd rd', sched !! i = Some rd → sched !! S i = Some rd' →
    rd_now rd + TIMEOUT_MS ≤ rd_now rd';
  fair_passes : ∀ i k, (i + attempts ≤ length sched)%nat → 0 ≤ k < chunks_of (Z.of_nat (length f)) →
    ∃ j rd, (i ≤ j < i + attempts)%nat ∧ sched !! j = Some rd ∧ passes f speer rpeer k rd = true;
}.

Section fair_runs.
Context `{Host}.
Context (f : list Z) (speer rpeer : sockaddr_in) (sched : list round_t).
Context (Hfair : fair f speer rpeer sched).
Implicit Types (y : transfer) (rd : round_t) (A R : gset Z).

Abbreviation st s senv r renv :=
  {| y_sender := s; y_senv := senv; y_receiver := r; y_renv := renv |}.

(** The state before round [i]: what is pending has failed in every round since
    it was first sent, and chunk [k], which is in the window from round
    [attempts * (k / WINDOW_SIZE)] on, is acknowledged once a round of those
    has let it pass. *)
Record live (i : nat) (last : Z) y A R : Prop := {
  lv_rel : transfer_rel f y A R;
  lv_slink : lossless (env_link (y_senv y));
  lv_rlink : lossless (env_link (y_renv y));
  lv_speer : s_peer_addr (y_sender y) = speer;
  lv_rpeer : r_peer_addr (y_receiver y) = rpeer;
  lv_pending : ∀ k e, pending (y_sender y) A k e →
    0 ≤ se_send_time_ms e ≤ last ∧ se_retries e < Z.of_nat i ∧
    ∀ j rd, Z.of_nat i - se_retries e - 1 ≤ Z.of_nat j < Z.of_nat i → sched !! j = Some rd →
      passes f speer rpeer k rd = false;
  lv_progress : ∀ k j rd, 0 ≤ k < chunks_of (Z.of_nat (length f)) → (j < i)%nat →
    sched !! j = Some rd → passes f speer rpeer k rd = true →
    Z.of_nat attempts * (k / WINDOW_SIZE) ≤ Z.of_nat j → k ∈ A;
}.

(** No packet uses up its retries. *)
Lemma live_retries i last y A R k e :
  (i ≤ length sched)%nat → live i last y A R → pending (y_sender y) A k e →
  se_retries e < MAX_RETRIES.
Proof.
  intros Hi Hl Hp. destruct (lv_pending _ _ _ _ _ Hl k e Hp) as (_ & Hret & Hno).
  destruct (decide (se_retries e < MAX_RETRIES)) as [|Hge]; [done|exfalso].
  unfold MAX_RETRIES in Hge. destruct Hp as ([Hk0 Hk] & _).
  pose proof (nr_sender _ _ _ _ (lv_rel _ _ _ _ _ Hl)) as [Hc _].
  pose proof (sc_base _ _ _ Hc). pose proof (sc_next _ _ _ Hc). pose proof (sc_num _ _ _ Hc).
  destruct (fair_passes _ _ _ _ Hfair (i - attempts)%nat k) as (j & rd & Hj & Hrd & Hpass);
    [unfold attempts; lia|lia|].
  unfold attempts in Hj. rewrite (Hno j rd) in Hpass; [done|lia|done].
Qed.

(** [attempts] rounds after it came into the window a chunk is acknowledged. *)
Lemma live_acked i last y A R k :
  (i ≤ length sched)%nat → live i last y A R → 0 ≤ k < chunks_of (Z.of_nat (length f)) →
  Z.of_nat attempts * (k / WINDOW_SIZE + 1) ≤ Z.of_nat i → k ∈ A.
Proof.
  intros Hi Hl Hk Hw. set (q := k / WINDOW_SIZE) in *.
  assert (0 ≤ q) by (apply Z.div_pos; unfold WINDOW_SIZE; lia). unfold attempts in Hw.
  destruct (fair_passes _ _ _ _ Hfair (Z.to_nat (11 * q)) k) as (j & rd & Hj & Hrd & Hpass);
    [unfold attempts; lia|done|].
  unfold attempts in Hj. eapply (lv_progress _ _ _ _ _ Hl k j rd); try done; [lia|].
  unfold attempts. fold q. lia.
Qed.

(** So the window has come that far. *)
Lemma live_window i last y A R k :
  (i ≤ length sched)%nat → live i last y A R → 0 ≤ k < chunks_of (Z.of_nat (length f)) →
  Z.of_nat attempts * (k / WINDOW_SIZE) ≤ Z.of_nat i → k < send_limit (y_sender y).
Proof.
  intros Hi Hl Hk Hw. pose proof (nr_sender _ _ _ _ (lv_rel _ _ _ _ _ Hl)) as [Hc Hb].
  pose proof (sc_base _ _ _ Hc). pose proof (sc_num _ _ _ Hc) as Hnum.
  unfold send_limit. rewrite Hnum. unfold WINDOW_SIZE, attempts in *.
  destruct (decide (k < s_base (y_sender y) + 64)); [lia|exfalso].
  apply Hb, (live_acked i last y A R); [done|done|lia|]. unfold attempts, WINDOW_SIZE.
  pose proof (Z.div_mod k 64). pose proof (Z.mod_pos_bound k 64).
  pose proof (Z.div_mod (s_base (y_sender y)) 64). pose proof (Z.mod_pos_bound (s_base (y_sender y)) 64). lia.
Qed.

(** The receiver is never behind the sender. *)
Lemma bases_ordered y A R :
  transfer_rel f y A R → s_base (y_sender y) ≤ r_base (y_receiver y).
Proof.
  intros Hrel. destruct (nr_receiver _ _ _ _ Hrel) as [Hr Hb]. destruct (nr_sender _ _ _ _ Hrel) as [Hs _].
  destruct (decide (s_base (y_sender y) ≤ r_base (y_receiver y))) as [|Hlt]; [done|exfalso].
  apply Hb, (tr_acked _ _ _ _ Hrel), (sc_below _ _ _ Hs). pose proof (rc_base _ _ _ Hr). lia.
Qed.

(** What a round does: it is defined, the sender does not give up, and unless
    the receiver completes, exactly the chunks of the window that pass are
    acknowledged; what remains pending has one failure more. *)
Lemma round_effect rd i last y A R :
  (i ≤ length sched)%nat → live i last y A R →
  last + TIMEOUT_MS ≤ rd_now rd < 18446744073709551616 →
  ∃ s' senv' r' renv' A' R',
    lossy_round rd y = Some (true, st s' senv' r' renv') ∧
    transfer_rel f (st s' senv' r' renv') A' R' ∧ A ⊆ A' ∧
    lossless (env_link senv') ∧ lossless (env_link renv') ∧
    s_peer_addr s' = speer ∧ r_peer_addr r' = rpeer ∧
    (sr_receiver_is_complete r' = true ∨
     (∀ k, s_base (y_sender y) ≤ k < send_limit (y_sender y) → passes f speer rpeer k rd = true → k ∈ A') ∧
     (∀ k e', pending s' A' k e' → passes f speer rpeer k rd = false ∧ se_send_time_ms e' = rd_now rd ∧
        if decide (k < s_next_seq (y_sender y))
        then ∃ e, pending (y_sender y) A k e ∧ se_retries e' = se_retries e + 1
        else se_retries e' = 0)).
Proof.
  intros Hi Hl Hnow. pose proof (live_retries i last y A R) as Hretr.
  pose proof (bases_ordered _ _ _ (lv_rel _ _ _ _ _ Hl)) as Hbb.
  destruct y as [s senv r renv]. destruct Hl as [Hrel Hl1 Hl2 Hsp Hrp Hpend Hprog].
  cbn [y_sender y_senv y_receiver y_renv] in *.
  destruct (sender_tick (rd_now rd) last f s A senv (nr_sender _ _ _ _ Hrel) Hl1 Hnow)
    as (n1 & s1 & senv1 & ret & s2 & senv2 & ks & Hrun1 & Hrun2 & Hret & Hb2 & Hn2 & Hp2 & Hl1' & Hnet & Hks & Hall & Hpend2).
  { intros k e Hp. split; [by apply (Hpend k e)|]. apply (Hretr k e); [done| |done]. by split. }
  destruct (rel_send (rd_now rd) _ _ _ _ _ _ _ Hrel) as (? & ? & ? & Hrun1' & Hrel1).
  rewrite Hrun1 in Hrun1'. injection Hrun1' as <- <- <-.
  destruct (rel_timeout (rd_now rd) _ _ _ _ _ _ _ Hrel1) as (? & ? & ? & Hrun2' & Hrel2).
  rewrite Hrun2 in Hrun2'. injection Hrun2' as <- <- <-. rewrite Hsp in *.
  set (ks' := List.filter (λ k, rd_data rd (data_dg f speer k)) ks).
  destruct (recv_until_spec ks' speer f s2 senv2 r renv A R Hrel2 Hl2) as
    (r' & renv' & R' & got & Hrecv & Hrel3 & Hl2' & Hrp' & Hnetr & Hgot & _ & Hcase).
  { intros k Hk%filter_subseteq%Hks. pose proof (sc_base _ _ _ (proj1 (nr_sender _ _ _ _ Hrel))).
    cbn [y_sender] in *. unfold send_limit in *. lia. }
  rewrite Hrp in *. set (got' := List.filter (λ k, rd_ack rd (ack_dg rpeer k)) got).
  destruct (ack_all_many got' rpeer f s2 senv2 r' renv' A R' Hrel3) as
    (s' & senv' & Hack & Hrel4 & Hn4 & Hb4 & Hp4 & _ & Hl4 & Hw4).
  { intros k Hk%filter_subseteq. auto. }
  exists s', senv', r', renv', (list_to_set got' ∪ A), R'. split.
  { unfold lossy_round. cbn [y_sender y_senv y_receiver y_renv]. rewrite Hrun1. bind_step.
    rewrite Hrun2. bind_step. rewrite (proj2 (Z.ltb_ge _ _) Hret), Hnet, drop_app_length, filter_fmap.
    fold ks'. rewrite Hrecv. bind_step. rewrite Hnetr, drop_app_length, filter_fmap. fold got'.
    rewrite Hack. done. }
  split_and!; try done; [set_solver|by rewrite Hl4|by rewrite Hp4|].
  destruct Hcase as [?| ->]; [by left|right].
  assert (∀ k, s_base s ≤ k < send_limit s → passes f speer rpeer k rd = true → k ∈ list_to_set got' ∪ A) as Hpass.
  { intros k Hk [Hd Ha]%andb_prop. destruct (decide (k ∈ A)) as [|HkA]; [set_solver|].
    apply elem_of_union_l, elem_of_list_to_set, list_elem_of_In, filter_In. split; [|done].
    apply filter_In. split; [|done]. by apply list_elem_of_In, Hall. }
  split; [done|]. intros k e' (Hk & HkA & He'). split.
  - destruct (passes f speer rpeer k rd) eqn:E; [|done]. destruct HkA. apply Hpass; [lia|done].
  - apply Hpend2. split_and!; [lia|lia|set_solver|].
    rewrite <-Hw4; [done|lia|set_solver].
Qed.

Lemma round_live rd i last y A R :
  live i last y A R → sched !! i = Some rd → last + TIMEOUT_MS ≤ rd_now rd →
  ∃ y' A' R', lossy_round rd y = Some (true, y') ∧
    (transfer_rel f y' A' R' ∧ sr_receiver_is_complete (y_receiver y') = true ∨
     live (S i) (rd_now rd) y' A' R').
Proof.
  intros Hl Hrd Hnow. pose proof (fair_clock _ _ _ _ Hfair i rd Hrd) as Hclock.
  assert (i < length sched)%nat as Hi by (by apply lookup_lt_Some in Hrd).
  destruct (round_effect rd i last y A R ltac:(lia) Hl) as
    (s' & senv' & r' & renv' & A' & R' & Hrun & Hrel & HA & Hl1 & Hl2 & Hp1 & Hp2 & Hcase); [lia|].
  exists (st s' senv' r' renv'), A', R'. split; [done|].
  destruct Hcase as [Hdone|[Hpass Hpend]]; [by left|right].
  pose proof (proj1 (nr_sender _ _ _ _ (lv_rel _ _ _ _ _ Hl))) as Hc.
  split; try done; cbn [y_sender] in *.
  - intros k e' Hp'. pose proof (Hpend k e' Hp') as (Hfails & Ht & Hr). split; [lia|].
    case_decide.
    + destruct Hr as (e & Hp & Hr). destruct (lv_pending _ _ _ _ _ Hl k e Hp) as (_ & Hlt & Hno).
      split; [lia|]. intros j rdj Hj Hrdj. destruct (decide (j = i)) as [->|]; [congruence|].
      eapply Hno; [|done]. lia.
    + split; [lia|]. intros j rdj Hj Hrdj. assert (j = i) as -> by lia. congruence.
  - intros k j rdj Hk Hj Hrdj Hp Hw.
    destruct (decide (j = i)) as [->|]; [|by apply HA, (lv_progress _ _ _ _ _ Hl k j rdj Hk ltac:(lia) Hrdj Hp Hw)].
    assert (rdj = rd) as -> by congruence.
    destruct (decide (k < s_base (y_sender y))) as [Hlt|Hge].
    { apply HA, (sc_below _ _ _ Hc). lia. }
    apply Hpass; [|done]. split; [lia|]. by apply (live_window i last y A R k ltac:(lia) Hl Hk Hw).
Qed.

(** The rest of the schedule, from any state the invariant describes. *)
Lemma rounds_live rest i last y A R :
  drop i sched = rest → (i ≤ length sched)%nat → live i last y A R →
  (∀ rd, sched !! i = Some rd → last + TIMEOUT_MS ≤ rd_now rd) →
  Z.of_nat attempts * ((chunks_of (Z.of_nat (length f)) + WINDOW_SIZE - 1) / WINDOW_SIZE)
    ≤ Z.of_nat (length sched) →
  ∃ y' A' R', lossy_rounds rest y = Some (true, y') ∧ transfer_rel f y' A' R' ∧
    sr_receiver_is_complete (y_receiver y') = true.
Proof.
  intros Hrest Hi Hl Hlast Hlen. revert i last y A R Hrest Hi Hl Hlast.
  induction rest as [|rd rest IH]; intros i last y A R Hrest Hi Hl Hlast; cbn [lossy_rounds].
  - apply (f_equal length) in Hrest. rewrite length_drop in Hrest. cbn in Hrest.
    assert (sr_receiver_is_complete (y_receiver y) = true) as Hdone.
    { pose proof (lv_rel _ _ _ _ _ Hl) as Hrel. apply (received_all f y A R Hrel).
      rewrite (sc_num _ _ _ (proj1 (nr_sender _ _ _ _ Hrel))). intros k Hk%elem_of_upto.
      apply (tr_acked _ _ _ _ Hrel), (live_acked i last y A R k Hi Hl Hk).
      unfold attempts, WINDOW_SIZE in *.
      assert (k / 64 + 1 ≤ (chunks_of (Z.of_nat (length f)) + 64 - 1) / 64); [|lia].
      rewrite <-Z.div_add by done. apply Z.div_le_mono; lia. }
    rewrite Hdone. exists y, A, R. split_and!; [done|apply (lv_rel _ _ _ _ _ Hl)|done].
  - destruct (sr_receiver_is_complete (y_receiver y)) eqn:Hdone.
    { exists y, A, R. split_and!; [done|apply (lv_rel _ _ _ _ _ Hl)|done]. }
    assert (sched !! i = Some rd) as Hrd by (by rewrite <-(Nat.add_0_r i), <-lookup_drop, Hrest).
    destruct (round_live rd i last y A R Hl Hrd (Hlast rd Hrd)) as (y1 & A1 & R1 & Hrun & Hcase).
    rewrite Hrun. bind_step. destruct Hcase as [[Hrel Hd]|Hl1].
    { exists y1, A1, R1. split_and!; [|done|done]. destruct rest; cbn [lossy_rounds]; by rewrite Hd. }
    apply (IH (S i) (rd_now rd) y1 A1 R1); [|by apply lookup_lt_Some in Hrd|done|].
    + replace (S i) with (i + 1)%nat by lia. by rewrite <-drop_drop, Hrest.
    + intros rd' Hrd'. by eapply (fair_spaced _ _ _ _ Hfair i).
Qed.
End fair_runs.

Section fair_claim.
Context `{Host}.

(** C5: liveness over a network that loses packets.  Whatever data packets
    and acknowledgements the network loses, if the rounds are [TIMEOUT_MS] or
    more apart and in any [MAX_RETRIES + 1] rounds in a row each chunk once has
    both its packet and its acknowledgement delivered, then [MAX_RETRIES + 1]
    rounds for every window of the file are enough: the sender never gives up
    and the receiver ends with exactly the file. *)
Theorem fair_transfer_completes f y sched :
  transfer_init f y → lossless (env_link (y_senv y)) → lossless (env_link (y_renv y)) →
  fair f (s_peer_addr (y_sender y)) (r_peer_addr (y_receiver y)) sched →
  Z.of_nat attempts * ((chunks_of (Z.of_nat (length f)) + WINDOW_SIZE - 1) / WINDOW_SIZE)
    ≤ Z.of_nat (length sched) →
  ∃ y', lossy_rounds sched y = Some (true, y') ∧ rtc transfer_step y y' ∧
    sr_receiver_is_complete (y_receiver y') = true ∧
    sr_receiver_get_file (y_receiver y') = (Some f, Z.of_nat (length f)).
Proof.
  intros Hinit Hl1 Hl2 Hfair Hlen.
  destruct (init_synced f y Hinit Hl1 Hl2) as (Hrel & Hnext & _).
  assert (∃ last, ∀ rd, sched !! 0%nat = Some rd → last + TIMEOUT_MS ≤ rd_now rd) as [last Hlast].
  { destruct sched as [|rd sched]; [by exists 0|]. exists (rd_now rd - TIMEOUT_MS). intros ? [= <-]. lia. }
  destruct (rounds_live f (s_peer_addr (y_sender y)) (r_peer_addr (y_receiver y)) sched Hfair
    sched 0 last y (upto 0) (upto 0)) as (y' & A & R & Hrun & Hrel' & Hdone); try done; [lia| |].
  { split; try done; [|intros; lia]. intros k e ([Hk0 Hk] & _).
    pose proof (sc_base _ _ _ (proj1 (nr_sender _ _ _ _ Hrel))). lia. }
  exists y'. split_and!; [done|by eapply lossy_rounds_steps|done|by apply (complete_file f y' _ _ Hrel')].
Qed.
End fair_claim.

(** ** A concrete run: ten rounds in which nothing arrives *)

Module LossyExample.
Import SRTransfer.Example.
#[local] Existing Instance host.

Definition dead (i : nat) : round_t :=
  {| rd_now := 1000 + 600 * Z.of_nat i; rd_data := λ _, false; rd_ack := λ _, true |}.
Definition schedule : list round_t :=
  (dead <$> seq 0 10) ++ [{| rd_now := 7000; rd_data := λ _, true; rd_ack := λ _, true |}].

Lemma schedule_fair : fair file receiver_addr sender_addr schedule.
Proof.
  split.
  - intros i rd Hrd. do 11 (destruct i as [|i]; [injection Hrd as <-; cbn; lia|]). done.
  - intros i rd rd' Hrd Hrd'. unfold TIMEOUT_MS.
    do 10 (destruct i as [|i]; [injection Hrd as <-; injection Hrd' as <-; cbn; lia|]). done.
  - intros i k Hi _. cbn in Hi. assert (i = 0%nat) as -> by (unfold attempts in Hi; lia).
    exists 10%nat. eexists. split; [unfold attempts; lia|]. by split.
Qed.

Lemma fair_transfer_completes_witness :
  ∃ y', lossy_rounds schedule start = Some (true, y') ∧
    sr_receiver_get_file (y_receiver y') = (Some file, 1027).
Proof.
  destruct (fair_transfer_completes file start schedule start_init eq_refl eq_refl schedule_fair)
    as (y' & Hrun & _ & _ & Hf); [by vm_compute|]. exists y'. exact (conj Hrun Hf).
Defined.
End LossyExample.
