(* ===== verification/Server.v ===== *)
(** * The directory server: [server.c]

    The global tables of the server are a record; a [client_t *] is an index
    into [clients], a [shared_file_t *] an index into [files].  The calls the
    server makes to the operating system are the events of [trace]; what the
    system answers ([send], [malloc], [accept], [poll], [recv]) is an argument.
    Every operation returns [None] exactly when the C code would leave an
    array or overflow an [int]. *)

From S2P Require Import Prelude Common Arrays Packed Protocol.

Module Server.

Definition MAX_CLIENTS : nat := 256.
Definition MAX_FILES : nat := 1024.

(** ** State *)

Record client_t := {
  fd : Z;
  client_id : Z;
  addr : sockaddr_in;
  udp_port : Z;
  active : bool;
}.

Record shared_file_t := {
  file_id : Z;
  file_size : Z;
  hash : list Z;
  filename : list Z;
  owner_id : Z;
}.

(** A call of [send] with what it returned, and a call of [close]. *)
Inductive event :=
  | EvSend (fd : Z) (data : list Z) (sent : Z)
  | EvClose (fd : Z).

Record state := {
  clients : list client_t;
  files : list shared_file_t;
  next_client_id : Z;
  next_file_id : Z;
  num_clients : Z;
  num_files : nat;
  trace : list event;
}.

Definition zero_client : client_t := {|
  fd := 0; client_id := 0; addr := {| sin_addr := 0; sin_port := 0 |};
  udp_port := 0; active := false |}.

Definition zero_file : shared_file_t := {|
  file_id := 0; file_size := 0; hash := replicate 32 0; filename := replicate 256 0;
  owner_id := 0 |}.

(** The static initialisers and the two [memset] at the start of [main]. *)
Definition init : state := {|
  clients := replicate MAX_CLIENTS zero_client;
  files := replicate MAX_FILES zero_file;
  next_client_id := 1; next_file_id := 1; num_clients := 0; num_files := 0; trace := [] |}.

(** Assignments to the globals. *)
Definition set_clients (cs : list client_t) (st : state) : state := {|
  clients := cs; files := files st; next_client_id := next_client_id st;
  next_file_id := next_file_id st; num_clients := num_clients st; num_files := num_files st;
  trace := trace st |}.

Definition set_files (fs : list shared_file_t) (n : nat) (st : state) : state := {|
  clients := clients st; files := fs; next_client_id := next_client_id st;
  next_file_id := next_file_id st; num_clients := num_clients st; num_files := n;
  trace := trace st |}.

Definition set_counters (nc nf num : Z) (st : state) : state := {|
  clients := clients st; files := files st; next_client_id := nc;
  next_file_id := nf; num_clients := num; num_files := num_files st;
  trace := trace st |}.

Definition log (e : event) (st : state) : state := {|
  clients := clients st; files := files st; next_client_id := next_client_id st;
  next_file_id := next_file_id st; num_clients := num_clients st; num_files := num_files st;
  trace := trace st ++ [e] |}.

(** Signed 32-bit addition; overflow is undefined. *)
Definition int_add (x y : Z) : option Z :=
  if bool_decide (-2147483648 ≤ x + y ≤ 2147483647) then Some (x + y) else None.

(** ** Lookups *)

Definition find_client (id : Z) (st : state) : option (option nat) :=
  scan (λ c, active c && (client_id c =? id)) (clients st) 0 MAX_CLIENTS.

Definition find_client_by_fd (n : Z) (st : state) : option (option nat) :=
  scan (λ c, (fd c =? n) && (0 <? fd c)) (clients st) 0 MAX_CLIENTS.

Definition find_file (id : Z) (st : state) : option (option nat) :=
  scan (λ f, file_id f =? id) (files st) 0 (num_files st).

(** ** Operations *)

Definition remove_client (client : option nat) (st : state) : option state :=
  match client with
  | None => Some st
  | Some i =>
      c ← clients st !! i;
      if negb (active c) then Some st else
      '(fs, n) ← remove_loop MAX_FILES (λ f, owner_id f =? client_id c) (files st) 0 (num_files st);
      let st := log (EvClose (fd c)) (set_files fs n st) in
      let c := {| fd := -1; client_id := client_id c; addr := addr c; udp_port := udp_port c;
                  active := false |} in
      n ← int_add (num_clients st) (-1);
      Some (set_counters (next_client_id st) (next_file_id st) n
              (set_clients (<[i := c]> (clients st)) st))
  end.

Section server.
Context `{Host}.
(** What [send(fd, data, len, 0)] returns, after the calls made so far. *)
Context (os_send : list event → Z → list Z → Z).

Definition send_response (client : nat) (data : list Z) (st : state) : option (Z * state) :=
  c ← clients st !! client;
  let sent := os_send (trace st) (fd c) data in
  let st := log (EvSend (fd c) data sent) st in
  if sent <? 0 then Some (-1, st)
  else if negb (sent =? Z.of_nat (length data)) then Some (-1, st)
  else Some (0, st).

(** The handlers ignore the result of [send_response]. *)
Definition respond (client : nat) (data : list Z) (st : state) : option state :=
  snd <$> send_response client data st.

Definition error_response (code : Z) : list Z :=
  to_bytes {| th_msg_type := TCP_ERROR; th_error_code := code; th_data_len := 0 |}.

Definition handle_register (client : nat) (reg : tcp_register_t) (st : state) : option state :=
  c ← clients st !! client;
  let id := next_client_id st in
  let c := {| fd := fd c; client_id := id; addr := addr c;
              udp_port := ntohs (reg_udp_port reg); active := true |} in
  n ← int_add (num_clients st) 1;
  let st := set_counters (id +₃₂ 1) (next_file_id st) n
              (set_clients (<[client := c]> (clients st)) st) in
  respond client
    (to_bytes {| th_msg_type := TCP_REGISTER_ACK; th_error_code := ERR_NONE;
                 th_data_len := htons (sizeof tcp_register_ack_t) |} ++
     to_bytes {| rack_client_id := htonl id |}) st.

Definition handle_share_file (client : nat) (share : tcp_share_file_t) (st : state) : option state :=
  c ← clients st !! client;
  if bool_decide (MAX_FILES ≤ num_files st)%nat then
    respond client (error_response ERR_INVALID_MSG) st
  else
    let k := num_files st in
    let id := next_file_id st in
    hash ← mread (sf_hash share) 0 32;
    name ← copy_name (sf_filename share);
    if bool_decide (k < length (files st))%nat then
      let file := {| file_id := id; file_size := ntohl (sf_file_size share); hash := hash;
                     filename := name; owner_id := client_id c |} in
      let st := set_counters (next_client_id st) (id +₃₂ 1) (num_clients st)
                  (set_files (<[k := file]> (files st)) (S k) st) in
      respond client
        (to_bytes {| th_msg_type := TCP_SHARE_ACK; th_error_code := ERR_NONE;
                     th_data_len := htons (sizeof tcp_share_ack_t) |} ++
         to_bytes {| sack_file_id := htonl id |}) st
    else None.

(** One iteration of the loop that fills the list. *)
Definition file_info (f : shared_file_t) : option file_info_t :=
  hash ← mread (hash f) 0 32;
  name ← copy_name (filename f);
  Some {| fi_file_id := htonl (file_id f); fi_file_size := htonl (file_size f);
          fi_hash := hash; fi_num_peers := 1; fi_filename := name |}.

(** [malloc_ok]: whether [malloc(response_size)] succeeds.  The length goes
    through [htons], whose argument is a [uint16_t]. *)
Definition handle_list_files (malloc_ok : bool) (client : nat) (st : state) : option state :=
  c ← clients st !! client;
  if negb malloc_ok then Some st else
  infos ← mapM (λ i, f ← files st !! i; file_info f) (seq 0 (num_files st));
  respond client
    (to_bytes {| th_msg_type := TCP_FILE_LIST; th_error_code := ERR_NONE;
                 th_data_len := htons (u16 (Z.of_nat (num_files st) * sizeof file_info_t)) |} ++
     concat (to_bytes <$> infos)) st.

Definition handle_request_file (client : nat) (req : tcp_request_file_t) (st : state) : option state :=
  let id := ntohl (rq_file_id req) in
  file ← find_file id st;
  match file with
  | None => respond client (error_response ERR_FILE_NOT_FOUND) st
  | Some k =>
      f ← files st !! k;
      owner ← find_client (owner_id f) st;
      match owner with
      | None => respond client (error_response ERR_NO_PEERS) st
      | Some j =>
          o ← clients st !! j;
          hash ← mread (hash f) 0 32;
          name ← copy_name (filename f);
          respond client
            (to_bytes {| th_msg_type := TCP_FILE_LOCATION; th_error_code := ERR_NONE;
                         th_data_len := htons (sizeof tcp_file_location_t) |} ++
             to_bytes {| loc_file_id := htonl (file_id f); loc_file_size := htonl (file_size f);
                         loc_hash := hash; loc_peer_ip := sin_addr (addr o);
                         loc_peer_port := htons (udp_port o); loc_filename := name |}) st
      end
  end.

Definition handle_unregister (client : nat) (st : state) : option state :=
  remove_client (Some client) st.

Definition process_client_message (malloc_ok : bool) (client : nat) (data : list Z) (st : state)
    : option state :=
  let len := Z.of_nat (length data) in
  if len <? sizeof tcp_header_t then Some st else
  hdr ← cast tcp_header_t data 0;
  let data_len := ntohs (th_data_len hdr) in
  if negb (sizeof tcp_header_t + data_len =? len) then Some st else
  let off := sizeof tcp_header_t in
  if th_msg_type hdr =? TCP_REGISTER then
    if data_len =? sizeof tcp_register_t then
      reg ← cast tcp_register_t data off; handle_register client reg st
    else Some st
  else if th_msg_type hdr =? TCP_SHARE_FILE then
    if data_len =? sizeof tcp_share_file_t then
      share ← cast tcp_share_file_t data off; handle_share_file client share st
    else Some st
  else if th_msg_type hdr =? TCP_LIST_FILES then
    handle_list_files malloc_ok client st
  else if th_msg_type hdr =? TCP_REQUEST_FILE then
    if data_len =? sizeof tcp_request_file_t then
      req ← cast tcp_request_file_t data off; handle_request_file client req st
    else Some st
  else if th_msg_type hdr =? TCP_UNREGISTER then
    handle_unregister client st
  else Some st.

(** [accepted]: the descriptor and address [accept] returns, if it succeeds. *)
Definition accept_new_client (accepted : option (Z * sockaddr_in)) (st : state) : option state :=
  match accepted with
  | None => Some st
  | Some (client_fd, client_addr) =>
      slot ← scan (λ c, negb (active c)) (clients st) 0 MAX_CLIENTS;
      match slot with
      | None => Some (log (EvClose client_fd) st)
      | Some i =>
          c ← clients st !! i;
          let c := {| fd := client_fd; client_id := client_id c; addr := client_addr;
                      udp_port := udp_port c; active := false |} in
          Some (set_clients (<[i := c]> (clients st)) st)
      end
  end.

(** ** The event loop *)

(** What the system answers in one iteration: [poll] fails (with or without
    [EINTR]), times out, or reports descriptors; then [accept] and, for each
    ready client, [recv] (an error, or the bytes received, none at the end of
    the stream) and the [malloc] its message may need. *)
Inductive poll_answer :=
  | PollError (eintr : bool)
  | PollTimeout
  | PollReady (listen_ready : bool) (accepted : option (Z * sockaddr_in))
      (ready : Z → bool) (recv : Z → option (list Z)) (malloc_ok : Z → bool).

(** The descriptors of [poll_fds] after the listening one. *)
Definition poll_fds (st : state) : list Z :=
  List.filter (λ n, 0 <? n) (fd <$> clients st).

(** The body of the loop over [poll_fds]. *)
Definition serve_fd (ready : Z → bool) (recv : Z → option (list Z)) (malloc_ok : Z → bool)
    (n : Z) (st : state) : option state :=
  if negb (ready n) then Some st else
  client ← find_client_by_fd n st;
  match client with
  | None => Some st
  | Some i =>
      match recv n with
      | None | Some [] => remove_client (Some i) st
      | Some data => process_client_message (malloc_ok n) i data st
      end
  end.

(** One iteration; the boolean tells whether the loop goes on. *)
Definition server_iteration (a : poll_answer) (st : state) : option (bool * state) :=
  match a with
  | PollError eintr => Some (eintr, st)
  | PollTimeout => Some (true, st)
  | PollReady listen_ready accepted ready recv malloc_ok =>
      let fds := poll_fds st in
      st ← (if listen_ready then accept_new_client accepted st else Some st);
      st ← foldl (λ acc n, st ← acc; serve_fd ready recv malloc_ok n st) (Some st) fds;
      Some (true, st)
  end.

(** [close] of every client socket after the loop, then of the listening one. *)
Definition server_cleanup (listen_fd : Z) (st : state) : state :=
  log (EvClose listen_fd)
    (foldl (λ st c, if 0 <? fd c then log (EvClose (fd c)) st else st) st (clients st)).

(** [while (running)]: the answers up to the signal that clears [running]. *)
Fixpoint server_loop (answers : list poll_answer) (st : state) : option state :=
  match answers with
  | [] => Some st
  | a :: answers =>
      r ← server_iteration a st;
      if r.1 : bool then server_loop answers r.2 else Some r.2
  end.

Definition server_main (listen_fd : Z) (answers : list poll_answer) : option state :=
  st ← server_loop answers init; Some (server_cleanup listen_fd st).

(** ** Well-formed states *)

Definition live (st : state) : list shared_file_t := take (num_files st) (files st).

Definition client_wf (c : client_t) : Prop :=
  in_width 32 (client_id c) ∧ in_width 16 (udp_port c) ∧ in_width 32 (sin_addr (addr c)).

Definition file_wf (f : shared_file_t) : Prop :=
  in_width 32 (file_id f) ∧ in_width 32 (file_size f) ∧ in_width 32 (owner_id f) ∧
  length (hash f) = 32%nat ∧ Forall is_byte (hash f) ∧ name_ok (filename f).

Record wf (st : state) : Prop := {
  wf_clients : length (clients st) = MAX_CLIENTS;
  wf_files : length (files st) = MAX_FILES;
  wf_num_files : (num_files st ≤ MAX_FILES)%nat;
  wf_next_client : in_width 32 (next_client_id st);
  wf_next_file : in_width 32 (next_file_id st);
  wf_client : Forall client_wf (clients st);
  wf_file : Forall file_wf (live st);
}.

Lemma init_wf : wf init.
Proof.
  split; [apply length_replicate|apply length_replicate|apply Nat.le_0_l|by vm_compute..| |constructor].
  apply Forall_replicate. by vm_compute.
Qed.

Lemma log_wf e st : wf (log e st) ↔ wf st.
Proof. split; intros []; by split. Qed.

Lemma set_clients_wf cs st :
  wf st → length cs = length (clients st) → Forall client_wf cs → wf (set_clients cs st).
Proof. intros [] Hl Hc. split; simpl; try done. congruence. Qed.

Lemma set_counters_wf nc nf n st :
  wf st → in_width 32 nc → in_width 32 nf → wf (set_counters nc nf n st).
Proof. intros [] Hc Hf. by split. Qed.

Lemma set_files_wf fs n st :
  wf st → length fs = length (files st) → (n ≤ MAX_FILES)%nat → Forall file_wf (take n fs) →
  wf (set_files fs n st).
Proof. intros [] Hl Hn Hf. split; simpl; try done. congruence. Qed.

Lemma live_lookup st k : (k < num_files st)%nat → live st !! k = files st !! k.
Proof. intros. unfold live. by rewrite lookup_take_lt. Qed.

Lemma live_lookup_lt st k f : live st !! k = Some f → (k < num_files st)%nat.
Proof. intros Hk%lookup_lt_Some. unfold live in Hk. rewrite length_take in Hk. lia. Qed.

Lemma length_live st : wf st → length (live st) = num_files st.
Proof. intros [_ Hf Hn]. unfold live. rewrite length_take. lia. Qed.

Lemma int_add_Some x y : -2147483648 ≤ x + y ≤ 2147483647 → int_add x y = Some (x + y).
Proof. intros. unfold int_add. by rewrite bool_decide_eq_true_2. Qed.

Lemma respond_spec i c data st :
  clients st !! i = Some c →
  respond i data st = Some (log (EvSend (fd c) data (os_send (trace st) (fd c) data)) st).
Proof.
  intros Hc. unfold respond, send_response. rewrite Hc. bind_step.
  by repeat case_match.
Qed.

(** A whole-array read of 32 bytes. *)
Lemma mread_hash h : length h = 32%nat → mread h 0 32 = Some h.
Proof. intros Hl. rewrite mread_Some by lia. f_equal. apply take_ge. simpl. lia. Qed.

(** [remove_client] on a registered client: its descriptor is closed, its
    slot freed, and exactly its files leave the list, in order. *)
Lemma remove_client_spec i c st :
  wf st → clients st !! i = Some c → active c = true →
  -2147483648 ≤ num_clients st - 1 ≤ 2147483647 →
  ∃ st', remove_client (Some i) st = Some st' ∧ wf st' ∧
    clients st' = <[i := {| fd := -1; client_id := client_id c; addr := addr c;
                            udp_port := udp_port c; active := false |}]> (clients st) ∧
    live st' = List.filter (λ f, negb (owner_id f =? client_id c)) (live st) ∧
    trace st' = trace st ++ [EvClose (fd c)] ∧
    next_client_id st' = next_client_id st ∧ next_file_id st' = next_file_id st ∧
    num_clients st' = num_clients st - 1.
Proof.
  intros Hwf Hc Ha Hn. unfold remove_client. rewrite Hc. bind_step. rewrite Ha.
  cbn [negb]. pose proof (wf_num_files _ Hwf) as Hnf. pose proof (wf_files _ Hwf) as Hfl.
  destruct (remove_loop_spec MAX_FILES (λ f, owner_id f =? client_id c) (files st) 0 (num_files st))
    as (fs & n & Hrun & Hl & Hle & Ht); [lia..|].
  rewrite Hrun. bind_step. rewrite int_add_Some by (simpl; lia). bind_step.
  eexists. split; [reflexivity|].
  pose proof (Forall_lookup_1 _ _ _ _ (wf_client _ Hwf) Hc) as Hcwf.
  split.
  - apply set_counters_wf; [|by destruct Hwf..]. apply set_clients_wf;
      [|by rewrite length_insert|apply Forall_insert; [by destruct Hwf|done]].
    apply log_wf, set_files_wf; [done|done|lia|]. rewrite Ht. simpl.
    pose proof (wf_file _ Hwf) as Hf. unfold live in Hf.
    rewrite Forall_forall in *. intros f [Hin _]%list_elem_of_In%filter_In.
    by apply Hf, list_elem_of_In.
  - split_and!; try done.
Qed.

(** ** The handlers, branch by branch

    [sent_to i data st]: the state after [data] was handed to [send] for the
    client in slot [i], the tables being those of [st]. *)

Definition sent_to (i : nat) (data : list Z) (st : state) : state :=
  log (EvSend (default 0 (fd <$> clients st !! i)) data
         (os_send (trace st) (default 0 (fd <$> clients st !! i)) data)) st.

Lemma respond_sent_to i data st :
  (i < length (clients st))%nat → respond i data st = Some (sent_to i data st).
Proof.
  intros [c Hc]%lookup_lt_is_Some_2. rewrite (respond_spec _ _ _ _ Hc).
  unfold sent_to. by rewrite Hc.
Qed.

Definition registered (i : nat) (c : client_t) (port : Z) (st : state) : state :=
  set_counters (next_client_id st +₃₂ 1) (next_file_id st) (num_clients st + 1)
    (set_clients (<[i := {| fd := fd c; client_id := next_client_id st; addr := addr c;
                            udp_port := port; active := true |}]> (clients st)) st).

Definition register_reply (id : Z) : list Z :=
  to_bytes {| th_msg_type := TCP_REGISTER_ACK; th_error_code := ERR_NONE;
              th_data_len := htons (sizeof tcp_register_ack_t) |} ++
  to_bytes {| rack_client_id := htonl id |}.

Lemma handle_register_spec i c reg st :
  wf st → clients st !! i = Some c → fits reg →
  -2147483648 ≤ num_clients st + 1 ≤ 2147483647 →
  handle_register i reg st =
    Some (sent_to i (register_reply (next_client_id st)) (registered i c (ntohs (reg_udp_port reg)) st)) ∧
  wf (registered i c (ntohs (reg_udp_port reg)) st).
Proof.
  intros Hwf Hc Hreg Hn. unfold handle_register. rewrite Hc. bind_step.
  rewrite int_add_Some by done. bind_step.
  rewrite respond_sent_to by (simpl; rewrite length_insert; by eapply lookup_lt_Some).
  split; [done|]. apply set_counters_wf; [|by apply uwrap_range|by destruct Hwf].
  apply set_clients_wf; [done|by rewrite length_insert|].
  pose proof (Forall_lookup_1 _ _ _ _ (wf_client _ Hwf) Hc) as (_ & _ & Haddr).
  apply Forall_insert; [by destruct Hwf|]. split_and!; [by destruct Hwf| |done].
  by apply (hton_range 2).
Qed.

Definition shared (f : shared_file_t) (st : state) : state :=
  set_counters (next_client_id st) (next_file_id st +₃₂ 1) (num_clients st)
    (set_files (<[num_files st := f]> (files st)) (S (num_files st)) st).

Definition share_reply (id : Z) : list Z :=
  to_bytes {| th_msg_type := TCP_SHARE_ACK; th_error_code := ERR_NONE;
              th_data_len := htons (sizeof tcp_share_ack_t) |} ++
  to_bytes {| sack_file_id := htonl id |}.

Lemma live_shared f st :
  wf st → (num_files st < MAX_FILES)%nat → live (shared f st) = live st ++ [f].
Proof.
  intros Hwf Hlt. unfold live, shared. cbn [files num_files set_counters set_files].
  rewrite (take_S_r _ _ f); [by rewrite take_insert_ge by lia|].
  apply list_lookup_insert_eq. by rewrite (wf_files _ Hwf).
Qed.

Lemma shared_wf f st :
  wf st → (num_files st < MAX_FILES)%nat → file_wf f → wf (shared f st).
Proof.
  intros Hwf Hlt Hf. pose proof (live_shared f st Hwf Hlt) as Hlive. unfold shared in *.
  apply set_counters_wf; [|by destruct Hwf|by apply uwrap_range].
  apply set_files_wf; [done|by rewrite length_insert|lia|].
  unfold live in Hlive. cbn in Hlive. rewrite Hlive.
  apply Forall_app; split; [apply (wf_file _ Hwf)|by constructor].
Qed.

Lemma handle_share_file_spec i c share st :
  wf st → clients st !! i = Some c → fits share →
  ∃ name, copy_name (sf_filename share) = Some name ∧
    let f := {| file_id := next_file_id st; file_size := ntohl (sf_file_size share);
                hash := sf_hash share; filename := name; owner_id := client_id c |} in
    handle_share_file i share st =
      (if bool_decide (MAX_FILES ≤ num_files st)%nat
       then Some (sent_to i (error_response ERR_INVALID_MSG) st)
       else Some (sent_to i (share_reply (next_file_id st)) (shared f st))) ∧
    file_wf f.
Proof.
  intros Hwf Hc (Hsize & [Hhl Hhb] & [Hnl Hnb]).
  destruct (copy_name_total (sf_filename share)) as [name Hname]; [left; lia|].
  exists name. split; [done|]. split.
  - unfold handle_share_file. rewrite Hc. bind_step.
    pose proof (lookup_lt_Some _ _ _ Hc). case_bool_decide as Hfull; [by rewrite respond_sent_to|].
    rewrite mread_hash by done. bind_step. rewrite Hname. bind_step.
    rewrite (wf_files _ Hwf), bool_decide_eq_true_2 by lia. by rewrite respond_sent_to.
  - pose proof (Forall_lookup_1 _ _ _ _ (wf_client _ Hwf) Hc) as (Hid & _ & _).
    split_and!; try done; [by destruct Hwf|by apply (hton_range 4)|by eapply copy_name_ok].
Qed.

Lemma file_info_total f :
  file_wf f → ∃ name, copy_name (filename f) = Some name ∧ name_ok name ∧
    cstring name = cstring (filename f) ∧
    file_info f = Some {| fi_file_id := htonl (file_id f); fi_file_size := htonl (file_size f);
                          fi_hash := hash f; fi_num_peers := 1; fi_filename := name |}.
Proof.
  intros (_ & _ & _ & Hh & _ & Hname). pose proof Hname as (_ & Hb & [s Hs]).
  destruct (copy_name_total (filename f)) as [name Hn]; [by right|].
  exists name. split_and!; [done|by eapply copy_name_ok|by rewrite (copy_name_same _ _ _ Hn Hname Hs)|].
  unfold file_info. rewrite mread_hash by done. bind_step. by rewrite Hn.
Qed.

Lemma file_infos_total st :
  wf st → ∃ infos,
    mapM (λ i, f ← files st !! i; file_info f) (seq 0 (num_files st)) = Some infos ∧
    Forall2 (λ f info, file_info f = Some info) (live st) infos.
Proof.
  intros Hwf.
  assert (∀ m, (m ≤ num_files st)%nat → ∃ infos,
    mapM (λ i, f ← files st !! i; file_info f) (seq 0 m) = Some infos ∧
    Forall2 (λ f info, file_info f = Some info) (take m (live st)) infos) as Hm.
  { induction m as [|m IH]; intros Hm; [exists []; by split|].
    destruct IH as (infos & Hrun & Hall); [lia|].
    destruct (lookup_lt_is_Some_2 (live st) m) as [f Hf]; [rewrite length_live by done; lia|].
    pose proof (Forall_lookup_1 _ _ _ _ (wf_file _ Hwf) Hf) as Hfwf.
    destruct (file_info_total f Hfwf) as (name & _ & _ & _ & Hinfo).
    eexists (infos ++ [_]). split.
    - apply mapM_Some. rewrite seq_S. apply Forall2_app; [by apply mapM_Some|].
      constructor; [|constructor]. cbn [Nat.add]. rewrite <-live_lookup, Hf by lia. exact Hinfo.
    - rewrite (take_S_r _ _ f) by done. apply Forall2_app; [done|]. by constructor. }
  destruct (Hm (num_files st)) as (infos & Hrun & Hall); [lia|].
  exists infos. split; [done|]. by rewrite take_ge in Hall by (rewrite length_live by done; lia).
Qed.

Definition list_reply (n : nat) (infos : list file_info_t) : list Z :=
  to_bytes {| th_msg_type := TCP_FILE_LIST; th_error_code := ERR_NONE;
              th_data_len := htons (u16 (Z.of_nat n * sizeof file_info_t)) |} ++
  concat (to_bytes <$> infos).

Lemma handle_list_files_spec i malloc_ok st :
  wf st → (i < length (clients st))%nat →
  ∃ infos, Forall2 (λ f info, file_info f = Some info) (live st) infos ∧
    handle_list_files malloc_ok i st =
      Some (if malloc_ok then sent_to i (list_reply (num_files st) infos) st else st).
Proof.
  intros Hwf Hi. destruct (file_infos_total st Hwf) as (infos & Hrun & Hall).
  exists infos. split; [done|]. unfold handle_list_files.
  destruct (lookup_lt_is_Some_2 _ _ Hi) as [c ->]. bind_step.
  destruct malloc_ok; cbn [negb]; [|done]. rewrite Hrun. bind_step.
  by rewrite respond_sent_to.
Qed.

(** What the two searches of [handle_request_file] find. *)
Definition file_of (id : Z) (st : state) : option shared_file_t :=
  first_match (λ f, file_id f =? id) (live st).

Definition client_of (id : Z) (st : state) : option client_t :=
  first_match (λ c, active c && (client_id c =? id)) (clients st).

Definition location_reply (f : shared_file_t) (o : client_t) (name : list Z) : list Z :=
  to_bytes {| th_msg_type := TCP_FILE_LOCATION; th_error_code := ERR_NONE;
              th_data_len := htons (sizeof tcp_file_location_t) |} ++
  to_bytes {| loc_file_id := htonl (file_id f); loc_file_size := htonl (file_size f);
              loc_hash := hash f; loc_peer_ip := sin_addr (addr o);
              loc_peer_port := htons (udp_port o); loc_filename := name |}.

Lemma find_file_cases id st :
  wf st →
  (find_file id st = Some None ∧ file_of id st = None) ∨
  ∃ k f, find_file id st = Some (Some k) ∧ files st !! k = Some f ∧ file_wf f ∧
    file_of id st = Some f.
Proof.
  intros Hwf. unfold find_file, file_of.
  destruct (scan_cases (λ f, file_id f =? id) (files st) (num_files st))
    as [?|(k & f & Hs & Hk & Hf & _ & Hm)]; [destruct Hwf; lia|by left|right].
  exists k, f. split_and!; try done. eapply (Forall_lookup_1 _ (live st)); [apply (wf_file _ Hwf)|].
  by rewrite live_lookup.
Qed.

Lemma find_client_cases id st :
  wf st →
  (find_client id st = Some None ∧ client_of id st = None) ∨
  ∃ k c, find_client id st = Some (Some k) ∧ clients st !! k = Some c ∧ client_wf c ∧
    active c = true ∧ client_id c = id ∧ client_of id st = Some c.
Proof.
  intros Hwf. unfold find_client, client_of. pose proof (wf_clients _ Hwf) as Hl.
  destruct (scan_cases (λ c, active c && (client_id c =? id)) (clients st) MAX_CLIENTS)
    as [[? Hm]|(k & c & Hs & Hk & Hc & Hp & Hm)]; [lia| |];
    rewrite take_ge in Hm by lia; [by left|right].
  apply andb_prop in Hp as [Ha Hid]. exists k, c. split_and!; try done; [|lia].
  by eapply Forall_lookup_1; [apply (wf_client _ Hwf)|].
Qed.

Lemma handle_request_file_spec i req st :
  wf st → (i < length (clients st))%nat →
  match file_of (ntohl (rq_file_id req)) st with
  | None => handle_request_file i req st = Some (sent_to i (error_response ERR_FILE_NOT_FOUND) st)
  | Some f =>
      file_wf f ∧
      match client_of (owner_id f) st with
      | None => handle_request_file i req st = Some (sent_to i (error_response ERR_NO_PEERS) st)
      | Some o => client_wf o ∧ ∃ name, copy_name (filename f) = Some name ∧
          handle_request_file i req st = Some (sent_to i (location_reply f o name) st)
      end
  end.
Proof.
  intros Hwf Hi. unfold handle_request_file.
  destruct (find_file_cases (ntohl (rq_file_id req)) st Hwf) as [[-> ->]|(k & f & -> & Hf & Hfwf & ->)];
    bind_step; [by rewrite respond_sent_to|].
  split; [done|]. rewrite Hf. bind_step.
  destruct (find_client_cases (owner_id f) st Hwf) as [[-> ->]|(j & o & -> & Ho & Howf & _ & _ & ->)];
    bind_step; [by rewrite respond_sent_to|].
  split; [done|]. destruct (file_info_total f Hfwf) as (name & Hname & _).
  exists name. split; [done|]. rewrite Ho. bind_step.
  rewrite mread_hash by apply Hfwf. bind_step. rewrite Hname. bind_step.
  by rewrite respond_sent_to.
Qed.

(** ** Robustness: any bytes from any client *)

(** The operation has a result, which is well formed, and [num_clients]
    moved by at most one. *)
Definition robust (st : state) (r : option state) : Prop :=
  ∃ st', r = Some st' ∧ wf st' ∧ num_clients st - 1 ≤ num_clients st' ≤ num_clients st + 1.

Lemma robust_same st : wf st → robust st (Some st).
Proof. intros. exists st. split_and!; [done..|lia|lia]. Qed.

Lemma robust_sent st st' i data :
  wf st' → num_clients st - 1 ≤ num_clients st' ≤ num_clients st + 1 →
  robust st (Some (sent_to i data st')).
Proof. intros Hwf Hn. eexists. split; [done|]. split; [by apply log_wf|done]. Qed.

Definition counts_ok (n : Z) (st : state) : Prop :=
  -2147483648 ≤ num_clients st - n ∧ num_clients st + n ≤ 2147483647.

Lemma remove_client_robust i st :
  wf st → (i < length (clients st))%nat → counts_ok 1 st → robust st (remove_client (Some i) st).
Proof.
  unfold counts_ok. intros Hwf [c Hc]%lookup_lt_is_Some_2 Hn. destruct (active c) eqn:Ha.
  - destruct (remove_client_spec i c st) as (st' & -> & Hwf' & _ & _ & _ & _ & _ & Hn'); [done..|lia|].
    exists st'. split_and!; [done..|lia|lia].
  - unfold remove_client. rewrite Hc. bind_step. rewrite Ha. by apply robust_same.
Qed.

Lemma process_client_message_robust malloc_ok i data st :
  wf st → (i < length (clients st))%nat → counts_ok 1 st → Forall is_byte data →
  robust st (process_client_message malloc_ok i data st).
Proof.
  intros Hwf Hi Hn Hb. unfold process_client_message. case_cond as Hshort; [by apply robust_same|].
  destruct (cast_total (A:=tcp_header_t) data 0) as (hdr & -> & Hhdr); [lia|lia|done|].
  bind_step. case_cond as Hlen; [by apply robust_same|].
  apply negb_false_iff, Z.eqb_eq in Hlen.
  destruct (lookup_lt_is_Some_2 _ _ Hi) as [c Hc]. unfold counts_ok in Hn.
  case_cond as E1. { case_cond as El; [|by apply robust_same].
    destruct (cast_total (A:=tcp_register_t) data (sizeof tcp_header_t)) as (reg & -> & Hreg); [done|lia|done|].
    bind_step.
    destruct (handle_register_spec i c reg st) as [-> Hwf']; [done..|lia|]. apply robust_sent; [done|simpl; lia]. }
  case_cond as E2. { case_cond as El; [|by apply robust_same].
    destruct (cast_total (A:=tcp_share_file_t) data (sizeof tcp_header_t)) as (share & -> & Hshare); [done|lia|done|].
    bind_step.
    destruct (handle_share_file_spec i c share st) as (name & _ & -> & Hf); [done..|].
    case_bool_decide; (apply robust_sent; [|simpl; lia]); [done|apply shared_wf; [done|lia|done]]. }
  case_cond as E3. { destruct (handle_list_files_spec i malloc_ok st) as (infos & _ & ->); [done..|].
    destruct malloc_ok; [|by apply robust_same]. apply robust_sent; [done|lia]. }
  case_cond as E4. { case_cond as El; [|by apply robust_same].
    destruct (cast_total (A:=tcp_request_file_t) data (sizeof tcp_header_t)) as (req & -> & Hreq); [done|lia|done|].
    bind_step. pose proof (handle_request_file_spec i req st Hwf Hi) as Hspec.
    destruct (file_of _ st) as [f|]; [destruct Hspec as [_ Hspec]; destruct (client_of _ st);
      [destruct Hspec as (_ & name & _ & Hspec)|]|]; rewrite Hspec; (apply robust_sent; [done|lia]). }
  case_cond as E5; [by apply remove_client_robust|by apply robust_same].
Qed.

Lemma accept_robust accepted st :
  wf st → (∀ n a, accepted = Some (n, a) → in_width 32 (sin_addr a)) →
  ∃ st', accept_new_client accepted st = Some st' ∧ wf st' ∧ num_clients st' = num_clients st.
Proof.
  intros Hwf Ha. unfold accept_new_client. destruct accepted as [[n a]|]; [|by exists st].
  destruct (scan_cases (λ c, negb (active c)) (clients st) MAX_CLIENTS)
    as [[-> _]|(k & c & -> & Hk & Hc & _ & _)]; [by rewrite (wf_clients _ Hwf)| |]; bind_step.
  - eexists. split; [done|]. split; [by apply log_wf|done].
  - rewrite Hc. bind_step. eexists. split; [done|]. split; [|done].
    apply set_clients_wf; [done|by rewrite length_insert|].
    pose proof (Forall_lookup_1 _ _ _ _ (wf_client _ Hwf) Hc) as (? & ? & _).
    apply Forall_insert; [apply (wf_client _ Hwf)|]. split_and!; [done..|by eapply Ha].
Qed.

Lemma find_client_by_fd_cases n st :
  wf st →
  (find_client_by_fd n st = Some None ∧ ∀ i c, clients st !! i = Some c → 0 < fd c → fd c ≠ n) ∨
  ∃ i c, find_client_by_fd n st = Some (Some i) ∧ clients st !! i = Some c ∧ fd c = n ∧ 0 < n.
Proof.
  intros Hwf. unfold find_client_by_fd. pose proof (wf_clients _ Hwf) as Hl.
  destruct (scan_cases (λ c, (fd c =? n) && (0 <? fd c)) (clients st) MAX_CLIENTS)
    as [[-> Hm]|(i & c & -> & _ & Hc & Hp & _)]; [lia| |].
  - left. split; [done|]. intros i c Hc Hpos Hn. rewrite take_ge in Hm by lia.
    pose proof (proj1 (first_match_None _ _) Hm i c Hc) as Hf. simpl in Hf. lia.
  - right. exists i, c. split_and!; [done|done|lia|lia].
Qed.

(** What the operating system promises of its answers: an IPv4 address from
    [accept], bytes from [recv]. *)
Definition answer_ok (a : poll_answer) : Prop :=
  match a with
  | PollReady _ accepted _ recv _ =>
      (∀ n addr, accepted = Some (n, addr) → in_width 32 (sin_addr addr)) ∧
      ∀ n data, recv n = Some data → Forall is_byte data
  | _ => True
  end.

Lemma serve_fd_robust ready recv malloc_ok n st :
  wf st → counts_ok 1 st → (∀ data, recv n = Some data → Forall is_byte data) →
  robust st (serve_fd ready recv malloc_ok n st).
Proof.
  intros Hwf Hn Hrecv. unfold serve_fd. destruct (ready n); cbn [negb]; [|by apply robust_same].
  destruct (find_client_by_fd_cases n st Hwf) as [[-> _]|(i & c & -> & Hc & _)];
    bind_step; [by apply robust_same|].
  apply lookup_lt_Some in Hc. destruct (recv n) as [[|b data]|] eqn:Hr;
    [by apply remove_client_robust|apply process_client_message_robust; auto|by apply remove_client_robust].
Qed.

Lemma serve_all_robust ready recv malloc_ok fds st :
  wf st → counts_ok (Z.of_nat (length fds)) st →
  (∀ n data, recv n = Some data → Forall is_byte data) →
  ∃ st', foldl (λ acc n, st ← acc; serve_fd ready recv malloc_ok n st) (Some st) fds = Some st' ∧
    wf st' ∧ Z.abs (num_clients st' - num_clients st) ≤ Z.of_nat (length fds).
Proof.
  unfold counts_ok. revert st. induction fds as [|n fds IH]; intros st Hwf Hn Hrecv; simpl in *.
  { exists st. split_and!; [done..|lia]. }
  destruct (serve_fd_robust ready recv malloc_ok n st Hwf) as (st1 & -> & Hwf1 & Hn1);
    [unfold counts_ok; lia|intros; by eapply Hrecv|].
  destruct (IH st1 Hwf1) as (st' & -> & Hwf' & Hn'); [lia|done|].
  exists st'. split_and!; [done..|lia].
Qed.

(** The poll array has room for every client. *)
Lemma length_poll_fds st : wf st → (length (poll_fds st) ≤ MAX_CLIENTS)%nat.
Proof.
  intros Hwf. unfold poll_fds. etransitivity; [apply filter_length_le|].
  by rewrite length_fmap, (wf_clients _ Hwf).
Qed.

Lemma server_iteration_robust a st :
  wf st → answer_ok a → counts_ok 256 st →
  ∃ go st', server_iteration a st = Some (go, st') ∧ wf st' ∧
    Z.abs (num_clients st' - num_clients st) ≤ 256.
Proof.
  unfold counts_ok. intros Hwf Ha Hn.
  destruct a as [eintr| |l accepted ready recv malloc_ok]; simpl;
    [exists eintr, st; split_and!; [done..|lia]|exists true, st; split_and!; [done..|lia]|].
  destruct Ha as [Hacc Hrecv].
  assert (∃ st1, (if l then accept_new_client accepted st else Some st) = Some st1 ∧ wf st1 ∧
    num_clients st1 = num_clients st) as (st1 & -> & Hwf1 & Hn1).
  { destruct l; [by apply accept_robust|by exists st]. }
  bind_step.
  pose proof (length_poll_fds st Hwf) as Hlen. unfold MAX_CLIENTS in Hlen.
  destruct (serve_all_robust ready recv malloc_ok (poll_fds st) st1) as (st' & -> & Hwf' & Hn');
    [done|unfold counts_ok; lia|done|].
  exists true, st'. split_and!; [done..|lia].
Qed.

Lemma server_loop_robust answers st :
  wf st → Forall answer_ok answers → counts_ok (256 * Z.of_nat (length answers)) st →
  ∃ st', server_loop answers st = Some st' ∧ wf st'.
Proof.
  unfold counts_ok. intros Hwf Hall. revert st Hwf.
  induction Hall as [|a answers Ha _ IH]; intros st Hwf Hn; cbn [server_loop]; [by exists st|].
  cbn [length] in Hn. destruct (server_iteration_robust a st) as (go & st1 & -> & Hwf1 & Hn1);
    [done..|unfold counts_ok; lia|].
  cbn [mbind option_bind fst snd]. destruct go; [|by exists st1]. apply IH; [done|lia].
Qed.

Lemma server_cleanup_wf listen_fd st : wf st → wf (server_cleanup listen_fd st).
Proof.
  intros Hwf. unfold server_cleanup. apply log_wf.
  generalize (clients st) as cs. intros cs. revert st Hwf.
  induction cs as [|c cs IH]; intros st Hwf; simpl; [done|].
  apply IH. destruct (0 <? fd c); [by apply log_wf|done].
Qed.

Lemma server_main_wf listen_fd answers :
  Forall answer_ok answers → Z.of_nat (length answers) ≤ 8388607 →
  ∃ st, server_main listen_fd answers = Some st ∧ wf st.
Proof.
  intros Hall Hlen. unfold server_main.
  destruct (server_loop_robust answers init init_wf Hall) as (st & -> & Hwf);
    [unfold counts_ok; simpl; lia|].
  eexists. split; [done|]. by apply server_cleanup_wf.
Qed.

(** ** Descriptors

    What an operation for the client of slot [i] does to the descriptors: it
    leaves them all in their slots and makes at most one [send], on the
    client's own, or it closes that one and empties its slot. *)
Definition touches_only (i : nat) (n : Z) (st st' : state) : Prop :=
  (fd <$> clients st' = fd <$> clients st ∧
   (trace st' = trace st ∨ ∃ data sent, trace st' = trace st ++ [EvSend n data sent])) ∨
  (fd <$> clients st' = <[i := -1]> (fd <$> clients st) ∧ trace st' = trace st ++ [EvClose n]).

Lemma touches_none i n st : touches_only i n st st.
Proof. left. by split; [|left]. Qed.

Lemma respond_touches i n data st0 st st' :
  (fd <$> clients st0) !! i = Some n → fd <$> clients st = fd <$> clients st0 → trace st = trace st0 →
  respond i data st = Some st' → touches_only i n st0 st'.
Proof.
  intros Hi Hfds Ht Hrun. unfold respond, send_response in Hrun.
  destruct (clients st !! i) as [c|] eqn:Hc; [|done]. cbn [mbind option_bind] in Hrun.
  rewrite <-Hfds, list_lookup_fmap, Hc in Hi. injection Hi as <-.
  left. repeat case_match; injection Hrun as <-; (split; [done|]); right; eexists _, _; cbn [trace log]; by rewrite Ht.
Qed.

Lemma remove_client_touches i n st st' :
  (fd <$> clients st) !! i = Some n → remove_client (Some i) st = Some st' → touches_only i n st st'.
Proof.
  intros Hi Hrun. unfold remove_client in Hrun. apply bind_Some in Hrun as (c & Hc & Hrun).
  rewrite list_lookup_fmap, Hc in Hi. injection Hi as <-.
  case_match; [injection Hrun as <-; apply touches_none|].
  apply bind_Some in Hrun as ([fs k] & _ & Hrun). apply bind_Some in Hrun as (m & _ & [= <-]).
  right. split; [|done]. cbn. by rewrite list_fmap_insert.
Qed.

Lemma process_touches malloc_ok i n data st st' :
  (fd <$> clients st) !! i = Some n → process_client_message malloc_ok i data st = Some st' →
  touches_only i n st st'.
Proof.
  intros Hi Hrun. pose proof (touches_none i n st) as Hsame. unfold process_client_message in Hrun.
  case_match; [by injection Hrun as <-|]. apply bind_Some in Hrun as (hdr & _ & Hrun).
  case_match; [by injection Hrun as <-|].
  case_match; [|case_match; [|case_match; [|case_match; [|case_match]]]].
  - case_match; [|by injection Hrun as <-]. apply bind_Some in Hrun as (reg & _ & Hrun).
    apply bind_Some in Hrun as (c & Hc & Hrun). apply bind_Some in Hrun as (k & _ & Hrun).
    refine (respond_touches i n _ st _ _ Hi _ _ Hrun); [|done]. cbn.
    rewrite list_fmap_insert. cbn. apply list_insert_id. by rewrite list_lookup_fmap, Hc.
  - case_match; [|by injection Hrun as <-]. apply bind_Some in Hrun as (share & _ & Hrun).
    apply bind_Some in Hrun as (c & Hc & Hrun). case_match; [by eapply respond_touches|].
    apply bind_Some in Hrun as (h & _ & Hrun). apply bind_Some in Hrun as (nm & _ & Hrun).
    case_match; [|done]. by refine (respond_touches i n _ st _ _ Hi _ _ Hrun).
  - apply bind_Some in Hrun as (c & Hc & Hrun). case_match; [by injection Hrun as <-|].
    apply bind_Some in Hrun as (infos & _ & Hrun). by eapply respond_touches.
  - case_match; [|by injection Hrun as <-]. apply bind_Some in Hrun as (req & _ & Hrun).
    apply bind_Some in Hrun as (file & _ & Hrun). case_match; [|by eapply respond_touches].
    apply bind_Some in Hrun as (g & _ & Hrun). apply bind_Some in Hrun as (o & _ & Hrun).
    case_match; [|by eapply respond_touches]. apply bind_Some in Hrun as (oc & _ & Hrun).
    apply bind_Some in Hrun as (h & _ & Hrun). apply bind_Some in Hrun as (nm & _ & Hrun).
    by eapply respond_touches.
  - by apply remove_client_touches.
  - by injection Hrun as <-.
Qed.

(** A turn of the loop over [poll_fds] touches the descriptor it is for. *)
Lemma serve_fd_touches ready recv malloc_ok n st st' :
  wf st → serve_fd ready recv malloc_ok n st = Some st' →
  st' = st ∨ ∃ i, (fd <$> clients st) !! i = Some n ∧ 0 < n ∧ touches_only i n st st'.
Proof.
  intros Hwf Hrun. unfold serve_fd in Hrun. case_match; [injection Hrun as <-; by left|].
  destruct (find_client_by_fd_cases n st Hwf) as [[Hf _]|(i & c & Hf & Hc & Hn & Hp)]; rewrite Hf in Hrun;
    cbn [mbind option_bind] in Hrun; [injection Hrun as <-; by left|].
  assert ((fd <$> clients st) !! i = Some n) as Hi by (rewrite list_lookup_fmap, Hc; by rewrite <-Hn).
  right. exists i. split; [done|]. split; [done|].
  destruct (recv n) as [[|b data]|]; [by apply remove_client_touches|by eapply process_touches|
    by apply remove_client_touches].
Qed.

(** [accept] takes a slot, or closes the new descriptor. *)
Lemma accept_touches accepted st st' :
  accept_new_client accepted st = Some st' →
  match accepted with
  | None => st' = st
  | Some (n, _) =>
      (fd <$> clients st' = fd <$> clients st ∧ trace st' = trace st ++ [EvClose n]) ∨
      (∃ i, fd <$> clients st' = <[i := n]> (fd <$> clients st) ∧ trace st' = trace st)
  end.
Proof.
  unfold accept_new_client. destruct accepted as [[n a]|]; [|by intros [= <-]].
  intros (slot & _ & Hrun)%bind_Some. destruct slot as [i|]; [|injection Hrun as <-; by left].
  apply bind_Some in Hrun as (c & _ & [= <-]). right. exists i. cbn. by rewrite list_fmap_insert.
Qed.

(** The way out closes what the tables hold, and the listening socket. *)
Lemma server_cleanup_trace listen_fd st :
  clients (server_cleanup listen_fd st) = clients st ∧
  trace (server_cleanup listen_fd st) = trace st ++ (EvClose <$> (poll_fds st ++ [listen_fd])).
Proof.
  unfold server_cleanup, poll_fds. cbn [clients log trace].
  assert (∀ cs st1, clients (foldl (λ st c, if 0 <? fd c then log (EvClose (fd c)) st else st) st1 cs) = clients st1 ∧
    trace (foldl (λ st c, if 0 <? fd c then log (EvClose (fd c)) st else st) st1 cs) =
      trace st1 ++ (EvClose <$> List.filter (λ n, 0 <? n) (fd <$> cs))) as Hloop.
  { induction cs as [|c cs IH]; intros st1; cbn; [by rewrite app_nil_r|].
    destruct (0 <? fd c); cbn; [|apply IH].
    destruct (IH (log (EvClose (fd c)) st1)) as [-> ->]. cbn. by rewrite <-app_assoc. }
  destruct (Hloop (clients st) st) as [-> ->]. split; [done|].
  by rewrite fmap_app, <-app_assoc.
Qed.

(** The server is robust against its clients: whatever bytes the clients
    send, however the connections and the calls fail, the event loop never
    leaves an array, never overflows an [int] and keeps its tables well
    formed (identifiers in range, names terminated, counts within the
    arrays), for up to 8388607 iterations of the loop. *)
Theorem server_robust listen_fd answers :
  Forall answer_ok answers → Z.of_nat (length answers) ≤ 8388607 →
  ∃ st, server_main listen_fd answers = Some st ∧ wf st.
Proof. apply server_main_wf. Qed.
End server.
End Server.
