(* ===== verification/Directory.v ===== *)
(** * The contract of the server, and that [server.c] implements it

    The abstract directory: the registered peers with the address and UDP
    port of each, and the list of the shared files with their owners.  The
    wire format of a request and of a reply is given in network byte order,
    without reference to the byte order of the host.  A client that follows
    the protocol registers once and only then shares, lists, requests and
    unregisters; for such clients [process_client_message] is the abstract
    step, and its reply is the encoding of the abstract reply. *)

From S2P Require Import Prelude Common Arrays Packed Protocol Server.
Import Server.

(** ** The abstract directory *)

Record dfile := {
  df_id : Z;
  df_size : Z;
  df_hash : list Z;
  df_name : list Z;   (** a string, without NUL *)
  df_owner : Z;
}.

Record directory := {
  d_next_client : Z;
  d_next_file : Z;
  d_peers : gmap Z (Z * Z);   (** client id to address and UDP port *)
  d_files : list dfile;       (** in the order they were shared *)
}.

Inductive request :=
  | Register (port : Z)
  | Share (size : Z) (h name : list Z)
  | ListFiles
  | RequestFile (id : Z)
  | Unregister.

Inductive reply :=
  | RegisterAck (id : Z)
  | ShareAck (id : Z)
  | FileList (fs : list dfile)
  | Location (f : dfile) (peer : Z * Z)
  | ErrorReply (code : Z).

Definition dir_init : directory :=
  {| d_next_client := 1; d_next_file := 1; d_peers := ∅; d_files := [] |}.

Definition dir_find (id : Z) (d : directory) : option dfile :=
  first_match (λ f, df_id f =? id) (d_files d).

(** A request of the client [me] with address [ip]; the reply, if any. *)
Definition dir_step (ip me : Z) (r : request) (d : directory) : directory * option reply :=
  match r with
  | Register port =>
      ({| d_next_client := d_next_client d + 1; d_next_file := d_next_file d;
          d_peers := <[d_next_client d := (ip, port)]> (d_peers d); d_files := d_files d |},
       Some (RegisterAck (d_next_client d)))
  | Share size h name =>
      if bool_decide (1024 ≤ length (d_files d))%nat then (d, Some (ErrorReply ERR_INVALID_MSG)) else
      ({| d_next_client := d_next_client d; d_next_file := d_next_file d + 1;
          d_peers := d_peers d;
          d_files := d_files d ++ [{| df_id := d_next_file d; df_size := size; df_hash := h;
                                      df_name := take 255 name; df_owner := me |}] |},
       Some (ShareAck (d_next_file d)))
  | ListFiles => (d, Some (FileList (d_files d)))
  | RequestFile id =>
      (d, Some (match dir_find id d with
                | None => ErrorReply ERR_FILE_NOT_FOUND
                | Some f => match d_peers d !! df_owner f with
                            | None => ErrorReply ERR_NO_PEERS
                            | Some p => Location f p
                            end
                end))
  | Unregister =>
      ({| d_next_client := d_next_client d; d_next_file := d_next_file d;
          d_peers := delete me (d_peers d);
          d_files := List.filter (λ f, negb (df_owner f =? me)) (d_files d) |}, None)
  end.

(** ** The wire format *)

Definition be16 (x : Z) : list Z := store BigEndian 2 x.
Definition be32 (x : Z) : list Z := store BigEndian 4 x.

(** [msg_type], [error_code] and the length of the payload.  The length is a
    16-bit field filled through [htons], so a payload of 65536 bytes or more is
    announced modulo 65536 and not with the length [protocol.h] promises.  Only
    a list of more than 220 files is that long: [list_length_field_wraps] of
    [ServerLimits] says what happens there, and the client's theorems are about
    lists below that. *)
Definition frame (msg_type error_code : Z) (payload : list Z) : list Z :=
  [msg_type; error_code] ++ be16 (u16 (Z.of_nat (length payload))) ++ payload.

Definition wire_request (r : request) : list Z :=
  match r with
  | Register port => frame TCP_REGISTER ERR_NONE (be16 port)
  | Share size h name =>
      frame TCP_SHARE_FILE ERR_NONE (be32 size ++ h ++ name_field name)
  | ListFiles => frame TCP_LIST_FILES ERR_NONE []
  | RequestFile id => frame TCP_REQUEST_FILE ERR_NONE (be32 id)
  | Unregister => frame TCP_UNREGISTER ERR_NONE []
  end.

Section wire.
Context `{Host}.

(** An address is kept as the system gives it, already in network order. *)
Definition wire_ip (ip : Z) : list Z := store host_endian 4 ip.

Definition wire_file (f : dfile) : list Z :=
  be32 (df_id f) ++ be32 (df_size f) ++ df_hash f ++ [1] ++ name_field (df_name f).

Definition wire_reply (r : reply) : list Z :=
  match r with
  | RegisterAck id => frame TCP_REGISTER_ACK ERR_NONE (be32 id)
  | ShareAck id => frame TCP_SHARE_ACK ERR_NONE (be32 id)
  | FileList fs => frame TCP_FILE_LIST ERR_NONE (concat (wire_file <$> fs))
  | Location f (ip, port) =>
      frame TCP_FILE_LOCATION ERR_NONE
        (be32 (df_id f) ++ be32 (df_size f) ++ df_hash f ++ wire_ip ip ++ be16 port ++
         name_field (df_name f))
  | ErrorReply code => frame TCP_ERROR code []
  end.
End wire.

(** What a client may put in a request. *)
Definition request_ok (r : request) : Prop :=
  match r with
  | Register port => in_width 16 port
  | Share size h name => in_width 32 size ∧ length h = 32%nat ∧ Forall is_byte h ∧
      (length name ≤ 255)%nat ∧ Forall (λ c, is_byte c ∧ c ≠ 0) name
  | RequestFile id => in_width 32 id
  | _ => True
  end.

(** ** The replies of the server are the wire format *)

Section encoding.
Context `{Host}.

Lemma length_be16 x : length (be16 x) = 2%nat.
Proof. by apply (length_store BigEndian 2). Qed.

Lemma length_be32 x : length (be32 x) = 4%nat.
Proof. by apply (length_store BigEndian 4). Qed.

Lemma header_bytes t c n :
  is_byte t → is_byte c →
  to_bytes {| th_msg_type := t; th_error_code := c; th_data_len := htons n |} = [t; c] ++ be16 n.
Proof.
  intros Ht Hc. unfold to_bytes. simpl. rewrite !store_1 by done.
  unfold htons, be16. by rewrite store_hton.
Qed.

Lemma header_bytes_0 t c :
  is_byte t → is_byte c →
  to_bytes {| th_msg_type := t; th_error_code := c; th_data_len := 0 |} = [t; c] ++ be16 0.
Proof. intros Ht Hc. by rewrite <-header_bytes, htons_0 by done. Qed.

Lemma frame_header t c payload :
  is_byte t → is_byte c →
  frame t c payload =
    to_bytes {| th_msg_type := t; th_error_code := c;
                th_data_len := htons (u16 (Z.of_nat (length payload))) |} ++ payload.
Proof. intros Ht Hc. rewrite header_bytes by done. unfold frame. by rewrite <-app_assoc. Qed.

Lemma field4_bytes x : l_enc (l_uint 4) (htonl x) = be32 x.
Proof. apply (store_hton 4). lia. Qed.

Lemma register_reply_wire id : register_reply id = wire_reply (RegisterAck id).
Proof.
  unfold register_reply, wire_reply. rewrite frame_header by done. rewrite length_be32.
  change (to_bytes {| rack_client_id := htonl id |}) with (l_enc (l_uint 4) (htonl id)).
  by rewrite field4_bytes.
Qed.

Lemma share_reply_wire id : share_reply id = wire_reply (ShareAck id).
Proof.
  unfold share_reply, wire_reply. rewrite frame_header by done. rewrite length_be32.
  change (to_bytes {| sack_file_id := htonl id |}) with (l_enc (l_uint 4) (htonl id)).
  by rewrite field4_bytes.
Qed.

Lemma error_response_wire code : is_byte code → error_response code = wire_reply (ErrorReply code).
Proof. intros Hc. unfold error_response, wire_reply, frame. by rewrite header_bytes_0. Qed.

(** The abstract file of an entry of the table. *)
Definition dfile_of (f : shared_file_t) : dfile := {|
  df_id := file_id f; df_size := file_size f; df_hash := hash f;
  df_name := until_nul (filename f); df_owner := owner_id f |}.

Definition peer_of (c : client_t) : Z * Z := (sin_addr (addr c), udp_port c).

Lemma name_ok_copy src :
  name_ok src → copy_name src = Some (name_field (until_nul src)).
Proof.
  intros (Hl & _ & [s Hs]). rewrite copy_name_field by lia. rewrite (cstring_until_nul _ _ Hs).
  apply cstring_length in Hs. by rewrite take_ge by lia.
Qed.

Lemma location_reply_wire f o name :
  file_wf f → copy_name (filename f) = Some name →
  location_reply f o name = wire_reply (Location (dfile_of f) (peer_of o)).
Proof.
  intros (_ & _ & _ & Hh & _ & Hn) Hname. rewrite name_ok_copy in Hname by done. simplify_eq.
  unfold location_reply, wire_reply, peer_of. rewrite frame_header by done.
  assert (length (name_field (until_nul (filename f))) = 256%nat) as Hl.
  { destruct Hn as (Hl & _ & [s Hs]). unfold name_field. rewrite (cstring_until_nul _ _ Hs).
    apply cstring_length in Hs. rewrite length_app, length_replicate. lia. }
  cbn [df_id df_size df_hash df_name dfile_of].
  rewrite !length_app, !length_be32, length_be16, Hl. unfold wire_ip.
  rewrite length_store, Hh by done.
  f_equal. unfold to_bytes. cbn [packed_layout tcp_file_location_packed l_iso l_pair l_enc
    loc_file_id loc_file_size loc_hash loc_peer_ip loc_peer_port loc_filename].
  rewrite !field4_bytes. do 4 f_equal. unfold htons. f_equal. by apply (store_hton 2).
Qed.

Lemma file_info_wire f info :
  file_wf f → file_info f = Some info → to_bytes info = wire_file (dfile_of f).
Proof.
  intros Hwf Hi. destruct (file_info_total f Hwf) as (name & Hname & _ & _ & Hi').
  rewrite Hi in Hi'. simplify_eq. rewrite name_ok_copy in Hname by apply Hwf. simplify_eq.
  unfold to_bytes, wire_file. cbn [packed_layout file_info_packed l_iso l_pair l_enc
    fi_file_id fi_file_size fi_hash fi_num_peers fi_filename].
  rewrite !field4_bytes. do 3 f_equal. f_equal. by apply store_1.
Qed.

Lemma file_infos_wire fs infos :
  Forall file_wf fs → Forall2 (λ f info, file_info f = Some info) fs infos →
  concat (to_bytes <$> infos) = concat (wire_file <$> (dfile_of <$> fs)).
Proof.
  intros Hwf Hall. induction Hall as [|f info fs infos Hi _ IH]; [done|].
  inversion_clear Hwf. rewrite !fmap_cons. cbn [concat]. rewrite IH by done.
  by rewrite (file_info_wire f info).
Qed.

Lemma length_wire_file f : file_wf f → length (wire_file (dfile_of f)) = 297%nat.
Proof.
  intros (_ & _ & _ & Hh & _ & Hl & _ & [s Hs]). unfold wire_file, name_field. simpl.
  rewrite !length_app, !length_be32. simpl. rewrite length_app, length_replicate.
  rewrite (cstring_until_nul _ _ Hs). apply cstring_length in Hs. lia.
Qed.

Lemma length_wire_files fs :
  Forall file_wf fs → length (concat (wire_file <$> (dfile_of <$> fs))) = (297 * length fs)%nat.
Proof.
  induction 1 as [|f fs Hf _ IH]; [done|]. rewrite !fmap_cons. cbn [concat length].
  rewrite length_app, length_wire_file, IH by done. lia.
Qed.

Lemma list_reply_wire st infos :
  wf st → Forall2 (λ f info, file_info f = Some info) (live st) infos →
  list_reply (num_files st) infos = wire_reply (FileList (dfile_of <$> live st)).
Proof.
  intros Hwf Hall. unfold list_reply, wire_reply. rewrite frame_header by done.
  rewrite length_wire_files, length_live by (done || by destruct Hwf).
  rewrite (file_infos_wire (live st)) by (done || by destruct Hwf).
  do 4 f_equal. f_equal. change (sizeof file_info_t) with 297. lia.
Qed.
End encoding.

(** ** Refinement *)

(** The clients in use have distinct identifiers, all below the counter, and
    they are the peers of the directory; the files are those of the table. *)
Record dir_rel (st : state) (d : directory) : Prop := {
  rel_next_client : d_next_client d = next_client_id st;
  rel_next_file : d_next_file d = next_file_id st;
  rel_files : d_files d = dfile_of <$> live st;
  rel_peers id p : d_peers d !! id = Some p ↔
    ∃ i c, clients st !! i = Some c ∧ active c = true ∧ client_id c = id ∧ peer_of c = p;
  rel_unique i j ci cj :
    clients st !! i = Some ci → clients st !! j = Some cj →
    active ci = true → active cj = true → client_id ci = client_id cj → i = j;
  rel_fresh i c : clients st !! i = Some c → active c = true → client_id c < next_client_id st;
}.

Lemma dir_rel_init : dir_rel init dir_init.
Proof.
  assert (∀ i c, clients init !! i = Some c → active c = true → False) as Hno.
  { intros i c Hc Ha. apply lookup_replicate in Hc as [-> _]. done. }
  split; try done; intros; try (exfalso; by eapply Hno).
  split; [done|]. intros (i & c & Hc & Ha & _). exfalso. by eapply Hno.
Qed.

(** The relation does not look at the trace or at [num_clients]. *)
Lemma dir_rel_log e st d : dir_rel (log e st) d ↔ dir_rel st d.
Proof. split; intros []; by split. Qed.

(** Overwriting an unregistered slot with an unregistered client. *)
Lemma dir_rel_set_inactive st d i c c' :
  dir_rel st d → clients st !! i = Some c → active c = false → active c' = false →
  dir_rel (set_clients (<[i := c']> (clients st)) st) d.
Proof.
  intros [Hnc Hnf Hf Hp Hu Hfr] Hc Ha Ha'.
  assert (∀ j cj, <[i := c']> (clients st) !! j = Some cj → active cj = true →
    clients st !! j = Some cj) as Hold.
  { intros j cj Hj Hact. destruct (decide (i = j)) as [<-|]; [|by rewrite list_lookup_insert_ne in Hj].
    rewrite list_lookup_insert_eq in Hj by (by eapply lookup_lt_Some). congruence. }
  split; simpl; try done.
  - intros id p. rewrite Hp. split; intros (j & cj & Hj & Hact & Hrest).
    + exists j, cj. split; [|done]. rewrite list_lookup_insert_ne; [done|congruence].
    + exists j, cj. eauto.
  - intros. eapply Hu; eauto.
  - intros. eapply Hfr; eauto.
Qed.

Lemma peers_client_of st d id :
  dir_rel st d → d_peers d !! id = peer_of <$> client_of id st.
Proof.
  intros Hrel. unfold client_of.
  destruct (first_match _ (clients st)) as [c|] eqn:Hm; simpl.
  - apply first_match_Some in Hm as (i & Hc & [Ha Hid]%andb_prop).
    apply (rel_peers _ _ Hrel). exists i, c. split_and!; try done. lia.
  - destruct (d_peers d !! id) as [p|] eqn:Hp; [|done].
    apply (rel_peers _ _ Hrel) in Hp as (i & c & Hc & Ha & Hid & _).
    pose proof (proj1 (first_match_None _ _) Hm i c Hc) as Hf. simpl in Hf. rewrite Ha in Hf. simpl in Hf. lia.
Qed.

Lemma first_match_fmap {A B} (g : A → B) (p : B → bool) (l : list A) :
  first_match p (g <$> l) = g <$> first_match (λ x, p (g x)) l.
Proof. induction l as [|x l IH]; simpl; [done|]. by destruct (p (g x)). Qed.

Lemma dir_find_file_of st d id : dir_rel st d → dir_find id d = dfile_of <$> file_of id st.
Proof. intros Hrel. unfold dir_find. rewrite (rel_files _ _ Hrel). apply first_match_fmap. Qed.

Section refinement.
Context `{Host} (os_send : list event → Z → list Z → Z).

(** The event a reply causes on the descriptor [n]. *)
Definition reply_event (tr : list event) (n : Z) (r : option reply) : event :=
  match r with
  | Some r => EvSend n (wire_reply r) (os_send tr n (wire_reply r))
  | None => EvClose n
  end.

(** Distinct slots hold distinct descriptors. *)
Definition fds_unique (st : state) : Prop :=
  ∀ i j ci cj, clients st !! i = Some ci → clients st !! j = Some cj →
    0 < fd ci → fd ci = fd cj → i = j.

(** The system never returns a descriptor that is in use. *)
Definition fresh_fd (n : Z) (st : state) : Prop :=
  ∀ i c, clients st !! i = Some c → 0 < fd c → fd c ≠ n.

Lemma fds_unique_update st cs i c c' :
  fds_unique st → clients st !! i = Some c → cs = <[i := c']> (clients st) →
  (fd c' = fd c ∨ fd c' ≤ 0 ∨ fresh_fd (fd c') st) →
  ∀ st', clients st' = cs → fds_unique st'.
Proof.
  intros Hu Hc -> Hfd st' Hcs j k cj ck. rewrite Hcs. pose proof (lookup_lt_Some _ _ _ Hc) as Hi.
  destruct (decide (i = j)) as [<-|Hij], (decide (i = k)) as [<-|Hik];
    rewrite ?list_lookup_insert_eq, ?list_lookup_insert_ne by done;
    intros Hj Hk Hp He; simplify_eq; try done.
  - destruct Hfd as [Hf|[Hf|Hf]]; [|lia|].
    + exfalso. apply Hik. eapply (Hu i k); [done..|lia|lia].
    + by destruct (Hf k ck Hk); [lia|].
  - destruct Hfd as [Hf|[Hf|Hf]]; [|lia|].
    + exfalso. apply Hij. symmetry. eapply (Hu j i); [done..|lia].
    + by destruct (Hf j cj Hj).
  - by eapply Hu.
Qed.

(** [implements c st d r res]: the result [res] of an operation on the
    client [c] is the abstract step for the request [r]. *)
Definition implements (c : client_t) (st : state) (d : directory) (r : request)
    (res : option state) : Prop :=
  let '(d', rep) := dir_step (sin_addr (addr c)) (client_id c) r d in
  ∃ st', res = Some st' ∧ wf st' ∧ dir_rel st' d' ∧
    trace st' = trace st ++ [reply_event (trace st) (fd c) rep] ∧
    (fds_unique st → fds_unique st').

Lemma sent_to_trace i c data st :
  clients st !! i = Some c →
  sent_to os_send i data st = log (EvSend (fd c) data (os_send (trace st) (fd c) data)) st.
Proof. intros Hc. unfold sent_to. by rewrite Hc. Qed.

Lemma sent_to_implements i c st d r :
  wf st → dir_rel st d → clients st !! i = Some c →
  wf (sent_to os_send i (wire_reply r) st) ∧ dir_rel (sent_to os_send i (wire_reply r) st) d ∧
  trace (sent_to os_send i (wire_reply r) st) = trace st ++ [reply_event (trace st) (fd c) (Some r)] ∧
  (fds_unique st → fds_unique (sent_to os_send i (wire_reply r) st)).
Proof.
  intros Hwf Hrel Hc. rewrite (sent_to_trace _ c) by done.
  split_and!; [by apply log_wf|by apply dir_rel_log|done|done].
Qed.

Lemma registered_rel i c port st d :
  wf st → dir_rel st d → clients st !! i = Some c → active c = false →
  next_client_id st + 1 < 4294967296 →
  dir_rel (registered i c port st) (dir_step (sin_addr (addr c)) (client_id c) (Register port) d).1.
Proof.
  intros Hwf [Hnc Hnf Hf Hp Hu Hfr] Hc Ha Hlt. pose proof (wf_next_client _ Hwf) as Hw.
  unfold in_width in Hw. pose proof (lookup_lt_Some _ _ _ Hc) as Hi.
  assert (∀ j cj, clients (registered i c port st) !! j = Some cj → active cj = true →
    (j = i ∧ client_id cj = next_client_id st ∧ peer_of cj = (sin_addr (addr c), port)) ∨
    (j ≠ i ∧ clients st !! j = Some cj ∧ client_id cj < next_client_id st)) as Hold.
  { simpl. intros j cj Hj Hact. destruct (decide (i = j)) as [<-|].
    - rewrite list_lookup_insert_eq in Hj by done. simplify_eq. by left.
    - rewrite list_lookup_insert_ne in Hj by done. right. split_and!; [done..|by eapply Hfr]. }
  split; try done.
  - simpl. rewrite Hnc. by usmall.
  - intros id p. cbn [dir_step fst d_peers]. rewrite Hnc. destruct (decide (next_client_id st = id)) as [<-|Hne].
    + rewrite lookup_insert_eq. split.
      * intros [= <-]. eexists i, _. split; [simpl; by apply list_lookup_insert_eq|]. done.
      * intros (j & cj & Hj & Hact & Hid & <-).
        destruct (Hold j cj Hj Hact) as [(_ & _ & ->)|(_ & _ & ?)]; [done|lia].
    + rewrite lookup_insert_ne by done. rewrite Hp. split; intros (j & cj & Hj & Hact & Hid & Hpe).
      * exists j, cj. split_and!; try done. simpl. rewrite list_lookup_insert_ne; [done|congruence].
      * destruct (Hold j cj Hj Hact) as [(_ & ? & _)|(_ & ? & _)]; [congruence|by exists j, cj].
  - intros j k cj ck Hj Hk Haj Hak He.
    destruct (Hold j cj Hj Haj) as [(-> & ? & _)|(? & ? & ?)],
      (Hold k ck Hk Hak) as [(-> & ? & _)|(? & ? & ?)]; try done; try lia. by eapply Hu.
  - intros j cj Hj Haj. simpl. usmall. destruct (Hold j cj Hj Haj) as [(_ & ? & _)|(_ & _ & ?)]; lia.
Qed.

Lemma shared_rel f st d :
  wf st → dir_rel st d → (num_files st < MAX_FILES)%nat → next_file_id st + 1 < 4294967296 →
  dir_rel (shared f st)
    {| d_next_client := d_next_client d; d_next_file := d_next_file d + 1; d_peers := d_peers d;
       d_files := d_files d ++ [dfile_of f] |}.
Proof.
  intros Hwf [Hnc Hnf Hf Hp Hu Hfr] Hn Hlt. pose proof (wf_next_file _ Hwf) as Hw. unfold in_width in Hw.
  split; try done.
  - simpl. rewrite Hnf. by usmall.
  - rewrite live_shared by done. simpl. by rewrite Hf, fmap_app.
Qed.

Lemma removed_rel i c st st' d :
  dir_rel st d → clients st !! i = Some c → active c = true →
  clients st' = <[i := {| fd := -1; client_id := client_id c; addr := addr c;
                          udp_port := udp_port c; active := false |}]> (clients st) →
  live st' = List.filter (λ f, negb (owner_id f =? client_id c)) (live st) →
  next_client_id st' = next_client_id st → next_file_id st' = next_file_id st →
  dir_rel st' (dir_step (sin_addr (addr c)) (client_id c) Unregister d).1.
Proof.
  intros [Hnc Hnf Hf Hp Hu Hfr] Hc Ha Hcs Hl Hnc' Hnf'. pose proof (lookup_lt_Some _ _ _ Hc) as Hi.
  assert (∀ j cj, clients st' !! j = Some cj ∧ active cj = true ↔
    j ≠ i ∧ clients st !! j = Some cj ∧ active cj = true) as Hold.
  { intros j cj. rewrite Hcs. destruct (decide (i = j)) as [<-|].
    - rewrite list_lookup_insert_eq by done. naive_solver.
    - rewrite list_lookup_insert_ne by done. naive_solver. }
  split; simpl; try congruence.
  - rewrite Hl, Hf. generalize (live st). intros fs. induction fs as [|f fs IH]; [done|].
    rewrite fmap_cons. simpl. rewrite IH. by destruct (owner_id f =? client_id c).
  - intros id p. rewrite lookup_delete_Some, Hp. split.
    + intros (Hne & j & cj & Hj & Haj & Hid & Hpe).
      destruct (proj2 (Hold j cj)) as [Hj' _]; [split_and!; [congruence|done..]|]. by exists j, cj.
    + intros (j & cj & Hj & Haj & Hid & Hpe). destruct (proj1 (Hold j cj)) as (Hne & Hj' & _); [done|].
      split; [|by exists j, cj]. intros Heq. apply Hne. eapply Hu; [done..|congruence].
  - intros j k cj ck Hj Hk Haj Hak He.
    destruct (proj1 (Hold j cj)) as (_ & Hj' & _); [done|].
    destruct (proj1 (Hold k ck)) as (_ & Hk' & _); [done|]. by eapply Hu.
  - intros j cj Hj Haj. destruct (proj1 (Hold j cj)) as (_ & Hj' & _); [done|].
    rewrite Hnc'. by eapply Hfr.
Qed.

(** ** Messages on the wire *)

Lemma cast_header t c payload :
  is_byte t → is_byte c →
  cast tcp_header_t (frame t c payload) 0 =
    Some {| th_msg_type := t; th_error_code := c;
            th_data_len := htons (u16 (Z.of_nat (length payload))) |}.
Proof.
  intros Ht Hc. rewrite frame_header by done. apply cast_to_bytes_0.
  split; [done|]. split; [done|]. by apply (hton_range 2), uwrap_range.
Qed.

Lemma cast_payload {A} `{Packed A} t c payload :
  cast A (frame t c payload) (sizeof tcp_header_t) = cast A payload 0.
Proof.
  unfold cast, mread. change (sizeof tcp_header_t) with 4.
  assert (drop (Z.to_nat 4) (frame t c payload) = drop (Z.to_nat 0) payload) as ->.
  { unfold frame. rewrite app_assoc. apply drop_app_length'. rewrite length_app, length_be16. done. }
  assert (length (frame t c payload) = (4 + length payload)%nat) as ->
    by (unfold frame; rewrite !length_app, length_be16; simpl; lia).
  f_equal. unfold sizeof.
  case_bool_decide as E1; case_bool_decide as E2; try done; exfalso; lia.
Qed.

(** The dispatch of [process_client_message] on a well-formed frame. *)
Lemma process_frame malloc_ok i t c payload st :
  is_byte t → is_byte c → Z.of_nat (length payload) < 65536 →
  process_client_message os_send malloc_ok i (frame t c payload) st =
  let data_len := Z.of_nat (length payload) in
  if t =? TCP_REGISTER then
    if data_len =? sizeof tcp_register_t then
      reg ← cast tcp_register_t payload 0; handle_register os_send i reg st
    else Some st
  else if t =? TCP_SHARE_FILE then
    if data_len =? sizeof tcp_share_file_t then
      share ← cast tcp_share_file_t payload 0; handle_share_file os_send i share st
    else Some st
  else if t =? TCP_LIST_FILES then handle_list_files os_send malloc_ok i st
  else if t =? TCP_REQUEST_FILE then
    if data_len =? sizeof tcp_request_file_t then
      req ← cast tcp_request_file_t payload 0; handle_request_file os_send i req st
    else Some st
  else if t =? TCP_UNREGISTER then handle_unregister i st
  else Some st.
Proof.
  intros Ht Hc Hl. unfold process_client_message.
  assert (Z.of_nat (length (frame t c payload)) = 4 + Z.of_nat (length payload)) as ->
    by (unfold frame; rewrite !length_app, length_be16; simpl; lia).
  rewrite (proj2 (Z.ltb_ge _ _)) by (change (sizeof tcp_header_t) with 4; lia).
  rewrite cast_header by done. cbn [mbind option_bind th_data_len th_msg_type].
  rewrite ntohs_htons by (apply uwrap_range; lia). usmall.
  change (sizeof tcp_header_t) with 4 at 1. rewrite Z.eqb_refl. cbn [negb]. by rewrite !cast_payload.
Qed.

Lemma cast_be16 port : in_width 16 port →
  cast tcp_register_t (be16 port) 0 = Some {| reg_udp_port := htons port |}.
Proof.
  intros Hp. rewrite <-(app_nil_r (be16 port)).
  replace (be16 port) with (to_bytes {| reg_udp_port := htons port |}) by (by apply (store_hton 2)).
  apply cast_to_bytes_0. by apply (hton_range 2).
Qed.

Lemma cast_be32 id : in_width 32 id →
  cast tcp_request_file_t (be32 id) 0 = Some {| rq_file_id := htonl id |}.
Proof.
  intros Hp. rewrite <-(app_nil_r (be32 id)).
  replace (be32 id) with (to_bytes {| rq_file_id := htonl id |}) by (by apply (store_hton 4)).
  apply cast_to_bytes_0. by apply (hton_range 4).
Qed.

Lemma share_request_fits size h name :
  request_ok (Share size h name) →
  fits {| sf_file_size := htonl size; sf_hash := h; sf_filename := name_field name |} ∧
  until_nul (name_field name) = name ∧ length (name_field name) = 256%nat.
Proof.
  intros (Hs & Hl & Hb & Hnl & Hn).
  assert (length (name_field name) = 256%nat) as Hlen
    by (unfold name_field; rewrite length_app, length_replicate; lia).
  split; [|split; [|done]].
  - split; [by apply (hton_range 4)|]. split; [done|]. split; [done|].
    eauto using chars_bytes with bytes.
  - apply cstring_until_nul, cstring_name_field; [|done].
    by apply chars_nonzero.
Qed.

Lemma cast_share size h name :
  request_ok (Share size h name) →
  cast tcp_share_file_t (be32 size ++ h ++ name_field name) 0 =
    Some {| sf_file_size := htonl size; sf_hash := h; sf_filename := name_field name |}.
Proof.
  intros Hok. destruct (share_request_fits size h name Hok) as (Hfits & _ & _).
  rewrite <-(app_nil_r (be32 size ++ _)).
  replace (be32 size ++ h ++ name_field name) with
    (to_bytes {| sf_file_size := htonl size; sf_hash := h; sf_filename := name_field name |});
    [by apply cast_to_bytes_0|].
  unfold to_bytes. cbn [packed_layout tcp_share_file_packed l_iso l_pair l_enc
    sf_file_size sf_hash sf_filename]. by rewrite field4_bytes.
Qed.

(** A client that follows the protocol: it registers when it is not yet
    registered, and sends everything else after. *)
Definition in_protocol (c : client_t) (r : request) : Prop :=
  active c = match r with Register _ => false | _ => true end.

(** The identifier counters and the count of clients have room. *)
Definition room (st : state) : Prop :=
  next_client_id st + 1 < 4294967296 ∧ next_file_id st + 1 < 4294967296 ∧ counts_ok 1 st.

Section requests.
Context (st : state) (d : directory) (i : nat) (c : client_t).
Context (Hwf : wf st) (Hrel : dir_rel st d) (Hroom : room st) (Hc : clients st !! i = Some c).

Lemma slot_in_range : (i < length (clients st))%nat.
Proof. by eapply lookup_lt_Some. Qed.

Lemma register_refines port :
  in_width 16 port → active c = false →
  implements c st d (Register port) (handle_register os_send i {| reg_udp_port := htons port |} st).
Proof.
  intros Hp Ha. destruct Hroom as (Hrc & _ & Hn). unfold counts_ok in Hn.
  destruct (handle_register_spec os_send i c {| reg_udp_port := htons port |} st) as [Hrun Hwf'];
    [done..|by apply (hton_range 2)|lia|].
  cbn [reg_udp_port] in *. rewrite ntohs_htons in * by done.
  pose proof (registered_rel i c port st d Hwf Hrel Hc Ha Hrc) as Hrel'.
  eexists. split; [exact Hrun|]. rewrite register_reply_wire, <-(rel_next_client _ _ Hrel).
  destruct (sent_to_implements i {| fd := fd c; client_id := next_client_id st; addr := addr c;
    udp_port := port; active := true |} _ _ (RegisterAck (d_next_client d)) Hwf' Hrel')
    as (Hw & Hr & Ht & Hu); [simpl; apply list_lookup_insert_eq, slot_in_range|].
  split_and!; [done..|]. intros Hfds. apply Hu.
  eapply (fds_unique_update st _ i c); [done|done|reflexivity| |reflexivity]. by left.
Qed.

(** The entry [handle_share_file] writes, seen abstractly. *)
Lemma dfile_of_shared size h name :
  request_ok (Share size h name) →
  dfile_of {| file_id := next_file_id st; file_size := size; hash := h;
              filename := name_field (take 255 name); owner_id := client_id c |} =
  {| df_id := d_next_file d; df_size := size; df_hash := h; df_name := take 255 name;
     df_owner := client_id c |}.
Proof.
  intros (_ & _ & _ & _ & Hn). unfold dfile_of. simpl. rewrite (rel_next_file _ _ Hrel). f_equal.
  apply cstring_until_nul, cstring_name_field; [|rewrite length_take; lia].
  apply Forall_take. by apply chars_nonzero.
Qed.

Lemma share_refines size h name :
  request_ok (Share size h name) →
  implements c st d (Share size h name)
    (handle_share_file os_send i
       {| sf_file_size := htonl size; sf_hash := h; sf_filename := name_field name |} st).
Proof.
  intros Hok. destruct (share_request_fits _ _ _ Hok) as (Hfits & Hun & Hl).
  destruct Hroom as (_ & Hrf & _).
  destruct (handle_share_file_spec os_send i c _ st Hwf Hc Hfits) as (nm & Hnm & Hrun & Hfwf).
  unfold implements, dir_step. rewrite Hrun. clear Hrun. cbn [sf_file_size sf_hash sf_filename] in *.
  rewrite (rel_files _ _ Hrel), length_fmap, length_live, <-(rel_files _ _ Hrel) by done.
  change 1024%nat with MAX_FILES. case_bool_decide as Hfull.
  - eexists. split; [done|]. rewrite error_response_wire by done. by apply sent_to_implements.
  - rewrite copy_name_field in Hnm by (rewrite Hl; lia). rewrite Hun in Hnm. simplify_eq.
    rewrite ntohl_htonl in * by apply Hok. rewrite <-dfile_of_shared by done.
    eexists. split; [done|]. rewrite share_reply_wire.
    rewrite <-(rel_next_file _ _ Hrel) in *.
    refine (sent_to_implements i c (shared _ st) _ (ShareAck (d_next_file d)) _ _ _);
      [apply shared_wf; [done|lia|done]|apply shared_rel; [done..|lia|]|done].
    by rewrite <-(rel_next_file _ _ Hrel).
Qed.

Lemma list_refines : implements c st d ListFiles (handle_list_files os_send true i st).
Proof.
  destruct (handle_list_files_spec os_send i true st Hwf slot_in_range) as (infos & Hall & Hrun).
  eexists. split; [exact Hrun|]. rewrite list_reply_wire, <-(rel_files _ _ Hrel) by done.
  by apply sent_to_implements.
Qed.

Lemma request_refines id :
  in_width 32 id →
  implements c st d (RequestFile id) (handle_request_file os_send i {| rq_file_id := htonl id |} st).
Proof.
  intros Hid.
  pose proof (handle_request_file_spec os_send i {| rq_file_id := htonl id |} st Hwf slot_in_range) as Hspec.
  cbn [rq_file_id] in Hspec. rewrite ntohl_htonl in Hspec by done.
  unfold implements, dir_step. rewrite (dir_find_file_of st) by done.
  destruct (file_of id st) as [f|]; cbn [fmap option_fmap option_map].
  - destruct Hspec as [Hfwf Hspec]. cbn [df_owner dfile_of]. rewrite (peers_client_of st) by done.
    destruct (client_of (owner_id f) st) as [o|]; cbn [fmap option_fmap option_map].
    + destruct Hspec as (_ & nm & Hnm & ->). eexists. split; [done|].
      rewrite (location_reply_wire _ _ _ Hfwf Hnm). by apply sent_to_implements.
    + rewrite Hspec. eexists. split; [done|]. rewrite error_response_wire by done.
      by apply sent_to_implements.
  - rewrite Hspec. eexists. split; [done|]. rewrite error_response_wire by done.
    by apply sent_to_implements.
Qed.

(** Also what a closed or failed connection of a registered client does. *)
Lemma remove_refines :
  active c = true → implements c st d Unregister (remove_client (Some i) st).
Proof.
  intros Ha. destruct Hroom as (_ & _ & Hn). unfold counts_ok in Hn.
  destruct (remove_client_spec i c st) as (st' & Hrun & Hwf' & Hcs & Hl & Htr & Hnc & Hnf & _);
    [done..|lia|]. exists st'. split_and!; [exact Hrun|done| |exact Htr|].
  - by apply (removed_rel i c st st' d).
  - intros Hfds. eapply (fds_unique_update st _ i c); [done|done|exact Hcs| |reflexivity].
    right; left. simpl. lia.
Qed.

Lemma process_refines r :
  request_ok r → in_protocol c r →
  implements c st d r (process_client_message os_send true i (wire_request r) st).
Proof.
  unfold in_protocol. intros Hok Hpr. destruct r as [port|size h name| |id|]; unfold wire_request.
  - rewrite process_frame, length_be16, cast_be16 by (done || by rewrite length_be16).
    by apply register_refines.
  - destruct (share_request_fits _ _ _ Hok) as (_ & _ & Hl). pose proof Hok as (_ & Hh & _).
    assert (length (be32 size ++ h ++ name_field name) = 292%nat) as Hlen
      by (by rewrite !length_app, length_be32, Hl, Hh).
    rewrite process_frame, Hlen, cast_share by (done || by rewrite Hlen).
    by apply share_refines.
  - rewrite process_frame by done. by apply list_refines.
  - rewrite process_frame, length_be32, cast_be32 by (done || by rewrite length_be32).
    by apply request_refines.
  - rewrite process_frame by done. by apply remove_refines.
Qed.
End requests.

(** ** From [poll] to the reply *)

Lemma poll_fds_NoDup st : fds_unique st → NoDup (poll_fds st).
Proof.
  unfold fds_unique, poll_fds. generalize (clients st). intros cs.
  induction cs as [|c cs IH]; intros Hu; simpl; [constructor|].
  assert (NoDup (List.filter (λ n, 0 <? n) (fd <$> cs))) as IH'.
  { apply IH. intros i j ci cj Hi Hj Hp He.
    assert (S i = S j) by (by eapply (Hu (S i) (S j))). lia. }
  destruct (Z.ltb_spec 0 (fd c)); [|done]. constructor; [|done].
  intros [Hin _]%list_elem_of_In%filter_In. apply list_elem_of_In, list_elem_of_fmap in Hin as (c' & He & Hin).
  apply list_elem_of_lookup in Hin as [j Hj]. assert (0%nat = S j) by (by eapply (Hu 0%nat (S j))). lia.
Qed.

Lemma find_client_by_fd_unique i c st :
  wf st → fds_unique st → clients st !! i = Some c → 0 < fd c →
  find_client_by_fd (fd c) st = Some (Some i) ∧ fd c ∈ poll_fds st.
Proof.
  intros Hwf Hu Hc Hp. split.
  - destruct (find_client_by_fd_cases (fd c) st Hwf) as [[_ Hno]|(j & cj & -> & Hj & Hfd & _)].
    + by destruct (Hno i c Hc Hp).
    + do 2 f_equal. eapply (Hu j i cj c); [done|done|congruence|done].
  - apply list_elem_of_In, filter_In. split; [|lia]. apply list_elem_of_In, list_elem_of_fmap.
    exists c. split; [done|]. by eapply list_elem_of_lookup_2.
Qed.

(** The loop over [poll_fds] when a single descriptor is ready. *)
Lemma serve_one_ready n recv malloc_ok fds st :
  n ∈ fds → NoDup fds →
  foldl (λ acc m, st ← acc; serve_fd os_send (λ m, m =? n) recv malloc_ok m st) (Some st) fds
    = serve_fd os_send (λ m, m =? n) recv malloc_ok n st.
Proof.
  assert (∀ l r, n ∉ l →
    foldl (λ acc m, st ← acc; serve_fd os_send (λ m, m =? n) recv malloc_ok m st) r l = r) as Hskip.
  { induction l as [|m l IH]; intros r Hn; [done|]. apply not_elem_of_cons in Hn as [Hne Hn].
    simpl. rewrite IH by done. destruct r as [st'|]; [|done]. bind_step.
    unfold serve_fd. by rewrite (proj2 (Z.eqb_neq m n)) by done. }
  intros (l1 & l2 & ->)%list_elem_of_split (_ & Hn & Hl2)%NoDup_app.
  apply NoDup_cons in Hl2 as [Hn2 _].
  rewrite foldl_app, (Hskip l1) by (intros Hin; apply (Hn n Hin); by left).
  simpl. by rewrite Hskip.
Qed.

(** The iteration is the handling of the message. *)
Lemma iteration_process st i c r :
  wf st → fds_unique st → clients st !! i = Some c → 0 < fd c →
  server_iteration os_send
      (PollReady false None (λ n, n =? fd c) (λ _, Some (wire_request r)) (λ _, true)) st =
    (st' ← process_client_message os_send true i (wire_request r) st; Some (true, st')).
Proof.
  intros Hwf Hu Hc Hp. destruct (find_client_by_fd_unique i c st Hwf Hu Hc Hp) as [Hfind Hin].
  unfold server_iteration. bind_step.
  rewrite serve_one_ready by (done || by apply poll_fds_NoDup). unfold serve_fd.
  rewrite Z.eqb_refl. cbn [negb]. rewrite Hfind. bind_step.
  assert (∃ b l, wire_request r = b :: l) as (b & l & Hw) by (destruct r; by eexists _, _).
  by rewrite Hw.
Qed.

(** C4: [server.c] implements the directory.  In any state that represents a
    directory, an iteration of the event loop that receives on the socket of
    a client the wire format of a request the protocol allows it to make now
    performs the abstract step of that client (registration, sharing, listing,
    lookup, unregistration): the tables represent the new directory, and the
    only call on the socket is the wire format of the abstract reply, in
    network byte order on every host, or its closing after an unregistration. *)
Theorem server_refines_directory st d i c r :
  wf st → fds_unique st → dir_rel st d → room st →
  clients st !! i = Some c → 0 < fd c → request_ok r → in_protocol c r →
  ∃ st', server_iteration os_send
      (PollReady false None (λ n, n =? fd c) (λ _, Some (wire_request r)) (λ _, true)) st
    = Some (true, st') ∧
    implements c st d r (Some st').
Proof.
  intros Hwf Hu Hrel Hroom Hc Hp Hok Hpr.
  pose proof (process_refines st d i c Hwf Hrel Hroom Hc r Hok Hpr) as Himp.
  rewrite (iteration_process st i c r) by done. unfold implements in *.
  destruct (dir_step _ _ r d) as [d' rep].
  destruct Himp as (st' & -> & Hrest). exists st'. split; [done|]. by exists st'.
Qed.

(** ** Runs in which every client follows the protocol *)

Inductive honest : state → directory → Prop :=
  | honest_init : honest init dir_init
  | honest_accept st d n a st' :
      honest st d → fresh_fd n st → in_width 32 (sin_addr a) →
      accept_new_client (Some (n, a)) st = Some st' → honest st' d
  | honest_message st d i c r st' :
      honest st d → room st → clients st !! i = Some c → request_ok r → in_protocol c r →
      process_client_message os_send true i (wire_request r) st = Some st' →
      honest st' (dir_step (sin_addr (addr c)) (client_id c) r d).1
  | honest_disconnect st d i c st' :
      honest st d → room st → clients st !! i = Some c → active c = true →
      remove_client (Some i) st = Some st' →
      honest st' (dir_step (sin_addr (addr c)) (client_id c) Unregister d).1.

(** Every file has a registered owner and an identifier of its own. *)
Definition dir_inv (d : directory) : Prop :=
  (∀ f, f ∈ d_files d → is_Some (d_peers d !! df_owner f) ∧ df_id f < d_next_file d) ∧
  NoDup (df_id <$> d_files d).

Lemma NoDup_fmap_filter {A} (g : A → Z) (p : A → bool) (l : list A) :
  NoDup (g <$> l) → NoDup (g <$> List.filter p l).
Proof.
  induction l as [|x l IH]; simpl; [done|]. intros [Hx Hl]%NoDup_cons.
  destruct (p x); [|by apply IH]. rewrite fmap_cons. apply NoDup_cons. split; [|by apply IH].
  intros (y & He & [Hy _]%list_elem_of_In%filter_In)%list_elem_of_fmap.
  apply Hx, list_elem_of_fmap. exists y. split; [done|]. by apply list_elem_of_In.
Qed.

Lemma dir_step_inv ip me r d :
  dir_inv d → match r with Register _ => True | _ => is_Some (d_peers d !! me) end →
  dir_inv (dir_step ip me r d).1.
Proof.
  intros [Hown Hnd] Hme. destruct r as [port|size h name| |id|]; simpl; try done.
  - split; [|done]. intros f [Ho Hi]%Hown. split; [|done]. simpl.
    destruct (decide (d_next_client d = df_owner f)) as [->|];
      [rewrite lookup_insert_eq; by eexists|by rewrite lookup_insert_ne].
  - case_bool_decide; [done|]. split; simpl.
    + intros f [Hf| ->%list_elem_of_singleton]%elem_of_app; [|simpl; split; [done|lia]].
      apply Hown in Hf as [? ?]. split; [done|lia].
    + rewrite fmap_app. apply NoDup_app. split_and!; [done| |apply NoDup_singleton].
      intros x (f & -> & [_ Hlt]%Hown)%list_elem_of_fmap Hin%list_elem_of_singleton. simpl in Hin. lia.
  - split; simpl; [|by apply NoDup_fmap_filter].
    intros f [Hin Ho]%list_elem_of_In%filter_In. apply list_elem_of_In, Hown in Hin as [Hp Hlt].
    split; [|done]. rewrite lookup_delete_ne; [done|]. intros He. by rewrite He, Z.eqb_refl in Ho.
Qed.

Lemma in_protocol_peer st d i c :
  dir_rel st d → clients st !! i = Some c → active c = true → is_Some (d_peers d !! client_id c).
Proof.
  intros Hrel Hc Ha. exists (peer_of c). apply (rel_peers _ _ Hrel). by exists i, c.
Qed.


Lemma accept_refines st d n a st' :
  wf st → dir_rel st d → fds_unique st → fresh_fd n st → in_width 32 (sin_addr a) →
  accept_new_client (Some (n, a)) st = Some st' → wf st' ∧ dir_rel st' d ∧ fds_unique st'.
Proof.
  intros Hwf Hrel Hu Hfr Ha Hrun.
  destruct (accept_robust (Some (n, a)) st Hwf) as (st'' & Hrun' & Hwf' & _); [by intros ?? [= _ <-]|].
  rewrite Hrun in Hrun'. injection Hrun' as <-. split; [done|].
  unfold accept_new_client in Hrun.
  destruct (scan_cases (λ c, negb (active c)) (clients st) MAX_CLIENTS)
    as [[Hs _]|(k & c & Hs & Hk & Hc & Hact%negb_true_iff & _)];
    [by rewrite (wf_clients _ Hwf)| |]; rewrite Hs in Hrun; cbn [mbind option_bind] in Hrun.
  - injection Hrun as <-. split; [by apply dir_rel_log|done].
  - rewrite Hc in Hrun. cbn [mbind option_bind] in Hrun. injection Hrun as <-. split.
    + by apply (dir_rel_set_inactive st d k c).
    + eapply (fds_unique_update st _ k c); [done|done|reflexivity| |reflexivity]. right; right. done.
Qed.

Lemma honest_spec st d :
  honest st d → wf st ∧ dir_rel st d ∧ fds_unique st ∧ dir_inv d.
Proof.
  induction 1 as [|st d n a st' _ (Hwf & Hrel & Hu & Hinv) Hfr Ha Hrun
    |st d i c r st' _ (Hwf & Hrel & Hu & Hinv) Hroom Hc Hok Hpr Hrun
    |st d i c st' _ (Hwf & Hrel & Hu & Hinv) Hroom Hc Ha Hrun].
  - split_and!; [apply init_wf|apply dir_rel_init| |split; [intros f []%not_elem_of_nil|constructor]].
    intros i j ci cj Hi _ Hp. apply lookup_replicate in Hi as [-> _]. simpl in Hp. lia.
  - by destruct (accept_refines st d n a st') as (? & ? & ?).
  - pose proof (process_refines st d i c Hwf Hrel Hroom Hc r Hok Hpr) as Himp.
    unfold implements in Himp. rewrite Hrun in Himp.
    assert (dir_inv (dir_step (sin_addr (addr c)) (client_id c) r d).1) as Hinv'.
    { apply dir_step_inv; [done|]. destruct r; try done; by eapply in_protocol_peer. }
    destruct (dir_step _ _ r d) as [d' rep]. destruct Himp as (? & [= <-] & ? & ? & _ & ?). eauto.
  - pose proof (remove_refines st d i c Hwf Hrel Hroom Hc Ha) as Himp.
    unfold implements in Himp. rewrite Hrun in Himp.
    assert (dir_inv (dir_step (sin_addr (addr c)) (client_id c) Unregister d).1) as Hinv'.
    { apply dir_step_inv; [done|]. by eapply in_protocol_peer. }
    destruct (dir_step _ _ _ d) as [d' rep]. destruct Himp as (? & [= <-] & ? & ? & _ & ?). eauto.
Qed.

(** C12: the invariant of the directory.  In every run in which the clients
    follow the protocol (any number of connections, requests, disconnections,
    in any order), the server's tables represent the abstract directory of
    that run, the identifiers of the files are distinct, and the owner of
    every listed file is a registered client. *)
Theorem honest_run_invariant st d :
  honest st d →
  wf st ∧ dir_rel st d ∧ NoDup (file_id <$> live st) ∧
  ∀ f, f ∈ live st → ∃ i c, clients st !! i = Some c ∧ active c = true ∧ client_id c = owner_id f.
Proof.
  intros (Hwf & Hrel & _ & Hown & Hnd)%honest_spec. rewrite (rel_files _ _ Hrel) in *.
  split_and!; [done..| |].
  - by rewrite <-list_fmap_compose in Hnd.
  - intros f Hf. destruct (Hown (dfile_of f)) as [[p Hp] _]; [by apply list_elem_of_fmap_2|].
    apply (rel_peers _ _ Hrel) in Hp as (i & c & ? & ? & ? & _). by exists i, c.
Qed.

(** C13: in such a run every listed file can be fetched: the request of any
    registered client for its identifier is answered with a location message,
    never an error, that carries the size, hash and name that were shared and
    the address and UDP port of the client that shared it. *)
Theorem listed_file_has_location st d i c f :
  honest st d → room st → clients st !! i = Some c → active c = true → f ∈ live st →
  ∃ o j st', clients st !! j = Some o ∧ active o = true ∧ client_id o = owner_id f ∧
    process_client_message os_send true i (wire_request (RequestFile (file_id f))) st = Some st' ∧
    trace st' = trace st ++
      [reply_event (trace st) (fd c) (Some (Location (dfile_of f) (peer_of o)))].
Proof.
  intros (Hwf & Hrel & _ & Hown & Hnd)%honest_spec Hroom Hc Ha Hf.
  assert (dfile_of f ∈ d_files d) as Hin
    by (rewrite (rel_files _ _ Hrel); by apply list_elem_of_fmap_2).
  destruct (Hown _ Hin) as [[p Hp] _]. pose proof Hp as Hpeer. cbn [df_owner dfile_of] in Hpeer.
  apply (rel_peers _ _ Hrel) in Hpeer as (j & o & Ho & Hoa & Hid & <-).
  assert (in_width 32 (file_id f)) as Hfid
    by (eapply (Forall_forall file_wf (live st)); [apply (wf_file _ Hwf)|done]).
  pose proof (process_refines st d i c Hwf Hrel Hroom Hc (RequestFile (file_id f)) Hfid Ha) as Himp.
  assert (dir_find (file_id f) d = Some (dfile_of f)) as Hfind.
  { apply list_elem_of_lookup in Hin as [k Hk].
    apply (first_match_unique _ _ k); [done|apply Z.eqb_refl|]. intros k' g Hg Hgid%Z.eqb_eq.
    eapply (NoDup_lookup (df_id <$> d_files d)); [done|by rewrite list_lookup_fmap, Hg|].
    rewrite list_lookup_fmap, Hk. simpl. by rewrite Hgid. }
  unfold implements, dir_step in Himp. rewrite Hfind, Hp in Himp.
  destruct Himp as (st' & Hrun & _ & _ & Htr & _). by exists o, j, st'.
Qed.
End refinement.
