(* ===== verification/ServerLimits.v ===== *)
(** * Where the server departs from its contract

    Malformed messages are dropped; beyond that, this file proves what
    [server.c] does outside the protocol that [Directory] assumes: a list of
    more than 220 files, and connections that have not registered. *)

From S2P Require Import Prelude Common Arrays Packed Protocol Server Directory.
Import Server.

Section limits.
Context `{Host} (os_send : list event → Z → list Z → Z).

(** The payload length the sender of a frame announced. *)
Definition announced (data : list Z) : option Z :=
  (λ hdr : tcp_header_t, ntohs (th_data_len hdr)) <$> cast tcp_header_t data 0.



(** C40: the file list and its length field.  The reply to a listing carries
    297 bytes per shared file, in the order of the table, but its 16-bit
    length field is right exactly when there are at most 220 files; with more
    (the table has room for 1024) the client is told a shorter length. *)
Theorem list_length_field_wraps i c st :
  wf st → clients st !! i = Some c →
  ∃ reply, handle_list_files os_send true i st
      = Some (log (EvSend (fd c) reply (os_send (trace st) (fd c) reply)) st) ∧
    Z.of_nat (length reply) = 4 + 297 * Z.of_nat (num_files st) ∧
    announced reply = Some (u16 (297 * Z.of_nat (num_files st))) ∧
    (announced reply = Some (Z.of_nat (length reply) - 4) ↔ (num_files st ≤ 220)%nat).
Proof.
  intros Hwf Hc. pose proof (lookup_lt_Some _ _ _ Hc) as Hi.
  destruct (handle_list_files_spec os_send i true st Hwf Hi) as (infos & Hall & Hrun).
  rewrite list_reply_wire in Hrun by done.
  set (reply := wire_reply _) in *. exists reply.
  assert (Z.of_nat (length (concat (wire_file <$> (dfile_of <$> live st))))
    = 297 * Z.of_nat (num_files st)) as Hpl
    by (rewrite length_wire_files, length_live by (done || apply (wf_file _ Hwf)); lia).
  assert (Z.of_nat (length reply) = 4 + 297 * Z.of_nat (num_files st)) as Hl
    by (unfold reply, wire_reply, frame; rewrite !length_app, length_be16; simpl; lia).
  assert (announced reply = Some (u16 (297 * Z.of_nat (num_files st)))) as Ha.
  { unfold announced, reply, wire_reply. rewrite cast_header by done. simpl.
    rewrite ntohs_htons by (apply uwrap_range; lia). by rewrite Hpl. }
  split_and!; [by rewrite Hrun; unfold sent_to; rewrite Hc|done|done|].
  rewrite Ha, Hl. pose proof (wf_num_files _ Hwf) as Hn.
  replace (4 + 297 * Z.of_nat (num_files st) - 4) with (297 * Z.of_nat (num_files st)) by lia.
  pose proof (uwrap_range 16 (297 * Z.of_nat (num_files st))) as Hr. unfold in_width in Hr.
  split; [intros [= He]; lia|]. intros Hle. by rewrite u16_small by lia.
Qed.

(** A client that connects and closes before it registers is never
    cleaned up: [remove_client] returns at its first test, so the iteration
    that sees the end of its stream leaves the state, and with it the poll
    array, exactly as it was, and the descriptor stays open and ready. *)
Theorem unregistered_disconnect_ignored i c recv malloc_ok st :
  wf st → fds_unique st → clients st !! i = Some c → 0 < fd c → active c = false →
  recv (fd c) = Some [] →
  server_iteration os_send (PollReady false None (λ n, n =? fd c) recv malloc_ok) st = Some (true, st) ∧
  fd c ∈ poll_fds st.
Proof.
  intros Hwf Hu Hc Hp Ha Hrecv.
  destruct (find_client_by_fd_unique i c st Hwf Hu Hc Hp) as [Hfind Hin]. split; [|done].
  unfold server_iteration. bind_step.
  rewrite serve_one_ready by (done || by apply poll_fds_NoDup). unfold serve_fd.
  rewrite Z.eqb_refl. cbn [negb]. rewrite Hfind. bind_step. rewrite Hrecv.
  unfold remove_client. rewrite Hc. bind_step. by rewrite Ha.
Qed.

(** ** A descriptor the tables have forgotten *)

Definition event_fd (e : event) : Z := match e with EvSend n _ _ => n | EvClose n => n end.

(** From [st] to [st'] nothing was sent to or closed on [n], and no slot
    holds [n] afterwards. *)
Definition forgets (n : Z) (st st' : state) : Prop :=
  Forall (λ c, fd c ≠ n) (clients st') ∧
  ∃ es, trace st' = trace st ++ es ∧ Forall (λ e, event_fd e ≠ n) es.

#[local] Instance forgets_trans n : Transitive (forgets n).
Proof.
  intros st1 st2 st3 (_ & es1 & He1 & Hf1) (Hc & es2 & He2 & Hf2). split; [done|].
  exists (es1 ++ es2). rewrite He2, He1, app_assoc. split; [done|]. by apply Forall_app.
Qed.












(** [handle_register] does not ask whether the client has registered already:
    a second registration gives it a new identifier and counts it again, the
    files it shared keep the old one, and from then on no client has it, so
    they are listed but have no peer. *)
Theorem reregistration_orphans_files i c port st :
  wf st → clients st !! i = Some c → active c = true → in_width 16 port →
  num_clients st < 2147483647 → -2147483648 ≤ num_clients st →
  next_client_id st ≠ client_id c →
  (∀ j cj, clients st !! j = Some cj → active cj = true → client_id cj = client_id c → j = i) →
  ∃ st', process_client_message os_send true i (wire_request (Register port)) st = Some st' ∧
    num_clients st' = num_clients st + 1 ∧
    length (List.filter active (clients st')) = length (List.filter active (clients st)) ∧
    live st' = live st ∧ client_of (client_id c) st' = None.
Proof.
  intros Hwf Hc Ha Hport Hn Hn' Hne Hu.
  destruct (handle_register_spec os_send i c {| reg_udp_port := htons port |} st Hwf Hc) as [Hrun _];
    [by apply (hton_range 2)|lia|].
  eexists. split.
  { unfold wire_request. rewrite process_frame, length_be16, cast_be16 by (done || by rewrite length_be16).
    exact Hrun. }
  split; [done|]. split; [|split; [done|]].
  - cbn. set (c' := {| fd := fd c |}).
    assert (∀ cs k, cs !! k = Some c → length (List.filter active (<[k := c']> cs)) = length (List.filter active cs)) as Hcount.
    { induction cs as [|x cs IH]; intros [|k] Hk; simplify_eq/=; [by rewrite Ha|].
      destruct (active x); simpl; by rewrite (IH k Hk). }
    by apply Hcount.
  - apply first_match_None. intros j cj Hj. cbn in Hj. apply andb_false_iff.
    destruct (decide (i = j)) as [<-|Hij].
    + rewrite list_lookup_insert_eq in Hj by (by eapply lookup_lt_Some). injection Hj as <-.
      right. cbn. lia.
    + rewrite list_lookup_insert_ne in Hj by done. destruct (active cj) eqn:Haj; [right|by left].
      apply Z.eqb_neq. intros He. by apply Hij, eq_sym, (Hu j cj).
Qed.

(** [handle_share_file] does not ask whether the client has registered: a
    connected client that has not is given a file identifier, and from then on
    every request for that file is answered with [ERR_NO_PEERS] (no registered
    client having the stale identifier of the slot), and the end of the
    connection does not remove the file. *)
Theorem unregistered_share_is_orphan i c j size h name st :
  wf st → clients st !! i = Some c → active c = false → (j < MAX_CLIENTS)%nat →
  client_of (client_id c) st = None → file_of (next_file_id st) st = None →
  (num_files st < MAX_FILES)%nat → request_ok (Share size h name) →
  ∃ st1 st2, process_client_message os_send true i (wire_request (Share size h name)) st = Some st1 ∧
    num_files st1 = S (num_files st) ∧
    process_client_message os_send true j (wire_request (RequestFile (next_file_id st))) st1 = Some st2 ∧
    (∃ n sent, trace st2 = trace st1 ++ [EvSend n (wire_reply (ErrorReply ERR_NO_PEERS)) sent]) ∧
    remove_client (Some i) st1 = Some st1.
Proof.
  intros Hwf Hc Ha Hj Hnone Hfresh Hn Hok.
  destruct (share_request_fits _ _ _ Hok) as (Hfits & _ & Hl). pose proof Hok as (_ & Hh & _).
  assert (length (be32 size ++ h ++ name_field name) = 292%nat) as Hlen
    by (by rewrite !length_app, length_be32, Hl, Hh).
  destruct (handle_share_file_spec os_send i c _ st Hwf Hc Hfits) as (nm & Hnm & Hrun & Hfwf).
  rewrite bool_decide_eq_false_2 in Hrun by lia. cbn [sf_file_size sf_hash sf_filename] in *.
  set (f := {| file_id := next_file_id st |}) in *. set (st1 := sent_to _ _ _ _) in Hrun.
  assert (wf st1) as Hwf1 by (by apply log_wf, shared_wf).
  assert (file_of (next_file_id st) st1 = Some f) as Hf.
  { change (first_match (λ g, file_id g =? next_file_id st) (live (shared f st)) = Some f).
    rewrite live_shared, first_match_app by done. unfold file_of in Hfresh. rewrite Hfresh.
    simpl. by rewrite Z.eqb_refl. }
  assert (in_width 32 (next_file_id st)) as Hid by apply (wf_next_file _ Hwf).
  pose proof (handle_request_file_spec os_send j {| rq_file_id := htonl (next_file_id st) |} st1 Hwf1) as Hreq.
  cbn [rq_file_id] in Hreq. rewrite ntohl_htonl, Hf in Hreq by done.
  assert (client_of (owner_id f) st1 = None) as Hno by exact Hnone. rewrite Hno in Hreq.
  destruct Hreq as [_ Hreq]; [by rewrite (wf_clients _ Hwf1)|].
  exists st1. eexists. split_and!.
  - unfold wire_request. by rewrite process_frame, Hlen, cast_share by (done || by rewrite Hlen).
  - done.
  - unfold wire_request. rewrite process_frame, length_be32, cast_be32 by (done || by rewrite length_be32).
    exact Hreq.
  - rewrite error_response_wire by done. by eexists _, _.
  - unfold remove_client. change (clients st1) with (clients st). rewrite Hc. bind_step.
    by rewrite Ha.
Qed.
End limits.

(** ** A concrete server, for the witnesses *)

Module ServerExample.
#[local] Instance host : Host := LittleEndian.
Definition send_all (_ : list event) (_ : Z) (data : list Z) : Z := Z.of_nat (length data).
Definition local_addr : sockaddr_in := {| sin_addr := 16777343; sin_port := 9000 |}.

(** One connection, on descriptor 5, not registered, then registered. *)
Definition st0 : state := default init (accept_new_client (Some (5, local_addr)) init).
Definition c0 : client_t := {| fd := 5; client_id := 0; addr := local_addr; udp_port := 0; active := false |}.
Definition st1 : state :=
  default init (process_client_message send_all true 0 (wire_request (Register 7000)) st0).
Definition c1 : client_t := {| fd := 5; client_id := 1; addr := local_addr; udp_port := 7000; active := true |}.
Definition share : request := Share 6 (replicate 32 9) [97; 46; 98].
Definition st2 : state := default init (process_client_message send_all true 0 (wire_request share) st1).
Definition d1 : directory := (dir_step (sin_addr local_addr) 0 (Register 7000) dir_init).1.
Definition d2 : directory := (dir_step (sin_addr local_addr) 1 share d1).1.

Lemma share_ok : request_ok share.
Proof.
  split_and!; try done; [by apply Forall_replicate|simpl; lia|].
  apply (bool_decide_unpack _). by vm_compute.
Qed.

Lemma honest0 : honest send_all st0 dir_init.
Proof.
  eapply (honest_accept send_all init dir_init 5 local_addr); [constructor| |done|by vm_compute].
  intros i c Hc. by apply lookup_replicate in Hc as [-> _].
Qed.

Lemma honest1 : honest send_all st1 d1.
Proof.
  apply (honest_message send_all st0 dir_init 0 c0 (Register 7000) st1); try done; try by vm_compute. apply honest0.
Qed.

Lemma honest2 : honest send_all st2 d2.
Proof.
  apply (honest_message send_all st1 d1 0 c1 share st2); try done; try by vm_compute.
  - apply honest1.
  - apply share_ok.
Qed.

Lemma server_robust_witness :
  ∃ st, server_main send_all 3
    [PollReady true (Some (5, local_addr)) (λ _, false) (λ _, None) (λ _, true);
     PollReady false None (λ n, n =? 5) (λ _, Some [1; 0; 0; 2; 27; 88]) (λ _, true);
     PollError false] = Some st ∧ wf st.
Proof.
  apply (server_robust send_all 3).
  - constructor; [|constructor; [|by repeat constructor]]; (split; [|intros n data [= <-]]).
    + intros n a [= _ <-]. by vm_compute.
    + intros n a [=].
    + apply (bool_decide_unpack _). by vm_compute.
  - simpl. lia.
Defined.

Lemma server_refines_directory_witness :
  ∃ st', server_iteration send_all
      (PollReady false None (λ n, n =? 5) (λ _, Some (wire_request share)) (λ _, true)) st1
    = Some (true, st') ∧ implements send_all c1 st1 d1 share (Some st').
Proof.
  destruct (honest_spec send_all st1 d1 honest1) as (Hwf & Hrel & Hu & _).
  apply (server_refines_directory send_all st1 d1 0 c1 share Hwf Hu Hrel).
  - by vm_compute.
  - by vm_compute.
  - by vm_compute.
  - apply share_ok.
  - by vm_compute.
Defined.

Lemma honest_run_invariant_witness :
  dir_rel st2 d2 ∧ NoDup (file_id <$> live st2).
Proof.
  destruct (honest_run_invariant send_all st2 d2 honest2) as (_ & Hrel & Hnd & _).
  split; [exact Hrel|exact Hnd].
Defined.

Definition f0 : shared_file_t := {|
  file_id := 1; file_size := 6; hash := replicate 32 9; filename := name_field [97; 46; 98]; owner_id := 1 |}.

Lemma listed_file_has_location_witness :
  ∃ o j st', clients st2 !! j = Some o ∧ active o = true ∧ client_id o = owner_id f0 ∧
    process_client_message send_all true 0 (wire_request (RequestFile (file_id f0))) st2 = Some st' ∧
    trace st' = trace st2 ++
      [reply_event send_all (trace st2) (fd c1) (Some (Location (dfile_of f0) (peer_of o)))].
Proof.
  apply (listed_file_has_location send_all st2 d2 0 c1 f0 honest2).
  - by vm_compute.
  - by vm_compute.
  - by vm_compute.
  - apply (list_elem_of_lookup_2 _ 0). by vm_compute.
Defined.


Lemma list_length_field_wraps_witness :
  ∃ reply, handle_list_files send_all true 0 st2
      = Some (log (EvSend 5 reply (send_all (trace st2) 5 reply)) st2) ∧
    announced reply = Some 297.
Proof.
  destruct (honest_spec send_all st2 d2 honest2) as (Hwf & _).
  destruct (list_length_field_wraps send_all 0 c1 st2 Hwf) as (reply & Hrun & _ & Ha & _);
    [by vm_compute|].
  exists reply. split; [exact Hrun|exact Ha].
Defined.

Lemma unregistered_disconnect_ignored_witness :
  server_iteration send_all (PollReady false None (λ n, n =? 5) (λ _, Some []) (λ _, true)) st0
    = Some (true, st0).
Proof.
  destruct (honest_spec send_all st0 dir_init honest0) as (Hwf & _ & Hu & _).
  apply (unregistered_disconnect_ignored send_all 0 c0 (λ _, Some []) (λ _, true) st0 Hwf Hu);
    by vm_compute.
Defined.



Lemma unregistered_share_is_orphan_witness :
  ∃ s1, process_client_message send_all true 0 (wire_request share) st0 = Some s1 ∧
    remove_client (Some 0%nat) s1 = Some s1.
Proof.
  destruct (honest_spec send_all st0 dir_init honest0) as (Hwf & _).
  destruct (unregistered_share_is_orphan send_all 0 c0 1 6 (replicate 32 9) [97; 46; 98] st0 Hwf)
    as (s1 & s2 & H1 & _ & _ & _ & H5).
  - by vm_compute.
  - by vm_compute.
  - unfold MAX_CLIENTS. lia.
  - by vm_compute.
  - by vm_compute.
  - unfold MAX_FILES. simpl. lia.
  - apply share_ok.
  - exists s1. split; [exact H1|exact H5].
Defined.
End ServerExample.
