(* ===== verification/Command.v ===== *)
(** * The command line of the client: the parsing in [handle_command]

    A line is the string [fgets] stored, a list of characters without its
    NUL.  The library functions the code parses with ([strcspn], [isspace],
    [sscanf] with its one format, [strtoul] in base 10) are modelled as the C
    standard describes them. *)

From Stdlib Require Import Ascii String.
From S2P Require Import Prelude.

(** A string literal as the characters of a C string. *)
Fixpoint chars (s : string) : list Z :=
  match s with
  | EmptyString => []
  | String a s => Z.of_N (N_of_ascii a) :: chars s
  end.

Definition isspace (c : Z) : bool := (c =? 32) || ((9 <=? c) && (c <=? 13)).
Definition isdigit (c : Z) : bool := (48 <=? c) && (c <=? 57).

Fixpoint take_while (p : Z → bool) (s : list Z) : list Z :=
  match s with [] => [] | c :: s => if p c then c :: take_while p s else [] end.

Fixpoint drop_while (p : Z → bool) (s : list Z) : list Z :=
  match s with [] => [] | c :: s' => if p c then drop_while p s' else s end.

(** [line[strcspn(line, "\n")] = '\0']. *)
Definition cut_newline (line : list Z) : list Z := take_while (λ c, negb (c =? 10)) line.

(** [while ( *p && isspace( *p)) p++]. *)
Definition skip_space (s : list Z) : list Z := drop_while isspace s.

(** [sscanf(p, "%15s %511[^\n]", cmd, arg)]: the number of conversions and
    the two strings; without a second conversion [arg] stays empty. *)
Definition scan_line (p : list Z) : Z * list Z * list Z :=
  let p := skip_space p in
  let cmd := take 15 (take_while (λ c, negb (isspace c)) p) in
  match cmd with
  | [] => (-1, [], [])
  | _ =>
      let rest := skip_space (drop (List.length cmd) p) in
      let arg := take 511 (take_while (λ c, negb (c =? 10)) rest) in
      match arg with [] => (1, cmd, []) | _ => (2, cmd, arg) end
  end.

Definition ULONG_MAX : Z := 18446744073709551615.

(** The value of a string of decimal digits. *)
Definition dec_value (ds : list Z) : Z := foldl (λ v c, 10 * v + (c - 48)) 0 ds.

(** A sign and the digits after it, as [strtoul] and [strtol] read them. *)
Definition scan_sign (s : list Z) : bool * list Z :=
  match s with
  | 45 :: s' => (true, s')
  | 43 :: s' => (false, s')
  | _ => (false, s)
  end.

(** [atoi(s)], 0 when there is no number; undefined when the value does not
    fit an [int]. *)
Definition atoi (s : list Z) : option Z :=
  let '(neg, s) := scan_sign (skip_space s) in
  let v := dec_value (take_while isdigit s) in
  let v := if neg : bool then - v else v in
  if (-2147483648 <=? v) && (v <=? 2147483647) then Some v else None.

(** [strtoul(s, &end, 10)]: the value and the string at [end], or [None] when
    there is no number and [end == s]. *)
Definition strtoul (s : list Z) : option (Z * list Z) :=
  let '(neg, s) := scan_sign (skip_space s) in
  match take_while isdigit s with
  | [] => None
  | ds =>
      let v := dec_value ds in
      Some (if ULONG_MAX <? v then ULONG_MAX else if neg : bool then u64 (- v) else v,
            drop (List.length ds) s)
  end.

(** What [handle_command] does with a line, up to the calls it makes. *)
Inductive command :=
  | CmdNone            (** an empty line *)
  | CmdUsage           (** [share] or [get] without an argument *)
  | CmdShare (fname : list Z)
  | CmdList
  | CmdGet (file_id : Z)
  | CmdBadId
  | CmdQuit
  | CmdUnknown.

Definition parse_command (line : list Z) : command :=
  let p := skip_space (cut_newline line) in
  match p with
  | [] => CmdNone
  | _ =>
      let '(n, cmd, arg) := scan_line p in
      if bool_decide (cmd = chars "share") then
        if (n <? 2) || bool_decide (arg = []) then CmdUsage else
        let fname := skip_space arg in
        if bool_decide (fname = []) then CmdUsage else CmdShare fname
      else if (n =? 1) && bool_decide (cmd = chars "list") then CmdList
      else if bool_decide (cmd = chars "get") then
        if (n <? 2) || bool_decide (arg = []) then CmdUsage else
        match strtoul arg with
        | Some (val, []) => CmdGet (u32 val)
        | _ => CmdBadId
        end
      else if (n =? 1) && bool_decide (cmd = chars "quit") then CmdQuit
      else CmdUnknown
  end.

(** ** Properties *)

Lemma take_while_app p s1 s2 :
  Forall (λ c, p c = true) s1 → take_while p (s1 ++ s2) = s1 ++ take_while p s2.
Proof. induction 1 as [|c s1 Hc _ IH]; simpl; [done|]. by rewrite Hc, IH. Qed.

Lemma take_while_all p s : Forall (λ c, p c = true) s → take_while p s = s.
Proof. intros Hs. rewrite <-(app_nil_r s) at 1. by rewrite take_while_app, app_nil_r. Qed.

(** An argument that [sscanf] reads whole: no newline, not too long, and it
    does not start with a space. *)
Definition plain_arg (arg : list Z) : Prop :=
  Forall (λ c, c ≠ 10) arg ∧ (1 ≤ List.length arg ≤ 511)%nat ∧
  ∃ c, head arg = Some c ∧ isspace c = false.

Lemma plain_not_newline arg : plain_arg arg → Forall (λ c, negb (c =? 10) = true) arg.
Proof. intros (H & _). eapply Forall_impl; [exact H|]. intros c ?. by apply negb_true_iff, Z.eqb_neq. Qed.

Lemma plain_skip_space arg : plain_arg arg → skip_space arg = arg.
Proof.
  intros (_ & _ & c & Hh & Hc). destruct arg as [|x arg]; [done|].
  simpl in Hh. simplify_eq. unfold skip_space. simpl. by rewrite Hc.
Qed.

(** The two conversions on a command word, a space and an argument. *)
Lemma scan_line_arg cmd arg :
  Forall (λ c, negb (isspace c) = true) cmd → (1 ≤ List.length cmd ≤ 15)%nat → plain_arg arg →
  scan_line (cmd ++ 32 :: arg) = (2, cmd, arg).
Proof.
  intros Hcmd Hl Harg. unfold scan_line.
  assert (skip_space (cmd ++ 32 :: arg) = cmd ++ 32 :: arg) as ->.
  { destruct Hcmd as [|c cmd Hc _]; simpl in Hl; [lia|]. unfold skip_space. simpl.
    apply negb_true_iff in Hc. by rewrite Hc. }
  rewrite take_while_app by done. simpl. rewrite app_nil_r, take_ge by lia.
  rewrite drop_app_length. change (skip_space (32 :: arg)) with (skip_space arg).
  rewrite plain_skip_space, take_while_all, take_ge by (done || apply Harg || by apply plain_not_newline).
  destruct cmd; [simpl in Hl; lia|]. destruct arg; [|done]. by destruct Harg as (_ & [? _] & _); simpl in *; lia.
Qed.

Lemma parse_with_arg cmd arg :
  Forall (λ c, negb (isspace c) = true) cmd → (1 ≤ List.length cmd ≤ 15)%nat → plain_arg arg →
  Forall (λ c, negb (c =? 10) = true) cmd →
  ∃ c s, skip_space (cut_newline (cmd ++ 32 :: arg ++ [10])) = c :: s ∧
    scan_line (c :: s) = (2, cmd, arg).
Proof.
  intros Hcmd Hl Harg Hnl. destruct cmd as [|c cmd]; [simpl in Hl; lia|].
  exists c, (cmd ++ 32 :: arg). split; [|by apply (scan_line_arg (c :: cmd))].
  unfold cut_newline. rewrite take_while_app by done. simpl.
  rewrite take_while_app by (by apply plain_not_newline). simpl. rewrite app_nil_r.
  inversion_clear Hcmd as [|?? Hc _]. apply negb_true_iff in Hc. unfold skip_space. simpl. by rewrite Hc.
Qed.

(** Digits are neither a space nor a sign. *)
Lemma digits_scan ds :
  Forall (λ c, isdigit c = true) ds → skip_space ds = ds ∧ scan_sign ds = (false, ds).
Proof.
  intros [|c ds' Hc _]; [done|]. unfold isdigit in Hc. unfold skip_space, scan_sign. simpl.
  assert (isspace c = false) as -> by (unfold isspace; lia). split; [done|].
  repeat (case_match; try done); lia.
Qed.

Lemma strtoul_digits ds :
  Forall (λ c, isdigit c = true) ds → ds ≠ [] →
  strtoul ds = Some (Z.min (dec_value ds) ULONG_MAX, []).
Proof.
  intros Hds Hne. unfold strtoul. destruct (digits_scan ds Hds) as [-> ->].
  rewrite take_while_all by done. destruct ds as [|c ds]; [done|].
  rewrite drop_ge by lia. do 2 f_equal. destruct (Z.ltb_spec ULONG_MAX (dec_value (c :: ds))); lia.
Qed.

Lemma digits_plain ds :
  Forall (λ c, isdigit c = true) ds → (1 ≤ List.length ds ≤ 511)%nat → plain_arg ds.
Proof.
  intros Hds Hl. split_and!; [|lia|lia|].
  - eapply Forall_impl; [exact Hds|]. unfold isdigit. intros c Hc ->. done.
  - destruct Hds as [|c ds Hc _]; [simpl in Hl; lia|]. exists c. split; [done|].
    unfold isdigit in Hc. unfold isspace. lia.
Qed.

(** C35: the command language.  [share] takes the rest of its line as the path,
    spaces included; [get] takes a decimal number, of which only the low 32
    bits (after saturation at [ULONG_MAX]) reach [get]: a number below 2^32 is
    the file identifier itself, a larger one silently designates another
    file; [list] and [quit] take nothing. *)
Theorem command_line_parsing fname ds :
  plain_arg fname → Forall (λ c, isdigit c = true) ds → (1 ≤ List.length ds ≤ 511)%nat →
  parse_command (chars "share" ++ 32 :: fname ++ [10]) = CmdShare fname ∧
  parse_command (chars "get" ++ 32 :: ds ++ [10]) = CmdGet (u32 (Z.min (dec_value ds) ULONG_MAX)) ∧
  (dec_value ds < 4294967296 → parse_command (chars "get" ++ 32 :: ds ++ [10]) = CmdGet (dec_value ds)) ∧
  parse_command (chars "list" ++ [10]) = CmdList ∧
  parse_command (chars "quit" ++ [10]) = CmdQuit.
Proof.
  intros Hf Hds Hl.
  assert (parse_command (chars "get" ++ 32 :: ds ++ [10]) =
    CmdGet (u32 (Z.min (dec_value ds) ULONG_MAX))) as Hget.
  { unfold parse_command. destruct (parse_with_arg (chars "get") ds) as (c & s & -> & ->);
      [by repeat constructor|simpl; lia|by apply digits_plain|by repeat constructor|].
    rewrite bool_decide_eq_false_2 by done. rewrite (bool_decide_eq_false_2 (_ = chars "list")) by done.
    rewrite bool_decide_eq_true_2 by done. destruct ds as [|d ds]; [simpl in Hl; lia|].
    by rewrite strtoul_digits. }
  assert (0 ≤ dec_value ds) as Hpos.
  { unfold dec_value. assert (∀ v, 0 ≤ v → 0 ≤ foldl (λ v c, 10 * v + (c - 48)) v ds) as Hfold.
    { clear Hl Hget. induction Hds as [|c ds Hc _ IH]; intros v Hv; simpl; [done|].
      apply IH. unfold isdigit in Hc. lia. }
    apply Hfold. lia. }
  split_and!; try done.
  - unfold parse_command. destruct (parse_with_arg (chars "share") fname) as (c & s & -> & ->);
      [by repeat constructor|simpl; lia|done|by repeat constructor|].
    rewrite bool_decide_eq_true_2 by done. rewrite plain_skip_space by done.
    destruct fname; [by destruct Hf as (_ & ? & _); simpl in *; lia|]. done.
  - intros Hlt. rewrite Hget, Z.min_l by (unfold ULONG_MAX; lia). by usmall.
Qed.

Lemma command_line_parsing_witness :
  parse_command (chars "share my file.txt" ++ [10]) = CmdShare (chars "my file.txt") ∧
  parse_command (chars "get 4294967297" ++ [10]) = CmdGet 1.
Proof.
  destruct (command_line_parsing (chars "my file.txt") (chars "4294967297")) as (H1 & H2 & _).
  - split; [apply (bool_decide_unpack _); by vm_compute|]. split; [simpl; lia|]. by exists 109.
  - apply (bool_decide_unpack _). by vm_compute.
  - simpl. lia.
  - split; [exact H1|exact H2].
Defined.
