(* ===== verification/ServerMain.v ===== *)
(** * The start of the server: [main] of [server.c]

    The command line, the listening socket, and the event loop of [Server]
    behind them, with the descriptors it works on: every [poll], [accept],
    [recv], [send] and [close] of the loop is a call of the descriptor monad
    of [Sockets], so that a call on a closed descriptor would be recorded. *)

From S2P Require Import Prelude Sockets Packed Protocol Command Server Directory.

(** How [main] ends: its exit status, with the tables of the server when the
    event loop ran. *)
Record server_exit := {
  sx_status : Z;
  sx_state : option Server.state;
}.

Section main.
Context `{Host} (os_send : list Server.event → Z → list Z → Z).

(** [port], and 0 to let the system choose. *)
Definition server_port (argv : list (list Z)) : option Z :=
  match argv !! 1%nat with
  | Some s => n ← atoi s; Some (u16 n)
  | None => Some 0
  end.

(** The listening socket and its port, or [None] when [main] returns 1. *)
Definition server_startup (argv : list (list Z)) : sys (option (Z * Z)) :=
  if bool_decide (2 < length argv)%nat then mret None else
  port ← lift (server_port argv);
  listen_fd ← create_tcp_socket;
  if listen_fd <? 0 then mret None else
  b ← bind_socket listen_fd port;
  if b <? 0 then (_ ← sys_close listen_fd; mret None) else
  port ← (if port =? 0 then
            '(r, p) ← sys_getsockname listen_fd;
            if r =? 0 then mret (Some (ntohs p)) else (_ ← sys_close listen_fd; mret None)
          else mret (Some port));
  match port with
  | None => mret None
  | Some port =>
      l ← on_fd listen_fd (SysListen listen_fd 10);
      if l <? 0 then (_ ← sys_close listen_fd; mret None)
      else mret (Some (listen_fd, port))
  end.

(** The calls an operation of [Server] has made since [st]. *)
Fixpoint replay (es : list Server.event) : sys unit :=
  match es with
  | [] => mret ()
  | Server.EvSend n _ _ :: es => _ ← call_on n (SysSend n); replay es
  | Server.EvClose n :: es => _ ← sys_close n; replay es
  end.

Definition new_events (st st' : Server.state) : list Server.event :=
  drop (length (Server.trace st)) (Server.trace st').

(** The body of the loop over [poll_fds]. *)
Definition serve_on (ready : Z → bool) (recv : Z → option (list Z)) (malloc_ok : Z → bool) (n : Z)
    (st : Server.state) : sys Server.state :=
  if negb (ready n) then mret st else
  client ← lift (Server.find_client_by_fd n st);
  match client with
  | None => mret st
  | Some _ =>
      _ ← call_on n (SysRecv n);
      st' ← lift (Server.serve_fd os_send ready recv malloc_ok n st);
      _ ← replay (new_events st st');
      mret st'
  end.

Fixpoint serve_all_on (ready : Z → bool) (recv : Z → option (list Z)) (malloc_ok : Z → bool)
    (fds : list Z) (st : Server.state) : sys Server.state :=
  match fds with
  | [] => mret st
  | n :: fds => st ← serve_on ready recv malloc_ok n st; serve_all_on ready recv malloc_ok fds st
  end.

(** One iteration: [poll] on the listening socket and the clients', then
    [accept], then the clients. *)
Definition iteration_on (listen_fd : Z) (a : Server.poll_answer) (st : Server.state) :
    sys (bool * Server.state) :=
  let fds := Server.poll_fds st in
  _ ← use_all SysPoll (listen_fd :: fds);
  match a with
  | Server.PollError eintr => mret (eintr, st)
  | Server.PollTimeout => mret (true, st)
  | Server.PollReady listen_ready accepted ready recv malloc_ok =>
      st ← (if listen_ready then
              accepted ← sys_accept listen_fd accepted;
              st' ← lift (Server.accept_new_client accepted st);
              _ ← replay (new_events st st');
              mret st'
            else mret st);
      st ← serve_all_on ready recv malloc_ok fds st;
      mret (true, st)
  end.

Fixpoint loop_on (listen_fd : Z) (answers : list Server.poll_answer) (st : Server.state) :
    sys Server.state :=
  match answers with
  | [] => mret st
  | a :: answers =>
      '(go, st) ← iteration_on listen_fd a st;
      if go : bool then loop_on listen_fd answers st else mret st
  end.

(** The whole of [main]; the [close] of the listening socket is the last
    event of [server_cleanup]. *)
Definition server_program (argv : list (list Z)) (answers : list Server.poll_answer) : sys server_exit :=
  s ← server_startup argv;
  match s with
  | None => mret {| sx_status := 1; sx_state := None |}
  | Some (listen_fd, _) =>
      st ← loop_on listen_fd answers Server.init;
      let st' := Server.server_cleanup listen_fd st in
      _ ← replay (new_events st st');
      mret {| sx_status := 0; sx_state := Some st' |}
  end.

Definition port_arg_ok (argv : list (list Z)) : Prop :=
  ∀ s, argv !! 1%nat = Some s → is_Some (atoi s).

Lemma server_startup_triple F argv :
  port_arg_ok argv →
  triple F (server_startup argv) (λ r F',
    (r = None ∧ F' = F) ∨
    ∃ fd port, r = Some (fd, port) ∧ 0 ≤ fd ∧ fd ∉ F ∧ F' = {[fd]} ∪ F ∧ in_width 16 port).
Proof.
  intros Hport. unfold server_startup. case_bool_decide; [apply triple_ret; by left|].
  assert (∃ port, server_port argv = Some port ∧ in_width 16 port) as (port & Hp & Hpw).
  { unfold server_port. destruct (argv !! 1%nat) as [s|] eqn:Hs; [|by exists 0].
    destruct (Hport s Hs) as [n ->]. eexists. split; [done|]. by apply uwrap_range. }
  eapply triple_lift; [exact Hp|]. eapply triple_bind; [apply create_socket_triple|].
  intros fd F' [[-> ->]|(Hfd & Hni & ->)]; [apply triple_ret; by left|].
  rewrite (proj2 (Z.ltb_ge _ _)) by lia.
  assert (triple ({[fd]} ∪ F) (_ ← sys_close fd; mret (None : option (Z * Z))) (λ r F', r = None ∧ F' = F)) as Hclose.
  { eapply triple_bind; [apply (triple_close _ fd (λ _ F', F' = F)); [set_solver|by apply close_fresh]|].
    intros _ ? ->. by apply triple_ret. }
  eapply triple_bind; [apply bind_socket_triple; set_solver|].
  intros b F' [-> _]. case_cond as Eb; [eapply triple_weaken; [exact Hclose|]; intros; by left|].
  eapply triple_bind with (R := λ p F', (p = None ∧ F' = F) ∨
    ∃ q, p = Some q ∧ in_width 16 q ∧ F' = {[fd]} ∪ F).
  - case_cond as Ep; [|apply triple_ret; right; by exists port].
    eapply triple_bind; [apply getsockname_triple; set_solver|].
    intros [r p] F' [-> Hpw']. case_cond as Er.
    + apply triple_ret. right. exists (ntohs p). split_and!; [done| |done]. by apply (hton_range 2).
    + eapply triple_bind; [apply (triple_close _ fd (λ _ F', F' = F)); [set_solver|by apply close_fresh]|].
      intros _ ? ->. apply triple_ret. by left.
  - intros p F' [[-> ->]|(q & -> & Hq & ->)]; [apply triple_ret; by left|].
    eapply triple_bind; [apply (triple_on_fd _ fd _ (λ _ F', F' = {[fd]} ∪ F)); [set_solver|done]|].
    intros l F' ->. case_cond as El; [eapply triple_weaken; [exact Hclose|]; intros; by left|].
    apply triple_ret. right. by exists fd, q.
Qed.

(** ** The descriptors of the event loop *)

Section loop.
Context (F0 : gset Z) (listen_fd : Z) (Acc : gset Z).

(** The slots hold distinct open descriptors, none of which is the listening
    one or was open before [main]; nothing is open but these, the listening
    one, what was open before, and accepted connections. *)
Record fds_ok (fds : list Z) (F : gset Z) : Prop := {
  fo_unique : ∀ i j n, fds !! i = Some n → fds !! j = Some n → 0 < n → i = j;
  fo_open : ∀ i n, fds !! i = Some n → 0 < n → n ∈ F ∧ n ≠ listen_fd ∧ n ∉ F0;
  fo_listen : listen_fd ∈ F ∧ listen_fd ∉ F0;
  fo_before : F0 ⊆ F;
  fo_after : F ⊆ {[listen_fd]} ∪ F0 ∪ Acc;
}.

Definition tracked (st : Server.state) (F : gset Z) : Prop :=
  Server.wf st ∧ fds_ok (Server.fd <$> Server.clients st) F.

Lemma fds_ok_close fds F i n :
  fds_ok fds F → fds !! i = Some n → 0 < n → fds_ok (<[i := -1]> fds) (F ∖ {[n]}).
Proof.
  intros [Hu Ho [Hl Hl0] Hb Ha] Hi Hn. destruct (Ho i n Hi Hn) as (_ & Hnl & Hn0).
  pose proof (lookup_lt_Some _ _ _ Hi) as Hlen.
  assert (∀ j m, <[i := -1]> fds !! j = Some m → 0 < m → j ≠ i ∧ fds !! j = Some m) as Hold.
  { intros j m Hj Hm. destruct (decide (i = j)) as [<-|Hij].
    - rewrite list_lookup_insert_eq in Hj by done. injection Hj as <-. lia.
    - rewrite list_lookup_insert_ne in Hj by done. by split. }
  split; [| |set_solver|set_solver|set_solver].
  - intros j k m Hj Hk Hm. destruct (Hold j m Hj Hm), (Hold k m Hk Hm). by apply (Hu j k m).
  - intros j m Hj Hm. destruct (Hold j m Hj Hm) as [Hji Hj']. destruct (Ho j m Hj' Hm) as (? & ? & ?).
    split_and!; [|done|done]. apply elem_of_difference. split; [done|].
    intros ->%elem_of_singleton. by apply Hji, (Hu j i n).
Qed.

Lemma fds_ok_open fds F n :
  fds_ok fds F → n ∉ F → n ∈ Acc →
  fds_ok fds ({[n]} ∪ F) ∧ ∀ i, fds_ok (<[i := n]> fds) ({[n]} ∪ F).
Proof.
  intros [Hu Ho [Hl Hl0] Hb Ha] Hn Hacc.
  assert (∀ i m, fds !! i = Some m → 0 < m → m ≠ n ∧ m ∈ {[n]} ∪ F ∧ m ≠ listen_fd ∧ m ∉ F0) as Ho'.
  { intros i m Hi Hm. destruct (Ho i m Hi Hm) as (? & ? & ?). split_and!; set_solver. }
  split; [split; [done| |set_solver|set_solver|set_solver]; intros i m Hi Hm; by apply (Ho' i m)|].
  intros i. destruct (decide (i < length fds)%nat) as [Hi|Hi];
    [|rewrite list_insert_ge by lia; split; [done| |set_solver|set_solver|set_solver];
      intros j m Hj Hm; by apply (Ho' j m)].
  assert (∀ j m, <[i := n]> fds !! j = Some m → (j = i ∧ m = n) ∨ (j ≠ i ∧ fds !! j = Some m)) as Hold.
  { intros j m Hj. destruct (decide (i = j)) as [<-|Hij].
    - rewrite list_lookup_insert_eq in Hj by done. injection Hj as <-. by left.
    - rewrite list_lookup_insert_ne in Hj by done. right. by split; [apply not_eq_sym|]. }
  split; [| |set_solver|set_solver|set_solver].
  - intros j k m Hj Hk Hm. destruct (Hold j m Hj) as [[-> Hjm]|[Hji Hj']], (Hold k m Hk) as [[-> Hkm]|[Hki Hk']];
      [done|subst; by destruct (Ho' k n Hk' Hm)|subst; by destruct (Ho' j n Hj' Hm)|by apply (Hu j k m)].
  - intros j m Hj Hm. destruct (Hold j m Hj) as [[-> ->]|[Hji Hj']]; [|by apply (Ho' j m)].
    split_and!; set_solver.
Qed.

Lemma new_events_app st st' es :
  Server.trace st' = Server.trace st ++ es → new_events st st' = es.
Proof. intros He. unfold new_events. by rewrite He, drop_app_length. Qed.

(** A turn of the inner loop. *)
Lemma serve_on_triple ready recv malloc_ok n st F :
  tracked st F → Server.counts_ok 1 st → (∀ data, recv n = Some data → Forall is_byte data) →
  triple F (serve_on ready recv malloc_ok n st) (λ st' F',
    Server.serve_fd os_send ready recv malloc_ok n st = Some st' ∧ tracked st' F' ∧
    Server.num_clients st - 1 ≤ Server.num_clients st' ≤ Server.num_clients st + 1).
Proof.
  intros [Hwf Hfds] Hcnt Hrecv. unfold serve_on.
  destruct (Server.serve_fd_robust os_send ready recv malloc_ok n st Hwf Hcnt Hrecv) as (st' & Hrun & Hwf' & Hn').
  destruct (ready n) eqn:Hready; cbn [negb].
  2:{ apply triple_ret. unfold Server.serve_fd in *. rewrite Hready in *. cbn [negb] in *.
      injection Hrun as <-. split; [done|]. split; [by split|lia]. }
  destruct (Server.find_client_by_fd_cases n st Hwf) as [[Hf _]|(i & c & Hf & Hc & Hn & Hp)];
    (eapply triple_lift; [exact Hf|]).
  { apply triple_ret. unfold Server.serve_fd in *. rewrite Hready, Hf in *. cbn in Hrun |- *.
    injection Hrun as <-. split; [done|]. split; [by split|lia]. }
  assert ((Server.fd <$> Server.clients st) !! i = Some n) as Hi
    by (rewrite list_lookup_fmap, Hc; by rewrite <-Hn).
  pose proof (fo_open _ _ Hfds i n Hi Hp) as (HnF & _).
  eapply triple_bind; [by apply (triple_call_on F n _ (λ _ F', F' = F))|]. intros _ ? ->.
  eapply triple_lift; [exact Hrun|].
  eapply triple_bind with (R := λ _ F', fds_ok (Server.fd <$> Server.clients st') F').
  - destruct (Server.serve_fd_touches os_send _ _ _ _ _ _ Hwf Hrun) as [->|(j & Hj & _ & Ht)].
    { rewrite (new_events_app st st []) by (by rewrite app_nil_r). by apply triple_ret. }
    destruct Ht as [[Heq [Ht|(data & sent & Ht)]]|[Heq Ht]]; rewrite Heq.
    + rewrite (new_events_app st st' []) by (by rewrite app_nil_r). by apply triple_ret.
    + rewrite (new_events_app _ _ _ Ht).
      eapply triple_bind; [by apply (triple_call_on F n _ (λ _ F', F' = F))|]. intros _ ? ->. by apply triple_ret.
    + rewrite (new_events_app _ _ _ Ht).
      eapply triple_bind; [by apply (triple_close F n (λ _ F', F' = F ∖ {[n]}))|].
      intros _ ? ->. apply triple_ret. by apply (fds_ok_close _ _ j n).
  - intros _ F' Hfds'. apply triple_ret. split; [done|]. split; [by split|lia].
Qed.

Lemma serve_all_on_triple ready recv malloc_ok fds st F :
  tracked st F → Server.counts_ok (Z.of_nat (length fds)) st →
  (∀ n data, recv n = Some data → Forall is_byte data) →
  triple F (serve_all_on ready recv malloc_ok fds st) (λ st' F',
    foldl (λ acc n, st ← acc; Server.serve_fd os_send ready recv malloc_ok n st) (Some st) fds = Some st' ∧
    tracked st' F').
Proof.
  intros Hst Hcnt Hrecv. revert st F Hst Hcnt. unfold Server.counts_ok.
  induction fds as [|n fds IH]; intros st F Hst Hcnt; cbn [serve_all_on foldl]; [by apply triple_ret|].
  cbn [length] in Hcnt.
  eapply triple_bind; [apply serve_on_triple; [done|unfold Server.counts_ok; lia|by apply Hrecv]|].
  intros st1 F1 (Hrun & Hst1 & Hn1). bind_step. rewrite Hrun. apply IH; [done|lia].
Qed.

(** The answer as the server sees it: [accept] fails when the system has no
    fresh descriptor to give. *)
Definition answered (a a' : Server.poll_answer) : Prop :=
  a' = a ∨
  match a with
  | Server.PollReady l _ ready recv malloc_ok => a' = Server.PollReady l None ready recv malloc_ok
  | _ => False
  end.

Definition accepts_in (a : Server.poll_answer) : Prop :=
  match a with Server.PollReady _ (Some (n, _)) _ _ _ => n ∈ Acc | _ => True end.

Lemma accept_on_triple accepted st F :
  tracked st F → (∀ n a, accepted = Some (n, a) → in_width 32 (sin_addr a) ∧ n ∈ Acc) →
  triple F (accepted ← sys_accept listen_fd accepted;
            st' ← lift (Server.accept_new_client accepted st);
            _ ← replay (new_events st st'); mret st') (λ st' F',
    (∃ acc, (acc = accepted ∨ acc = None) ∧ Server.accept_new_client acc st = Some st') ∧
    tracked st' F' ∧ Server.num_clients st' = Server.num_clients st).
Proof.
  intros [Hwf Hfds] Hok. pose proof (fo_listen _ _ Hfds) as [Hl _].
  assert (triple F (st' ← lift (Server.accept_new_client None st);
      _ ← replay (new_events st st'); mret st') (λ st' F',
    (∃ acc, (acc = accepted ∨ acc = None) ∧ Server.accept_new_client acc st = Some st') ∧
    tracked st' F' ∧ Server.num_clients st' = Server.num_clients st)) as Hnone.
  { eapply triple_lift; [done|]. rewrite (new_events_app st st []) by (by rewrite app_nil_r).
    eapply triple_bind; [by apply (triple_ret F () (λ _ F', F' = F))|]. intros _ ? ->. apply triple_ret.
    split; [by exists None; split; [right|]|done]. }
  eapply triple_bind with (R := λ acc F', (acc = None ∧ F' = F) ∨
    ∃ z a, acc = Some (z, a) ∧ accepted = Some (z, a) ∧ z ∉ F ∧ F' = {[z]} ∪ F).
  { apply triple_accept; [done|by left|]. intros z a -> Hz. right. by exists z, a. }
  intros acc F' [[-> ->]|(z & a & -> & Heq & Hz & ->)]; [exact Hnone|].
  destruct (Hok z a Heq) as [Hadr Hacc].
  destruct (Server.accept_robust (Some (z, a)) st Hwf) as (st' & Hrun & Hwf' & Hn); [by intros ? ? [= _ <-]|].
  eapply triple_lift; [exact Hrun|].
  destruct (fds_ok_open _ _ z Hfds Hz Hacc) as [Hkeep Hins].
  eapply triple_bind with (R := λ _ F', fds_ok (Server.fd <$> Server.clients st') F').
  - pose proof (Server.accept_touches _ _ _ Hrun) as [[Hf Ht]|(i & Hf & Ht)]; rewrite Hf.
    + rewrite (new_events_app _ _ _ Ht).
      eapply triple_bind; [apply (triple_close _ z (λ _ F', F' = F)); [clear; set_solver|by apply close_fresh]|].
      intros _ ? ->. by apply triple_ret.
    + rewrite (new_events_app st st' []) by (by rewrite app_nil_r). by apply triple_ret.
  - intros _ F' Hfds'. apply triple_ret. split; [|by split_and!]. exists (Some (z, a)). by split; [left|].
Qed.

Lemma poll_fds_open st F : tracked st F → Forall (λ n, n ∈ F) (listen_fd :: Server.poll_fds st).
Proof.
  intros [_ Hfds]. constructor; [apply (fo_listen _ _ Hfds)|]. apply Forall_forall.
  intros n [Hin Hp]%list_elem_of_In%filter_In. apply list_elem_of_In, list_elem_of_lookup in Hin as [i Hi].
  by apply (fo_open _ _ Hfds i n); [|lia].
Qed.

Lemma iteration_on_triple a st F :
  tracked st F → Server.answer_ok a → accepts_in a → Server.counts_ok 256 st →
  triple F (iteration_on listen_fd a st) (λ r F',
    (∃ a', answered a a' ∧ Server.server_iteration os_send a' st = Some r) ∧ tracked r.2 F').
Proof.
  intros Hst Hok Hacc Hcnt. unfold iteration_on.
  eapply triple_bind; [apply (triple_use_all F _ _ (λ _ F', F' = F)); [by apply poll_fds_open|done]|].
  intros _ ? ->. destruct a as [eintr| |l accepted ready recv malloc_ok].
  - apply triple_ret. split; [|done]. eexists. by split; [left|].
  - apply triple_ret. split; [|done]. eexists. by split; [left|].
  - destruct Hok as [Hadr Hrecv].
    pose proof (Server.length_poll_fds st (proj1 Hst)) as Hlen. unfold Server.MAX_CLIENTS in Hlen.
    eapply triple_bind with (R := λ st1 F',
      (∃ acc, (acc = accepted ∨ acc = None) ∧
         (if l then Server.accept_new_client acc st else Some st) = Some st1) ∧
      tracked st1 F' ∧ Server.num_clients st1 = Server.num_clients st).
    { destruct l; [|apply triple_ret; split; [|done]; exists None; by split; [right|]].
      apply accept_on_triple; [done|]. intros n adr ->. split; [by eapply Hadr|done]. }
    intros st1 F1 ((acc & Hwhich & Hrun1) & Hst1 & Hn1).
    eapply triple_bind; [apply serve_all_on_triple; [exact Hst1| |exact Hrecv]|].
    { unfold Server.counts_ok in *. rewrite Hn1. lia. }
    intros st2 F2 [Hrun2 Hst2]. apply triple_ret. split; [|done].
    exists (Server.PollReady l acc ready recv malloc_ok).
    split; [destruct Hwhich as [->| ->]; [by left|by right]|].
    cbn [Server.server_iteration]. rewrite Hrun1. bind_step. by rewrite Hrun2.
Qed.

Lemma answered_ok a a' : answered a a' → Server.answer_ok a → Server.answer_ok a'.
Proof.
  intros [->|Ha] Hok; [done|]. destruct a as [| |l acc ready recv malloc_ok]; [done..|]. subst a'.
  split; [by intros ? ? [=]|apply Hok].
Qed.

Lemma loop_on_triple answers st F :
  tracked st F → Forall Server.answer_ok answers → Forall accepts_in answers →
  Server.counts_ok (256 * Z.of_nat (length answers)) st →
  triple F (loop_on listen_fd answers st) (λ st' F',
    (∃ answers', Forall2 answered answers answers' ∧ Server.server_loop os_send answers' st = Some st') ∧
    tracked st' F').
Proof.
  unfold Server.counts_ok. intros Hst Hok. revert st F Hst.
  induction Hok as [|a answers Ha _ IH]; intros st F Hst Hacc Hcnt; cbn [loop_on].
  { apply triple_ret. split; [|done]. by exists []. }
  inversion_clear Hacc as [|?? Hacc1 Hacc2]. cbn [length] in Hcnt.
  eapply triple_bind; [apply iteration_on_triple; [done..|unfold Server.counts_ok; lia]|].
  intros [go st1] F1 [(a' & Haa & Hrun) Hst1]. cbn [snd] in Hst1.
  destruct (Server.server_iteration_robust os_send a' st (proj1 Hst)) as (go' & st1' & Hrun' & _ & Hn);
    [by eapply answered_ok|unfold Server.counts_ok; lia|]. rewrite Hrun in Hrun'. injection Hrun' as <- <-.
  destruct go.
  - eapply triple_weaken; [apply IH; [done|done|lia]|].
    intros st2 F2 [(answers' & Hall & Hrun2) Hst2]. split; [|done]. exists (a' :: answers').
    split; [by constructor|]. cbn [Server.server_loop]. rewrite Hrun. bind_step. exact Hrun2.
  - apply triple_ret. split; [|done]. exists (a' :: answers).
    split; [constructor; [done|]|cbn [Server.server_loop]; by rewrite Hrun].
    clear. induction answers; constructor; [by left|done].
Qed.

Lemma replay_close ns F :
  NoDup ns → Forall (λ n, n ∈ F) ns →
  triple F (replay (Server.EvClose <$> ns)) (λ _ F', F' = F ∖ list_to_set ns).
Proof.
  intros Hnd. revert F. induction Hnd as [|n ns Hn _ IH]; intros F Hall; cbn.
  { apply triple_ret. clear. set_solver. }
  inversion_clear Hall as [|?? HnF Hall'].
  eapply triple_bind; [by apply (triple_close F n (λ _ F', F' = F ∖ {[n]}))|]. intros _ ? ->.
  eapply triple_weaken; [apply IH|intros _ ? ->; clear; set_solver].
  apply Forall_forall. intros m Hm. apply elem_of_difference.
  split; [by apply (proj1 (Forall_forall _ _) Hall')|]. intros ->%elem_of_singleton. done.
Qed.

(** The way out: what the slots hold and the listening socket are closed, each
    once, and nothing that was open before. *)
Lemma cleanup_on_triple st F :
  tracked st F →
  triple F (replay (new_events st (Server.server_cleanup listen_fd st))) (λ _ F',
    F0 ⊆ F' ∧ F' ⊆ F0 ∪ Acc ∧ listen_fd ∉ F' ∧
    ∀ i c, Server.clients st !! i = Some c → 0 < Server.fd c → Server.fd c ∉ F').
Proof.
  intros Hst. pose proof Hst as [_ Hfds]. destruct (Server.server_cleanup_trace listen_fd st) as [_ Ht].
  rewrite (new_events_app _ _ _ Ht).
  assert (∀ i c, Server.clients st !! i = Some c → (Server.fd <$> Server.clients st) !! i = Some (Server.fd c)) as Hlk
    by (intros i c Hc; by rewrite list_lookup_fmap, Hc).
  assert (Directory.fds_unique st) as Hu.
  { intros i j ci cj Hi Hj Hp He. apply (fo_unique _ _ Hfds i j (Server.fd ci)); [by apply Hlk| |done].
    rewrite He. by apply Hlk. }
  assert (∀ n, n ∈ Server.poll_fds st → n ≠ listen_fd ∧ n ∉ F0) as Hpoll.
  { intros n [Hin Hp]%list_elem_of_In%filter_In. apply list_elem_of_In, list_elem_of_lookup in Hin as [i Hi].
    by apply (fo_open _ _ Hfds i n); [|lia]. }
  destruct (fo_listen _ _ Hfds) as [_ Hl0]. pose proof (poll_fds_open st F Hst) as Hopen.
  inversion_clear Hopen as [|?? Hlf Hpf].
  eapply triple_weaken; [apply replay_close|].
  - apply NoDup_app. split_and!; [by apply Directory.poll_fds_NoDup| |apply NoDup_singleton].
    intros n Hn ->%list_elem_of_singleton. by destruct (Hpoll _ Hn).
  - apply Forall_app. split; [done|]. by repeat constructor.
  - intros _ ? ->. rewrite list_to_set_app_L. pose proof (fo_before _ _ Hfds) as H0. pose proof (fo_after _ _ Hfds) as H1.
    assert (∀ X, F ∖ (X ∪ list_to_set [listen_fd]) ⊆ F0 ∪ Acc ∧
      listen_fd ∉ F ∖ (X ∪ list_to_set [listen_fd])) as Hsets by (clear -H1; set_solver).
    split_and!; [|apply Hsets..|].
    + intros n Hn. apply elem_of_difference. split; [by apply H0|].
      rewrite elem_of_union, !elem_of_list_to_set, list_elem_of_singleton.
      intros [Hp| ->]; [by destruct (Hpoll n Hp)|done].
    + intros i c Hc Hp. rewrite elem_of_difference, elem_of_union, !elem_of_list_to_set. intros [_ Hno].
      apply Hno. left. apply list_elem_of_In, filter_In. split; [|lia].
      apply list_elem_of_In, (list_elem_of_lookup_2 _ i). by apply Hlk.
Qed.
End loop.

(** The descriptors [accept] was ready to give. *)
Definition accepted_fds (answers : list Server.poll_answer) : gset Z :=
  list_to_set (omap (λ a, match a with Server.PollReady _ (Some (n, _)) _ _ _ => Some n | _ => None end) answers).

Lemma accepts_in_all answers : Forall (accepts_in (accepted_fds answers)) answers.
Proof.
  apply Forall_forall. intros a Ha. unfold accepts_in, accepted_fds.
  destruct a as [| |l [[n adr]|] ready recv malloc_ok]; try done.
  apply elem_of_list_to_set, list_elem_of_omap. by eexists.
Qed.

(** C15: [main] of the server from the command line to its exit, for a port
    argument whose number fits an [int] and at most 8388607 iterations of the
    event loop, whatever the clients send and the system calls answer: it
    returns 1 and leaves no new descriptor open when a step of the start fails,
    or runs the event loop of [Server] on well-formed tables and returns 0.
    Then no call of the loop or of the way out was made on a descriptor that
    was not open (so none was used after it was closed, or closed twice); the
    listening socket and every connection still in the table are closed; what
    was open before is left open; and the only descriptors that can be left
    behind are accepted connections. *)
Theorem server_program_runs argv answers o :
  port_arg_ok argv → Forall Server.answer_ok answers → Z.of_nat (length answers) ≤ 8388607 →
  os_ebadf o = false →
  ∃ x o', server_program argv answers o = Some (x, o') ∧ os_ebadf o' = false ∧
    match sx_state x with
    | None => sx_status x = 1 ∧ os_open o' = os_open o
    | Some st =>
        sx_status x = 0 ∧ Server.wf st ∧
        os_open o ⊆ os_open o' ∧ os_open o' ⊆ os_open o ∪ accepted_fds answers ∧
        (∀ i c, Server.clients st !! i = Some c → 0 < Server.fd c → Server.fd c ∉ os_open o') ∧
        ∃ listen_fd answers', listen_fd ∉ os_open o' ∧ Forall2 answered answers answers' ∧
          Server.server_main os_send listen_fd answers' = Some st
    end.
Proof.
  intros Hport Hans Hlen He.
  assert (triple (os_open o) (server_program argv answers) (λ x F',
    match sx_state x with
    | None => sx_status x = 1 ∧ F' = os_open o
    | Some st =>
        sx_status x = 0 ∧ Server.wf st ∧ os_open o ⊆ F' ∧ F' ⊆ os_open o ∪ accepted_fds answers ∧
        (∀ i c, Server.clients st !! i = Some c → 0 < Server.fd c → Server.fd c ∉ F') ∧
        ∃ listen_fd answers', listen_fd ∉ F' ∧ Forall2 answered answers answers' ∧
          Server.server_main os_send listen_fd answers' = Some st
    end)) as Ht.
  { unfold server_program. eapply triple_bind; [by apply server_startup_triple|].
    intros s F' [[-> ->]|(fd & port & -> & _ & Hni & -> & _)]; [by apply triple_ret|].
    assert (tracked (os_open o) fd (accepted_fds answers) Server.init ({[fd]} ∪ os_open o)) as Hinit.
    { split; [apply Server.init_wf|].
      assert (∀ i n, (Server.fd <$> Server.clients Server.init) !! i = Some n → n = 0) as Hz.
      { intros i n Hi. rewrite list_lookup_fmap_Some in Hi. destruct Hi as (c & -> & Hc).
        by apply lookup_replicate in Hc as [-> _]. }
      split; [intros i j n Hi _ Hn; apply Hz in Hi; lia|intros i n Hi Hn; apply Hz in Hi; lia|clear -Hni; set_solver..]. }
    eapply triple_bind; [apply (loop_on_triple _ _ _ _ _ _ Hinit Hans (accepts_in_all answers));
      unfold Server.counts_ok; simpl; lia|].
    intros st F1 [(answers' & Hall & Hrun) Hst].
    eapply triple_bind; [by apply cleanup_on_triple|]. intros _ F2 (Hb & Ha & Hl & Hcl).
    apply triple_ret. cbn [sx_state sx_status].
    split; [done|]. split; [apply Server.server_cleanup_wf, Hst|]. split; [done|]. split; [done|].
    rewrite (proj1 (Server.server_cleanup_trace fd st)). split; [exact Hcl|].
    exists fd, answers'. split; [done|]. split; [done|]. unfold Server.server_main. by rewrite Hrun. }
  destruct (Ht o eq_refl He) as (x & o' & Hrun & He' & Hx). by exists x, o'.
Qed.
End main.

Module ServerMainExample.
#[local] Instance host : Host := LittleEndian.

(** [srv 7000]: descriptor 3, every call succeeds; a client connects on
    descriptor 4, registers, and the server is stopped. *)
Definition argv : list (list Z) := [[115; 114; 118]; [55; 48; 48; 48]].
Definition o0 : os := {| os_open := {[0; 1; 2]}; os_answers := [3; 0; 0; 0]; os_trace := []; os_ebadf := false |}.
Definition answers : list Server.poll_answer :=
  [Server.PollReady true (Some (4, {| sin_addr := 16777343; sin_port := 9000 |})) (λ _, false) (λ _, None) (λ _, true);
   Server.PollReady false None (λ n, n =? 4) (λ _, Some [1; 0; 0; 2; 27; 88]) (λ _, true)].

Lemma server_program_runs_witness :
  ∃ x o', server_program (λ _ _ d, Z.of_nat (length d)) argv answers o0 = Some (x, o') ∧
    sx_status x = 0 ∧ os_open o' = {[0; 1; 2]} ∧ os_ebadf o' = false.
Proof.
  destruct (server_program_runs (λ _ _ d, Z.of_nat (length d)) argv answers o0)
    as (x & o' & Hrun & Hbad & Hx).
  - intros s [= <-]. by exists 7000.
  - constructor; [|constructor; [|constructor]]; (split; [|intros n data [= <-]]).
    + intros n a [= _ <-]. by vm_compute.
    + intros n a [=].
    + apply (bool_decide_unpack _). by vm_compute.
  - simpl. lia.
  - reflexivity.
  - exists x, o'. split; [exact Hrun|].
    assert (sx_state x ≠ None ∧ os_open o' = {[0; 1; 2]}) as [Hne Hopen].
    { vm_compute in Hrun. injection Hrun as <- <-. split; [done|by vm_compute]. }
    split; [|split; [exact Hopen|exact Hbad]].
    destruct (sx_state x); [apply Hx|done].
Defined.
End ServerMainExample.
