(* ===== verification/Client.v ===== *)
(** * The client: [client.c]

    The state of the client is its connection to the server, its table of
    shared files, the UDP environment, the file system and the globals of the
    running upload.  Every command and every part of the event loop of [main]
    is a function of that state and of the answers of the system; a result
    [None] is undefined behaviour.  A download reads the UDP socket until it
    is complete, so [get] is given the datagrams that will arrive and may
    end up [Blocked] when there are no more.  SHA-256 is a parameter. *)

From S2P Require Import Prelude Common Arrays Packed Protocol Tcp Lossy Packets Window.
From S2P Require Import ShareTable SRSender SRReceiver Command.

Module Client.

Record state := {
  tcp_sock : tcp;
  table : ShareTable.state;
  env : sr_env;                    (** the UDP socket behind the lossy link *)
  fs : filesystem;
  global_sender : sr_sender_t;
  global_file_buffer : option (list Z);
  transfer_active : bool;
  running : bool;
}.

Definition set_tcp (t : tcp) (st : state) : state := {|
  tcp_sock := t; table := table st; env := env st; fs := fs st; global_sender := global_sender st;
  global_file_buffer := global_file_buffer st; transfer_active := transfer_active st;
  running := running st |}.

Definition set_table (tb : ShareTable.state) (st : state) : state := {|
  tcp_sock := tcp_sock st; table := tb; env := env st; fs := fs st;
  global_sender := global_sender st; global_file_buffer := global_file_buffer st;
  transfer_active := transfer_active st; running := running st |}.

Definition set_env (e : sr_env) (st : state) : state := {|
  tcp_sock := tcp_sock st; table := table st; env := e; fs := fs st;
  global_sender := global_sender st; global_file_buffer := global_file_buffer st;
  transfer_active := transfer_active st; running := running st |}.

Definition set_fs (f : filesystem) (st : state) : state := {|
  tcp_sock := tcp_sock st; table := table st; env := env st; fs := f;
  global_sender := global_sender st; global_file_buffer := global_file_buffer st;
  transfer_active := transfer_active st; running := running st |}.

Definition set_upload (s : sr_sender_t) (b : option (list Z)) (act : bool) (st : state) : state := {|
  tcp_sock := tcp_sock st; table := table st; env := env st; fs := fs st; global_sender := s;
  global_file_buffer := b; transfer_active := act; running := running st |}.

Definition stop_running (st : state) : state := {|
  tcp_sock := tcp_sock st; table := table st; env := env st; fs := fs st;
  global_sender := global_sender st; global_file_buffer := global_file_buffer st;
  transfer_active := transfer_active st; running := false |}.

(** A call that returned, or one that waits for a datagram. *)
Inductive progress (A : Type) :=
  | Returned (a : A)
  | Blocked (st : state).
Arguments Returned {_} _.
Arguments Blocked {_} _.

Definition UINT32_MAX : Z := 4294967295.

(** The largest datagram the client reads; the system cuts longer ones. *)
Definition max_udp_packet_size : Z := 16 + CHUNK_SIZE.
Definition cut_datagram (bs : list Z) : list Z := take (Z.to_nat max_udp_packet_size) bs.

Section client.
Context `{Host} (digest : list Z → list Z).

Definition request_header (msg_type len : Z) : tcp_header_t :=
  {| th_msg_type := msg_type; th_error_code := ERR_NONE; th_data_len := htons len |}.

(** Sending a request, then reading the header of the reply. *)
Definition send_request (data : list Z) (st : state) : option (bool * state) :=
  '(ok, t) ← send_all data (tcp_sock st); Some (ok, set_tcp t st).

Definition recv_bytes (len : Z) (st : state) : option (option (list Z) * state) :=
  '(r, t) ← recv_all len (tcp_sock st); Some (r, set_tcp t st).

(** ** share *)

(** [sa_ctx]: OpenSSL provides a context; [sa_stack]: what the uninitialised
    array [hash] holds. *)
Record share_answers := {
  sa_read : read_answers;
  sa_ctx : bool;
  sa_stack : list Z;
}.

(** The part of [share] after the request was sent. *)
Definition share_reply (fname hash : list Z) (size : Z) (st : state) : option (Z * state) :=
  '(r, st) ← recv_bytes (sizeof tcp_header_t) st;
  match r with
  | None => Some (1, st)
  | Some bs =>
      hdr ← cast tcp_header_t bs 0;
      if th_msg_type hdr =? TCP_ERROR then Some (1, st) else
      if negb (th_msg_type hdr =? TCP_SHARE_ACK) then Some (1, st) else
      if negb (ntohs (th_data_len hdr) =? sizeof tcp_share_ack_t) then Some (1, st) else
      '(r, st) ← recv_bytes (sizeof tcp_share_ack_t) st;
      match r with
      | None => Some (1, st)
      | Some bs =>
          ack ← cast tcp_share_ack_t bs 0;
          let file_id := ntohl (sack_file_id ack) in
          tb ← ShareTable.add_shared_file file_id (u32 size) hash (cstr_bytes fname) (table st);
          Some (0, set_table tb st)
      end
  end.

(** [filename] is the string, or NULL. *)
Definition share (filename : option (list Z)) (a : share_answers) (st : state) : option (Z * state) :=
  match filename with
  | None => Some (1, st)
  | Some fname =>
      '(ret, out) ← read_file_to_buffer (sa_read a);
      if negb (ret =? 0) then Some (1, st) else
      '(buff, size) ← out;
      if UINT32_MAX <? size then Some (1, st) else
      data ← mread buff 0 size;
      let hash := compute_sha256 digest (sa_ctx a) data (sa_stack a) in
      name ← copy_name (cstr_bytes fname);
      hash32 ← mread hash 0 32;
      let tcp_message := {| sf_file_size := htonl (u32 size); sf_hash := hash32;
                            sf_filename := name |} in
      let out_buf := to_bytes (request_header TCP_SHARE_FILE (sizeof tcp_share_file_t)) ++
                     to_bytes tcp_message in
      '(ok, st) ← send_request out_buf st;
      if negb ok then Some (1, st) else share_reply fname hash size st
  end.

(** ** list *)

(** One printed line: identifier, name, size, number of peers. *)
Definition listing := (Z * list Z * Z * Z)%type.

Definition print_info (buffer : list Z) (i : nat) : option listing :=
  let off := Z.of_nat i * sizeof file_info_t in
  info ← cast file_info_t buffer off;
  name ← cstring (drop (Z.to_nat (off + 41)) buffer);
  Some (ntohl (fi_file_id info), name, ntohl (fi_file_size info), fi_num_peers info).

(** The result, the lines printed and the state; [malloc_ok] is the answer to
    [malloc(body_len)]. *)
Definition list_files (malloc_ok : bool) (st : state) : option (Z * list listing * state) :=
  '(ok, st) ← send_request (to_bytes (request_header TCP_LIST_FILES 0)) st;
  if negb ok then Some (1, [], st) else
  '(r, st) ← recv_bytes (sizeof tcp_header_t) st;
  match r with
  | None => Some (1, [], st)
  | Some bs =>
      hdr ← cast tcp_header_t bs 0;
      if th_msg_type hdr =? TCP_ERROR then Some (1, [], st) else
      if negb (th_msg_type hdr =? TCP_FILE_LIST) then Some (1, [], st) else
      let body_len := ntohs (th_data_len hdr) in
      if body_len =? 0 then Some (0, [], st) else
      if negb (body_len `mod` sizeof file_info_t =? 0) then Some (1, [], st) else
      if negb malloc_ok then Some (1, [], st) else
      '(r, st) ← recv_bytes body_len st;
      match r with
      | None => Some (1, [], st)
      | Some buffer =>
          let num_files := Z.to_nat (body_len `div` sizeof file_info_t) in
          lines ← mapM (print_info buffer) (seq 0 num_files);
          Some (0, lines, st)
      end
  end.

(** ** get *)

(** What arrives on the UDP socket: an error, or a datagram and its source. *)
Definition udp_input := option (list Z * sockaddr_in).

Record get_answers := {
  ga_sendto : Z;                (** what [sendto] returns for the request *)
  ga_block : option (list Z);   (** [malloc] of the receiver's buffer *)
  ga_ctx : bool;                (** OpenSSL provides a context *)
  ga_stack : list Z;            (** the uninitialised [computed_hash] *)
  ga_open : bool;               (** [fopen(rec_file.filename, "wb")] succeeds *)
  ga_written : Z;               (** what [fwrite] returns *)
}.

(** The UDP request for a file, sealed with its checksum. *)
Definition udp_request_header : udp_header_t := {|
  uh_msg_type := UDP_REQUEST_FILE; uh_flags := 0; uh_checksum := 0; uh_seq_num := 0;
  uh_ack_num := 0; uh_data_len := htons (sizeof udp_request_file_t); uh_window := htons WINDOW_SIZE |}.

Definition udp_request (file_id : Z) (hash : list Z) : list Z :=
  let body := to_bytes {| urq_file_id := htonl file_id; urq_hash := hash |} in
  let check_sum := calculate_checksum (to_bytes udp_request_header ++ body) in
  to_bytes (set_checksum udp_request_header check_sum) ++ body.

(** The loop that feeds the receiver: it ends with a result, with the
    receiver complete, or waiting. *)
Inductive download :=
  | DlFailed (ret : Z) (e : sr_env)
  | DlComplete (r : sr_receiver_t) (e : sr_env)
  | DlWaiting (r : sr_receiver_t) (e : sr_env).

Fixpoint download_loop (peer : sockaddr_in) (pkts : list udp_input) (r : sr_receiver_t)
    (e : sr_env) : option download :=
  if sr_receiver_is_complete r then Some (DlComplete r e) else
  match pkts with
  | [] => Some (DlWaiting r e)
  | None :: _ => Some (DlFailed (-1) e)
  | Some (bs, src) :: pkts =>
      if negb (bool_decide (src = peer)) then download_loop peer pkts r e else
      '(n, r, e) ← sr_receiver_handle_data r (cut_datagram bs) e;
      if n <? 0 then Some (DlFailed 1 e) else download_loop peer pkts r e
  end.

(** The end of [get]: the hash is verified before the file is saved. *)
Definition save_file (rec_hash name : list Z) (a : get_answers) (r : sr_receiver_t) (st : state) :
    option (Z * state) :=
  let '(assembled_file, assembled_size) := sr_receiver_get_file r in
  buf ← assembled_file;
  data ← mread buf 0 assembled_size;
  computed_hash ← mread (compute_sha256 digest (ga_ctx a) data (ga_stack a)) 0 32;
  if bool_decide (computed_hash = rec_hash) then
    if negb (ga_open a) then Some (-1, st)
    else Some (0, set_fs (<[name := take (Z.to_nat (ga_written a)) data]> (fs st)) st)
  else Some (0, st).

(** From the reception of UDP_FILE_START on. *)
Definition get_transfer (rec_file : tcp_file_location_t) (name : list Z) (peer : sockaddr_in)
    (a : get_answers) (pkts : list udp_input) (st : state) : option (progress (Z * state)) :=
  match pkts with
  | [] => Some (Blocked st)
  | None :: _ => Some (Returned (1, st))
  | Some (bs, sender_addr) :: pkts =>
      let recv_buff := cut_datagram bs in
      let rec_len := Z.of_nat (length recv_buff) in
      if rec_len <? sizeof udp_header_t then Some (Returned (1, st)) else
      hdr ← cast udp_header_t recv_buff 0;
      let data_len := ntohs (uh_data_len hdr) in
      if rec_len <? sizeof udp_header_t + data_len then Some (Returned (1, st)) else
      tmp_buf ← zero_checksum recv_buff;
      if negb (verify_checksum tmp_buf (uh_checksum hdr)) then Some (Returned (1, st)) else
      if negb (sin_addr sender_addr =? loc_peer_ip rec_file) ||
         negb (sin_port sender_addr =? loc_peer_port rec_file) then Some (Returned (1, st)) else
      if negb (uh_msg_type hdr =? UDP_FILE_START) then Some (Returned (0, st)) else
      if negb (data_len =? sizeof udp_file_start_t) then Some (Returned (1, st)) else
      start ← cast udp_file_start_t recv_buff (sizeof udp_header_t);
      let size := ntohl (fs_file_size start) in
      let chunks := ntohl (fs_num_chunks start) in
      let raw := {| r_udp_fd := 0; r_peer_addr := peer; r_base := 0; r_window := [];
                    r_file_buffer := None; r_file_size := 0; r_num_chunks := 0;
                    r_chunks_received := 0; r_lossy_link := false |} in
      match sr_receiver_init (Some raw) (ll_fd (env_link (env st))) (Some peer) size chunks true
              (ga_block a) with
      | (0, Some r) =>
          dl ← download_loop peer pkts r (env st);
          match dl with
          | DlFailed ret e => Some (Returned (ret, set_env e st))
          | DlWaiting _ e => Some (Blocked (set_env e st))
          | DlComplete r e =>
              '(ret, st) ← save_file (loc_hash rec_file) name a r (set_env e st);
              Some (Returned (ret, st))
          end
      | _ => Some (Returned (1, st))
      end
  end.

(** From the file location on: the UDP request to the owner. *)
Definition get_from_peer (file_id : Z) (rec_file : tcp_file_location_t) (a : get_answers)
    (pkts : list udp_input) (st : state) : option (progress (Z * state)) :=
  if negb (file_id =? ntohl (loc_file_id rec_file)) then Some (Returned (1, st)) else
  let peer := {| sin_addr := loc_peer_ip rec_file;
                 sin_port := htons (ntohs (loc_peer_port rec_file)) |} in
  name ← cstring (loc_filename rec_file);
  let buff := udp_request file_id (loc_hash rec_file) in
  let udp_len := Z.of_nat (length buff) in
  if ga_sendto a <? 0 then Some (Returned (1, st)) else
  let st := set_env (env_send false {| dg_dest := peer; dg_bytes := buff |} (env st)) st in
  if negb (ga_sendto a =? udp_len) then Some (Returned (1, st)) else
  get_transfer rec_file name peer a pkts st.

Definition get (file_id : Z) (a : get_answers) (pkts : list udp_input) (st : state) :
    option (progress (Z * state)) :=
  let req_buf := to_bytes (request_header TCP_REQUEST_FILE (sizeof tcp_request_file_t)) ++
                 to_bytes {| rq_file_id := htonl file_id |} in
  '(ok, st) ← send_request req_buf st;
  if negb ok then Some (Returned (1, st)) else
  '(r, st) ← recv_bytes (sizeof tcp_header_t) st;
  match r with
  | None => Some (Returned (1, st))
  | Some bs =>
      hdr ← cast tcp_header_t bs 0;
      if th_msg_type hdr =? TCP_ERROR then Some (Returned (1, st)) else
      if negb (th_msg_type hdr =? TCP_FILE_LOCATION) then Some (Returned (1, st)) else
      if negb (ntohs (th_data_len hdr) =? sizeof tcp_file_location_t) then Some (Returned (1, st)) else
      '(r, st) ← recv_bytes (sizeof tcp_file_location_t) st;
      match r with
      | None => Some (Returned (1, st))
      | Some bs =>
          rec_file ← cast tcp_file_location_t bs 0;
          get_from_peer file_id rec_file a pkts st
      end
  end.

(** ** quit and the command line *)

Definition quit (st : state) : option state :=
  '(_, st) ← send_request (to_bytes (request_header TCP_UNREGISTER 0)) st; Some st.

Record command_answers := {
  ca_share : share_answers;
  ca_list_malloc : bool;
  ca_get : get_answers;
  ca_udp : list udp_input;
}.

(** A command that fails ends the client. *)
Definition after_command (res : Z) (st : state) : option state :=
  if negb (res =? 0) then st ← quit st; Some (stop_running st) else Some st.

Definition handle_command (line : list Z) (a : command_answers) (st : state) :
    option (progress state) :=
  match parse_command line with
  | CmdShare fname =>
      '(res, st) ← share (Some fname) (ca_share a) st;
      st ← after_command res st; Some (Returned st)
  | CmdList =>
      '(res, _, st) ← list_files (ca_list_malloc a) st;
      st ← after_command res st; Some (Returned st)
  | CmdGet file_id =>
      p ← get file_id (ca_get a) (ca_udp a) st;
      match p with
      | Blocked st => Some (Blocked st)
      | Returned (res, st) => st ← after_command res st; Some (Returned st)
      end
  | CmdQuit => st ← quit st; Some (Returned (stop_running st))
  | CmdNone | CmdUsage | CmdBadId | CmdUnknown => Some (Returned st)
  end.

(** ** main *)

(** The registration: the identifier the server assigned, or [None] when the
    client exits with an error. *)
Definition register_client (udp_port : Z) (st : state) : option (option Z * state) :=
  let register_buf := to_bytes (request_header TCP_REGISTER (sizeof tcp_register_t)) ++
                      to_bytes {| reg_udp_port := htons udp_port |} in
  '(ok, st) ← send_request register_buf st;
  if negb ok then Some (None, st) else
  '(r, st) ← recv_bytes (sizeof tcp_header_t) st;
  match r with
  | None => Some (None, st)
  | Some bs =>
      hdr ← cast tcp_header_t bs 0;
      if th_msg_type hdr =? TCP_ERROR then Some (None, st) else
      if negb (th_msg_type hdr =? TCP_REGISTER_ACK) then Some (None, st) else
      if negb (ntohs (th_data_len hdr) =? sizeof tcp_register_ack_t) then Some (None, st) else
      '(r, st) ← recv_bytes (sizeof tcp_register_ack_t) st;
      match r with
      | None => Some (None, st)
      | Some bs =>
          ack ← cast tcp_register_ack_t bs 0;
          Some (Some (ntohl (rack_client_id ack)), st)
      end
  end.

(** What the system answers while a request is served: the file, [sendto] and
    the clock. *)
Record serve_answers := {
  va_read : read_answers;
  va_sendto : Z;
  va_now : Z;
}.

Definition file_start_header : udp_header_t := {|
  uh_msg_type := UDP_FILE_START; uh_flags := 0; uh_checksum := 0; uh_seq_num := 0;
  uh_ack_num := 0; uh_data_len := htons (sizeof udp_file_start_t); uh_window := htons WINDOW_SIZE |}.

(** [num_chunks] is an [int] computed from a [long] and sent as a [uint32_t]. *)
Definition file_start (actual_size : Z) : list Z :=
  let num_chunks := Z.quot (actual_size + CHUNK_SIZE - 1) CHUNK_SIZE in
  let body := to_bytes {| fs_file_size := htonl (u32 actual_size);
                          fs_num_chunks := htonl (u32 num_chunks) |} in
  let check_sum := calculate_checksum (to_bytes file_start_header ++ body) in
  to_bytes (set_checksum file_start_header check_sum) ++ body.

(** Serving UDP_REQUEST_FILE for an entry of the table.  The boolean is the
    [continue] of the code: it skips the rest of the iteration. *)
Definition start_upload (peer_addr : sockaddr_in) (file : ShareTable.shared_file_t)
    (a : serve_answers) (st : state) : option (bool * state) :=
  _ ← cstring (ShareTable.file_name file);
  if negb (ra_open (va_read a)) then Some (true, st) else
  let actual_size := ra_tell (va_read a) in
  let buff := file_start actual_size in
  if va_sendto a <=? 0 then Some (true, st) else
  let st := set_env (env_send false {| dg_dest := peer_addr; dg_bytes := buff |} (env st)) st in
  match ra_block (va_read a) with
  | None => Some (true, st)
  | Some block =>
      file_buffer ← mwrite block 0 (ra_bytes (va_read a));
      if negb (Z.of_nat (length (ra_bytes (va_read a))) =? actual_size) then Some (true, st) else
      match sr_sender_init (Some (global_sender st)) (ll_fd (env_link (env st))) (Some peer_addr)
              (Some file_buffer) (u32 actual_size) true with
      | (0, Some s) =>
          '(_, s, e) ← sr_sender_send_window (va_now a) s (env st);
          Some (false, set_upload s (Some file_buffer) true (set_env e st))
      | _ => Some (true, st)
      end
  end.

(** The UDP branch of the event loop. *)
Definition handle_udp (input : udp_input) (a : serve_answers) (st : state) : option (bool * state) :=
  match input with
  | None => Some (true, st)
  | Some (bs, peer_addr) =>
      let udp_buffer := cut_datagram bs in
      let lossy_return := Z.of_nat (length udp_buffer) in
      if lossy_return =? 0 then Some (true, st) else
      if lossy_return <? sizeof udp_header_t then Some (true, st) else
      hdr ← cast udp_header_t udp_buffer 0;
      if uh_msg_type hdr =? UDP_REQUEST_FILE then
        if lossy_return <? sizeof udp_header_t + sizeof udp_request_file_t then Some (true, st) else
        if negb (ntohs (uh_data_len hdr) =? sizeof udp_request_file_t) then Some (true, st) else
        req ← cast udp_request_file_t udp_buffer (sizeof udp_header_t);
        found ← ShareTable.find_shared_file_by_id (ntohl (urq_file_id req)) (table st);
        match found with
        | None => Some (true, st)
        | Some k =>
            file ← ShareTable.table (table st) !! k;
            if negb (bool_decide (ShareTable.hash file = urq_hash req)) then Some (true, st)
            else start_upload peer_addr file a st
        end
      else if uh_msg_type hdr =? UDP_ACK then
        if transfer_active st then
          '(_, s, e) ← sr_sender_handle_ack (global_sender st) hdr (env st);
          Some (false, set_upload s (global_file_buffer st) true (set_env e st))
        else Some (false, st)
      else Some (false, st)
  end.

(** The end of an iteration: the running upload, at the two clock readings. *)
Definition upload_tick (now curr_ms : Z) (st : state) : option state :=
  if negb (transfer_active st) then Some st else
  '(_, s, e) ← sr_sender_send_window now (global_sender st) (env st);
  '(res, s, e) ← sr_sender_check_timeouts s curr_ms e;
  if res <? 0 then Some (set_upload s None false (set_env e st))
  else if sr_sender_is_complete s then Some (set_upload s None false (set_env e st))
  else Some (set_upload s (global_file_buffer st) true (set_env e st)).

(** What one iteration gets from the system: [poll] fails, or a line of the
    user and a datagram, each if there is one. *)
Inductive iteration_answers :=
  | PollFailed
  | Polled (stdin : option (list Z * command_answers)) (udp : option (udp_input * serve_answers))
      (now curr_ms : Z).

(** One iteration; the boolean tells whether the loop goes on. *)
Definition client_iteration (a : iteration_answers) (st : state) : option (progress (bool * state)) :=
  match a with
  | PollFailed => Some (Returned (false, st))
  | Polled stdin udp now curr_ms =>
      p ← match stdin with
          | None => Some (Returned st)
          | Some (line, ca) => handle_command line ca st
          end;
      match p with
      | Blocked st => Some (Blocked st)
      | Returned st =>
          '(skip, st) ← match udp with
                        | None => Some (false, st)
                        | Some (input, va) => handle_udp input va st
                        end;
          st ← (if skip : bool then Some st else upload_tick now curr_ms st);
          Some (Returned (running st, st))
      end
  end.

(** [while (running)]: the loop on the answers of the system, one per
    iteration; [Blocked] when it waits for more of them. *)
Fixpoint client_loop (answers : list iteration_answers) (st : state) : option (progress state) :=
  if negb (running st) then Some (Returned st) else
  match answers with
  | [] => Some (Blocked st)
  | a :: answers =>
      p ← client_iteration a st;
      match p with
      | Blocked st => Some (Blocked st)
      | Returned (go, st) => if go : bool then client_loop answers st else Some (Returned st)
      end
  end.
End client.
End Client.
