(* ===== verification/ClientSpec.v ===== *)
(** * The client against the contracts of its partners

    The requests of the client are the wire format of [Directory], and the
    replies of the directory, cut by TCP in any way, are understood as meant;
    a download whose packets arrive ends with the file in the file system, and
    nothing else is ever saved; a request of a peer starts the upload that
    [SRTransfer] proves correct. *)

From S2P Require Import Prelude Common Arrays Packed Protocol Tcp Lossy Packets Window.
From S2P Require Import ShareTable SRSender SRReceiver SRTransfer Directory Command Client.
Import Client.

(** ** A connection that works *)

(** Nothing refused, [out] sent so far, [inp] still to be read. *)
Definition conn (t : tcp) (out inp : list Z) : Prop :=
  stream_ok t ∧ t_accepts t = [] ∧ t_out t = out ∧ received t = inp.

Section spec.
Context `{Host} (digest : list Z → list Z).

Lemma send_request_conn data st out inp :
  conn (tcp_sock st) out inp →
  ∃ t, send_request data st = Some (true, set_tcp t st) ∧ conn t (out ++ data) inp.
Proof.
  intros (Hok & Ha & Ho & Hi). unfold send_request.
  destruct (send_all_spec data (tcp_sock st)) as (ok & t & k & -> & Hin & Hf & Hout & Hk & Hacc).
  destruct (Hacc Ha) as [-> Ha']. bind_step. exists t. split; [done|].
  rewrite (Hk eq_refl) in Hout. unfold conn, stream_ok, received in *. rewrite Hin, Hout, Ho. by split_and!.
Qed.

Lemma recv_bytes_conn len bs rest st out :
  conn (tcp_sock st) out (bs ++ rest) → Z.of_nat (length bs) = len →
  ∃ t, recv_bytes len st = Some (Some bs, set_tcp t st) ∧ conn t out rest.
Proof.
  intros (Hok & Ha & Ho & Hi) Hl. unfold recv_bytes.
  destruct (recv_all_enough len (tcp_sock st) bs rest) as (t & -> & Hok' & (Ho' & _ & Ha') & Hrest);
    [lia|done..|].
  exists t. split; [done|]. unfold conn. rewrite Ho', Ha'. by split_and!.
Qed.

(** Reading the header of a frame. *)
Lemma recv_header_conn t c payload rest st out :
  is_byte t → is_byte c → Z.of_nat (length payload) < 65536 →
  conn (tcp_sock st) out (frame t c payload ++ rest) →
  ∃ hb tc, recv_bytes (sizeof tcp_header_t) st = Some (Some hb, set_tcp tc st) ∧
    cast tcp_header_t hb 0 = Some {| th_msg_type := t; th_error_code := c;
                                     th_data_len := htons (Z.of_nat (length payload)) |} ∧
    conn tc out (payload ++ rest).
Proof.
  intros Ht Hc Hl Hconn. rewrite frame_header in Hconn by done. rewrite u16_small in Hconn by lia.
  set (hdr := {| th_msg_type := t |}) in *.
  assert (fits hdr) as Hf by (split; [done|]; split; [done|];
    apply (hton_range 2); [lia|unfold in_width; lia]).
  rewrite <-app_assoc in Hconn.
  destruct (recv_bytes_conn (sizeof tcp_header_t) _ _ _ _ Hconn) as (tc & Hrun & Htc);
    [by apply length_to_bytes|].
  exists (to_bytes hdr), tc. split_and!; [done| |done].
  rewrite <-(app_nil_r (to_bytes hdr)). by apply cast_to_bytes_0.
Qed.

Lemma request_header_bytes t len :
  is_byte t → to_bytes (request_header t len) = [t; ERR_NONE] ++ be16 len.
Proof. intros. by apply header_bytes. Qed.

(** The bytes of a 4-byte acknowledgement, read back. *)
Lemma cast_ack4 id : in_width 32 id →
  cast tcp_share_ack_t (be32 id) 0 = Some {| sack_file_id := htonl id |} ∧
  cast tcp_register_ack_t (be32 id) 0 = Some {| rack_client_id := htonl id |}.
Proof.
  intros Hid. rewrite <-(app_nil_r (be32 id)). split.
  - replace (be32 id) with (to_bytes {| sack_file_id := htonl id |}) by (by apply (store_hton 4)).
    apply cast_to_bytes_0. by apply (hton_range 4).
  - replace (be32 id) with (to_bytes {| rack_client_id := htonl id |}) by (by apply (store_hton 4)).
    apply cast_to_bytes_0. by apply (hton_range 4).
Qed.

(** ** share and registration *)

Lemma share_request_bytes size h name :
  request_ok (Share size h name) →
  to_bytes (request_header TCP_SHARE_FILE (sizeof tcp_share_file_t)) ++
    to_bytes {| sf_file_size := htonl size; sf_hash := h; sf_filename := name_field name |}
  = wire_request (Share size h name).
Proof.
  intros Hok. destruct (share_request_fits _ _ _ Hok) as (_ & _ & Hl). pose proof Hok as (_ & Hh & _).
  unfold wire_request. rewrite frame_header by done. rewrite !length_app, length_be32, Hl, Hh.
  f_equal. unfold to_bytes. cbn [packed_layout tcp_share_file_packed l_iso l_pair l_enc
    sf_file_size sf_hash sf_filename]. by rewrite field4_bytes.
Qed.

Lemma read_ok content block :
  length block = length content →
  read_file_to_buffer {| ra_open := true; ra_tell := Z.of_nat (length content);
                         ra_block := Some block; ra_bytes := content |}
  = Some (0, Some (content, Z.of_nat (length content))).
Proof.
  intros Hl. apply (read_file_ok {[ [] := content ]} []); [by rewrite lookup_singleton_eq|].
  exists content, block. by rewrite lookup_singleton_eq.
Qed.

Lemma copy_name_string s :
  Forall (λ c, is_byte c ∧ c ≠ 0) s → (length s ≤ 255)%nat →
  copy_name (cstr_bytes s) = Some (name_field s).
Proof.
  intros Hs Hl. assert (Forall (λ c, c ≠ 0) s) as Hnz by (by apply chars_nonzero).
  destruct (copy_name_total (cstr_bytes s)) as [bs Hbs]; [right; by rewrite cstring_cstr_bytes|].
  rewrite Hbs. f_equal. clear Hs. unfold copy_name in Hbs.
  apply bind_Some in Hbs as (bs' & Hbs & [= <-]). unfold name_field, cstr_bytes in *.
  replace (256 - length s)%nat with (S (255 - length s)) by lia.
  rewrite replicate_S_end, app_assoc. f_equal. revert Hbs. generalize 255%nat as n, Hl.
  intros n Hn. clear Hl. revert s bs' Hnz Hn. induction n as [|n IH]; intros s bs' Hnz Hn.
  - destruct s; [|simpl in Hn; lia]. by intros [= <-].
  - destruct Hnz as [|c s Hc Hnz]; simpl in *; [by intros [= <-]|].
    rewrite (proj2 (Z.eqb_neq _ _) Hc). intros (bs'' & Hbs & ->)%fmap_Some. f_equal.
    apply IH; [done|lia|done].
Qed.

(** A reply that carries an identifier. *)
Lemma recv_ack_conn t id rest st out :
  is_byte t → conn (tcp_sock st) out (frame t ERR_NONE (be32 id) ++ rest) →
  ∃ hb t1 t2, recv_bytes (sizeof tcp_header_t) st = Some (Some hb, set_tcp t1 st) ∧
    cast tcp_header_t hb 0 = Some {| th_msg_type := t; th_error_code := ERR_NONE;
                                     th_data_len := htons 4 |} ∧
    recv_bytes 4 (set_tcp t1 st) = Some (Some (be32 id), set_tcp t2 st) ∧ conn t2 out rest.
Proof.
  intros Ht Hconn.
  destruct (recv_header_conn t ERR_NONE (be32 id) rest st out) as (hb & t1 & H1 & Hh & Ht1);
    [done|done|by rewrite length_be32|done|].
  destruct (recv_bytes_conn 4 (be32 id) rest (set_tcp t1 st) out Ht1) as (t2 & H2 & Ht2);
    [by rewrite length_be32|].
  exists hb, t1, t2. rewrite length_be32 in Hh. by split_and!.
Qed.

Lemma string_bytes s : Forall (λ c, is_byte c ∧ c ≠ 0) s →
  Forall is_byte (cstr_bytes s) ∧ cstring (cstr_bytes s) = Some s.
Proof.
  intros Hs. split.
  - unfold cstr_bytes. eauto using chars_bytes with bytes.
  - apply cstring_cstr_bytes. by apply chars_nonzero.
Qed.

(** The acknowledgement adds the file to the table. *)
Lemma share_reply_spec fname h size id rest st out :
  conn (tcp_sock st) out (wire_reply (ShareAck id) ++ rest) → in_width 32 id → in_width 32 size →
  Forall (λ c, is_byte c ∧ c ≠ 0) fname → (length fname ≤ 255)%nat → length h = 32%nat →
  ShareTable.wf (table st) → (ShareTable.num_files (table st) < ShareTable.MAX_SHARED_FILES)%nat →
  ShareTable.lookup_id id (ShareTable.entries (table st)) = None →
  ∃ st', share_reply fname h size st = Some (0, st') ∧ conn (tcp_sock st') out rest ∧
    ShareTable.wf (table st') ∧
    ShareTable.lookup_id id (ShareTable.entries (table st')) =
      Some {| ShareTable.file_id := id; ShareTable.file_size := size;
              ShareTable.hash := h; ShareTable.file_name := name_field fname |} ∧ env st' = env st.
Proof.
  intros Hconn Hid Hsize Hfn Hfl Hh Hwf Hroom Hfresh. unfold share_reply.
  destruct (recv_ack_conn TCP_SHARE_ACK id rest st out) as (hb & t1 & t2 & -> & Hhdr & H2 & Ht2); [done..|].
  bind_step. rewrite Hhdr. cbn [mbind option_bind th_msg_type th_data_len].
  rewrite ntohs_htons by lia. change (sizeof tcp_share_ack_t) with 4.
  change (TCP_SHARE_ACK =? TCP_ERROR) with false. change (TCP_SHARE_ACK =? TCP_SHARE_ACK) with true.
  cbn [negb Z.eqb Pos.eqb]. rewrite H2. bind_step.
  rewrite (proj1 (cast_ack4 id Hid)). cbn [mbind option_bind sack_file_id]. rewrite ntohl_htonl by done.
  destruct (string_bytes fname Hfn) as [Hfb Hfs].
  destruct (ShareTable.add_spec (table st) id (u32 size) h (cstr_bytes fname)) as (tb & Hadd & Hwf' & Hcase);
    [done|done|done|by rewrite Hfs|].
  cbn [table set_tcp]. rewrite Hadd. bind_step. eexists. split; [done|].
  split; [exact Ht2|]. split; [done|]. cbn [table set_table].
  destruct Hcase as [[? _]|(nm & Hnm & ->)]; [lia|]. rewrite copy_name_string in Hnm by done. simplify_eq.
  unfold ShareTable.lookup_id in *. rewrite first_match_app, Hfresh. cbn [first_match ShareTable.file_id].
  rewrite Z.eqb_refl, uwrap_small by done. done.
Qed.

(** What the system answers when the file [f] can be read and hashed. *)
Definition reads_file (f block stack : list Z) : share_answers :=
  {| sa_read := {| ra_open := true; ra_tell := Z.of_nat (length f);
                   ra_block := Some block; ra_bytes := f |};
     sa_ctx := true; sa_stack := stack |}.

(** [share] up to the reply: the request, in the format of the directory. *)
Lemma share_request_spec fname f block stack incoming st out :
  conn (tcp_sock st) out incoming →
  Forall (λ c, is_byte c ∧ c ≠ 0) fname → (length fname ≤ 255)%nat →
  length block = length f → Z.of_nat (length f) < 4294967296 →
  length (digest f) = 32%nat → Forall is_byte (digest f) →
  ∃ t, conn t (out ++ wire_request (Share (Z.of_nat (length f)) (digest f) fname)) incoming ∧
    share digest (Some fname) (reads_file f block stack) st =
      share_reply fname (digest f) (Z.of_nat (length f)) (set_tcp t st).
Proof.
  intros Hconn Hfn Hfl Hb Hsize Hdl Hdb.
  assert (request_ok (Share (Z.of_nat (length f)) (digest f) fname)) as Hok
    by (split_and!; try done; unfold in_width; lia).
  unfold share, reads_file. cbn [sa_read sa_ctx sa_stack]. rewrite read_ok by done.
  cbn [mbind option_bind negb Z.eqb]. rewrite (proj2 (Z.ltb_ge _ _)) by (unfold UINT32_MAX; lia).
  rewrite mread_Some by lia. bind_step. rewrite Nat2Z.id, drop_0, take_ge by lia.
  rewrite copy_name_string by done. bind_step.
  change (compute_sha256 digest true f stack) with (digest f).
  rewrite mread_Some by lia. bind_step.
  rewrite drop_0, take_ge by (rewrite Hdl; simpl; lia).
  rewrite u32_small by lia. rewrite share_request_bytes by done.
  destruct (send_request_conn (wire_request (Share (Z.of_nat (length f)) (digest f) fname)) st out _ Hconn)
    as (t1 & -> & Ht1). cbn [mbind option_bind negb]. by exists t1.
Qed.

(** C19: sharing, end to end.  When the file can be read, [share] sends exactly
    the wire format of the directory's share request, with the size, the
    SHA-256 hash and the path of the file; when the directory acknowledges
    with an identifier, in whatever TCP segments, the call returns 0, leaves
    the rest of the stream unread, and the file is found under that identifier
    in the table the upload side serves from. *)
Theorem share_announces_and_records fname f block stack id rest st out :
  conn (tcp_sock st) out (wire_reply (ShareAck id) ++ rest) → in_width 32 id →
  Forall (λ c, is_byte c ∧ c ≠ 0) fname → (length fname ≤ 255)%nat →
  length block = length f → Z.of_nat (length f) < 4294967296 →
  length (digest f) = 32%nat → Forall is_byte (digest f) →
  ShareTable.wf (table st) → (ShareTable.num_files (table st) < ShareTable.MAX_SHARED_FILES)%nat →
  ShareTable.lookup_id id (ShareTable.entries (table st)) = None →
  ∃ st', share digest (Some fname) (reads_file f block stack) st = Some (0, st') ∧
    conn (tcp_sock st') (out ++ wire_request (Share (Z.of_nat (length f)) (digest f) fname)) rest ∧
    ShareTable.wf (table st') ∧
    ShareTable.lookup_id id (ShareTable.entries (table st')) =
      Some {| ShareTable.file_id := id; ShareTable.file_size := Z.of_nat (length f);
              ShareTable.hash := digest f; ShareTable.file_name := name_field fname |}.
Proof.
  intros Hconn Hid Hfn Hfl Hb Hsize Hdl Hdb Hwf Hroom Hfresh.
  destruct (share_request_spec fname f block stack _ st out Hconn) as (t & Ht & ->); [done..|].
  destruct (share_reply_spec fname (digest f) (Z.of_nat (length f)) id rest (set_tcp t st) _ Ht)
    as (st' & ? & ? & ? & ? & _); try done; [unfold in_width; lia|]. by exists st'.
Qed.

(** C33: the handshake.  [main] announces its UDP port with the wire format of
    the registration request and takes the identifier the directory assigns,
    however TCP cuts the reply. *)
Theorem registration_handshake port id rest st out :
  conn (tcp_sock st) out (wire_reply (RegisterAck id) ++ rest) → in_width 32 id → in_width 16 port →
  ∃ st', register_client port st = Some (Some id, st') ∧
    conn (tcp_sock st') (out ++ wire_request (Register port)) rest ∧ table st' = table st.
Proof.
  intros Hconn Hid Hport. unfold register_client.
  assert (to_bytes (request_header TCP_REGISTER (sizeof tcp_register_t)) ++
    to_bytes {| reg_udp_port := htons port |} = wire_request (Register port)) as ->.
  { unfold wire_request. rewrite frame_header by done. rewrite length_be16.
    f_equal. by apply (store_hton 2). }
  destruct (send_request_conn (wire_request (Register port)) st out _ Hconn) as (t0 & -> & Ht0).
  cbn [mbind option_bind negb].
  destruct (recv_ack_conn TCP_REGISTER_ACK id rest (set_tcp t0 st) _ ltac:(done) Ht0)
    as (hb & t1 & t2 & -> & Hhdr & H2 & Ht2).
  bind_step. rewrite Hhdr. cbn [mbind option_bind th_msg_type th_data_len].
  rewrite ntohs_htons by lia. change (sizeof tcp_register_ack_t) with 4.
  change (TCP_REGISTER_ACK =? TCP_ERROR) with false.
  change (TCP_REGISTER_ACK =? TCP_REGISTER_ACK) with true.
  cbn [negb Z.eqb Pos.eqb]. rewrite H2. bind_step.
  rewrite (proj2 (cast_ack4 id Hid)). cbn [mbind option_bind rack_client_id]. rewrite ntohl_htonl by done.
  eexists. split; [done|]. by split.
Qed.

(** ** list *)

(** A file of the directory, as the wire format can carry it. *)
Definition dfile_ok (f : dfile) : Prop :=
  in_width 32 (df_id f) ∧ in_width 32 (df_size f) ∧ length (df_hash f) = 32%nat ∧
  Forall is_byte (df_hash f) ∧ Forall (λ c, is_byte c ∧ c ≠ 0) (df_name f) ∧
  (length (df_name f) ≤ 255)%nat.

Definition wire_info (f : dfile) : file_info_t := {|
  fi_file_id := htonl (df_id f); fi_file_size := htonl (df_size f); fi_hash := df_hash f;
  fi_num_peers := 1; fi_filename := name_field (df_name f) |}.

Lemma name_field_ok s :
  Forall (λ c, is_byte c ∧ c ≠ 0) s → (length s ≤ 255)%nat →
  length (name_field s) = 256%nat ∧ Forall is_byte (name_field s) ∧ cstring (name_field s) = Some s.
Proof.
  intros Hs Hl. split_and!.
  - unfold name_field. rewrite length_app, length_replicate. lia.
  - eauto using chars_bytes with bytes.
  - apply cstring_name_field; [|done]. by apply chars_nonzero.
Qed.

Lemma wire_info_bytes f : dfile_ok f → fits (wire_info f) ∧ to_bytes (wire_info f) = wire_file f.
Proof.
  intros (Hid & Hsz & Hl & Hb & Hn & Hnl). destruct (name_field_ok _ Hn Hnl) as (Hfl & Hfb & _). split.
  - split; [by apply (hton_range 4)|]. split; [by apply (hton_range 4)|]. by split_and!.
  - unfold to_bytes, wire_file. cbn [packed_layout file_info_packed l_iso l_pair l_enc wire_info
      fi_file_id fi_file_size fi_hash fi_num_peers fi_filename].
    rewrite !field4_bytes. do 3 f_equal. f_equal. by apply store_1.
Qed.

Lemma cstring_app bs s x : cstring bs = Some s → cstring (bs ++ x) = Some s.
Proof.
  revert s. induction bs as [|c bs IH]; intros s; simpl; [done|].
  destruct (c =? 0); [done|]. intros (s' & Hs & ->)%fmap_Some. by rewrite (IH s').
Qed.

Lemma length_wire_file_ok f : dfile_ok f → length (wire_file f) = 297%nat.
Proof.
  intros Hf. destruct (wire_info_bytes f Hf) as [Hfits <-]. apply Nat2Z.inj. by rewrite length_to_bytes.
Qed.

Lemma drop_wire_file f x :
  dfile_ok f → drop 41 (wire_file f ++ x) = name_field (df_name f) ++ x.
Proof.
  intros (_ & _ & Hl & _). unfold wire_file.
  rewrite !(app_assoc _ _ (name_field _)), <-(app_assoc _ (name_field _) x).
  apply drop_app_length'. rewrite !length_app, !length_be32, Hl. done.
Qed.

Lemma print_info_wire pre f post i :
  dfile_ok f → length pre = (297 * i)%nat →
  print_info (pre ++ wire_file f ++ post) i = Some (df_id f, df_name f, df_size f, 1).
Proof.
  intros Hf Hpre. destruct (wire_info_bytes f Hf) as [Hfits Hbytes]. unfold print_info.
  change (sizeof file_info_t) with 297. rewrite <-Hbytes at 1.
  rewrite cast_to_bytes by (done || lia). bind_step.
  replace (Z.to_nat (Z.of_nat i * 297 + 41)) with (length pre + 41)%nat by lia.
  rewrite drop_app_add, drop_wire_file by done. destruct Hf as (Hid & Hsz & _ & _ & Hn & Hnl).
  destruct (name_field_ok _ Hn Hnl) as (_ & _ & Hs).
  rewrite (cstring_app _ _ _ Hs). cbn [mbind option_bind wire_info fi_file_id fi_file_size fi_num_peers].
  by rewrite !ntohl_htonl by done.
Qed.

Lemma print_infos_wire fs pre k :
  Forall dfile_ok fs → length pre = (297 * k)%nat →
  mapM (print_info (pre ++ concat (wire_file <$> fs))) (seq k (length fs))
    = Some ((λ f, (df_id f, df_name f, df_size f, 1)) <$> fs).
Proof.
  intros Hfs. revert pre k. induction Hfs as [|f fs Hf _ IH]; intros pre k Hpre; [done|].
  rewrite !fmap_cons. cbn [length seq concat]. apply mapM_Some. constructor.
  - by apply print_info_wire.
  - rewrite app_assoc. apply mapM_Some, IH. rewrite length_app, length_wire_file_ok by done. lia.
Qed.

Lemma length_wire_files_ok fs :
  Forall dfile_ok fs → length (concat (wire_file <$> fs)) = (297 * length fs)%nat.
Proof.
  induction 1 as [|f fs Hf _ IH]; [done|]. rewrite fmap_cons. cbn [concat length].
  rewrite length_app, length_wire_file_ok, IH by done. lia.
Qed.

(** C32: listing, end to end: the client prints, for the reply of the directory
    with up to 220 files and however TCP cuts it, exactly the identifier, name
    and size of every file, in order, and leaves nothing of the reply unread. *)
Theorem list_prints_directory fs rest st out :
  conn (tcp_sock st) out (wire_reply (FileList fs) ++ rest) → Forall dfile_ok fs →
  (length fs ≤ 220)%nat →
  ∃ st', list_files true st
      = Some (0, (λ f, (df_id f, df_name f, df_size f, 1)) <$> fs, st') ∧
    conn (tcp_sock st') (out ++ wire_request ListFiles) rest.
Proof.
  intros Hconn Hfs Hn. pose proof (length_wire_files_ok fs Hfs) as Hlen. unfold list_files.
  assert (to_bytes (request_header TCP_LIST_FILES 0) = wire_request ListFiles) as ->
    by (by rewrite request_header_bytes).
  destruct (send_request_conn (wire_request ListFiles) st out _ Hconn) as (t0 & -> & Ht0).
  cbn [mbind option_bind negb]. unfold wire_reply in Ht0.
  destruct (recv_header_conn TCP_FILE_LIST ERR_NONE (concat (wire_file <$> fs)) rest (set_tcp t0 st) _
    ltac:(done) ltac:(done) ltac:(lia) Ht0) as (hb & t1 & -> & Hhdr & Ht1).
  bind_step. rewrite Hhdr. cbn [mbind option_bind th_msg_type th_data_len].
  rewrite ntohs_htons, Hlen by lia. change (sizeof file_info_t) with 297.
  change (TCP_FILE_LIST =? TCP_ERROR) with false. change (TCP_FILE_LIST =? TCP_FILE_LIST) with true.
  cbn [negb]. destruct fs as [|f fs]; [eexists; split; [done|exact Ht1]|].
  rewrite (proj2 (Z.eqb_neq _ _)) by (simpl; lia).
  replace (Z.of_nat (297 * length (f :: fs))) with (Z.of_nat (length (f :: fs)) * 297) by lia.
  rewrite Z.mod_mul by lia. cbn [negb Z.eqb].
  destruct (recv_bytes_conn (Z.of_nat (length (f :: fs)) * 297) _ rest (set_tcp t1 (set_tcp t0 st)) _ Ht1)
    as (t2 & -> & Ht2); [lia|].
  bind_step. rewrite Z.div_mul, Nat2Z.id by lia.
  pose proof (print_infos_wire (f :: fs) [] 0 Hfs eq_refl) as Hp. rewrite app_nil_l in Hp.
  rewrite Hp. bind_step. eexists. split; [done|exact Ht2].
Qed.

(** ** get: the packets of a download *)

(** The datagram of chunk [k], as the socket delivers it. *)
Definition data_input (f : list Z) (peer : sockaddr_in) (k : Z) : udp_input :=
  Some (data_packet k (chunk f k), peer).

(** What may arrive during the download of [f] from [peer]: datagrams of other
    sources, data packets of [f], and such packets with one byte changed. *)
Inductive input_ok (f : list Z) (peer : sockaddr_in) (n : Z) : udp_input → Prop :=
  | in_foreign bs src : src ≠ peer → input_ok f peer n (Some (bs, src))
  | in_data k : 0 ≤ k < n → input_ok f peer n (data_input f peer k)
  | in_garbled k i x b :
      0 ≤ k < n → data_packet k (chunk f k) !! i = Some x → is_byte b → b ≠ x →
      input_ok f peer n (Some (<[i := b]> (data_packet k (chunk f k)), peer)).

Lemma cut_datagram_short bs : Z.of_nat (length bs) ≤ 1040 → cut_datagram bs = bs.
Proof. intros. unfold cut_datagram, max_udp_packet_size, CHUNK_SIZE. apply take_ge. lia. Qed.

Lemma length_data_packet f k :
  in_width 32 k → 16 ≤ Z.of_nat (length (data_packet k (chunk f k))) ≤ 1040.
Proof.
  intros Hk. pose proof (length_chunk_le f k) as Hle. unfold CHUNK_SIZE in Hle. unfold data_packet.
  rewrite length_seal; [lia|]. apply data_header_fits; [done|unfold in_width; lia].
Qed.

(** What an iteration of the loop keeps: the receiver is related to the file,
    its base only grows, the network only gets more. *)
Definition download_keeps (f : list Z) (n base : Z) (e : sr_env) (r' : sr_receiver_t) (e' : sr_env) : Prop :=
  (∃ R', receiver_rel f r' R') ∧ r_num_chunks r' = n ∧ base ≤ r_base r' ∧
  ∃ got, env_net e' = env_net e ++ got.

(** The packet of a chunk at or below the base moves the base past it. *)
Lemma download_data f peer k pkts r R e :
  receiver_rel f r R → 0 ≤ k < r_num_chunks r → sr_receiver_is_complete r = false →
  ∃ r' e', download_loop peer (data_input f peer k :: pkts) r e = download_loop peer pkts r' e' ∧
    download_keeps f (r_num_chunks r) (r_base r) e r' e' ∧ (k ≤ r_base r → k < r_base r').
Proof.
  intros Hrel Hk Hinc. cbn [download_loop data_input]. rewrite Hinc.
  pose proof (receiver_num_max _ _ _ (proj1 Hrel)) as Hmax.
  rewrite bool_decide_eq_true_2 by done. cbn [negb].
  pose proof (length_data_packet f k) as Hl. rewrite cut_datagram_short by (apply Hl; unfold in_width; lia).
  destruct (handle_data_spec f r R k e Hrel) as (base' & w' & buf' & n' & e' & -> & Hrel' & Hle & Hs); [lia|].
  bind_step. eexists _, e'. split; [done|]. split.
  - split_and!; [by eexists|done|done|]. destruct Hs as (got & _ & -> & _). by exists got.
  - intros Hkb. simpl. destruct (decide (k = base')) as [->|]; [|lia]. exfalso.
    apply (proj2 Hrel'). simpl. unfold data_effect. rewrite decide_True by (unfold WINDOW_SIZE; lia). set_solver.
Qed.

Lemma download_step f peer n input pkts r R e :
  Forall is_byte f → receiver_rel f r R → r_num_chunks r = n → input_ok f peer n input →
  sr_receiver_is_complete r = false →
  ∃ r' e', download_loop peer (input :: pkts) r e = download_loop peer pkts r' e' ∧
    download_keeps f n (r_base r) e r' e'.
Proof.
  intros Hb Hrel Hn Hin Hinc.
  assert (download_keeps f n (r_base r) e r e) as Hsame
    by (split_and!; [by exists R|done|done|exists []; by rewrite app_nil_r]).
  destruct Hin as [bs src Hsrc|k Hk|k i x b Hk Hi Hbb Hne].
  - exists r, e. split; [|done]. cbn [download_loop]. rewrite Hinc.
    by rewrite bool_decide_eq_false_2 by done.
  - destruct (download_data f peer k pkts r R e) as (r' & e' & ? & Hkeep & _); [done|lia|done|].
    rewrite Hn in Hkeep. by exists r', e'.
  - exists r, e. split; [|done]. cbn [download_loop]. rewrite Hinc, bool_decide_eq_true_2 by done.
    cbn [negb]. pose proof (receiver_num_max _ _ _ (proj1 Hrel)).
    assert (in_width 32 k) as Hkw by (unfold in_width; lia).
    destruct (length_data_packet f k Hkw) as [Hl1 Hl2]. rewrite cut_datagram_short by (rewrite length_insert; lia).
    destruct (data_packet_facts f k Hb Hkw) as (Hok & Hbytes & Hlen).
    rewrite handle_data_reject; [done|rewrite length_insert; lia|].
    by eapply checksum_ok_one_byte.
Qed.

(** The loop on any such inputs: it never fails, what it completes is the
    file, and it does complete when the chunks from the base on arrive in
    order, whatever comes in between. *)
Lemma download_loop_spec f peer pkts r R e :
  Forall is_byte f → receiver_rel f r R → Forall (input_ok f peer (r_num_chunks r)) pkts →
  ∃ r' e' got, env_net e' = env_net e ++ got ∧ (∃ R', receiver_rel f r' R') ∧
    ((download_loop peer pkts r e = Some (DlComplete r' e') ∧ sr_receiver_is_complete r' = true) ∨
     (download_loop peer pkts r e = Some (DlWaiting r' e') ∧
      ∀ m, 0 ≤ m ≤ r_base r →
        ¬ (data_input f peer <$> seqZ m (r_num_chunks r - m)) `sublist_of` pkts)).
Proof.
  intros Hb Hrel Hall. remember (r_num_chunks r) as n eqn:Hn. revert r R e Hrel Hn.
  induction pkts as [|input pkts IH]; intros r R e Hrel Hn;
    destruct (sr_receiver_is_complete r) eqn:Hc.
  1,3: exists r, e, []; rewrite app_nil_r; split_and!; [done|by exists R|]; left; cbn [download_loop];
    by rewrite Hc.
  - exists r, e, []. rewrite app_nil_r. split_and!; [done|by exists R|]. right. cbn [download_loop].
    rewrite Hc. split; [done|]. intros m Hm Hs%sublist_nil_r.
    apply fmap_nil_inv, (f_equal length) in Hs. rewrite length_seqZ in Hs. simpl in Hs.
    unfold sr_receiver_is_complete in Hc. lia.
  - inversion_clear Hall as [|?? Hin Hall'].
    assert (∃ r' e', download_loop peer (input :: pkts) r e = download_loop peer pkts r' e' ∧
      download_keeps f n (r_base r) e r' e' ∧
      ∀ m, 0 ≤ m ≤ r_base r → input = data_input f peer m → m < n → m < r_base r')
      as (r' & e' & -> & ((R' & Hrel') & Hn' & Hle & got & Hgot) & Hpast).
    { destruct (decide (0 ≤ r_base r < n ∧ input = data_input f peer (r_base r))) as [[Hbn ->]|Hno].
      - destruct (download_data f peer (r_base r) pkts r R e) as (r' & e' & ? & Hkeep & Hp); [done|lia|done|].
        rewrite <-Hn in Hkeep. exists r', e'. split_and!; [done..|]. intros m Hm _ _. specialize (Hp ltac:(lia)). lia.
      - destruct (download_step f peer n input pkts r R e) as (r' & e' & ? & Hkeep); [done..|].
        exists r', e'. split_and!; [done..|]. intros m Hm -> Hmn. destruct Hkeep as (_ & _ & Hle & _).
        destruct (decide (m = r_base r)) as [->|]; [|lia]. exfalso. apply Hno. split; [lia|done]. }
    destruct (IH Hall' r' R' e') as (r2 & e2 & got2 & Hgot2 & HR2 & Hcase); [done|done|].
    exists r2, e2, (got ++ got2). split_and!; [by rewrite Hgot2, Hgot, app_assoc|done|].
    destruct Hcase as [?|[Hw Hno]]; [by left|right]. split; [done|]. intros m Hm Hs.
    destruct (decide (m < n)) as [Hmn|]; [|apply (Hno m ltac:(lia)); rewrite seqZ_nil by lia; apply sublist_nil_l].
    rewrite seqZ_cons in Hs by lia. rewrite fmap_cons in Hs.
    apply sublist_cons_l in Hs as (l1 & l2 & Heq & Hs). destruct l1 as [|i1 l1]; simplify_eq/=.
    + apply (Hno (Z.succ m)); [specialize (Hpast m Hm eq_refl Hmn); lia|].
      by replace (r_num_chunks r - Z.succ m) with (Z.pred (r_num_chunks r - m)) by lia.
    + apply (Hno m); [lia|]. rewrite seqZ_cons by lia. rewrite fmap_cons.
      apply sublist_inserts_l. by apply sublist_skip.
Qed.

(** ** get: from the location to the file *)

Definition start_body (size : Z) : udp_file_start_t :=
  {| fs_file_size := htonl size; fs_num_chunks := htonl (chunks_of size) |}.

Lemma file_start_seal size :
  0 ≤ size < max_file → file_start size = seal file_start_header (to_bytes (start_body size)).
Proof.
  unfold max_file. intros Hs. pose proof (chunks_of_max size) as Hc. unfold max_file in Hc.
  unfold file_start, start_body. rewrite Z.quot_div_nonneg by (unfold CHUNK_SIZE; lia).
  change ((size + CHUNK_SIZE - 1) `div` CHUNK_SIZE) with (chunks_of size).
  rewrite !u32_small by lia. done.
Qed.

Lemma header16_fits (h : udp_header_t) t len :
  h = {| uh_msg_type := t; uh_flags := 0; uh_checksum := 0; uh_seq_num := 0; uh_ack_num := 0;
         uh_data_len := htons len; uh_window := htons WINDOW_SIZE |} →
  is_byte t → in_width 16 len → fits h.
Proof.
  intros -> Ht Hl. apply udp_header_fits; cbn [uh_msg_type uh_flags uh_checksum uh_seq_num uh_ack_num
    uh_data_len uh_window]; first [done|by apply (hton_range 2)].
Qed.

Lemma start_body_facts size :
  0 ≤ size < max_file →
  fits (start_body size) ∧ Z.of_nat (length (to_bytes (start_body size))) = 8 ∧ fits file_start_header.
Proof.
  unfold max_file. intros Hs. pose proof (chunks_of_max size) as Hc. unfold max_file in Hc.
  assert (fits (start_body size)) as Hf.
  { split; apply (hton_range 4); try lia; unfold in_width; lia. }
  split_and!; [done|by rewrite length_to_bytes|by eapply header16_fits].
Qed.

(** The three fields the receiver of a sealed packet reads. *)
Lemma start_packet_facts size :
  0 ≤ size < max_file →
  let p := seal file_start_header (to_bytes (start_body size)) in
  Z.of_nat (length p) = 24 ∧
  (∃ hdr tmp, cast udp_header_t p 0 = Some hdr ∧ zero_checksum p = Some tmp ∧
     verify_checksum tmp (uh_checksum hdr) = true ∧ uh_msg_type hdr = UDP_FILE_START ∧
     ntohs (uh_data_len hdr) = 8) ∧
  cast udp_file_start_t p 16 = Some (start_body size).
Proof.
  intros Hs p. destruct (start_body_facts size Hs) as (Hf & Hl & Hhf).
  destruct (seal_valid file_start_header (to_bytes (start_body size)) Hhf) as [Hcast Hzero].
  split_and!.
  - unfold p. rewrite length_seal by done. lia.
  - eexists _, _. split; [exact Hcast|]. split; [exact Hzero|]. split_and!; [|done|by apply ntohs_htons].
    unfold verify_checksum. cbn [set_checksum uh_checksum]. apply Z.eqb_refl.
  - unfold p, seal. rewrite <-(app_nil_r (to_bytes (start_body size))) at 2.
    apply cast_to_bytes; [done|]. rewrite length_to_bytes; [done|].
    apply set_checksum_fits; [done|]. apply calculate_checksum_range.
Qed.

(** Saving a complete download. *)
Lemma save_file_verified f h name a r R st :
  receiver_rel f r R → sr_receiver_is_complete r = true → digest f = h → length h = 32%nat →
  ga_ctx a = true → ga_open a = true → ga_written a = Z.of_nat (length f) →
  save_file digest h name a r st = Some (0, set_fs (<[name := f]> (fs st)) st).
Proof.
  intros Hrel Hc Hd Hl Hctx Hopen Hw. unfold save_file. rewrite (receiver_file f r R) by done.
  bind_step. rewrite mread_Some by lia. bind_step.
  rewrite Nat2Z.id, drop_0, (take_ge f (length f)) by lia. rewrite Hctx. unfold compute_sha256.
  cbn [negb]. rewrite mread_Some by (rewrite ?Hd; lia). bind_step.
  rewrite drop_0, Hd, (take_ge h) by (rewrite Hl; simpl; lia).
  rewrite bool_decide_eq_true_2, Hopen, Hw by done. cbn [negb]. by rewrite Nat2Z.id, take_ge by lia.
Qed.

(** A peer that sends the announcement of [f], then its chunks, in order but
    among any other inputs of [input_ok]. *)
Definition serves (f : list Z) (peer : sockaddr_in) (pkts : list udp_input) : Prop :=
  let n := chunks_of (Z.of_nat (length f)) in
  ∃ inputs, pkts = Some (file_start (Z.of_nat (length f)), peer) :: inputs ∧
    Forall (input_ok f peer n) inputs ∧
    (data_input f peer <$> seqZ 0 n) `sublist_of` inputs.

Definition answers_for (f : list Z) (a : get_answers) : Prop :=
  (∃ block, ga_block a = Some block ∧ length block = length f) ∧
  ga_ctx a = true ∧ ga_open a = true ∧ ga_written a = Z.of_nat (length f) ∧ ga_sendto a = 52.

(** [get_transfer] on the announcement of [f]: the loop of the receiver. *)
Lemma get_transfer_start f loc name peer a pkts st block :
  Z.of_nat (length f) < max_file → peer = {| sin_addr := loc_peer_ip loc; sin_port := loc_peer_port loc |} →
  ga_block a = Some block → length block = length f →
  ∃ r, receiver_rel f r ∅ ∧ r_peer_addr r = peer ∧
    get_transfer digest loc name peer a (Some (file_start (Z.of_nat (length f)), peer) :: pkts) st =
      (dl ← download_loop peer pkts r (env st);
       match dl with
       | DlFailed ret e => Some (Returned (ret, set_env e st))
       | DlWaiting _ e => Some (Blocked (set_env e st))
       | DlComplete r e =>
           '(ret, st) ← save_file digest (loc_hash loc) name a r (set_env e st);
           Some (Returned (ret, st))
       end).
Proof.
  intros Hmax Hpeer Hblock Hbl.
  destruct (start_packet_facts (Z.of_nat (length f))) as (Hl & (hdr & tmp & Hcast & Hzero & Hck & Hty & Hdl) & Hbody);
    [lia|]. rewrite <-file_start_seal in * by lia.
  unfold get_transfer. rewrite cut_datagram_short by lia. change (sizeof udp_header_t) with 16.
  rewrite Hl. cbn [Z.ltb Z.compare Pos.compare Pos.compare_cont]. rewrite Hcast. bind_step.
  rewrite Hdl. cbn [Z.add Pos.add Z.ltb Z.compare Pos.compare Pos.compare_cont].
  rewrite Hzero. bind_step. rewrite Hck, Hty. subst peer. cbn [sin_addr sin_port negb].
  rewrite !Z.eqb_refl. cbn [negb orb]. change (8 =? sizeof udp_file_start_t) with true. cbn [negb].
  rewrite Hbody. cbn [mbind option_bind start_body fs_file_size fs_num_chunks].
  pose proof (chunks_of_max (Z.of_nat (length f))) as Hcm. unfold max_file in *.
  rewrite !ntohl_htonl by lia. rewrite Hblock.
  set (peer := {| sin_addr := loc_peer_ip loc |}) in *. set (raw := {| r_udp_fd := 0 |}).
  destruct (receiver_init_rel f (ll_fd (env_link (env st))) peer raw block) as (r & -> & Hrel & Hp);
    [unfold max_file; lia|done|]. by exists r.
Qed.
Lemma get_transfer_spec f loc name peer a pkts st :
  Forall is_byte f → Z.of_nat (length f) < max_file → digest f = loc_hash loc →
  length (loc_hash loc) = 32%nat → peer = {| sin_addr := loc_peer_ip loc; sin_port := loc_peer_port loc |} →
  serves f peer pkts → answers_for f a →
  ∃ st', get_transfer digest loc name peer a pkts st = Some (Returned (0, st')) ∧
    fs st' = <[name := f]> (fs st) ∧ tcp_sock st' = tcp_sock st ∧
    ∃ acks, env_net (env st') = env_net (env st) ++ acks.
Proof.
  intros Hb Hmax Hd Hh Hpeer (inputs & -> & Hin & Hsub) ((block & Hblock & Hbl) & Hctx & Hopen & Hw & _).
  destruct (get_transfer_start f loc name peer a inputs st block) as (r & Hrel & _ & ->); [done..|].
  pose proof (rc_num _ _ _ (proj1 Hrel)) as Hnum. pose proof (rc_base _ _ _ (proj1 Hrel)) as Hbase.
  destruct (download_loop_spec f peer inputs r ∅ (env st)) as (r' & e' & got & Hgot & [R' Hrel'] & Hcase);
    [done|done|by rewrite Hnum|].
  destruct Hcase as [[-> Hc]|[_ Hno]].
  2:{ exfalso. apply (Hno 0); [lia|]. by rewrite Hnum, Z.sub_0_r. }
  bind_step. rewrite (save_file_verified f (loc_hash loc) name a r' R') by done.
  bind_step. eexists. split; [done|]. cbn. split_and!; [done..|]. by exists got.
Qed.

(** The location message of the directory, as the client reads it. *)
Definition location_of (d : dfile) (ip port : Z) : tcp_file_location_t := {|
  loc_file_id := htonl (df_id d); loc_file_size := htonl (df_size d); loc_hash := df_hash d;
  loc_peer_ip := ip; loc_peer_port := htons port; loc_filename := name_field (df_name d) |}.

Lemma location_bytes d ip port :
  dfile_ok d → in_width 32 ip → in_width 16 port →
  fits (location_of d ip port) ∧
  wire_reply (Location d (ip, port)) =
    frame TCP_FILE_LOCATION ERR_NONE (to_bytes (location_of d ip port)) ∧
  Z.of_nat (length (to_bytes (location_of d ip port))) = 302.
Proof.
  intros (Hid & Hsz & Hl & Hb & Hn & Hnl) Hip Hport.
  destruct (name_field_ok _ Hn Hnl) as (Hfl & Hfb & _).
  assert (fits (location_of d ip port)) as Hf.
  { split; [by apply (hton_range 4)|]. split; [by apply (hton_range 4)|]. split; [done|].
    split; [done|]. split; [by apply (hton_range 2)|done]. }
  split_and!; [done| |by rewrite length_to_bytes].
  unfold wire_reply. f_equal. unfold to_bytes, wire_ip.
  cbn [packed_layout tcp_file_location_packed l_iso l_pair l_enc location_of
    loc_file_id loc_file_size loc_hash loc_peer_ip loc_peer_port loc_filename].
  rewrite !field4_bytes. do 4 f_equal. f_equal. symmetry. by apply (store_hton 2).
Qed.

Lemma udp_request_length id h :
  in_width 32 id → length h = 32%nat → Forall is_byte h →
  Z.of_nat (length (udp_request id h)) = 52.
Proof.
  intros Hid Hl Hb. change (udp_request id h) with
    (seal udp_request_header (to_bytes {| urq_file_id := htonl id; urq_hash := h |})).
  rewrite length_seal by (by eapply header16_fits). rewrite length_to_bytes; [done|].
  split; [by apply (hton_range 4)|done].
Qed.

(** Everything before the first datagram. *)
Lemma get_request_spec d ip port rest a pkts st out :
  conn (tcp_sock st) out (wire_reply (Location d (ip, port)) ++ rest) →
  dfile_ok d → in_width 32 ip → in_width 16 port → ga_sendto a = 52 →
  let peer := {| sin_addr := ip; sin_port := htons port |} in
  ∃ t, conn t (out ++ wire_request (RequestFile (df_id d))) rest ∧
    get digest (df_id d) a pkts st =
      get_transfer digest (location_of d ip port) (df_name d) peer a pkts
        (set_env (env_send false {| dg_dest := peer; dg_bytes := udp_request (df_id d) (df_hash d) |}
                    (env st)) (set_tcp t st)).
Proof.
  intros Hconn Hok Hip Hport Hsend peer. destruct (location_bytes d ip port Hok Hip Hport) as (Hfits & Hw & Hwl).
  rewrite Hw in Hconn. unfold get.
  assert (to_bytes (request_header TCP_REQUEST_FILE (sizeof tcp_request_file_t)) ++
    to_bytes {| rq_file_id := htonl (df_id d) |} = wire_request (RequestFile (df_id d))) as ->.
  { unfold wire_request. rewrite frame_header by done. rewrite length_be32. f_equal. by apply (store_hton 4). }
  destruct (send_request_conn (wire_request (RequestFile (df_id d))) st out _ Hconn) as (t0 & -> & Ht0).
  cbn [mbind option_bind negb].
  destruct (recv_header_conn TCP_FILE_LOCATION ERR_NONE (to_bytes (location_of d ip port)) rest (set_tcp t0 st) _
    ltac:(done) ltac:(done) ltac:(lia) Ht0) as (hb & t1 & -> & Hhdr & Ht1).
  bind_step. rewrite Hhdr. cbn [mbind option_bind th_msg_type th_data_len].
  rewrite Hwl, ntohs_htons by lia. change (sizeof tcp_file_location_t) with 302.
  change (TCP_FILE_LOCATION =? TCP_ERROR) with false.
  change (TCP_FILE_LOCATION =? TCP_FILE_LOCATION) with true. cbn [negb Z.eqb Pos.eqb].
  destruct (recv_bytes_conn 302 _ rest (set_tcp t1 (set_tcp t0 st)) _ Ht1 Hwl) as (t2 & -> & Ht2).
  bind_step. exists t2. split; [exact Ht2|].
  pose proof (cast_to_bytes_0 (location_of d ip port) [] Hfits) as Hc. rewrite app_nil_r in Hc.
  rewrite Hc. bind_step. unfold get_from_peer.
  destruct Hok as (Hid & _ & Hl & Hb & Hn & Hnl). cbn [location_of loc_file_id loc_peer_ip loc_peer_port loc_filename loc_hash].
  rewrite ntohl_htonl, Z.eqb_refl, (ntohs_htons port) by done. cbn [negb].
  destruct (name_field_ok _ Hn Hnl) as (_ & _ & ->). bind_step.
  rewrite Hsend, udp_request_length by done. done.
Qed.

(** C17: downloading, end to end.  The directory answers with the location of a
    file of bytes [f] (below the size limit, with the hash of [f]), the owner
    announces it and its chunks arrive in order, among duplicates, packets with
    a changed byte and datagrams of strangers, in any number.  Then [get]
    returns 0, exactly [f] is saved under the name of the file and nothing else
    in the file system changes; the directory got the request for the
    identifier, and the first datagram sent is the request to the owner. *)
Theorem get_downloads_the_file d f ip port rest a pkts st out :
  conn (tcp_sock st) out (wire_reply (Location d (ip, port)) ++ rest) →
  dfile_ok d → in_width 32 ip → in_width 16 port →
  Forall is_byte f → Z.of_nat (length f) < max_file → digest f = df_hash d →
  let peer := {| sin_addr := ip; sin_port := htons port |} in
  serves f peer pkts → answers_for f a →
  ∃ st', get digest (df_id d) a pkts st = Some (Returned (0, st')) ∧
    fs st' = <[df_name d := f]> (fs st) ∧
    conn (tcp_sock st') (out ++ wire_request (RequestFile (df_id d))) rest ∧
    ∃ acks, env_net (env st') = env_net (env st) ++
      {| dg_dest := peer; dg_bytes := udp_request (df_id d) (df_hash d) |} :: acks.
Proof.
  intros Hconn Hok Hip Hport Hb Hmax Hd peer Hserves Hans.
  destruct (get_request_spec d ip port rest a pkts st out) as (t & Ht & ->); [done..|apply Hans|].
  destruct (get_transfer_spec f (location_of d ip port) (df_name d) peer a pkts
    (set_env (env_send false {| dg_dest := peer; dg_bytes := udp_request (df_id d) (df_hash d) |} (env st))
      (set_tcp t st))) as (st' & Hrun & Hfs & Htcp & acks & Hnet); [done..|apply Hok|done|done|done|].
  exists st'. split_and!; [done|done|by rewrite Htcp|]. exists acks. rewrite Hnet. cbn.
  by rewrite <-app_assoc.
Qed.

(** ** get: nothing else is saved *)

(** The file system is unchanged, or one file was written, whose data has the
    hash [h]. *)
Definition saves_only (a : get_answers) (h name : list Z) (ret : Z) (st st' : state) : Prop :=
  fs st' = fs st ∨
  ∃ data, digest data = h ∧ ret = 0 ∧
    fs st' = <[name := take (Z.to_nat (ga_written a)) data]> (fs st).

Lemma save_file_inv h name a r st ret st' :
  (∀ x, length (digest x) = 32%nat) → ga_ctx a = true →
  save_file digest h name a r st = Some (ret, st') → saves_only a h name ret st st'.
Proof.
  intros Hdig Hctx. unfold save_file. destruct (sr_receiver_get_file r) as [buf size].
  intros (b & -> & (data & Hrd & (ch & Hch & Hrun)%bind_Some)%bind_Some)%bind_Some.
  rewrite Hctx in Hch. unfold compute_sha256 in Hch. cbn [negb] in Hch.
  rewrite mread_Some in Hch by (rewrite ?Hdig; lia). rewrite drop_0 in Hch.
  rewrite take_ge in Hch by (rewrite Hdig; simpl; lia). injection Hch as <-.
  case_bool_decide as Heq; [|left; by simplify_eq].
  destruct (ga_open a); cbn [negb] in Hrun; simplify_eq; [|by left].
  right. by exists data.
Qed.

Lemma get_transfer_inv loc name peer a pkts st ret st' :
  (∀ x, length (digest x) = 32%nat) → ga_ctx a = true →
  get_transfer digest loc name peer a pkts st = Some (Returned (ret, st')) →
  saves_only a (loc_hash loc) name ret st st'.
Proof.
  intros Hdig Hctx. unfold get_transfer. destruct pkts as [|[[bs src]|] pkts]; [done| |].
  2:{ intros [= <- <-]. by left. }
  case_cond as E1; [by intros [= <- <-]; left|].
  intros (hdr & _ & Hrun)%bind_Some. case_match; [simplify_eq; by left|].
  apply bind_Some in Hrun as (tmp & _ & Hrun).
  repeat (case_match; [simplify_eq; by left|]).
  apply bind_Some in Hrun as (start & _ & Hrun).
  destruct (sr_receiver_init _ _ _ _ _ _ _) as [z [r|]]; [|destruct z; simplify_eq; by left].
  destruct z; [|simplify_eq; by left..].
  apply bind_Some in Hrun as (dl & _ & Hrun). destruct dl as [ret' e|r' e|r' e]; simplify_eq; [by left|].
  apply bind_Some in Hrun as ([ret' st2] & Hsave & [= <- <-]).
  apply save_file_inv in Hsave; [|done..]. exact Hsave.
Qed.

Lemma recv_bytes_inv len st r st' :
  0 ≤ len → stream_ok (tcp_sock st) → recv_bytes len st = Some (r, st') →
  fs st' = fs st ∧ stream_ok (tcp_sock st') ∧
  ∀ bs, r = Some bs → Z.of_nat (length bs) = len ∧
    received (tcp_sock st) = bs ++ received (tcp_sock st').
Proof.
  intros Hlen Hok. unfold recv_bytes.
  destruct (recv_all_total len (tcp_sock st) Hlen Hok) as (r0 & t' & -> & Hok' & _ & Hr).
  bind_step. intros [= <- <-]. by split_and!.
Qed.

(** C18: [get] verifies before it saves.  Provided OpenSSL gives
    [compute_sha256] a context, and whatever the server and the peers send: if
    the call returns and the file system has changed, the result is 0 and the
    change is one file, under the name of the location message the server sent
    for the identifier asked for.  The data received for it has the SHA-256
    hash of that message, and what is stored is as much of that data as
    [fwrite] took: all of it when [fwrite] wrote everything, and a prefix, still
    with result 0, when it did not (its result is not looked at). *)
Theorem get_saves_only_verified_files id a pkts st ret st' :
  (∀ x, length (digest x) = 32%nat) → ga_ctx a = true → stream_ok (tcp_sock st) →
  get digest id a pkts st = Some (Returned (ret, st')) →
  fs st' = fs st ∨
  ∃ hb bs rest loc name data,
    received (tcp_sock st) = hb ++ bs ++ rest ∧ Z.of_nat (length hb) = sizeof tcp_header_t ∧
    cast tcp_file_location_t bs 0 = Some loc ∧ ntohl (loc_file_id loc) = id ∧
    cstring (loc_filename loc) = Some name ∧ digest data = loc_hash loc ∧ ret = 0 ∧
    fs st' = <[name := take (Z.to_nat (ga_written a)) data]> (fs st) ∧
    (Z.of_nat (length data) ≤ ga_written a → fs st' = <[name := data]> (fs st)).
Proof.
  intros Hdig Hctx Hok. unfold get, send_request.
  destruct (send_all_spec (to_bytes (request_header TCP_REQUEST_FILE (sizeof tcp_request_file_t)) ++
    to_bytes {| rq_file_id := htonl id |}) (tcp_sock st)) as (ok & t0 & k & -> & Hin & _).
  bind_step. destruct ok; cbn [negb]; [|intros [= <- <-]; by left].
  assert (stream_ok t0) as Hok0 by (unfold stream_ok in *; by rewrite Hin).
  intros ([r1 st1] & Hr1 & Hrun)%bind_Some.
  apply recv_bytes_inv in Hr1 as (Hfs1 & Hok1 & Hb1); [|done|done]. cbn [fs set_tcp tcp_sock] in *.
  destruct r1 as [hb|]; [|simplify_eq; by left]. destruct (Hb1 hb eq_refl) as [Hlh Hrec1].
  apply bind_Some in Hrun as (hdr & _ & Hrun). repeat (case_match; [simplify_eq; by left|]).
  apply bind_Some in Hrun as ([r2 st2] & Hr2 & Hrun).
  apply recv_bytes_inv in Hr2 as (Hfs2 & _ & Hb2); [|done|done].
  destruct r2 as [bs|]; [|simplify_eq; left; congruence]. destruct (Hb2 bs eq_refl) as [_ Hrec2].
  apply bind_Some in Hrun as (loc & Hcast & Hrun). unfold get_from_peer in Hrun.
  destruct (Z.eqb_spec id (ntohl (loc_file_id loc))) as [Hid|]; cbn [negb] in Hrun; [|simplify_eq; left; congruence].
  apply bind_Some in Hrun as (name & Hname & Hrun). repeat (case_match; [simplify_eq; left; simpl; congruence|]).
  destruct (get_transfer_inv _ _ _ _ _ _ _ _ Hdig Hctx Hrun) as [Hsame|(data & Hd & Hret & Hfs)];
    cbn [fs set_env] in *; [left; congruence|right].
  exists hb, bs, (received (tcp_sock st2)), loc, name, data. split_and!; try done.
  - unfold received in *. rewrite <-Hin, Hrec1, Hrec2. done.
  - by rewrite Hfs, Hfs2, Hfs1.
  - intros Hw. rewrite Hfs, Hfs2, Hfs1. by rewrite take_ge by lia.
Qed.

(** ** Serving a peer *)

(** A request packet: any header of the right type and length, whatever its
    checksum field holds, and the identifier and hash. *)
Definition request_packet (hdr : udp_header_t) (id : Z) (h : list Z) : list Z :=
  to_bytes hdr ++ to_bytes {| urq_file_id := htonl id; urq_hash := h |}.

Definition request_packet_ok (hdr : udp_header_t) (id : Z) (h : list Z) : Prop :=
  fits hdr ∧ uh_msg_type hdr = UDP_REQUEST_FILE ∧ ntohs (uh_data_len hdr) = 36 ∧
  in_width 32 id ∧ length h = 32%nat ∧ Forall is_byte h.

(** Every check of the UDP branch up to the table. *)
Lemma handle_udp_request hdr id h peer a st :
  request_packet_ok hdr id h →
  handle_udp (Some (request_packet hdr id h, peer)) a st =
    (found ← ShareTable.find_shared_file_by_id id (table st);
     match found with
     | None => Some (true, st)
     | Some k =>
         file ← ShareTable.table (table st) !! k;
         if negb (bool_decide (ShareTable.hash file = h)) then Some (true, st)
         else start_upload peer file a st
     end).
Proof.
  intros (Hf & Hty & Hdl & Hid & Hl & Hb). set (req := {| urq_file_id := htonl id; urq_hash := h |}).
  assert (fits req) as Hfr by (split; [by apply (hton_range 4)|done]).
  assert (Z.of_nat (length (request_packet hdr id h)) = 52) as Hlen
    by (unfold request_packet; rewrite length_app, Nat2Z.inj_add, !length_to_bytes by done; done).
  unfold handle_udp. rewrite cut_datagram_short by lia. rewrite Hlen.
  change (52 =? 0) with false. change (52 <? sizeof udp_header_t) with false. cbn iota.
  unfold request_packet. rewrite cast_to_bytes_0 by done. bind_step. rewrite Hty.
  change (UDP_REQUEST_FILE =? UDP_REQUEST_FILE) with true.
  change (52 <? sizeof udp_header_t + sizeof udp_request_file_t) with false. cbn iota.
  rewrite Hdl. change (36 =? sizeof udp_request_file_t) with true. cbn [negb].
  pose proof (cast_to_bytes req (to_bytes hdr) [] (sizeof udp_header_t) Hfr) as Hc.
  rewrite app_nil_r in Hc. fold req. rewrite Hc by (by rewrite length_to_bytes).
  cbn [mbind option_bind urq_file_id urq_hash req]. by rewrite ntohl_htonl.
Qed.

(** The same for an acknowledgement: only a running upload looks at it. *)
Lemma handle_udp_ack k src a st :
  in_width 32 k →
  ∃ hdr, uh_msg_type hdr = UDP_ACK ∧ ntohl (uh_ack_num hdr) = k ∧
    handle_udp (Some (build_ack_packet k, src)) a st =
      if transfer_active st then
        '(_, s, e) ← sr_sender_handle_ack (global_sender st) hdr (env st);
        Some (false, set_upload s (global_file_buffer st) true (set_env e st))
      else Some (false, st).
Proof.
  intros Hw. destruct (ack_packet_facts k Hw) as (hdr & Hcast & Hty & Hack). exists hdr. split_and!; [done|done|].
  assert (Z.of_nat (length (build_ack_packet k)) = 16) as Hlen
    by (rewrite build_ack_packet_spec, length_seal by (by apply ack_header_fits); done).
  unfold handle_udp. rewrite cut_datagram_short by lia. rewrite Hlen.
  change (16 =? 0) with false. change (16 <? sizeof udp_header_t) with false. cbn iota.
  rewrite Hcast. bind_step. by rewrite Hty.
Qed.

Definition serves_file (f : list Z) (a : serve_answers) : Prop :=
  0 < va_sendto a ∧ ∃ block, length block = length f ∧
  va_read a = {| ra_open := true; ra_tell := Z.of_nat (length f); ra_block := Some block; ra_bytes := f |}.

Lemma start_upload_spec f peer file a st :
  Z.of_nat (length f) < max_file → name_ok (ShareTable.file_name file) → serves_file f a →
  ∃ s e, start_upload peer file a st = Some (false, set_upload s (Some f) true (set_env e st)) ∧
    sender_rel f s ∅ ∧ s_peer_addr s = peer ∧
    sends (data_dg f peer <$> seqZ 0 (WINDOW_SIZE `min` chunks_of (Z.of_nat (length f))))
      (env_send false {| dg_dest := peer; dg_bytes := file_start (Z.of_nat (length f)) |} (env st)) e ∧
    s_next_seq s = WINDOW_SIZE `min` chunks_of (Z.of_nat (length f)) ∧
    (∀ k, 0 ≤ k < s_next_seq s → ∃ data, s_window s !! slot k = Some (fresh_entry f (va_now a) k data)).
Proof.
  intros Hmax (_ & _ & [nm Hnm]) (Hsend & block & Hbl & Hread). unfold start_upload.
  rewrite Hnm. bind_step. rewrite Hread. cbn [ra_open ra_tell ra_block ra_bytes negb].
  rewrite (proj2 (Z.leb_gt _ _)) by lia. rewrite mwrite_Some by lia. bind_step.
  rewrite Z.eqb_refl. change (Z.to_nat 0) with 0%nat. cbn [negb Nat.add].
  rewrite take_0, app_nil_l, (drop_ge block), app_nil_r by lia.
  unfold max_file in *. rewrite u32_small by lia.
  set (e0 := env_send false {| dg_dest := peer; dg_bytes := file_start (Z.of_nat (length f)) |} (env st)).
  cbn [env set_env global_sender].
  destruct (sender_init_rel f (ll_fd (env_link e0)) peer (global_sender st)) as (s & -> & Hrel & Hp & Hnx);
    [unfold max_file; lia|].
  destruct (send_window_spec (va_now a) f s ∅ e0 Hrel) as (w' & e & -> & Hrel' & Hsends & _ & Hnew).
  bind_step. eexists _, e. split; [done|]. rewrite Hnx, Hp, Z.sub_0_r in *.
  assert (s_base s = 0) as Hbase.
  { pose proof (sc_base _ _ _ (proj1 Hrel)). pose proof (sc_next _ _ _ (proj1 Hrel)). lia. }
  assert (send_limit s = WINDOW_SIZE `min` chunks_of (Z.of_nat (length f))) as Hlim
    by (unfold send_limit; by rewrite Hbase, (sc_num _ _ _ (proj1 Hrel))).
  rewrite Hlim in *. by split_and!.
Qed.

(** The table decides. *)
Lemma handle_udp_lookup hdr id h peer a st :
  ShareTable.wf (table st) → request_packet_ok hdr id h →
  handle_udp (Some (request_packet hdr id h, peer)) a st =
    match ShareTable.lookup_id id (ShareTable.entries (table st)) with
    | Some file => if bool_decide (ShareTable.hash file = h) then start_upload peer file a st
                   else Some (true, st)
    | None => Some (true, st)
    end.
Proof.
  intros (Hl & Hn & Hall) Hok. rewrite handle_udp_request by done.
  unfold ShareTable.find_shared_file_by_id, ShareTable.lookup_id.
  destruct (scan_cases (λ f, ShareTable.file_id f =? id) (ShareTable.table (table st))
    (ShareTable.num_files (table st))) as [[-> Hno]|(k & file & -> & Hk & Hfile & _ & Hsome)]; [by rewrite Hl| |];
    change (take (ShareTable.num_files (table st)) (ShareTable.table (table st)))
      with (ShareTable.entries (table st)) in *; bind_step; [by rewrite Hno|].
  rewrite Hsome, Hfile. bind_step. by case_bool_decide.
Qed.

(** What the search finds is the entry the identifier designates. *)
Lemma found_lookup_id id t k file :
  ShareTable.wf t → ShareTable.find_shared_file_by_id id t = Some (Some k) →
  ShareTable.table t !! k = Some file → ShareTable.lookup_id id (ShareTable.entries t) = Some file.
Proof.
  intros (Hl & Hn & _) Hfound Hfile. unfold ShareTable.find_shared_file_by_id, ShareTable.lookup_id in *.
  destruct (scan_cases (λ f, ShareTable.file_id f =? id) (ShareTable.table t) (ShareTable.num_files t))
    as [[Hs _]|(j & file' & Hs & _ & Hfile' & _ & Hsome)]; [by rewrite Hl|congruence|].
  unfold ShareTable.entries. congruence.
Qed.

Lemma lookup_id_name_ok id file st :
  ShareTable.wf st → ShareTable.lookup_id id (ShareTable.entries st) = Some file →
  name_ok (ShareTable.file_name file).
Proof.
  intros (_ & _ & Hall) Hsome. apply first_match_Some in Hsome as (j & Hj & _).
  apply (Forall_lookup_1 _ _ _ _ Hall Hj).
Qed.

(** C20: serving a peer.  A request for an identifier of the table with the
    hash stored there starts an upload: the owner announces the file with
    exactly the packet [get] expects, sends the first window of its chunks
    through the lossy link and leaves a sender for the file on which every
    theorem about transfers applies.  A request for an unknown identifier, or
    with another hash, is refused and changes nothing.  (The checksum of the
    request is not looked at.) *)
Theorem request_starts_upload hdr id h f peer a st :
  ShareTable.wf (table st) → request_packet_ok hdr id h →
  Z.of_nat (length f) < max_file → serves_file f a →
  match ShareTable.lookup_id id (ShareTable.entries (table st)) with
  | Some file =>
      if bool_decide (ShareTable.hash file = h) then
        ∃ s e, handle_udp (Some (request_packet hdr id h, peer)) a st
            = Some (false, set_upload s (Some f) true (set_env e st)) ∧
          sender_rel f s ∅ ∧ s_peer_addr s = peer ∧
          sends (data_dg f peer <$> seqZ 0 (WINDOW_SIZE `min` chunks_of (Z.of_nat (length f))))
            (env_send false {| dg_dest := peer; dg_bytes := file_start (Z.of_nat (length f)) |} (env st)) e
      else handle_udp (Some (request_packet hdr id h, peer)) a st = Some (true, st)
  | None => handle_udp (Some (request_packet hdr id h, peer)) a st = Some (true, st)
  end.
Proof.
  intros Hwf Hok Hmax Hserves. rewrite handle_udp_lookup by done.
  destruct (ShareTable.lookup_id id _) as [file|] eqn:Hsome; [|done]. case_bool_decide; [|done].
  destruct (start_upload_spec f peer file a st) as (s & e & ? & ? & ? & ? & _);
    [done|by eapply lookup_id_name_ok|done|by exists s, e].
Qed.

(** C31: the running upload at the end of an iteration.  The step is defined at
    any clock readings, touches only the upload and the UDP side, and leaves
    either the transfer running on the same file with work to do, or no
    transfer and the buffer released: because every chunk was acknowledged, or
    because a packet had used up its retries. *)
Theorem upload_tick_ends_or_continues f A now curr_ms st :
  transfer_active st = true → sender_rel f (global_sender st) A →
  ∃ st', upload_tick now curr_ms st = Some st' ∧
    tcp_sock st' = tcp_sock st ∧ table st' = table st ∧ fs st' = fs st ∧
    sender_rel f (global_sender st') A ∧ env_net (env st) ⊆ env_net (env st') ∧
    if transfer_active st'
    then sr_sender_is_complete (global_sender st') = false ∧
         global_file_buffer st' = global_file_buffer st
    else global_file_buffer st' = None ∧
      (A = upto (s_num_chunks (global_sender st')) ∨
       ∃ k e, s_base (global_sender st') ≤ k < s_next_seq (global_sender st') ∧
         s_window (global_sender st') !! slot k = Some e ∧ se_retries e = MAX_RETRIES).
Proof.
  intros Hact Hrel. unfold upload_tick. rewrite Hact. cbn [negb].
  destruct (send_window_spec now f _ A (env st) Hrel) as (w1 & e1 & -> & Hrel1 & Hs1 & _).
  bind_step. set (s1 := upd_sender (global_sender st) _ _ w1 _) in *.
  destruct (check_timeouts_spec curr_ms f s1 A e1 Hrel1) as (w2 & e2 & Hrun & Hrel2 & Hs2 & Hw).
  rewrite Hrun. bind_step. set (s2 := upd_sender s1 _ _ w2 _) in *.
  assert (env_net (env st) ⊆ env_net e2) as Hmono
    by (etransitivity; [by eapply sends_mono|by eapply sends_mono]).
  destruct (complete_spec f s2 A Hrel2) as [Hdone _].
  destruct (existsb (exhausted (s_window s1)) _) eqn:Hex.
  - eexists. split; [done|]. cbn. split_and!; try done. right.
    apply existsb_exists in Hex as (k & [Hk Hdue]%filter_In & Hexh). apply list_elem_of_In, elem_of_seqZ in Hk.
    unfold exhausted in Hexh. destruct (s_window s1 !! slot k) as [e|] eqn:He; [|done].
    exists k, e. split; [simpl in *; lia|].
    assert (s_window s2 !! slot k = Some e) as Hw2.
    { change (s_window s2) with w2. rewrite Hw by lia. rewrite decide_False; [done|].
      intros Hne%before_not. unfold exhausted in Hne. by rewrite He, Hexh in Hne. }
    split; [done|]. pose proof (sc_next _ _ _ (proj1 Hrel2)) as Hnx.
    destruct (sc_slots _ _ _ (proj1 Hrel2) k) as (e' & He' & _ & Hrest); [simpl in *; lia|].
    rewrite Hw2 in He'. injection He' as <-.
    rewrite decide_True in Hrest by (change (k < s_next_seq s1); lia).
    destruct Hrest as (_ & _ & _ & Hr & _). lia.
  - rewrite (proj2 (Z.ltb_ge _ _)) by lia.
    destruct (sr_sender_is_complete s2) eqn:Hc; (eexists; split; [done|]); cbn; split_and!; try done.
    left. by apply Hdone.
Qed.
End spec.

(** ** A concrete client, for the witnesses *)

Module ClientExample.
#[local] Instance host : Host := LittleEndian.

(** A stand-in for SHA-256: 32 bytes. *)
Definition digest (_ : list Z) : list Z := replicate 32 9.
Definition file : list Z := [104; 105; 10].
Definition d0 : dfile := {|
  df_id := 7; df_size := 3; df_hash := replicate 32 9; df_name := [97; 98]; df_owner := 1 |}.
Definition peer : sockaddr_in := {| sin_addr := 16777343; sin_port := htons 7000 |}.

(** A connection on which [bs] arrives, cut after its third byte. *)
Definition stream (bs : list Z) : tcp :=
  {| t_in := [take 3 bs; drop 3 bs]; t_fail := false; t_accepts := []; t_out := [] |}.

Definition start (bs : list Z) : state := {|
  tcp_sock := stream bs; table := ShareTable.init;
  env := {| env_link := lossy_init 4 no_loss 1; env_stats := stats_init; env_net := [] |};
  fs := ∅; global_sender := default SRSender.SenderExample.raw None; global_file_buffer := None;
  transfer_active := false; running := true |}.

Lemma start_conn bs : (4 ≤ length bs)%nat → conn (tcp_sock (start bs)) [] (bs ++ []).
Proof.
  intros Hl. split_and!; [|done|done|].
  - apply Forall_cons_2; [|apply Forall_cons_2; [|apply Forall_nil_2]];
      intros He%(f_equal length); rewrite ?length_take, ?length_drop in He; cbn [length] in He; lia.
  - unfold received. simpl. by rewrite !app_nil_r, take_drop.
Qed.

Definition share_a : share_answers := {|
  sa_read := {| ra_open := true; ra_tell := 3; ra_block := Some [0; 0; 0]; ra_bytes := file |};
  sa_ctx := true; sa_stack := [] |}.

Lemma name_bytes : Forall (λ c, is_byte c ∧ c ≠ 0) [97; 98].
Proof. repeat constructor; done. Qed.

Lemma d0_ok : dfile_ok d0.
Proof. split_and!; try done; [by apply Forall_replicate|apply name_bytes|simpl; lia]. Qed.

Lemma share_announces_and_records_witness :
  ∃ st', share digest (Some [97; 98]) share_a (start (wire_reply (ShareAck 7))) = Some (0, st') ∧
    t_out (tcp_sock st') = wire_request (Share 3 (replicate 32 9) [97; 98]).
Proof.
  destruct (share_announces_and_records digest [97; 98] file [0; 0; 0] [] 7 []
    (start (wire_reply (ShareAck 7))) []) as (st' & Hrun & (_ & _ & Ho & _) & _).
  - apply start_conn. vm_compute. lia.
  - by vm_compute.
  - apply name_bytes.
  - simpl. lia.
  - reflexivity.
  - by vm_compute.
  - reflexivity.
  - by apply Forall_replicate.
  - apply ShareTable.table_init_wf.
  - simpl. unfold ShareTable.MAX_SHARED_FILES. lia.
  - reflexivity.
  - exists st'. split; [exact Hrun|exact Ho].
Defined.

Lemma registration_handshake_witness :
  ∃ st', register_client 7000 (start (wire_reply (RegisterAck 5))) = Some (Some 5, st').
Proof.
  destruct (registration_handshake 7000 5 [] (start (wire_reply (RegisterAck 5))) [])
    as (st' & Hrun & _).
  - apply start_conn. vm_compute. lia.
  - by vm_compute.
  - by vm_compute.
  - exists st'. exact Hrun.
Defined.

Lemma list_prints_directory_witness :
  ∃ st', list_files true (start (wire_reply (FileList [d0]))) = Some (0, [(7, [97; 98], 3, 1)], st').
Proof.
  destruct (list_prints_directory [d0] [] (start (wire_reply (FileList [d0]))) []) as (st' & Hrun & _).
  - apply start_conn. vm_compute. lia.
  - constructor; [apply d0_ok|constructor].
  - simpl. lia.
  - exists st'. exact Hrun.
Defined.

Definition get_a : get_answers := {|
  ga_sendto := 52; ga_block := Some [1; 2; 3]; ga_ctx := true; ga_stack := []; ga_open := true;
  ga_written := 3 |}.

(** A stranger's datagram arrives before the only chunk. *)
Definition inputs : list udp_input :=
  [Some ([1; 2], {| sin_addr := 1; sin_port := 2 |}); data_input file peer 0].
Definition pkts : list udp_input := Some (file_start 3, peer) :: inputs.
Definition get_start : state := start (wire_reply (Location d0 (16777343, 7000))).

Lemma file_bytes : Forall is_byte file.
Proof. repeat constructor; done. Qed.

Lemma pkts_serve : serves file peer pkts.
Proof.
  exists inputs. split; [done|]. split.
  - constructor; [by apply in_foreign|]. constructor; [by apply in_data; vm_compute|constructor].
  - change (seqZ 0 (chunks_of (Z.of_nat (length file)))) with [0]. simpl.
    apply sublist_cons, sublist_skip. constructor.
Qed.

Lemma get_downloads_the_file_witness :
  ∃ st', get digest 7 get_a pkts get_start = Some (Returned (0, st')) ∧ fs st' = <[[97; 98] := file]> ∅.
Proof.
  destruct (get_downloads_the_file digest d0 file 16777343 7000 [] get_a pkts get_start [])
    as (st' & Hrun & Hfs & _).
  - apply start_conn. vm_compute. lia.
  - apply d0_ok.
  - by vm_compute.
  - by vm_compute.
  - apply file_bytes.
  - by vm_compute.
  - reflexivity.
  - apply pkts_serve.
  - split; [by exists [1; 2; 3]|done].
  - exists st'. split; [exact Hrun|exact Hfs].
Defined.

Definition get_end : state :=
  match get digest 7 get_a pkts get_start with Some (Returned (_, st)) => st | _ => get_start end.

Lemma get_saves_only_verified_files_witness :
  fs get_end = fs get_start ∨ ∃ loc data, digest data = loc_hash loc ∧ ntohl (loc_file_id loc) = 7.
Proof.
  destruct (get_saves_only_verified_files digest 7 get_a pkts get_start 0 get_end) as
    [Hs|(hb & bs & rest & loc & name & data & _ & _ & _ & Hid & _ & Hd & _)].
  - intros x. reflexivity.
  - reflexivity.
  - repeat constructor; by vm_compute.
  - vm_compute. reflexivity.
  - left. exact Hs.
  - right. exists loc, data. split; [exact Hd|exact Hid].
Defined.

(** A client that shares the file and gets a request for it. *)
Definition owner_table : ShareTable.state :=
  default ShareTable.init
    (ShareTable.add_shared_file 7 3 (replicate 32 9) [97; 98; 0] ShareTable.init).
Definition owner : state := set_table owner_table (start []).
Definition serve_a : serve_answers := {|
  va_read := {| ra_open := true; ra_tell := 3; ra_block := Some [0; 0; 0]; ra_bytes := file |};
  va_sendto := 24; va_now := 1000 |}.

Lemma owner_wf : ShareTable.wf owner_table.
Proof.
  destruct (ShareTable.add_spec ShareTable.init 7 3 (replicate 32 9) [97; 98; 0]) as (t & Ht & Hwf & _).
  - apply ShareTable.table_init_wf.
  - reflexivity.
  - repeat constructor; done.
  - by exists [97; 98].
  - unfold owner_table. by rewrite Ht.
Qed.

Lemma request_ok7 : request_packet_ok udp_request_header 7 (replicate 32 9).
Proof.
  split; [by eapply header16_fits|]. split; [done|]. split; [by vm_compute|]. split; [done|].
  split; [done|]. by apply Forall_replicate.
Qed.

Lemma serves_file3 : serves_file file serve_a.
Proof. split; [done|]. by exists [0; 0; 0]. Qed.

Lemma request_starts_upload_witness :
  ∃ s e, handle_udp (Some (request_packet udp_request_header 7 (replicate 32 9), peer)) serve_a owner
    = Some (false, set_upload s (Some file) true (set_env e owner)) ∧ sender_rel file s ∅.
Proof.
  destruct (request_starts_upload udp_request_header 7 (replicate 32 9) file peer serve_a owner
    owner_wf request_ok7) as (s & e & Hrun & Hrel & _).
  - by vm_compute.
  - apply serves_file3.
  - exists s, e. split; [exact Hrun|exact Hrel].
Defined.

Definition uploading : state :=
  set_upload SRSender.SenderExample.s1 (Some SRSender.SenderExample.file) true owner.

Lemma upload_tick_ends_or_continues_witness :
  ∃ st', upload_tick 1000 1200 uploading = Some st' ∧ fs st' = ∅.
Proof.
  destruct (upload_tick_ends_or_continues SRSender.SenderExample.file ∅ 1000 1200 uploading)
    as (st' & Hrun & _ & _ & Hfs & _).
  - reflexivity.
  - apply SRSender.SenderExample.s1_rel.
  - exists st'. split; [exact Hrun|exact Hfs].
Defined.
End ClientExample.
