(* ===== verification/Peers.v ===== *)
(** * Two clients: one downloads, the other uploads

    [get] of one client and the event loop of another, composed over UDP.
    [get] is a function of the datagrams that have arrived, so the downloading
    client is represented by its inbox: what it has sent so far is the network
    of the call on that inbox, which waits for more or has returned.  The
    owner of the file runs one iteration of its loop per datagram.

    [exchange_round] delivers what each side has sent since the last round;
    over links that lose nothing the exchange ends with the file saved and the
    upload finished ([exchange_completes]). *)

From Stdlib Require Import Sorted.
From S2P Require Import Prelude Common Arrays Packed Protocol Tcp Lossy Packets Window ShareTable.
From S2P Require Import SRSender SRReceiver SRTransfer SRLiveness Server Directory Command Client ClientSpec.
Import Client.

(** The owner of the file, and everything the downloading client has received;
    [p_taken] counts the datagrams of the latter that the owner has handled. *)
Record exchange := {
  p_owner : state;
  p_inbox : list udp_input;
  p_taken : nat;
}.

(** The datagrams sent to the address [a]. *)
Definition addressed (a : sockaddr_in) (dgs : list datagram) : list datagram :=
  List.filter (λ dg, bool_decide (dg_dest dg = a)) dgs.

Lemma addressed_all a dgs : Forall (λ dg, dg_dest dg = a) dgs → addressed a dgs = dgs.
Proof.
  induction 1 as [|dg dgs Hd _ IH]; [done|]. cbn [addressed List.filter]. unfold addressed in IH.
  by rewrite bool_decide_eq_true_2, IH.
Qed.

Section peers.
Context `{Host} (digest : list Z → list Z).
Implicit Types (f : list Z) (s : sr_sender_t) (A : gset Z).

(** ** The owner *)

(** An iteration of the owner's loop for each datagram from [src]. *)
Fixpoint owner_receives (src : sockaddr_in) (va : serve_answers) (now : Z) (dgs : list datagram)
    (st : state) : option state :=
  match dgs with
  | [] => Some st
  | dg :: dgs =>
      p ← client_iteration digest (Polled None (Some (Some (dg_bytes dg, src), va)) now now) st;
      match p with
      | Returned (_, st) => owner_receives src va now dgs st
      | Blocked _ => None
      end
  end.

(** Everything pending was sent between [t0] and [now]. *)
Definition recent (t0 now : Z) s A : Prop :=
  ∀ k e, pending s A k e → t0 ≤ se_send_time_ms e ≤ now.

(** Nothing times out within [TIMEOUT_MS]: the end of an iteration sends the
    new part of the window and nothing else. *)
Lemma quiet_tick t0 last now f s A e :
  sender_rel f s A → lossless (env_link e) → recent t0 last s A → 0 ≤ t0 → last ≤ now →
  t0 ≤ now < t0 + TIMEOUT_MS → now < 18446744073709551616 →
  ∃ n s1 e1 s' e',
    sr_sender_send_window now s e = Some (n, s1, e1) ∧
    sr_sender_check_timeouts s1 now e1 = Some (0, s', e') ∧
    sender_rel f s' A ∧ s_base s' = s_base s ∧ s_next_seq s' = send_limit s ∧
    s_peer_addr s' = s_peer_addr s ∧ lossless (env_link e') ∧ recent t0 now s' A ∧
    env_net e' = env_net e ++
      (data_dg f (s_peer_addr s) <$> seqZ (s_next_seq s) (send_limit s - s_next_seq s)).
Proof.
  intros Hrel Hl Hrec Ht0 Hlast Hnow Hmax. pose proof (sc_base _ _ _ (proj1 Hrel)) as Hb.
  destruct (send_window_spec now f s A e Hrel) as (w1 & e1 & Hrun1 & Hrel1 & Hs1 & Hold & Hnew).
  destruct Hs1 as (g1 & _ & Hnet1 & Hg1). destruct (Hg1 Hl) as [-> Hl1].
  set (s1 := upd_sender s (s_base s) (send_limit s) w1 (s_chunks_acked s)) in *.
  assert (recent t0 now s1 A) as Hrec1.
  { intros k en (Hk & HkA & He). cbn [s1 upd_sender s_base s_next_seq s_window] in Hk, He.
    destruct (decide (k < s_next_seq s)).
    - rewrite Hold in He by lia. destruct (Hrec k en); [split_and!; [lia|lia|done|done]|lia].
    - destruct (Hnew k) as [data Hw]; [lia|]. rewrite Hw in He. injection He as <-. simpl. lia. }
  destruct (check_timeouts_spec now f s1 A e1 Hrel1) as (w2 & e2 & Hrun2 & Hrel2 & Hs2 & Hw2).
  set (dues := List.filter (due (s_window s1) now) (seqZ (s_base s1) (s_next_seq s1 - s_base s1))) in *.
  assert (dues = []) as Hdues.
  { destruct dues as [|k ks] eqn:E; [done|exfalso]. assert (k ∈ dues) as Hk by (rewrite E; left).
    apply list_elem_of_In, filter_In in Hk as [Hk%list_elem_of_In%elem_of_seqZ Hdue].
    unfold due in Hdue. destruct (s_window s1 !! slot k) as [en|] eqn:He; [|done].
    destruct (sc_slots _ _ _ (proj1 Hrel1) k) as (en' & He' & _ & Hr).
    { pose proof (sc_next _ _ _ (proj1 Hrel1)). lia. }
    assert (en' = en) as -> by congruence. rewrite decide_True in Hr by lia.
    destruct Hr as (_ & _ & _ & _ & Hst). apply andb_prop in Hdue as [Hp%bool_decide_eq_true Ht].
    destruct (decide (k ∈ A)); [congruence|]. destruct (Hrec1 k en) as [Hr1 Hr2]; [split_and!; [lia|lia|done|done]|].
    unfold TIMEOUT_MS in *. rewrite u64_small in Ht by lia. lia. }
  rewrite Hdues in Hrun2, Hs2, Hw2. cbn [existsb length before fmap list_fmap] in Hrun2, Hs2, Hw2.
  destruct Hs2 as (g2 & _ & Hnet2 & Hg2). destruct (Hg2 Hl1) as [-> Hl2].
  eexists _, s1, e1, _, e2. split; [exact Hrun1|]. split; [exact Hrun2|].
  split_and!; try done.
  - intros k en (Hk & HkA & He). apply (Hrec1 k en). split_and!; [apply Hk|apply Hk|done|].
    cbn [upd_sender s_base s_next_seq s_window] in Hk, He. rewrite Hw2 in He by done.
    by rewrite decide_False in He by set_solver.
  - by rewrite Hnet2, app_nil_r, Hnet1.
Qed.

(** The owner while it uploads [f] to [peer], [b] chunks acknowledged in order
    and the window full: [net] is what it had sent when it announced the file. *)
Record uploading f (peer : sockaddr_in) (net : list datagram) (t0 last b : Z) (st : state) : Prop := {
  up_rel : sender_rel f (global_sender st) (upto b);
  up_range : 0 ≤ b ≤ chunks_of (Z.of_nat (length f));
  up_next : s_next_seq (global_sender st) = (b + WINDOW_SIZE) `min` chunks_of (Z.of_nat (length f));
  up_peer : s_peer_addr (global_sender st) = peer;
  up_link : lossless (env_link (env st));
  up_recent : recent t0 last (global_sender st) (upto b);
  up_net : env_net (env st) =
    net ++ (data_dg f peer <$> seqZ 0 ((b + WINDOW_SIZE) `min` chunks_of (Z.of_nat (length f))));
  up_active : transfer_active st = (b <? chunks_of (Z.of_nat (length f)));
  up_buffer : global_file_buffer st =
    if b <? chunks_of (Z.of_nat (length f)) then Some f else None;
}.

(** What the upload does not touch. *)
Definition same_rest (st st' : state) : Prop :=
  tcp_sock st' = tcp_sock st ∧ table st' = table st ∧ fs st' = fs st ∧ running st' = running st.

Lemma seqZ_extend a n m : 0 ≤ n ≤ m → seqZ a m = seqZ a n ++ seqZ (a + n) (m - n).
Proof. intros. replace m with (n + (m - n)) at 1 by lia. apply seqZ_app; lia. Qed.

(** The end of an iteration in which the upload is running. *)
Lemma upload_tick_quiet t0 last now f peer net b s e st :
  sender_rel f s (upto b) → 0 ≤ b → b ≤ s_next_seq s → s_peer_addr s = peer → lossless (env_link e) →
  recent t0 last s (upto b) → 0 ≤ t0 → last ≤ now → t0 ≤ now < t0 + TIMEOUT_MS →
  now < 18446744073709551616 →
  env_net e = net ++ (data_dg f peer <$> seqZ 0 (s_next_seq s)) →
  ∃ st', upload_tick now now (set_upload s (Some f) true (set_env e st)) = Some st' ∧
    uploading f peer net t0 now b st' ∧ same_rest st st'.
Proof.
  intros Hrel Hb Hbn Hpeer Hl Hrec Ht0 Hlast Hnow Hmax Hnet.
  pose proof (sender_base_upto f s b Hrel Hb) as Hbase. pose proof (sc_num _ _ _ (proj1 Hrel)) as Hnum.
  pose proof (sc_next _ _ _ (proj1 Hrel)) as Hnx.
  destruct (quiet_tick t0 last now f s (upto b) e Hrel Hl Hrec Ht0 Hlast Hnow Hmax) as
    (n & s1 & e1 & s' & e' & Hrun1 & Hrun2 & Hrel' & Hb' & Hn' & Hp' & Hl' & Hrec' & Hnet').
  assert (send_limit s = (b + WINDOW_SIZE) `min` chunks_of (Z.of_nat (length f))) as Hlim
    by (unfold send_limit; by rewrite Hbase, Hnum).
  assert (sr_sender_is_complete s' = negb (b <? chunks_of (Z.of_nat (length f)))) as Hc.
  { destruct (complete_spec f s' (upto b) Hrel') as [_ Hc]. rewrite Hb', Hbase, (sc_num _ _ _ (proj1 Hrel')) in Hc.
    destruct (sr_sender_is_complete s').
    - rewrite (proj1 Hc eq_refl), Z.ltb_irrefl. done.
    - destruct (Z.ltb_spec b (chunks_of (Z.of_nat (length f)))); [done|]. apply Hc. lia. }
  assert (env_net e' = net ++ (data_dg f peer <$> seqZ 0 ((b + WINDOW_SIZE) `min` chunks_of (Z.of_nat (length f))))) as Hnet2.
  { rewrite Hnet', Hnet, Hpeer, <-app_assoc, <-fmap_app, Hlim. f_equal. f_equal.
    rewrite (seqZ_extend 0 (s_next_seq s) (_ `min` _)) by (unfold WINDOW_SIZE in *; lia).
    by rewrite Z.add_0_l. }
  unfold upload_tick. cbn [transfer_active set_upload negb global_sender env set_env].
  rewrite Hrun1. bind_step. rewrite Hrun2. cbn [mbind option_bind Z.ltb Z.compare].
  rewrite Hc. destruct (b <? _) eqn:E; cbn [negb]; (eexists; split; [done|]); (split; [|done]); split;
    cbn [global_sender set_upload env set_env transfer_active global_file_buffer]; rewrite ?E; try done; try lia.
  all: try congruence.
Qed.

(** An acknowledgement of the next chunk. *)
Lemma owner_ack t0 last now f peer net b va src st :
  uploading f peer net t0 last b st → b < chunks_of (Z.of_nat (length f)) →
  0 ≤ t0 → last ≤ now → t0 ≤ now < t0 + TIMEOUT_MS → now < 18446744073709551616 →
  ∃ st', client_iteration digest (Polled None (Some (Some (build_ack_packet b, src), va)) now now) st
      = Some (Returned (running st', st')) ∧
    uploading f peer net t0 now (b + 1) st' ∧ same_rest st st'.
Proof.
  intros [Hrel Hrange Hnext Hpeer Hl Hrec Hnet Hact Hbuf] Hlt Ht0 Hlast Hnow Hmax.
  rewrite (proj2 (Z.ltb_lt _ _) Hlt) in Hact, Hbuf.
  pose proof (sender_num_max _ _ _ (proj1 Hrel)) as Hnm. pose proof (sc_num _ _ _ (proj1 Hrel)) as Hnum.
  pose proof (sender_base_upto f _ b Hrel ltac:(lia)) as Hbase.
  assert (in_width 32 b) as Hw by (unfold in_width; lia).
  unfold client_iteration. bind_step.
  destruct (handle_udp_ack b src va st Hw) as (hdr & Hty & Hack & ->). rewrite Hact.
  destruct (handle_ack_spec f (global_sender st) (upto b) hdr (env st) Hrel) as
    (b' & w' & a' & e' & Hrun & Hrel' & Hle & Hnet' & Hlink'); [lia|].
  rewrite Hrun. bind_step. set (s' := upd_sender (global_sender st) b' _ w' a') in *.
  unfold ack_effect in Hrel'. unfold WINDOW_SIZE in *.
  rewrite decide_True, Hack, upto_succ in Hrel' by (split; [done|lia]) || lia.
  assert (recent t0 last s' (upto (b + 1))) as Hrec'.
  { intros k en (Hk & HkA & He). rewrite elem_of_upto in HkA.
    assert (s_base s' = b + 1) as Hb1 by (apply (sender_base_upto f); [done|lia]).
    apply (Hrec k en). split_and!; [lia|apply Hk|rewrite elem_of_upto; lia|].
    rewrite <-He. symmetry. eapply (handle_ack_window f _ _ hdr); [done|lia|exact Hrun|apply Hk|lia]. }
  rewrite Hbuf.
  destruct (upload_tick_quiet t0 last now f peer net (b + 1) s' e' st) as (st' & -> & Hup & Hsame);
    try done; try lia.
  { cbn [s' upd_sender s_next_seq]. lia. }
  { by rewrite Hlink'. }
  { rewrite Hnet', Hnet. cbn [s' upd_sender s_next_seq]. by rewrite Hnext. }
  bind_step. by exists st'.
Qed.

Lemma uploading_later t0 last now f peer net b st :
  last ≤ now → uploading f peer net t0 last b st → uploading f peer net t0 now b st.
Proof.
  intros Hle [? ? ? ? ? Hrec ? ? ?]. split; try done.
  intros k en Hp. specialize (Hrec k en Hp). lia.
Qed.

Lemma same_rest_trans st1 st2 st3 : same_rest st1 st2 → same_rest st2 st3 → same_rest st1 st3.
Proof. unfold same_rest. intros (?&?&?&?) (?&?&?&?). split_and!; congruence. Qed.

(** Acknowledgements of the next [m] chunks, in order. *)
Lemma owner_acks (m : nat) t0 last now f peer net b va src ackto st :
  uploading f peer net t0 last b st → b + Z.of_nat m ≤ chunks_of (Z.of_nat (length f)) →
  0 ≤ t0 → last ≤ now → t0 ≤ now < t0 + TIMEOUT_MS → now < 18446744073709551616 →
  ∃ st', owner_receives src va now (ack_dg ackto <$> seqZ b (Z.of_nat m)) st = Some st' ∧
    uploading f peer net t0 now (b + Z.of_nat m) st' ∧ same_rest st st'.
Proof.
  intros Hup Hm Ht0 Hlast Hnow Hmax. revert b last st Hup Hm Hlast.
  induction m as [|m IH]; intros b last st Hup Hm Hlast.
  { exists st. rewrite Z.add_0_r. split_and!; [done|by eapply uploading_later|done]. }
  rewrite seqZ_cons by lia. cbn [fmap list_fmap owner_receives ack_dg dg_bytes].
  destruct (owner_ack t0 last now f peer net b va src st Hup) as (st1 & -> & Hup1 & Hs1); [lia..|].
  bind_step. destruct (IH (b + 1) now st1 Hup1) as (st2 & Hrun & Hup2 & Hs2); [lia|lia|].
  exists st2. replace (Z.pred (Z.of_nat (S m))) with (Z.of_nat m) by lia.
  replace (b + Z.of_nat (S m)) with (b + 1 + Z.of_nat m) by lia. unfold Z.succ.
  split_and!; [done|done|by eapply same_rest_trans].
Qed.

(** ** The request *)

Definition request_dg (d : dfile) (oaddr : sockaddr_in) : datagram :=
  {| dg_dest := oaddr; dg_bytes := udp_request (df_id d) (df_hash d) |}.
Definition start_dg f (baddr : sockaddr_in) : datagram :=
  {| dg_dest := baddr; dg_bytes := file_start (Z.of_nat (length f)) |}.

Lemma udp_request_packet id h :
  in_width 32 id → length h = 32%nat → Forall is_byte h →
  ∃ hdr, udp_request id h = request_packet hdr id h ∧ request_packet_ok hdr id h.
Proof.
  intros Hid Hl Hb. eexists. split; [reflexivity|].
  split; [|split_and!; [done|by apply ntohs_htons|done|done|done]].
  apply set_checksum_fits; [by eapply header16_fits|apply calculate_checksum_range].
Qed.

(** A client that shares the file of [d]: its table has the identifier with the
    hash. *)
Definition shares (d : dfile) (st : state) : Prop :=
  ShareTable.wf (table st) ∧
  ∃ file, ShareTable.lookup_id (df_id d) (ShareTable.entries (table st)) = Some file ∧
    ShareTable.hash file = df_hash d.

(** The request makes the owner announce the file and send its first window. *)
Lemma owner_request t0 now f d oaddr baddr va st :
  shares d st → dfile_ok d → Z.of_nat (length f) < max_file → serves_file f va → va_now va = t0 →
  lossless (env_link (env st)) →
  0 ≤ t0 → t0 ≤ now < t0 + TIMEOUT_MS → now < 18446744073709551616 →
  ∃ st', owner_receives baddr va now [request_dg d oaddr] st = Some st' ∧
    uploading f baddr (env_net (env st) ++ [start_dg f baddr]) t0 now 0 st' ∧ same_rest st st'.
Proof.
  intros (Hwf & file & Hfile & Hhash) (Hid & _ & Hl & Hb & _) Hmax Hserves Hva Hlink Ht0 Hnow Htop.
  destruct (udp_request_packet (df_id d) (df_hash d) Hid Hl Hb) as (hdr & Hreq & Hok).
  cbn [owner_receives request_dg dg_bytes]. rewrite Hreq. unfold client_iteration. bind_step.
  rewrite handle_udp_lookup, Hfile by done. rewrite bool_decide_eq_true_2 by done.
  destruct (start_upload_spec f baddr file va st) as (s & e & -> & Hrel & Hp & Hs & Hn & Hnew);
    [done|by eapply lookup_id_name_ok|done|].
  bind_step. change ∅ with (upto 0) in Hrel. pose proof (chunks_of_bounds (Z.of_nat (length f)) ltac:(lia)) as Hcb.
  pose proof (env_send_lossless false (start_dg f baddr) (env st) Hlink) as [Hnet0 Hl0].
  destruct Hs as (got & _ & Hnet & Hgot). destruct (Hgot Hl0) as [-> Hl1].
  destruct (upload_tick_quiet t0 t0 now f baddr (env_net (env st) ++ [start_dg f baddr]) 0 s e st)
    as (st' & -> & Hup & Hsame); try done; try lia.
  { rewrite Hn. unfold WINDOW_SIZE. lia. }
  { intros k en ([Hk0 Hk] & _ & He). pose proof (sc_base _ _ _ (proj1 Hrel)).
    destruct (Hnew k) as [data Hw]; [lia|]. rewrite Hw in He. injection He as <-. simpl. lia. }
  { rewrite Hnet, Hn. fold (start_dg f baddr). by rewrite Hnet0. }
  bind_step. by exists st'.
Qed.

(** ** The downloading client *)

Lemma complete_upto f r k :
  receiver_rel f r (upto k) → 0 ≤ k ≤ r_num_chunks r →
  sr_receiver_is_complete r = bool_decide (k = r_num_chunks r).
Proof.
  intros Hrel Hk. unfold sr_receiver_is_complete. rewrite (receiver_base_upto f r k Hrel) by lia.
  case_bool_decide; lia.
Qed.

(** The loop on the next [m] chunks, in order. *)
Lemma download_in_order (m : nat) k peer f r e :
  receiver_rel f r (upto k) → 0 ≤ k → k + Z.of_nat m ≤ r_num_chunks r → r_peer_addr r = peer →
  lossless (env_link e) →
  ∃ r' e', download_loop peer (data_input f peer <$> seqZ k (Z.of_nat m)) r e =
      Some (if bool_decide (k + Z.of_nat m = r_num_chunks r) then DlComplete r' e' else DlWaiting r' e') ∧
    receiver_rel f r' (upto (k + Z.of_nat m)) ∧ r_num_chunks r' = r_num_chunks r ∧
    env_net e' = env_net e ++ (ack_dg peer <$> seqZ k (Z.of_nat m)).
Proof.
  revert k r e. induction m as [|m IH]; intros k r e Hrel Hk Hm Hp Hl.
  { exists r, e. rewrite Z.add_0_r. rewrite seqZ_nil by lia. cbn [fmap list_fmap download_loop].
    rewrite (complete_upto f r k) by (done || lia). rewrite app_nil_r. by case_bool_decide. }
  rewrite seqZ_cons by lia. cbn [fmap list_fmap download_loop data_input].
  rewrite (complete_upto f r k), bool_decide_eq_false_2 by (done || lia).
  rewrite bool_decide_eq_true_2 by done. cbn [negb].
  pose proof (receiver_num_max _ _ _ (proj1 Hrel)) as Hmax.
  rewrite cut_datagram_short by (apply length_data_packet; unfold in_width; lia).
  pose proof (receiver_base_upto f r k Hrel Hk) as Hb.
  destruct (handle_data_spec f r (upto k) k e Hrel) as (b' & w' & buf' & n' & e1 & -> & Hrel1 & _ & Hs); [lia|].
  unfold data_effect, data_acks in *. rewrite Hb in *.
  rewrite decide_True, upto_succ in Hrel1 by (done || unfold WINDOW_SIZE; lia).
  rewrite decide_True in Hs by (unfold WINDOW_SIZE; lia).
  destruct Hs as (got & _ & Hnet & Hgot). destruct (Hgot Hl) as [-> Hl1]. bind_step.
  destruct (IH (k + 1) _ e1 Hrel1) as (r2 & e2 & Hrun & Hrel2 & Hn2 & Hnet2); try done; [lia|simpl; lia|].
  exists r2, e2. replace (Z.succ k) with (k + 1) by lia.
  replace (Z.pred (Z.of_nat (S m))) with (Z.of_nat m) by lia.
  replace (k + Z.of_nat (S m)) with (k + 1 + Z.of_nat m) by lia.
  split_and!; [done|done|done|]. rewrite Hnet2, Hnet, Hp, <-app_assoc. done.
Qed.

(** What [get] has received after the announcement and [n] chunks. *)
Definition inbox_of f (oaddr : sockaddr_in) (n : Z) : list udp_input :=
  Some (file_start (Z.of_nat (length f)), oaddr) :: (data_input f oaddr <$> seqZ 0 n).


(** What the call has sent when [pkts] has arrived. *)
Definition net_of (p : option (progress (Z * state))) : list datagram :=
  match p with
  | Some (Blocked st) => env_net (env st)
  | Some (Returned (_, st)) => env_net (env st)
  | None => []
  end.

(** [get] before the announcement, and after it and the first [n] chunks. *)
Lemma get_on_nothing d ip port rest a st out :
  conn (tcp_sock st) out (wire_reply (Location d (ip, port)) ++ rest) →
  dfile_ok d → in_width 32 ip → in_width 16 port → ga_sendto a = 52 →
  lossless (env_link (env st)) →
  net_of (get digest (df_id d) a [] st) =
    env_net (env st) ++ [request_dg d {| sin_addr := ip; sin_port := htons port |}].
Proof.
  intros Hconn Hok Hip Hport Hsend Hl.
  destruct (get_request_spec digest d ip port rest a [] st out) as (t & _ & ->); [done..|].
  cbn [get_transfer net_of env set_env]. by apply env_send_lossless.
Qed.

Lemma get_on_chunks n d f ip port rest a st out :
  conn (tcp_sock st) out (wire_reply (Location d (ip, port)) ++ rest) →
  dfile_ok d → in_width 32 ip → in_width 16 port → lossless (env_link (env st)) →
  Z.of_nat (length f) < max_file → digest f = df_hash d → answers_for f a →
  0 ≤ n ≤ chunks_of (Z.of_nat (length f)) →
  let oaddr := {| sin_addr := ip; sin_port := htons port |} in
  let res := get digest (df_id d) a (inbox_of f oaddr n) st in
  net_of res = env_net (env st) ++ request_dg d oaddr :: (ack_dg oaddr <$> seqZ 0 n) ∧
  (n = chunks_of (Z.of_nat (length f)) →
   ∃ st', res = Some (Returned (0, st')) ∧ fs st' = <[df_name d := f]> (fs st) ∧
     conn (tcp_sock st') (out ++ wire_request (RequestFile (df_id d))) rest).
Proof.
  intros Hconn Hok Hip Hport Hl Hmax Hd ((block & Hblock & Hbl) & Hctx & Hopen & Hw & Hsend) Hn oaddr res.
  subst res. destruct (get_request_spec digest d ip port rest a (inbox_of f oaddr n) st out) as (t & Ht & ->); [done..|].
  fold oaddr. set (st1 := set_env _ (set_tcp t st)).
  destruct (env_send_lossless false (request_dg d oaddr) (env st) Hl) as [Hnet1 Hl1].
  change (env_send false (request_dg d oaddr) (env st)) with (env st1) in Hnet1, Hl1.
  destruct (get_transfer_start digest f (location_of d ip port) (df_name d) oaddr a
    (data_input f oaddr <$> seqZ 0 n) st1 block) as (r & Hrel & Hp & Hrun); [done..|].
  fold (inbox_of f oaddr n) in Hrun. rewrite Hrun. change ∅ with (upto 0) in Hrel.
  pose proof (rc_num _ _ _ (proj1 Hrel)) as Hnum.
  destruct (download_in_order (Z.to_nat n) 0 oaddr f r (env st1) Hrel) as (r' & e' & Hdl & Hrel' & Hn' & Hnet');
    [lia|lia|done|done|]. rewrite Z2Nat.id, Z.add_0_l in * by lia. rewrite Hnum in Hdl. rewrite Hdl. bind_step.
  assert (env_net e' = env_net (env st) ++ request_dg d oaddr :: (ack_dg oaddr <$> seqZ 0 n)) as Hnet2
    by (by rewrite Hnet', Hnet1, <-app_assoc).
  case_bool_decide as Hcase; [|split; [exact Hnet2|by intros ?; destruct Hcase]].
  rewrite (save_file_verified digest f (df_hash d) (df_name d) a r' (upto n)); try done; [| |by apply Hok].
  - bind_step. split; [done|]. intros _. by eexists.
  - rewrite (complete_upto f r' n) by (done || lia). apply bool_decide_eq_true_2. lia.
Qed.
End peers.

(** ** The exchange *)

Section exchanges.
Context `{Host} (digest : list Z → list Z).
Context (id : Z) (a : get_answers) (va : serve_answers).
Context (oaddr baddr : sockaddr_in).          (** the owner, the downloading client *)
Context (owner reader : state).               (** the two clients when [get] is called *)

(** What [get] has sent so far, given its inbox. *)
Definition sent_by_get (inbox : list udp_input) : list datagram :=
  addressed oaddr (drop (length (env_net (env reader))) (net_of (get digest id a inbox reader))).

(** What the owner has sent to the other client since the call. *)
Definition sent_by_owner (st : state) : list datagram :=
  addressed baddr (drop (length (env_net (env owner))) (env_net (env st))).

Definition exchange_init : exchange := {| p_owner := owner; p_inbox := []; p_taken := 0 |}.

(** The owner handles what is new of the one side, then its answers arrive on
    the other. *)
Definition exchange_round (now : Z) (p : exchange) : option exchange :=
  let sent := sent_by_get (p_inbox p) in
  st ← owner_receives digest baddr va now (drop (p_taken p) sent) (p_owner p);
  Some {| p_owner := st;
          p_inbox := (λ dg, Some (dg_bytes dg, oaddr)) <$> sent_by_owner st;
          p_taken := length sent |}.

Fixpoint exchange_rounds (times : list Z) (p : exchange) : option exchange :=
  match times with
  | [] => Some p
  | now :: times => p ← exchange_round now p; exchange_rounds times p
  end.
End exchanges.

(** ** The exchange over links that lose nothing *)

Section lossless_exchange.
Context `{Host} (digest : list Z → list Z).
Context (d : dfile) (f : list Z) (ip port : Z) (rest out : list Z).
Context (a : get_answers) (va : serve_answers) (baddr : sockaddr_in) (owner reader : state).

Abbreviation oaddr := {| sin_addr := ip; sin_port := htons port |}.
Abbreviation chunks := (chunks_of (Z.of_nat (length f))).

(** Everything is in place: the directory's answer is on the connection of the
    downloading client, the owner shares the file and can read it, and both
    sides of the UDP link lose nothing. *)
Record ready : Prop := {
  rdy_conn : conn (tcp_sock reader) out (wire_reply (Location d (ip, port)) ++ rest);
  rdy_file : dfile_ok d;
  rdy_ip : in_width 32 ip;
  rdy_port : in_width 16 port;
  rdy_size : Z.of_nat (length f) < max_file;
  rdy_hash : digest f = df_hash d;
  rdy_get : answers_for f a;
  rdy_shares : shares d owner;
  rdy_serves : serves_file f va;
  rdy_clock : 0 ≤ va_now va;
  rdy_rlink : lossless (env_link (env reader));
  rdy_olink : lossless (env_link (env owner));
}.

Context (Hready : ready).

(** The clock readings: in order, and less than [TIMEOUT_MS] from the first. *)
Definition quick (last : Z) (times : list Z) : Prop :=
  StronglySorted Z.le (last :: times) ∧
  Forall (λ now, va_now va ≤ now < va_now va + TIMEOUT_MS ∧ now < 18446744073709551616) times.

Lemma quick_cons last now times :
  quick last (now :: times) →
  last ≤ now ∧ va_now va ≤ now < va_now va + TIMEOUT_MS ∧ now < 18446744073709551616 ∧ quick now times.
Proof.
  intros [Hs Hf]. inversion_clear Hs as [|?? Hs' Hl]. inversion_clear Hl. inversion_clear Hf.
  split_and!; try done; lia.
Qed.

(** After the request, [b] chunks are acknowledged and the next window is in the
    inbox. *)
Record started (last b : Z) (p : exchange) : Prop := {
  ex_up : uploading f baddr (env_net (env owner) ++ [start_dg f baddr]) (va_now va) last b (p_owner p);
  ex_rest : same_rest owner (p_owner p);
  ex_inbox : p_inbox p = inbox_of f oaddr ((b + WINDOW_SIZE) `min` chunks);
  ex_taken : p_taken p = S (Z.to_nat b);
}.

Lemma sent_by_owner_uploading t0 last b st :
  uploading f baddr (env_net (env owner) ++ [start_dg f baddr]) t0 last b st →
  (λ dg, Some (dg_bytes dg, oaddr)) <$> sent_by_owner baddr owner st =
    inbox_of f oaddr ((b + WINDOW_SIZE) `min` chunks).
Proof.
  intros Hup. unfold sent_by_owner. rewrite (up_net _ _ _ _ _ _ _ Hup), <-app_assoc, drop_app_length.
  rewrite addressed_all; [by rewrite fmap_app, <-list_fmap_compose|].
  apply Forall_app. split; [by repeat constructor|]. apply Forall_fmap, Forall_true. done.
Qed.

Lemma sent_by_get_nothing :
  sent_by_get digest (df_id d) a oaddr reader [] = [request_dg d oaddr].
Proof.
  destruct Hready. unfold sent_by_get. erewrite get_on_nothing by (done || apply rdy_get0).
  rewrite drop_app_length. apply addressed_all. by repeat constructor.
Qed.

Lemma sent_by_get_chunks n :
  0 ≤ n ≤ chunks →
  sent_by_get digest (df_id d) a oaddr reader (inbox_of f oaddr n) =
    request_dg d oaddr :: (ack_dg oaddr <$> seqZ 0 n).
Proof.
  intros Hn. destruct Hready. unfold sent_by_get.
  destruct (get_on_chunks digest n d f ip port rest a reader out) as [-> _]; try done.
  rewrite drop_app_length. apply addressed_all. constructor; [done|]. apply Forall_fmap, Forall_true. done.
Qed.

Lemma drop_seqZ (m n : Z) : 0 ≤ m ≤ n → drop (Z.to_nat m) (seqZ 0 n) = seqZ m (n - m).
Proof.
  intros Hm. rewrite (seqZ_extend 0 m n Hm). rewrite drop_app_length' by (rewrite length_seqZ; lia).
  by rewrite Z.add_0_l.
Qed.

Lemma first_round now :
  va_now va ≤ now < va_now va + TIMEOUT_MS → now < 18446744073709551616 →
  ∃ p, exchange_round digest (df_id d) a va oaddr baddr owner reader now (exchange_init owner) = Some p ∧
    started now 0 p.
Proof.
  intros Hnow Hmax. unfold exchange_round, exchange_init. cbn [p_inbox p_taken p_owner].
  rewrite sent_by_get_nothing. rewrite drop_0.
  destruct (owner_request digest (va_now va) now f d oaddr baddr va owner) as (st & -> & Hup & Hrest);
    try apply Hready; try done.
  bind_step. eexists. split; [done|]. split; try done. by eapply sent_by_owner_uploading.
Qed.

Lemma next_round last now b p :
  started last b p → last ≤ now → va_now va ≤ now < va_now va + TIMEOUT_MS → now < 18446744073709551616 →
  ∃ p', exchange_round digest (df_id d) a va oaddr baddr owner reader now p = Some p' ∧
    started now ((b + WINDOW_SIZE) `min` chunks) p'.
Proof.
  intros [Hup Hrest Hinbox Htaken] Hlast Hnow Hmax. pose proof (up_range _ _ _ _ _ _ _ Hup) as Hb.
  set (n := (b + WINDOW_SIZE) `min` chunks) in *.
  assert (b ≤ n ≤ chunks) as Hn by (unfold n, WINDOW_SIZE; lia).
  unfold exchange_round. rewrite Hinbox, sent_by_get_chunks, Htaken by lia. cbn [skipn].
  rewrite <-fmap_drop, drop_seqZ by lia. replace (n - b) with (Z.of_nat (Z.to_nat (n - b))) by lia.
  destruct (owner_acks digest (Z.to_nat (n - b)) (va_now va) last now f baddr _ b va baddr oaddr (p_owner p) Hup)
    as (st & -> & Hup' & Hs); try done; [lia|apply Hready|].
  bind_step. replace (b + Z.of_nat (Z.to_nat (n - b))) with n in Hup' by lia.
  eexists. split; [done|]. split; cbn [p_owner p_inbox p_taken].
  - done.
  - by eapply same_rest_trans.
  - by eapply sent_by_owner_uploading.
  - cbn [length]. by rewrite length_fmap, length_seqZ.
Qed.

Lemma next_rounds times last b p :
  started last b p → quick last times →
  ∃ p' last', exchange_rounds digest (df_id d) a va oaddr baddr owner reader times p = Some p' ∧
    started last' ((b + WINDOW_SIZE * Z.of_nat (length times)) `min` chunks) p'.
Proof.
  revert last b p. induction times as [|now times IH]; intros last b p Hp Hq; cbn [exchange_rounds length].
  - exists p, last. split; [done|]. pose proof (up_range _ _ _ _ _ _ _ (ex_up _ _ _ Hp)).
    by replace (_ `min` _) with b by (unfold WINDOW_SIZE; lia).
  - apply quick_cons in Hq as (Hle & Hnow & Hmax & Hq).
    destruct (next_round last now b p Hp Hle Hnow Hmax) as (p1 & -> & Hp1). bind_step.
    destruct (IH _ _ _ Hp1 Hq) as (p2 & last' & Hrun & Hp2). exists p2, last'. split; [done|].
    by replace ((b + WINDOW_SIZE * Z.of_nat (S (length times))) `min` chunks)
      with (((b + WINDOW_SIZE) `min` chunks + WINDOW_SIZE * Z.of_nat (length times)) `min` chunks)
      by (unfold WINDOW_SIZE; lia).
Qed.

(** The exchange ends: the file is saved, the upload is over and its buffer is
    released, nothing else of the two clients has changed. *)
Lemma exchange_ends times :
  quick (va_now va) times → times ≠ [] → chunks ≤ WINDOW_SIZE * (Z.of_nat (length times) - 1) →
  ∃ p st, exchange_rounds digest (df_id d) a va oaddr baddr owner reader times (exchange_init owner) = Some p ∧
    get digest (df_id d) a (p_inbox p) reader = Some (Returned (0, st)) ∧
    fs st = <[df_name d := f]> (fs reader) ∧
    conn (tcp_sock st) (out ++ wire_request (RequestFile (df_id d))) rest ∧
    transfer_active (p_owner p) = false ∧ global_file_buffer (p_owner p) = None ∧
    same_rest owner (p_owner p).
Proof.
  intros Hq Hne Hlen. destruct times as [|now times]; [done|]. cbn [length] in Hlen.
  pose proof (chunks_of_bounds (Z.of_nat (length f)) ltac:(lia)) as Hcb.
  apply quick_cons in Hq as (_ & Hnow & Hmax & Hq). cbn [exchange_rounds].
  destruct (first_round now Hnow Hmax) as (p1 & -> & Hp1). bind_step.
  destruct (next_rounds times now 0 p1 Hp1 Hq) as (p & last & -> & Hp).
  replace (_ `min` chunks) with chunks in Hp by lia. destruct Hp as [Hup Hrest Hin _].
  replace ((chunks + WINDOW_SIZE) `min` chunks) with chunks in Hin by (unfold WINDOW_SIZE; lia).
  destruct (get_on_chunks digest chunks d f ip port rest a reader out) as [_ Hget]; try apply Hready; [lia|].
  destruct (Hget eq_refl) as (st & Hrun & Hfs & Hconn). exists p, st. rewrite Hin.
  pose proof (up_active _ _ _ _ _ _ _ Hup) as Hact. pose proof (up_buffer _ _ _ _ _ _ _ Hup) as Hbuf.
  rewrite Z.ltb_irrefl in Hact, Hbuf. by split_and!.
Qed.
End lossless_exchange.
