(* ===== verification/PeerSafety.v ===== *)
(** * A download in a hostile network

    The two clients of [Peers], now with a network that loses, duplicates,
    delays and reorders what they send each other, changes a byte of a
    datagram in either direction, and in which strangers send any datagrams to
    both of them, at any time; the links may drop what they like.  [peer_step] is a step of that
    system.  Its invariant: everything the owner sends to the downloading client
    is the announcement of the file or one of its chunks, whatever the
    strangers make it do in between. *)

From S2P Require Import Prelude Common Arrays Packed Protocol Tcp Lossy Packets Window ShareTable.
From S2P Require Import SRSender SRReceiver ReceiverSafety SRTransfer Server Directory Command Client ClientSpec Peers.
Import Client.

(** ** What a sender can send, whatever its state *)

(** The network grew by datagrams to [peer]. *)
Definition only_to (peer : sockaddr_in) (e e' : sr_env) : Prop :=
  ∃ new, env_net e' = env_net e ++ new ∧ Forall (λ dg, dg_dest dg = peer) new.

#[export] Instance only_to_preorder peer : PreOrder (only_to peer).
Proof.
  split.
  - intros e. exists []. by rewrite app_nil_r.
  - intros e1 e2 e3 (n1 & H1 & Hf1) (n2 & H2 & Hf2). exists (n1 ++ n2).
    rewrite H2, H1, <-app_assoc. split; [done|]. by apply Forall_app.
Qed.

Lemma only_to_send lossy dg e : only_to (dg_dest dg) e (env_send lossy dg e).
Proof.
  destruct (env_send_net lossy dg e) as [He|He].
  - exists []. by rewrite He, app_nil_r.
  - exists [dg]. split; [done|]. by repeat constructor.
Qed.

Lemma only_to_send_bump (l : bool) a b c dg e :
  only_to (dg_dest dg) e (env_send l dg (if l then bump_stats a b c e else e)).
Proof. destruct l; [|apply only_to_send]. apply (only_to_send true dg (bump_stats a b c e)). Qed.

Section frames.
Context `{Host}.

(** An operation keeps the peer of the sender and sends to nobody else. *)
Definition framed s e s' e' : Prop := s_peer_addr s' = s_peer_addr s ∧ only_to (s_peer_addr s) e e'.

Lemma framed_trans s1 e1 s2 e2 s3 e3 : framed s1 e1 s2 e2 → framed s2 e2 s3 e3 → framed s1 e1 s3 e3.
Proof. intros [H1 O1] [H2 O2]. rewrite H1 in *. split; [done|]. by etransitivity. Qed.

Lemma framed_refl s e : framed s e s e.
Proof. by split. Qed.

Lemma send_window_framed now s e n s' e' :
  sr_sender_send_window now s e = Some (n, s', e') → framed s e s' e'.
Proof.
  unfold sr_sender_send_window. generalize 0 at 1 as p. generalize window_fuel as fuel. intros fuel.
  revert s e. induction fuel as [|fuel IH]; intros s e p; cbn [send_window_loop]; case_match; try done.
  1,3: intros [= _ <- <-]; apply framed_refl.
  intros (en & _ & Hrun)%bind_Some. case_match; [injection Hrun as _ <- <-; apply framed_refl|].
  apply bind_Some in Hrun as (pl & _ & Hrun). apply bind_Some in Hrun as (pk & _ & Hrun).
  apply bind_Some in Hrun as (data & _ & Hrun). apply IH in Hrun. eapply framed_trans; [|exact Hrun].
  split; [done|]. apply only_to_send_bump with (dg := {| dg_dest := s_peer_addr s; dg_bytes := pk |}).
Qed.

Lemma check_timeouts_framed now s e n s' e' :
  sr_sender_check_timeouts s now e = Some (n, s', e') → framed s e s' e'.
Proof.
  unfold sr_sender_check_timeouts. generalize 0 at 1 as p. generalize (seqZ (s_base s) (s_next_seq s - s_base s)) as l.
  intros l. revert s e. induction l as [|k l IH]; intros s e p; cbn [check_timeouts_loop].
  { intros [= _ <- <-]. apply framed_refl. }
  intros (en & _ & Hrun)%bind_Some. case_match; [by eapply IH|]. case_match; [by eapply IH|].
  case_match; [|by eapply IH]. case_match; [injection Hrun as _ <- <-; apply framed_refl|].
  apply bind_Some in Hrun as (pk & _ & Hrun). apply IH in Hrun. eapply framed_trans; [|exact Hrun].
  split; [done|]. apply only_to_send_bump with (dg := {| dg_dest := s_peer_addr s; dg_bytes := pk |}).
Qed.

Lemma slide_loop_peer fuel s s' : slide_loop fuel s = Some s' → s_peer_addr s' = s_peer_addr s.
Proof.
  revert s. induction fuel as [|fuel IH]; intros s; cbn [slide_loop]; case_match; try done; try by intros [= <-].
  intros (en & _ & Hrun)%bind_Some. case_match; [by injection Hrun as <-|]. by apply IH in Hrun.
Qed.

Lemma handle_ack_framed s hdr e n s' e' :
  sr_sender_handle_ack s hdr e = Some (n, s', e') → framed s e s' e'.
Proof.
  unfold sr_sender_handle_ack. do 3 (case_match; [intros [= _ <- <-]; apply framed_refl|]).
  intros (en & _ & Hrun)%bind_Some.
  destruct (bool_decide _ && _); apply bind_Some in Hrun as (s1 & Hs%slide_loop_peer & [= _ <- <-]);
    (split; [done|]); exists []; by rewrite app_nil_r.
Qed.
End frames.

(** ** What the downloading client makes of what arrives *)

Section arrivals.
Context `{Host} (f : list Z) (oaddr : sockaddr_in).
Context (Hbytes : Forall is_byte f) (Hsize : Z.of_nat (length f) < max_file).

(** A packet of the upload of [f]. *)
Definition upload_packet (p : list Z) : Prop :=
  p = file_start (Z.of_nat (length f)) ∨
  ∃ k, 0 ≤ k < chunks_of (Z.of_nat (length f)) ∧ p = data_packet k (chunk f k).

(** What may arrive: anything from a stranger, packets of the upload, and such
    packets with one byte changed. *)
Inductive arrives : udp_input → Prop :=
  | ar_stranger bs src : src ≠ oaddr → arrives (Some (bs, src))
  | ar_packet p : upload_packet p → arrives (Some (p, oaddr))
  | ar_garbled p i x b :
      upload_packet p → p !! i = Some x → is_byte b → b ≠ x → arrives (Some (<[i := b]> p, oaddr)).

Definition ack_of_file (dg : datagram) : Prop :=
  ∃ k, 0 ≤ k < chunks_of (Z.of_nat (length f)) ∧ dg = ack_dg oaddr k.

Lemma upload_packet_facts p :
  upload_packet p → checksum_ok p ∧ Forall is_byte p ∧ 16 ≤ Z.of_nat (length p) ≤ 1040.
Proof.
  intros [->|(k & Hk & ->)].
  - rewrite file_start_seal by lia.
    destruct (start_body_facts (Z.of_nat (length f))) as (Hf & Hl & Hhf); [lia|].
    split_and!; [by apply checksum_ok_seal|by apply seal_bytes, to_bytes_byte|rewrite length_seal by done; lia..].
  - pose proof (chunks_of_max (Z.of_nat (length f)) ltac:(lia)) as Hcm.
    assert (in_width 32 k) as Hw by (unfold in_width; lia).
    destruct (data_packet_facts f k Hbytes Hw) as (? & ? & _).
    pose proof (length_data_packet f k Hw). split_and!; done || lia.
Qed.

Lemma garbled_facts p i x b :
  upload_packet p → p !! i = Some x → is_byte b → b ≠ x →
  ¬ checksum_ok (<[i := b]> p) ∧ 16 ≤ Z.of_nat (length (<[i := b]> p)) ≤ 1040.
Proof.
  intros Hp Hi Hb Hne. destruct (upload_packet_facts p Hp) as (Hok & Hby & Hl). rewrite length_insert.
  split; [|done]. eapply checksum_ok_one_byte; [done|lia|done..].
Qed.

(** The receiver ignores the announcement when it comes again. *)
Lemma handle_data_start r e :
  sr_receiver_handle_data r (file_start (Z.of_nat (length f))) e = Some (0, r, e).
Proof.
  destruct (start_packet_facts (Z.of_nat (length f))) as (Hl & (hdr & tmp & Hcast & Hzero & _ & Hty & _) & _); [lia|].
  rewrite <-file_start_seal in * by lia. unfold sr_receiver_handle_data. rewrite Hl.
  change (24 <? sizeof udp_header_t) with false. cbn iota. rewrite Hcast. bind_step. rewrite Hzero. bind_step.
  rewrite Hty. change (UDP_FILE_START =? UDP_DATA) with false. by case_match.
Qed.

(** The loop of the receiver on whatever arrives: it goes on with the same file,
    and sends nothing but acknowledgements of its chunks. *)
Lemma download_safe inputs r R e :
  Forall arrives inputs → receiver_rel f r R → r_peer_addr r = oaddr →
  ∃ r' R' e' got,
    (download_loop oaddr inputs r e = Some (DlComplete r' e') ∧ sr_receiver_is_complete r' = true ∨
     download_loop oaddr inputs r e = Some (DlWaiting r' e')) ∧
    receiver_rel f r' R' ∧ env_net e' = env_net e ++ got ∧ Forall ack_of_file got.
Proof.
  intros Hall. revert r R e. induction Hall as [|input inputs Hin _ IH]; intros r R e Hrel Hp; cbn [download_loop];
    (destruct (sr_receiver_is_complete r) eqn:Hc;
     [exists r, R, e, []; rewrite app_nil_r; split_and!; [by left|done..|constructor]|]).
  { exists r, R, e, []. rewrite app_nil_r. split_and!; [by right|done..|constructor]. }
  destruct Hin as [bs src Hsrc|p Hpk|p i x b Hpk Hi Hb Hne].
  - rewrite bool_decide_eq_false_2 by done. by apply IH with (R := R).
  - rewrite bool_decide_eq_true_2 by done. cbn [negb].
    destruct (upload_packet_facts p Hpk) as (_ & _ & Hl). rewrite cut_datagram_short by lia.
    destruct Hpk as [->|(k & Hk & ->)].
    { rewrite handle_data_start. bind_step. by apply IH with (R := R). }
    pose proof (rc_num _ _ _ (proj1 Hrel)) as Hnum.
    destruct (handle_data_spec f r R k e Hrel) as (b' & w' & buf' & n' & e1 & -> & Hrel1 & _ & Hs); [lia|].
    cbn [mbind option_bind Z.ltb Z.compare]. destruct Hs as (g1 & Hsub & Hnet & _).
    destruct (IH _ _ e1 Hrel1) as (r2 & R2 & e2 & g2 & Hrun & Hrel2 & Hnet2 & Hg2); [done|].
    exists r2, R2, e2, (g1 ++ g2). split_and!; [done|done|by rewrite Hnet2, Hnet, app_assoc|].
    apply Forall_app. split; [|done]. apply Forall_forall. intros dg Hdg.
    apply (sublist_subseteq _ _ Hsub) in Hdg. unfold data_acks in Hdg. case_decide; [|set_solver].
    apply list_elem_of_singleton in Hdg as ->. exists k. by rewrite Hp.
  - rewrite bool_decide_eq_true_2 by done. cbn [negb].
    destruct (garbled_facts p i x b Hpk Hi Hb Hne) as [Hbad Hl]. rewrite cut_datagram_short by lia.
    rewrite handle_data_reject by (done || lia). bind_step. by apply IH with (R := R).
Qed.
End arrivals.

Section downloads.
Context `{Host} (digest : list Z → list Z) (d : dfile) (f : list Z) (ip port : Z) (rest out : list Z).
Context (a : get_answers) (reader : state).

Abbreviation oaddr := {| sin_addr := ip; sin_port := htons port |}.

(** The file exists, the directory's answer is on the connection, and the system
    calls of [get] succeed; the links may be of any kind. *)
Record located : Prop := {
  loc_conn : conn (tcp_sock reader) out (wire_reply (Location d (ip, port)) ++ rest);
  loc_file : dfile_ok d;
  loc_ip : in_width 32 ip;
  loc_port : in_width 16 port;
  loc_bytes : Forall is_byte f;
  loc_size : Z.of_nat (length f) < max_file;
  loc_digest : digest f = df_hash d;
  loc_get : answers_for f a;
}.

Context (Hloc : located).

(** Anything else than an announcement of the owner ends [get] at once. *)
Lemma get_transfer_rejects loc name peer bs src pkts st res :
  peer = {| sin_addr := loc_peer_ip loc; sin_port := loc_peer_port loc |} →
  get_transfer digest loc name peer a (Some (bs, src) :: pkts) st = Some res →
  (src = peer → checksum_ok (cut_datagram bs) → ∀ hdr, cast udp_header_t (cut_datagram bs) 0 = Some hdr →
     uh_msg_type hdr ≠ UDP_FILE_START) →
  ∃ ret, res = Returned (ret, st).
Proof.
  intros Hpeer Hrun Hno. unfold get_transfer in Hrun. set (p := cut_datagram bs) in *.
  case_match eqn:E1; [injection Hrun as <-; by eexists|]. rewrite sizeof_udp_header in E1.
  destruct (cast_checksum p) as (hdr & Hcast & Hck); [lia|]. rewrite Hcast in Hrun. cbn [mbind option_bind] in Hrun.
  case_match eqn:E2; [injection Hrun as <-; by eexists|].
  rewrite zero_checksum_bytes in Hrun by lia. cbn [mbind option_bind] in Hrun.
  case_match eqn:E3; [injection Hrun as <-; by eexists|].
  case_match eqn:E4; [injection Hrun as <-; by eexists|].
  case_match eqn:E5; [injection Hrun as <-; by eexists|]. exfalso.
  apply (Hno) with (hdr := hdr); [| |done|].
  - apply orb_false_elim in E4 as [Ea Eb]. rewrite Hpeer. destruct src as [sa sp]. cbn in *. f_equal; lia.
  - unfold verify_checksum in E3. apply negb_false_iff, Z.eqb_eq in E3. unfold checksum_ok. congruence.
  - lia.
Qed.

(** What [get] may have done when it waits or has returned: saved nothing, or
    exactly the file. *)
Definition outcome_ok (st : state) (res : progress (Z * state)) : Prop :=
  match res with
  | Blocked st' => fs st' = fs st
  | Returned (_, st') => fs st' = fs st ∨ fs st' = <[df_name d := f]> (fs st)
  end.

Lemma get_transfer_safe inbox st res :
  Forall (arrives f oaddr) inbox →
  get_transfer digest (location_of d ip port) (df_name d) oaddr a inbox st = Some res →
  outcome_ok st res ∧
  ∃ got, net_of (Some res) = env_net (env st) ++ got ∧ Forall (ack_of_file f oaddr) got.
Proof.
  destruct Hloc as [_ Hok Hip Hport Hb Hmax Hd ((block & Hblock & Hbl) & Hctx & Hopen & Hw & _)].
  intros Hall Hrun.
  assert (∀ ret, res = Returned (ret, st) → outcome_ok st res ∧
    ∃ got, net_of (Some res) = env_net (env st) ++ got ∧ Forall (ack_of_file f oaddr) got) as Hsame.
  { intros ret ->. split; [by left|]. exists []. by rewrite app_nil_r. }
  destruct Hall as [|input inputs Hin Hall].
  { injection Hrun as <-. split; [done|]. exists []. by rewrite app_nil_r. }
  destruct Hin as [bs src Hsrc|p [->|(k & Hk & ->)]|p i x b Hpk Hi Hbb Hne].
  - destruct (get_transfer_rejects (location_of d ip port) _ oaddr _ _ _ _ _ eq_refl Hrun) as [ret Hr]; [done|eauto].
  - destruct (get_transfer_start digest f (location_of d ip port) (df_name d) oaddr a inputs st block)
      as (r & Hrel & Hp & Hrun'); [done..|]. apply (eq_trans (eq_sym Hrun)) in Hrun'.
    destruct (download_safe f oaddr Hb Hmax inputs r ∅ (env st) Hall Hrel Hp)
      as (r' & R' & e' & got & Hdl & Hrel' & Hnet & Hgot).
    destruct Hdl as [[Hdl Hc]|Hdl]; rewrite Hdl in Hrun'; cbn [mbind option_bind] in Hrun'.
    + rewrite (save_file_verified digest f (df_hash d) (df_name d) a r' R') in Hrun' by (done || apply Hok).
      injection Hrun' as ->. split; [by right|]. by exists got.
    + injection Hrun' as ->. split; [done|]. by exists got.
  - destruct (upload_packet_facts f Hb Hmax (data_packet k (chunk f k))) as (_ & _ & Hl); [right; by exists k|].
    destruct (get_transfer_rejects (location_of d ip port) _ oaddr _ _ _ _ _ eq_refl Hrun) as [ret Hr]; [|eauto].
    intros _ _ hdr Hcast. rewrite cut_datagram_short in Hcast by lia.
    pose proof (chunks_of_max (Z.of_nat (length f)) ltac:(lia)) as Hcm.
    destruct (seal_valid (data_header k (Z.of_nat (length (chunk f k)))) (chunk f k)) as [Hcast' _].
    { pose proof (length_chunk_le f k) as Hle. unfold CHUNK_SIZE in Hle.
      apply data_header_fits; unfold in_width; lia. }
    unfold data_packet in Hcast. rewrite Hcast' in Hcast. by injection Hcast as <-.
  - destruct (garbled_facts f Hb Hmax p i x b Hpk Hi Hbb Hne) as [Hbad Hl].
    destruct (get_transfer_rejects (location_of d ip port) _ oaddr _ _ _ _ _ eq_refl Hrun) as [ret Hr]; [|eauto].
    intros _ Hck. rewrite cut_datagram_short in Hck by lia. done.
Qed.

Lemma get_safe inbox res :
  Forall (arrives f oaddr) inbox → get digest (df_id d) a inbox reader = Some res →
  outcome_ok reader res ∧
  ∃ got, net_of (Some res) = env_net (env reader) ++ request_dg d oaddr :: got ∧ Forall (ack_of_file f oaddr) got.
Proof.
  intros Hall Hrun. destruct Hloc as [Hconn Hok Hip Hport _ _ _ Hget].
  destruct (get_request_spec digest d ip port rest a inbox reader out) as (t & _ & Hreq); [done..|apply Hget|].
  rewrite Hreq in Hrun. apply get_transfer_safe in Hrun as [Hout (got & Hnet & Hgot)]; [|done].
  split; [done|]. exists got. split; [|done]. rewrite Hnet. cbn [env set_env env_send env_net].
  by rewrite <-app_assoc.
Qed.
End downloads.

(** ** The owner *)

Section owners.
Context `{Host} (digest : list Z → list Z) (d : dfile) (f : list Z) (baddr : sockaddr_in) (owner : state).
Context (Hbytes : Forall is_byte f) (Hsize : Z.of_nat (length f) < max_file).
Context (Hok : dfile_ok d) (Hshares : shares d owner).

(** What is sent to the downloading client belongs to the upload of [f]. *)
Definition harmless (dg : datagram) : Prop := dg_dest dg = baddr → upload_packet f (dg_bytes dg).

Definition net_ok (e : sr_env) : Prop :=
  ∃ new, env_net e = env_net (env owner) ++ new ∧ Forall harmless new.

(** A sender to the downloading client is a sender of [f]. *)
Definition sender_ok (s : sr_sender_t) : Prop :=
  s_peer_addr s = baddr → ∃ A, sender_rel f s A.

Record owner_inv (st : state) : Prop := {
  oi_table : table st = table owner;
  oi_net : net_ok (env st);
  oi_sender : transfer_active st = true → sender_ok (global_sender st);
}.

Lemma net_ok_grow e e' new :
  net_ok e → env_net e' = env_net e ++ new → Forall harmless new → net_ok e'.
Proof.
  intros (old & He & Hold) He' Hnew. exists (old ++ new). rewrite He', He, <-app_assoc.
  split; [done|]. by apply Forall_app.
Qed.

Lemma net_ok_elsewhere peer e e' : peer ≠ baddr → net_ok e → only_to peer e e' → net_ok e'.
Proof.
  intros Hne Hnet (new & He & Hnew). apply (net_ok_grow e e' new Hnet He).
  apply (Forall_impl _ _ _ Hnew). intros dg Hd Hb. congruence.
Qed.

Lemma net_ok_sends ks e e' :
  net_ok e → (∀ k, k ∈ ks → 0 ≤ k < chunks_of (Z.of_nat (length f))) →
  sends (data_dg f baddr <$> ks) e e' → net_ok e'.
Proof.
  intros Hnet Hks (got & Hsub & He & _). apply (net_ok_grow e e' got Hnet He).
  apply Forall_forall. intros dg Hdg%(sublist_subseteq _ _ Hsub) _.
  apply list_elem_of_fmap in Hdg as (k & -> & Hk). right. exists k. by split; [apply Hks|].
Qed.

(** The three operations of the sender keep both. *)
Definition upload_ok (s : sr_sender_t) (e : sr_env) : Prop := sender_ok s ∧ net_ok e.

Lemma send_window_keeps now s e n s' e' :
  sender_ok s → net_ok e → sr_sender_send_window now s e = Some (n, s', e') → upload_ok s' e'.
Proof.
  intros Hs Hnet Hrun. pose proof (send_window_framed now s e n s' e' Hrun) as [Hp Honly].
  destruct (decide (s_peer_addr s = baddr)) as [Hb|Hne].
  - destruct (Hs Hb) as [A Hrel]. destruct (send_window_spec now f s A e Hrel) as (w & e1 & Hrun' & Hrel' & Hsends & _).
    rewrite Hrun in Hrun'. injection Hrun' as -> -> ->. split; [intros _; by exists A|].
    rewrite Hb in Hsends. eapply net_ok_sends; [done| |done]. intros k Hk%elem_of_seqZ.
    pose proof (sc_base _ _ _ (proj1 Hrel)). pose proof (sc_num _ _ _ (proj1 Hrel)). unfold send_limit in *. lia.
  - split; [intros Hb; congruence|]. by eapply net_ok_elsewhere.
Qed.

Lemma check_timeouts_keeps now s e n s' e' :
  sender_ok s → net_ok e → sr_sender_check_timeouts s now e = Some (n, s', e') → upload_ok s' e'.
Proof.
  intros Hs Hnet Hrun. pose proof (check_timeouts_framed now s e n s' e' Hrun) as [Hp Honly].
  destruct (decide (s_peer_addr s = baddr)) as [Hb|Hne].
  - destruct (Hs Hb) as [A Hrel]. destruct (check_timeouts_spec now f s A e Hrel) as (w & e1 & Hrun' & Hrel' & Hsends & _).
    rewrite Hrun in Hrun'. injection Hrun' as -> -> ->. split; [intros _; by exists A|].
    rewrite Hb in Hsends. eapply net_ok_sends; [done| |done].
    intros k [Hk%list_elem_of_In%elem_of_seqZ _]%before_elem%list_elem_of_In%filter_In.
    pose proof (sc_base _ _ _ (proj1 Hrel)). pose proof (sc_next _ _ _ (proj1 Hrel)).
    pose proof (sc_num _ _ _ (proj1 Hrel)). lia.
  - split; [intros Hb; congruence|]. by eapply net_ok_elsewhere.
Qed.

Lemma handle_ack_keeps s hdr e n s' e' :
  sender_ok s → net_ok e → 0 ≤ ntohl (uh_ack_num hdr) →
  sr_sender_handle_ack s hdr e = Some (n, s', e') → upload_ok s' e'.
Proof.
  intros Hs Hnet Hack Hrun. pose proof (handle_ack_framed s hdr e n s' e' Hrun) as [Hp Honly].
  destruct (decide (s_peer_addr s = baddr)) as [Hb|Hne].
  - destruct (Hs Hb) as [A Hrel].
    destruct (handle_ack_spec f s A hdr e Hrel Hack) as (b' & w & ac & e1 & Hrun' & Hrel' & _ & Hnet' & _).
    rewrite Hrun in Hrun'. injection Hrun' as -> -> ->. split; [intros _; by eexists|].
    apply (net_ok_grow e e1 [] Hnet); [by rewrite app_nil_r|constructor].
  - split; [intros Hb; congruence|]. by eapply net_ok_elsewhere.
Qed.

Lemma upload_tick_inv now ms st st' :
  owner_inv st → upload_tick now ms st = Some st' → owner_inv st'.
Proof.
  intros [Ht Hn Hs] Hrun. unfold upload_tick in Hrun. destruct (transfer_active st) eqn:Ha; cbn [negb] in Hrun;
    [|injection Hrun as <-; split; [done|done|congruence]].
  apply bind_Some in Hrun as ([[n1 s1] e1] & Hrun1 & Hrun). apply bind_Some in Hrun as ([[n2 s2] e2] & Hrun2 & Hrun).
  destruct (send_window_keeps _ _ _ _ _ _ (Hs eq_refl) Hn Hrun1) as [Hs1 Hn1].
  destruct (check_timeouts_keeps _ _ _ _ _ _ Hs1 Hn1 Hrun2) as [Hs2 Hn2].
  repeat case_match; injection Hrun as <-; by split.
Qed.

(** A stranger's request may replace the upload, but by one to the stranger. *)
Lemma start_upload_stranger src file va st skip st' :
  src ≠ baddr → owner_inv st → start_upload src file va st = Some (skip, st') → owner_inv st'.
Proof.
  intros Hne [Ht Hn Hs]. unfold start_upload. intros (nm & _ & Hrun)%bind_Some.
  case_match; [injection Hrun as _ <-; by split|]. case_match; [injection Hrun as _ <-; by split|].
  set (e1 := env_send false {| dg_dest := src; dg_bytes := file_start (ra_tell (va_read va)) |} (env st)) in *.
  assert (net_ok e1) as Hn1 by (eapply net_ok_elsewhere; [exact Hne|exact Hn|apply (only_to_send false {| dg_dest := src |})]).
  destruct (ra_block _) as [block|]; [|injection Hrun as _ <-; by split].
  apply bind_Some in Hrun as (buf & _ & Hrun). case_match; [injection Hrun as _ <-; by split|].
  unfold sr_sender_init in Hrun. cbn [env set_env] in Hrun.
  apply bind_Some in Hrun as ([[n s1] e2] & Hrun1 & [= _ <-]).
  destruct (send_window_framed _ _ _ _ _ _ Hrun1) as [Hp Honly]. cbn [s_peer_addr] in Hp, Honly.
  split; [done|by eapply net_ok_elsewhere|]. intros _ Hb. cbn [global_sender set_upload] in Hb. congruence.
Qed.

Lemma handle_udp_stranger bs src va st skip st' :
  src ≠ baddr → Forall is_byte bs → owner_inv st → handle_udp (Some (bs, src)) va st = Some (skip, st') →
  owner_inv st'.
Proof.
  intros Hne Hb Hinv. unfold handle_udp. assert (Forall is_byte (cut_datagram bs)) as Hcb by (by apply Forall_take).
  case_match; [by intros [= _ <-]|]. case_match eqn:El; [by intros [= _ <-]|]. rewrite sizeof_udp_header in El.
  destruct (header_ranges (cut_datagram bs)) as (hdr & -> & _ & _ & Hack & _); [lia|done|]. bind_step.
  case_match.
  - case_match; [by intros [= _ <-]|]. case_match; [by intros [= _ <-]|].
    intros (req & _ & Hrun)%bind_Some. apply bind_Some in Hrun as (found & _ & Hrun).
    destruct found as [k|]; [|by injection Hrun as _ <-]. apply bind_Some in Hrun as (file & _ & Hrun).
    case_match; [by injection Hrun as _ <-|]. by eapply start_upload_stranger.
  - case_match; [|by intros [= _ <-]]. destruct Hinv as [Ht Hn Hs].
    destruct (transfer_active st) eqn:Ha; [|intros [= _ <-]; split; [done|done|congruence]].
    intros ([[n s1] e1] & Hrun1 & [= _ <-])%bind_Some.
    destruct (handle_ack_keeps _ _ _ _ _ _ (Hs eq_refl) Hn (proj1 Hack) Hrun1) as [Hs1 Hn1]. by split.
Qed.

(** Any datagram from the address of the downloading client: an upload it
    starts must be the upload of [f], an acknowledgement may be any. *)
Lemma start_upload_inv file va st skip st' :
  owner_inv st → name_ok (ShareTable.file_name file) → serves_file f va →
  start_upload baddr file va st = Some (skip, st') → owner_inv st'.
Proof.
  intros [Ht Hn Hs] Hname Hserves Hrun.
  destruct (start_upload_spec f baddr file va st) as (s & e & Hrun' & Hrel & Hp & Hsends & _); [done..|].
  rewrite Hrun in Hrun'. injection Hrun' as -> ->. split; [done| |intros _ _; by exists ∅].
  eapply (net_ok_sends _ _ e); [| |exact Hsends].
  - apply (net_ok_grow (env st) _ [start_dg f baddr] Hn); [done|]. constructor; [|constructor]. intros _. by left.
  - intros k Hk%elem_of_seqZ. lia.
Qed.

(** The entry a datagram asks for: the one its identifier designates, when the
    hash of the datagram is that of the entry. *)
Definition asks_for (bs : list Z) (st : state) (file : ShareTable.shared_file_t) : Prop :=
  ∃ req, cast udp_request_file_t bs 16 = Some req ∧
    ShareTable.lookup_id (ntohl (urq_file_id req)) (ShareTable.entries (table st)) = Some file ∧
    ShareTable.hash file = urq_hash req.

Lemma handle_udp_inv bs va st skip st' :
  Forall is_byte bs → owner_inv st → (∀ file, asks_for (cut_datagram bs) st file → serves_file f va) →
  handle_udp (Some (bs, baddr)) va st = Some (skip, st') → owner_inv st'.
Proof.
  intros Hb Hinv Hserves. unfold handle_udp.
  assert (Forall is_byte (cut_datagram bs)) as Hcb by (by apply Forall_take).
  assert (ShareTable.wf (table st)) as Hwf by (rewrite (oi_table _ Hinv); apply Hshares).
  case_match; [by intros [= _ <-]|]. case_match eqn:El; [by intros [= _ <-]|]. rewrite sizeof_udp_header in El.
  destruct (header_ranges (cut_datagram bs)) as (hdr & -> & _ & _ & Hack & _); [lia|done|]. bind_step.
  case_match.
  - case_match; [by intros [= _ <-]|]. case_match; [by intros [= _ <-]|].
    intros (req & Hreq & Hrun)%bind_Some. apply bind_Some in Hrun as (found & Hfound & Hrun).
    destruct found as [k|]; [|by injection Hrun as _ <-]. apply bind_Some in Hrun as (file & Hk & Hrun).
    case_match eqn:Eh; [by injection Hrun as _ <-|]. apply negb_false_iff, bool_decide_eq_true in Eh.
    pose proof (found_lookup_id _ _ _ _ Hwf Hfound Hk) as Hsome.
    eapply start_upload_inv; [done|by eapply lookup_id_name_ok| |done].
    apply (Hserves file). by exists req.
  - case_match; [|by intros [= _ <-]]. destruct Hinv as [Ht Hn Hs].
    destruct (transfer_active st) eqn:Ha; [|intros [= _ <-]; split; [done|done|congruence]].
    intros ([[n s1] e1] & Hrun1 & [= _ <-])%bind_Some.
    destruct (handle_ack_keeps _ _ _ _ _ _ (Hs eq_refl) Hn (proj1 Hack) Hrun1) as [Hs1 Hn1]. by split.
Qed.

(** What the downloading client sends: its request and acknowledgements. *)
Lemma request_bytes oaddr :
  Forall is_byte (dg_bytes (request_dg d oaddr)) ∧ length (dg_bytes (request_dg d oaddr)) = 52%nat ∧
  take 4 (drop 16 (dg_bytes (request_dg d oaddr))) = store host_endian 4 (htonl (df_id d)) ∧
  drop 20 (dg_bytes (request_dg d oaddr)) = df_hash d.
Proof.
  pose proof Hok as (Hid & _ & Hl & Hb & _).
  destruct (udp_request_packet (df_id d) (df_hash d) Hid Hl Hb) as (hdr & Hreq & Hf & _).
  cbn [request_dg dg_bytes]. rewrite Hreq. unfold request_packet.
  assert (length (to_bytes hdr) = 16%nat) as Hh by (pose proof (length_to_bytes hdr Hf) as Hlh;
    change (sizeof udp_header_t) with 16 in Hlh; lia).
  assert (to_bytes {| urq_file_id := htonl (df_id d); urq_hash := df_hash d |} =
    store host_endian 4 (htonl (df_id d)) ++ df_hash d) as -> by done.
  assert (length (store host_endian 4 (htonl (df_id d))) = 4%nat) as Hs by (by rewrite length_store).
  split_and!.
  - apply Forall_app. split; [by apply to_bytes_byte|]. apply Forall_app. split; [by apply store_bytes|done].
  - rewrite !length_app. lia.
  - rewrite drop_app_length' by done. by rewrite take_app_length'.
  - rewrite app_assoc. by rewrite drop_app_length' by (rewrite length_app; lia).
Qed.

(** The two fields of a request, at their offsets. *)
Lemma request_cast (bs : list Z) req :
  cast udp_request_file_t bs 16 = Some req →
  urq_file_id req = load host_endian (take 4 (drop 16 bs)) ∧ urq_hash req = take 32 (drop 20 bs).
Proof.
  unfold cast, mread. case_bool_decide; [|done]. intros [= <-]. cbn.
  rewrite take_take. split; [done|]. by rewrite skipn_firstn_comm, drop_drop.
Qed.

(** A request asks for an entry with the hash of the file, also when one byte
    of it was changed: a change of the hash no longer matches the entry of the
    identifier, any other leaves the hash. *)
Lemma request_asks_same_hash oaddr bs st file :
  owner_inv st →
  (bs = dg_bytes (request_dg d oaddr) ∨
   ∃ i x b, dg_bytes (request_dg d oaddr) !! i = Some x ∧ bs = <[i := b]> (dg_bytes (request_dg d oaddr))) →
  asks_for bs st file → ShareTable.hash file = df_hash d.
Proof.
  intros [Ht _ _] Hbs (req & Hcast & Hsome & Hhash). destruct (request_cast _ _ Hcast) as [Hid Hh].
  destruct (request_bytes oaddr) as (_ & Hl & Hidb & Hhb). set (p := dg_bytes _) in *.
  assert (drop 20 bs = df_hash d ∨ take 4 (drop 16 bs) = take 4 (drop 16 p)) as [Heq|Heq].
  { destruct Hbs as [->|(i & x & b & Hi & ->)]; [by left|].
    destruct (decide (i < 20)%nat); [left; by rewrite drop_insert_lt|right].
    rewrite drop_insert_ge by lia. by rewrite take_insert_ge by lia. }
  - rewrite Hhash, Hh, Heq. pose proof Hok as (_ & _ & Hhl & _). by rewrite take_ge by lia.
  - rewrite Heq, Hidb, load_store in Hid; [|done|apply (hton_range 4); [done|apply Hok]].
    rewrite Hid, ntohl_htonl, Ht in Hsome by apply Hok.
    destruct Hshares as (_ & file' & Hfile & Hhash'). congruence.
Qed.

Lemma handle_udp_request_inv oaddr bs va st skip st' :
  owner_inv st → Forall is_byte bs →
  (bs = dg_bytes (request_dg d oaddr) ∨
   ∃ i x b, dg_bytes (request_dg d oaddr) !! i = Some x ∧ bs = <[i := b]> (dg_bytes (request_dg d oaddr))) →
  (∀ file, asks_for bs st file → ShareTable.hash file = df_hash d → serves_file f va) →
  handle_udp (Some (bs, baddr)) va st = Some (skip, st') → owner_inv st'.
Proof.
  intros Hinv Hb Hbs Hserves. destruct (request_bytes oaddr) as (_ & Hl & _).
  assert (cut_datagram bs = bs) as Hcut.
  { apply cut_datagram_short. destruct Hbs as [->|(i & x & b & _ & ->)]; rewrite ?length_insert, Hl; lia. }
  apply handle_udp_inv; [done|done|]. rewrite Hcut. intros file Hask. apply (Hserves file Hask).
  by eapply request_asks_same_hash.
Qed.

(** Sixteen bytes ask for nothing. *)
Lemma handle_udp_short_inv bs va st skip st' :
  owner_inv st → Forall is_byte bs → (length bs ≤ 16)%nat →
  handle_udp (Some (bs, baddr)) va st = Some (skip, st') → owner_inv st'.
Proof.
  intros Hinv Hb Hl. apply handle_udp_inv; [done|done|]. intros file (req & Hcast & _). exfalso.
  rewrite cut_datagram_short in Hcast by lia. unfold cast, mread in Hcast.
  change (sizeof udp_request_file_t) with 36 in Hcast. case_bool_decide; [lia|done].
Qed.

(** An iteration of the owner's loop without a command of its user. *)
Lemma owner_iteration_inv udp now ms st go st' :
  owner_inv st →
  (∀ input va st1 skip, udp = Some (input, va) → handle_udp input va st = Some (skip, st1) → owner_inv st1) →
  client_iteration digest (Polled None udp now ms) st = Some (Returned (go, st')) → owner_inv st'.
Proof.
  intros Hinv Hudp. unfold client_iteration. bind_step. intros ([skip st1] & Hrun1 & Hrun)%bind_Some.
  assert (owner_inv st1) as Hinv1.
  { destruct udp as [[input va]|]; [by eapply Hudp|]. by injection Hrun1 as _ <-. }
  apply bind_Some in Hrun as (st2 & Hrun2 & [= _ <-]).
  destruct skip; [by injection Hrun2 as <-|by eapply upload_tick_inv].
Qed.
End owners.

(** ** The system of the two *)

Record peers := { w_owner : state; w_inbox : list udp_input }.

Section peer_runs.
Context `{Host} (digest : list Z → list Z) (d : dfile) (f : list Z) (ip port : Z) (rest out : list Z).
Context (a : get_answers) (baddr : sockaddr_in) (owner reader : state).

Abbreviation oaddr := {| sin_addr := ip; sin_port := htons port |}.

(** [sent_by_get] and [sent_by_owner] are everything sent so far: the network
    delivers any of it, at any time, as often as it likes, as it was sent or
    with one byte changed.  The disk of the owner gives [f] for the entries
    with the hash of [f]: for a request as it was sent that is the entry of
    [d]; for a changed one only if it asks for such an entry. *)
Inductive peer_step : peers → peers → Prop :=
  | owner_idle now ms go st st' inbox :
      client_iteration digest (Polled None None now ms) st = Some (Returned (go, st')) →
      peer_step {| w_owner := st; w_inbox := inbox |} {| w_owner := st'; w_inbox := inbox |}
  | owner_hears dg va now ms go st st' inbox :
      dg ∈ sent_by_get digest (df_id d) a oaddr reader inbox → serves_file f va →
      client_iteration digest (Polled None (Some (Some (dg_bytes dg, baddr), va)) now ms) st
        = Some (Returned (go, st')) →
      peer_step {| w_owner := st; w_inbox := inbox |} {| w_owner := st'; w_inbox := inbox |}
  | owner_hears_stranger bs src va now ms go st st' inbox :
      src ≠ baddr → Forall is_byte bs →
      client_iteration digest (Polled None (Some (Some (bs, src), va)) now ms) st
        = Some (Returned (go, st')) →
      peer_step {| w_owner := st; w_inbox := inbox |} {| w_owner := st'; w_inbox := inbox |}
  | owner_hears_garbled dg i x b va now ms go st st' inbox :
      dg ∈ sent_by_get digest (df_id d) a oaddr reader inbox →
      dg_bytes dg !! i = Some x → is_byte b → b ≠ x →
      (∀ file, asks_for (<[i := b]> (dg_bytes dg)) st file → ShareTable.hash file = df_hash d →
         serves_file f va) →
      client_iteration digest (Polled None (Some (Some (<[i := b]> (dg_bytes dg), baddr), va)) now ms) st
        = Some (Returned (go, st')) →
      peer_step {| w_owner := st; w_inbox := inbox |} {| w_owner := st'; w_inbox := inbox |}
  | reader_hears dg st inbox :
      dg ∈ sent_by_owner baddr owner st →
      peer_step {| w_owner := st; w_inbox := inbox |}
                {| w_owner := st; w_inbox := inbox ++ [Some (dg_bytes dg, oaddr)] |}
  | reader_hears_garbled dg i x b st inbox :
      dg ∈ sent_by_owner baddr owner st → dg_bytes dg !! i = Some x → is_byte b → b ≠ x →
      peer_step {| w_owner := st; w_inbox := inbox |}
                {| w_owner := st; w_inbox := inbox ++ [Some (<[i := b]> (dg_bytes dg), oaddr)] |}
  | reader_hears_stranger bs src st inbox :
      src ≠ oaddr →
      peer_step {| w_owner := st; w_inbox := inbox |}
                {| w_owner := st; w_inbox := inbox ++ [Some (bs, src)] |}.

Definition peers_inv (w : peers) : Prop :=
  owner_inv f baddr owner (w_owner w) ∧ Forall (arrives f oaddr) (w_inbox w).

Context (Hloc : located digest d f ip port rest out a reader).
Context (Hshares : shares d owner).

Lemma addressed_elem adr dgs dg : dg ∈ addressed adr dgs → dg ∈ dgs ∧ dg_dest dg = adr.
Proof.
  unfold addressed. intros Hdg%list_elem_of_In. apply filter_In in Hdg as [Hin Hb%bool_decide_eq_true].
  split; [by apply list_elem_of_In|done].
Qed.

Lemma sent_by_get_elem inbox dg :
  Forall (arrives f oaddr) inbox → dg ∈ sent_by_get digest (df_id d) a oaddr reader inbox →
  dg = request_dg d oaddr ∨ ack_of_file f oaddr dg.
Proof.
  intros Hall [Hdg _]%addressed_elem.
  destruct (get digest (df_id d) a inbox reader) as [res|] eqn:Hrun; [|cbn [net_of] in Hdg; rewrite drop_nil in Hdg; set_solver].
  destruct (get_safe digest d f ip port rest out a reader Hloc inbox res Hall Hrun) as [_ (got & Hnet & Hgot)].
  rewrite Hnet, drop_app_length in Hdg. apply elem_of_cons in Hdg as [->|Hdg]; [by left|right].
  by eapply (proj1 (Forall_forall _ _)).
Qed.

Lemma sent_by_owner_elem st dg :
  owner_inv f baddr owner st → dg ∈ sent_by_owner baddr owner st → upload_packet f (dg_bytes dg).
Proof.
  intros [_ (new & Hnet & Hnew) _] [Hdg Hto]%addressed_elem. rewrite Hnet, drop_app_length in Hdg.
  by eapply (proj1 (Forall_forall _ _) Hnew).
Qed.

Lemma ack_dg_bytes k :
  0 ≤ k < chunks_of (Z.of_nat (length f)) →
  Forall is_byte (build_ack_packet k) ∧ length (build_ack_packet k) = 16%nat.
Proof.
  intros Hk. pose proof (loc_size _ _ _ _ _ _ _ _ _ Hloc) as Hmax.
  pose proof (chunks_of_max (Z.of_nat (length f)) ltac:(lia)) as Hcm. rewrite build_ack_packet_spec.
  assert (fits (ack_header k)) as Hf by (apply ack_header_fits; unfold in_width; lia).
  split; [by apply seal_bytes|]. pose proof (length_seal (ack_header k) [] Hf) as Hl. simpl in Hl. lia.
Qed.

Lemma peer_step_inv w w' : peers_inv w → peer_step w w' → peers_inv w'.
Proof.
  destruct Hloc as [_ Hok _ _ Hb Hmax _ _].
  intros [Ho Hi] Hstep. destruct Hstep as [now ms go st st' inbox Hrun|dg va now ms go st st' inbox Hdg Hva Hrun
    |bs src va now ms go st st' inbox Hsrc Hbs Hrun
    |dg i x b va now ms go st st' inbox Hdg Hx Hbb Hne Hva Hrun|dg st inbox Hdg|dg i x b st inbox Hdg Hx Hbb Hne|bs src st inbox Hsrc];
    unfold peers_inv in *; cbn [w_owner w_inbox] in *.
  - split; [|done]. eapply owner_iteration_inv; [exact Ho| |exact Hrun]. by intros ????.
  - split; [|done]. eapply owner_iteration_inv; [exact Ho| |exact Hrun]. intros input va' st1 skip [= <- <-] Hudp.
    destruct (sent_by_get_elem inbox dg Hi Hdg) as [->|(k & Hk & ->)].
    + refine (handle_udp_request_inv d f baddr owner Hmax Hok Hshares oaddr _ va st skip st1 Ho _ _ _ Hudp);
        [by eapply request_bytes|by left|done].
    + destruct (ack_dg_bytes k Hk) as [Hab Hal].
      refine (handle_udp_short_inv d f baddr owner Hmax Hshares _ va st skip st1 Ho Hab _ Hudp).
      cbn [ack_dg dg_bytes]. lia.
  - split; [|done]. eapply owner_iteration_inv; [exact Ho| |exact Hrun]. intros input va' st1 skip [= <- <-] Hudp.
    by eapply handle_udp_stranger.
  - split; [|done]. eapply owner_iteration_inv; [exact Ho| |exact Hrun]. intros input va' st1 skip [= <- <-] Hudp.
    destruct (sent_by_get_elem inbox dg Hi Hdg) as [->|(k & Hk & ->)].
    + refine (handle_udp_request_inv d f baddr owner Hmax Hok Hshares oaddr _ va st skip st1 Ho _ _ Hva Hudp);
        [apply Forall_insert; [by eapply request_bytes|done]|right; by exists i, x, b].
    + destruct (ack_dg_bytes k Hk) as [Hab Hal].
      refine (handle_udp_short_inv d f baddr owner Hmax Hshares _ va st skip st1 Ho _ _ Hudp);
        [by apply Forall_insert|]. rewrite length_insert. cbn [ack_dg dg_bytes]. lia.
  - split; [done|]. apply Forall_app. split; [done|]. constructor; [|constructor].
    apply ar_packet. by eapply sent_by_owner_elem.
  - split; [done|]. apply Forall_app. split; [done|]. constructor; [|constructor].
    eapply ar_garbled; [by eapply sent_by_owner_elem|done..].
  - split; [done|]. apply Forall_app. split; [done|]. constructor; [|constructor]. by apply ar_stranger.
Qed.
End peer_runs.

Section peer_claim.
Context `{Host} (digest : list Z → list Z).

(** C2: a download in a hostile network saves the file or nothing.  The
    directory has named an owner that really shares the file of bytes [f] and
    is not uploading; from then on the network loses, duplicates, delays and
    reorders the datagrams of both clients and changes one byte of any of them
    (requests, acknowledgements, announcements and chunks, each delivery
    another byte), strangers send anything to both (also requests that take
    over the owner's only upload, and forged acknowledgements), the clocks and
    the lossy links do what they like.  Whatever has arrived: as long as [get]
    waits the file system is as it was, and when it has returned the file
    system is as it was or has exactly [f] under the name of the file.  (No
    property of the hash is used, so a change of several bytes that keeps the
    checksum is not covered.) *)
Theorem hostile_download_safe d f ip port rest out a baddr owner reader w res :
  located digest d f ip port rest out a reader → shares d owner → transfer_active owner = false →
  rtc (peer_step digest d f ip port a baddr owner reader) {| w_owner := owner; w_inbox := [] |} w →
  get digest (df_id d) a (w_inbox w) reader = Some res →
  match res with
  | Blocked st => fs st = fs reader
  | Returned (_, st) => fs st = fs reader ∨ fs st = <[df_name d := f]> (fs reader)
  end.
Proof.
  intros Hloc Hshares Hidle Hsteps Hrun.
  assert (peers_inv f ip port baddr owner {| w_owner := owner; w_inbox := [] |}) as Hinv.
  { split; [|constructor]. split; [done| |cbn; congruence]. exists []. split; [by rewrite app_nil_r|constructor]. }
  assert (peers_inv f ip port baddr owner w) as [_ Hin].
  { clear Hrun. induction Hsteps as [|w1 w2 w3 Hstep _ IH]; [done|]. apply IH. by eapply peer_step_inv. }
  exact (proj1 (get_safe digest d f ip port rest out a reader Hloc (w_inbox w) res Hin Hrun)).
Qed.
End peer_claim.

(** ** A concrete run: the request with its last byte changed, the request, a
    stranger's datagram, the announcement and the only chunk *)

Module HostileExample.
Import ClientExample.
#[local] Existing Instance host.

Definition reader_addr : sockaddr_in := {| sin_addr := 16777343; sin_port := htons 7001 |}.
Definition stranger : sockaddr_in := {| sin_addr := 1; sin_port := 2 |}.

Lemma example_located : located digest d0 file 16777343 7000 [] [] get_a get_start.
Proof.
  split; try done.
  - apply start_conn. vm_compute. lia.
  - apply d0_ok.
  - apply file_bytes.
  - split; [by exists [1; 2; 3]|done].
Qed.

Lemma example_shares : shares d0 owner.
Proof. split; [apply owner_wf|]. eexists. split; [by vm_compute|done]. Qed.

Definition serving : state :=
  match client_iteration digest
    (Polled None (Some (Some (udp_request 7 (replicate 32 9), reader_addr), serve_a)) 1000 1000) owner with
  | Some (Returned (_, st)) => st | _ => owner
  end.

Definition after : peers := {| w_owner := serving;
  w_inbox := [Some (file_start 3, peer); Some ([1; 2], stranger); data_input file peer 0] |}.

Lemma example_steps :
  rtc (peer_step digest d0 file 16777343 7000 get_a reader_addr owner get_start)
    {| w_owner := owner; w_inbox := [] |} after.
Proof.
  apply (rtc_l _ _ {| w_owner := owner; w_inbox := [] |}).
  { apply (owner_hears_garbled _ _ _ _ _ _ _ _ _ (request_dg d0 peer) 51 9 8 serve_a 1000 1000 true).
    - apply list_elem_of_lookup. exists 0%nat. by vm_compute.
    - by vm_compute.
    - by vm_compute.
    - done.
    - intros. apply serves_file3.
    - by vm_compute. }
  apply (rtc_l _ _ {| w_owner := serving; w_inbox := [] |}).
  { apply (owner_hears _ _ _ _ _ _ _ _ _ (request_dg d0 peer) serve_a 1000 1000 true).
    - apply list_elem_of_lookup. exists 0%nat. by vm_compute.
    - apply serves_file3.
    - by vm_compute. }
  apply (rtc_l _ _ {| w_owner := serving; w_inbox := [Some (file_start 3, peer)] |}).
  { apply (reader_hears _ _ _ _ _ _ _ _ _ (start_dg file reader_addr) serving []).
    apply list_elem_of_lookup. exists 0%nat. by vm_compute. }
  apply (rtc_l _ _ {| w_owner := serving; w_inbox := [Some (file_start 3, peer); Some ([1; 2], stranger)] |}).
  { by apply (reader_hears_stranger _ _ _ _ _ _ _ _ _ [1; 2] stranger serving [Some (file_start 3, peer)]). }
  apply rtc_once.
  apply (reader_hears _ _ _ _ _ _ _ _ _ (data_dg file reader_addr 0) serving
    [Some (file_start 3, peer); Some ([1; 2], stranger)]).
  apply list_elem_of_lookup. exists 1%nat. by vm_compute.
Qed.

Definition download_end : state :=
  match get digest 7 get_a (w_inbox after) get_start with Some (Returned (_, st)) => st | _ => get_start end.

Lemma hostile_download_safe_witness :
  get digest 7 get_a (w_inbox after) get_start = Some (Returned (0, download_end)) ∧
  (fs download_end = fs get_start ∨ fs download_end = <[[97; 98] := file]> (fs get_start)).
Proof.
  assert (get digest 7 get_a (w_inbox after) get_start = Some (Returned (0, download_end))) as Hrun by (by vm_compute).
  split; [exact Hrun|].
  exact (hostile_download_safe digest d0 file 16777343 7000 [] [] get_a reader_addr owner get_start after _
    example_located example_shares eq_refl example_steps Hrun).
Defined.
End HostileExample.
