(* ===== verification/System.v ===== *)
(** * The whole system: directory server, owner and downloading client

    The components composed as they run: a client shares a file, another asks
    the directory for it and downloads it from the first.  The bytes one side
    writes to its TCP connection are the bytes the server receives on it, and
    what the server sends is what arrives at the client; the two clients talk
    over UDP as in [Peers].  [share_then_get] is the purpose of the program. *)

From S2P Require Import Prelude Common Arrays Packed Protocol Tcp Lossy Packets Window ShareTable.
From S2P Require Import SRSender SRReceiver Server Directory ServerLimits Command Client ClientSpec Peers.
Import Client.

Section system.
Context `{Host} (digest : list Z → list Z) (os_send : list Server.event → Z → list Z → Z).

(** An iteration of the server's loop that receives the request [r] of the
    client in slot [c] and answers it with [rep], and makes no other call. *)
Definition answers (srv : Server.state) (c : Server.client_t) (r : request) (rep : reply)
    (srv' : Server.state) : Prop :=
  Server.server_iteration os_send
    (Server.PollReady false None (λ n, n =? Server.fd c) (λ _, Some (wire_request r)) (λ _, true)) srv
    = Some (true, srv') ∧
  Server.trace srv' = Server.trace srv ++
    [Server.EvSend (Server.fd c) (wire_reply rep) (os_send (Server.trace srv) (Server.fd c) (wire_reply rep))].

(** Sharing does not touch the clients. *)
Lemma share_keeps_clients srv i c size h name srv' :
  Server.wf srv → Server.clients srv !! i = Some c → request_ok (Share size h name) →
  Server.process_client_message os_send true i (wire_request (Share size h name)) srv = Some srv' →
  Server.clients srv' = Server.clients srv ∧ Server.num_clients srv' = Server.num_clients srv ∧
  Server.next_client_id srv' = Server.next_client_id srv.
Proof.
  intros Hwf Hc Hok. destruct (share_request_fits _ _ _ Hok) as (Hfits & _ & Hl). pose proof Hok as (_ & Hh & _).
  unfold wire_request.
  assert (length (be32 size ++ h ++ name_field name) = 292%nat) as Hlen
    by (by rewrite !length_app, length_be32, Hl, Hh).
  rewrite process_frame, Hlen, cast_share by (done || by rewrite Hlen).
  change (TCP_SHARE_FILE =? TCP_REGISTER) with false. cbn iota. bind_step.
  destruct (Server.handle_share_file_spec os_send i c _ srv Hwf Hc Hfits) as (nm & _ & Hrun & _).
  intros Hrun'. assert (Server.handle_share_file os_send i {| sf_file_size := htonl size; sf_hash := h;
    sf_filename := name_field name |} srv = Some srv') as Hs by exact Hrun'.
  rewrite Hrun in Hs. case_bool_decide; injection Hs as <-; done.
Qed.

(** The directory's view of a shared file. *)
Definition entry (id : Z) (f fname : list Z) (c : Server.client_t) : dfile := {|
  df_id := id; df_size := Z.of_nat (length f); df_hash := digest f; df_name := fname;
  df_owner := Server.client_id c |}.

(** The state of the directory when the session starts: an honest run, two
    registered clients, room for one more file. *)
Record directory_ready (srv : Server.state) (dir : directory) (ia ib : nat) (ca cb : Server.client_t) : Prop := {
  dr_honest : honest os_send srv dir;
  dr_room : room srv;
  dr_next : Server.next_file_id srv + 2 < 4294967296;
  dr_files : (length (d_files dir) < 1024)%nat;
  dr_owner : Server.clients srv !! ia = Some ca ∧ Server.active ca = true ∧ 0 < Server.fd ca;
  dr_reader : Server.clients srv !! ib = Some cb ∧ Server.active cb = true ∧ 0 < Server.fd cb;
}.

Lemma directory_client srv dir ia ib ca cb :
  directory_ready srv dir ia ib ca cb →
  in_width 32 (sin_addr (Server.addr ca)) ∧ in_width 16 (Server.udp_port ca).
Proof.
  intros [Hh _ _ _ (Ha & _) _]. destruct (honest_spec os_send srv dir Hh) as (Hwf & _).
  destruct (Forall_lookup_1 _ _ _ _ (Server.wf_client _ Hwf) Ha) as (_ & ? & ?). done.
Qed.

(** Sharing, then asking for the file, seen from the server. *)
Lemma directory_session srv dir ia ib ca cb f fname :
  directory_ready srv dir ia ib ca cb →
  request_ok (Share (Z.of_nat (length f)) (digest f) fname) → (length fname ≤ 255)%nat →
  let id := Server.next_file_id srv in
  in_width 32 id ∧
  ∃ srv1 srv2,
    answers srv ca (Share (Z.of_nat (length f)) (digest f) fname) (ShareAck id) srv1 ∧
    answers srv1 cb (RequestFile id) (Location (entry id f fname ca) (peer_of ca)) srv2.
Proof.
  intros [Hh Hroom Hnext Hfiles (Ha & Haa & Hafd) (Hb & Hba & Hbfd)] Hok Hfl id.
  destruct (honest_spec os_send srv dir Hh) as (Hwf & Hrel & Hu & Hinv).
  pose proof (Server.wf_next_file _ Hwf) as Hid. split; [done|].
  pose proof (process_refines os_send srv dir ia ca Hwf Hrel Hroom Ha _ Hok Haa) as Himp.
  unfold implements in Himp. cbn [dir_step] in Himp. rewrite bool_decide_eq_false_2 in Himp by lia.
  destruct Himp as (srv1 & Hrun1 & Hwf1 & Hrel1 & Htr1 & Hu1). specialize (Hu1 Hu).
  destruct (share_keeps_clients srv ia ca _ _ _ srv1 Hwf Ha Hok Hrun1) as (Hcl & Hnc & Hnid).
  pose proof (honest_message os_send srv dir ia ca _ srv1 Hh Hroom Ha Hok Haa Hrun1) as Hh1.
  cbn [dir_step] in Hh1. rewrite bool_decide_eq_false_2 in Hh1 by lia. cbn [fst] in Hh1.
  rewrite (take_ge fname) in Hrel1, Hh1 by lia. rewrite (rel_next_file _ _ Hrel) in Hrel1, Hh1, Htr1.
  change {| df_id := Server.next_file_id srv |} with (entry id f fname ca) in Hrel1, Hh1. fold id in Hrel1, Hh1, Htr1.
  assert (room srv1) as Hroom1.
  { destruct Hroom as (? & ? & ?). pose proof (rel_next_file _ _ Hrel1) as Hn1. cbn [d_next_file] in Hn1.
    unfold room, Server.counts_ok in *. rewrite Hnc, Hnid, <-Hn1. subst id. split_and!; lia. }
  rewrite <-Hcl in Hb.
  pose proof (process_refines os_send srv1 _ ib cb Hwf1 Hrel1 Hroom1 Hb (RequestFile id) Hid Hba) as Himp.
  destruct (honest_spec os_send srv1 _ Hh1) as (_ & _ & _ & [_ Hnd]).
  unfold implements, dir_step in Himp.
  assert (dir_find id {| d_next_client := d_next_client dir; d_next_file := id + 1; d_peers := d_peers dir;
    d_files := d_files dir ++ [entry id f fname ca] |} = Some (entry id f fname ca)) as Hfind.
  { cbn [d_files] in Hnd. apply (first_match_unique _ _ (length (d_files dir))); [|apply Z.eqb_refl|].
    { cbn [d_files]. by rewrite lookup_app_r, Nat.sub_diag by lia. }
    cbn [d_files]. intros k g Hg Hgid%Z.eqb_eq. eapply (NoDup_lookup (df_id <$> _)); [exact Hnd| |].
    - by rewrite list_lookup_fmap, Hg.
    - rewrite list_lookup_fmap, lookup_app_r, Nat.sub_diag by lia. simpl. by rewrite Hgid. }
  rewrite Hfind in Himp. cbn [d_peers entry df_owner] in Himp.
  assert (d_peers dir !! Server.client_id ca = Some (peer_of ca)) as Hpeer
    by (apply (rel_peers _ _ Hrel); by exists ia, ca).
  rewrite Hpeer in Himp. destruct Himp as (srv2 & Hrun2 & _ & _ & Htr2 & _).
  exists srv1, srv2. split; (split; [|done]).
  - rewrite (iteration_process os_send srv ia ca) by done. by rewrite Hrun1.
  - rewrite (iteration_process os_send srv1 ib cb) by done. by rewrite Hrun2.
Qed.

(** The two clients when the session starts: the reply [rep1] of the directory
    arrives at the owner and [rep2] at the reader, in whatever segments; the
    owner's table has room; the system calls on the files succeed; the UDP
    links lose nothing. *)
Record clients_ready (id : Z) (f : list Z) (rep1 rep2 : reply) (owner reader : state)
    (out1 rest1 out2 rest2 : list Z) (a : get_answers) (va : serve_answers) : Prop := {
  cr_owner : conn (tcp_sock owner) out1 (wire_reply rep1 ++ rest1);
  cr_reader : conn (tcp_sock reader) out2 (wire_reply rep2 ++ rest2);
  cr_table : ShareTable.wf (table owner);
  cr_room : (ShareTable.num_files (table owner) < ShareTable.MAX_SHARED_FILES)%nat;
  cr_fresh : ShareTable.lookup_id id (ShareTable.entries (table owner)) = None;
  cr_get : answers_for f a;
  cr_serves : serves_file f va;
  cr_clock : 0 ≤ va_now va;
  cr_olink : lossless (env_link (env owner));
  cr_rlink : lossless (env_link (env reader));
}.

(** C1: sharing and downloading, through the whole system.  From any honest
    state of the directory with two registered clients and room for a file:
    when the owner runs [share] on a file of bytes [f], the server answers its
    request with a new identifier, and then the other client's request for that
    identifier with the endpoint of the owner.  With these replies on their
    connections [share] returns 0, and the exchange between [get] of the one
    and the event loop of the other, over links that lose nothing and within
    [TIMEOUT_MS], ends after one round per window and one for the request:
    [get] has returned 0 and saved exactly [f] under the name it was shared
    under, and the upload is over and its buffer released.  What the clients
    wrote to the server is what the server handled. *)
Theorem share_then_get srv dir ia ib ca cb f fname :
  directory_ready srv dir ia ib ca cb →
  Z.of_nat (length f) < max_file → Forall (λ c, is_byte c ∧ c ≠ 0) fname → (length fname ≤ 255)%nat →
  length (digest f) = 32%nat → Forall is_byte (digest f) →
  ∃ id rep srv1 srv2,
    answers srv ca (Share (Z.of_nat (length f)) (digest f) fname) (ShareAck id) srv1 ∧
    answers srv1 cb (RequestFile id) rep srv2 ∧
    ∀ owner reader out1 rest1 out2 rest2 a va baddr block stack times,
      clients_ready id f (ShareAck id) rep owner reader out1 rest1 out2 rest2 a va →
      length block = length f → quick va (va_now va) times → times ≠ [] →
      chunks_of (Z.of_nat (length f)) ≤ WINDOW_SIZE * (Z.of_nat (length times) - 1) →
      let oaddr := {| sin_addr := sin_addr (Server.addr ca); sin_port := htons (Server.udp_port ca) |} in
      ∃ owner' p st,
        share digest (Some fname) (reads_file f block stack) owner = Some (0, owner') ∧
        conn (tcp_sock owner') (out1 ++ wire_request (Share (Z.of_nat (length f)) (digest f) fname)) rest1 ∧
        exchange_rounds digest id a va oaddr baddr owner' reader times (exchange_init owner') = Some p ∧
        get digest id a (p_inbox p) reader = Some (Returned (0, st)) ∧
        fs st = <[fname := f]> (fs reader) ∧
        conn (tcp_sock st) (out2 ++ wire_request (RequestFile id)) rest2 ∧
        transfer_active (p_owner p) = false ∧ global_file_buffer (p_owner p) = None.
Proof.
  intros Hdr Hmax Hfn Hfl Hdl Hdb.
  assert (request_ok (Share (Z.of_nat (length f)) (digest f) fname)) as Hok
    by (split_and!; try done; unfold in_width, max_file in *; lia).
  destruct (directory_session srv dir ia ib ca cb f fname Hdr Hok Hfl) as (Hid & srv1 & srv2 & Ha1 & Ha2).
  set (id := Server.next_file_id srv) in *.
  exists id, (Location (entry id f fname ca) (peer_of ca)), srv1, srv2. split; [done|]. split; [done|].
  intros owner reader out1 rest1 out2 rest2 a va baddr block stack times Hcr Hbl Hq Hne Hlen oaddr.
  destruct Hcr as [Hc1 Hc2 Hwf Hroom Hfresh Hget Hserves Hclock Hol Hrl]. unfold max_file in Hmax.
  destruct (share_request_spec digest fname f block stack _ owner out1 Hc1) as (t & Ht & Hrun); [done..|lia|done|done|].
  destruct (share_reply_spec fname (digest f) (Z.of_nat (length f)) id rest1 (set_tcp t owner) _ Ht)
    as (owner' & Hrep & Hconn & Hwf' & Hlook & Henv); try done; [unfold in_width; lia|].
  destruct (directory_client srv dir ia ib ca cb Hdr) as [Hip Hport].
  destruct (exchange_ends digest (entry id f fname ca) f (sin_addr (Server.addr ca)) (Server.udp_port ca)
    rest2 out2 a va baddr owner' reader) with (times := times) as (p & st & Hex & Hgot & Hfs & Hcn & Hact & Hbuf & _);
    try done.
  - split; try done.
    + split_and!; try done. cbn [entry df_size]. unfold in_width. lia.
    + split; [done|]. eexists. split; [exact Hlook|done].
    + by rewrite Henv.
  - exists owner', p, st. by rewrite Hrun.
Qed.
End system.

(** ** A concrete session *)

Module SystemExample.
Import ServerLimits.ServerExample.
#[local] Existing Instance host.

(** A second client connects and registers. *)
Definition st3 : Server.state := default Server.init (Server.accept_new_client (Some (6, local_addr)) st1).
Definition c3 : Server.client_t :=
  {| Server.fd := 6; Server.client_id := 0; Server.addr := local_addr; Server.udp_port := 0; Server.active := false |}.
Definition st4 : Server.state :=
  default Server.init (Server.process_client_message send_all true 1 (wire_request (Register 7001)) st3).
Definition c4 : Server.client_t :=
  {| Server.fd := 6; Server.client_id := 2; Server.addr := local_addr; Server.udp_port := 7001; Server.active := true |}.
Definition d4 : directory := (dir_step (sin_addr local_addr) 0 (Register 7001) d1).1.

Lemma honest4 : honest send_all st4 d4.
Proof.
  apply (honest_message send_all st3 d1 1 c3 (Register 7001) st4); try done; try by vm_compute.
  eapply (honest_accept send_all st1 d1 6 local_addr); [apply honest1| |done|by vm_compute].
  intros [|i] c Hc Hp; [by injection Hc as <-|]. exfalso.
  assert (drop 1 (Server.clients st1) = drop 1 (Server.clients Server.init)) as He by (by vm_compute).
  assert (Server.clients Server.init !! S i = Some c) as Hi
    by (rewrite <-Nat.add_1_l, <-lookup_drop, <-He, lookup_drop; exact Hc).
  apply lookup_replicate in Hi as [-> _]. done.
Qed.

Lemma session_ready : directory_ready send_all st4 d4 0 1 c1 c4.
Proof.
  split; [apply honest4|by vm_compute|by vm_compute| |by vm_compute|by vm_compute].
  change (length (d_files d4)) with 0%nat. lia.
Qed.

Lemma reply_length rep : (4 ≤ length (wire_reply rep))%nat.
Proof.
  assert (∀ t c p, 4 ≤ length (frame t c p))%nat as Hf
    by (intros; unfold frame; rewrite !length_app, length_be16; simpl; lia).
  destruct rep as [| | |? []|]; apply Hf.
Qed.

(** Two clients with the replies on their connections. *)
Definition owner_of (id : Z) : state := ClientExample.start (wire_reply (ShareAck id)).
Definition reader_of (rep : reply) : state := ClientExample.start (wire_reply rep).

Lemma example_ready id rep :
  clients_ready id ClientExample.file (ShareAck id) rep (owner_of id) (reader_of rep) [] [] [] []
    ClientExample.get_a ClientExample.serve_a.
Proof.
  split; try done.
  - apply ClientExample.start_conn, reply_length.
  - apply ClientExample.start_conn, reply_length.
  - apply ShareTable.table_init_wf.
  - simpl. unfold ShareTable.MAX_SHARED_FILES. lia.
  - split; [by exists [1; 2; 3]|done].
  - apply ClientExample.serves_file3.
Qed.

Lemma share_then_get_witness :
  ∃ id rep owner' p st,
    exchange_rounds ClientExample.digest id ClientExample.get_a ClientExample.serve_a
      ClientExample.peer local_addr owner' (reader_of rep) [1000; 1100] (exchange_init owner') = Some p ∧
    get ClientExample.digest id ClientExample.get_a (p_inbox p) (reader_of rep) = Some (Returned (0, st)) ∧
    fs st = <[[97; 98] := ClientExample.file]> ∅.
Proof.
  destruct (share_then_get ClientExample.digest send_all st4 d4 0 1 c1 c4 ClientExample.file [97; 98] session_ready)
    as (id & rep & srv1 & srv2 & _ & _ & Hrun).
  - by vm_compute.
  - apply ClientExample.name_bytes.
  - simpl. lia.
  - reflexivity.
  - by apply Forall_replicate.
  - destruct (Hrun (owner_of id) (reader_of rep) [] [] [] [] ClientExample.get_a ClientExample.serve_a local_addr
      [0; 0; 0] [] [1000; 1100] (example_ready id rep)) as (owner' & p & st & _ & _ & Hex & Hget & Hfs & _).
    + reflexivity.
    + split; repeat constructor; by vm_compute.
    + discriminate.
    + by vm_compute.
    + exists id, rep, owner', p, st. exact (conj Hex (conj Hget Hfs)).
Defined.
End SystemExample.
