(* ===== verification/ClientRobust.v ===== *)
(** * The client against whatever arrives

    [ClientSpec] says what the client does when its partners answer as they
    should.  Here the user types anything, strangers send any datagram at any
    time, system calls fail as they like and the server may stop in the middle
    of a message: the event loop is defined on all of it.  Two partners are
    taken at their word because the code takes them at it: the server sends
    replies of the protocol, and the owner of a file being downloaded keeps its
    chunks within the size it announced. *)

From S2P Require Import Prelude Common Arrays Packed Protocol Tcp Lossy Packets Window.
From S2P Require Import ShareTable SRSender SRReceiver ReceiverSafety Directory Command Client ClientSpec.
Import Client.

Section robust.
Context `{Host} (digest : list Z → list Z).

(** ** The stream of a server that speaks the protocol *)

Definition reply_ok (r : reply) : Prop :=
  match r with
  | RegisterAck id | ShareAck id => in_width 32 id
  | FileList fs => Forall dfile_ok fs ∧ (length fs ≤ 220)%nat
  | Location d (ip, port) => dfile_ok d ∧ in_width 32 ip ∧ in_width 16 port
  | ErrorReply code => is_byte code
  end.

(** The parts of a reply on the wire. *)
Definition reply_type (r : reply) : Z :=
  match r with
  | RegisterAck _ => TCP_REGISTER_ACK | ShareAck _ => TCP_SHARE_ACK | FileList _ => TCP_FILE_LIST
  | Location _ _ => TCP_FILE_LOCATION | ErrorReply _ => TCP_ERROR
  end.

Definition reply_code (r : reply) : Z :=
  match r with ErrorReply code => code | _ => ERR_NONE end.

Definition reply_payload (r : reply) : list Z :=
  match r with
  | RegisterAck id | ShareAck id => be32 id
  | FileList fs => concat (wire_file <$> fs)
  | Location d (ip, port) => to_bytes (location_of d ip port)
  | ErrorReply _ => []
  end.

Lemma wire_reply_parts r :
  reply_ok r →
  wire_reply r = frame (reply_type r) (reply_code r) (reply_payload r) ∧
  is_byte (reply_type r) ∧ is_byte (reply_code r) ∧ Z.of_nat (length (reply_payload r)) < 65536.
Proof.
  destruct r as [id|id|fs|d [ip port]|code];
    cbn [reply_ok reply_type reply_code reply_payload]; intros Hok; [| | | |by split_and!].
  - by split_and!.
  - by split_and!.
  - destruct Hok as [Hfs Hn]. split_and!; try done. rewrite length_wire_files_ok by done. lia.
  - destruct Hok as (Hd & Hip & Hport).
    destruct (location_bytes d ip port Hd Hip Hport) as (_ & Hw & Hl). split_and!; try done. by rewrite Hl.
Qed.

(** Replies, in any order, possibly cut short, in any segments. *)
Definition server_stream (t : tcp) : Prop :=
  stream_ok t ∧ ∃ rs, Forall reply_ok rs ∧ received t `prefix_of` concat (wire_reply <$> rs).

(** The same after the header of [r] has been read. *)
Definition in_reply (r : reply) (t : tcp) : Prop :=
  stream_ok t ∧ ∃ rs, Forall reply_ok rs ∧
    received t `prefix_of` reply_payload r ++ concat (wire_reply <$> rs).

(** A prefix of [bs ++ rest] that has as many bytes as [bs] starts with it. *)
Lemma prefix_app_split {A} (l bs rest : list A) :
  l `prefix_of` bs ++ rest → (length bs ≤ length l)%nat →
  ∃ l', l = bs ++ l' ∧ l' `prefix_of` rest.
Proof.
  intros [k Hk] Hl. exists (drop (length bs) l).
  assert (take (length bs) l = bs) as Ht.
  { apply (f_equal (take (length bs))) in Hk. rewrite take_app_length in Hk.
    by rewrite take_app_le in Hk by done. }
  split; [by rewrite <-Ht at 1; rewrite take_drop|].
  exists k. apply (f_equal (drop (length bs))) in Hk. rewrite drop_app_length in Hk.
  by rewrite drop_app_le in Hk by done.
Qed.

(** Reading [n] bytes of a stream of which [bs] comes next. *)
Lemma recv_prefix bs rest st :
  stream_ok (tcp_sock st) → received (tcp_sock st) `prefix_of` bs ++ rest →
  ∃ res t, recv_bytes (Z.of_nat (length bs)) st = Some (res, set_tcp t st) ∧
    stream_ok t ∧ (res = None ∨ res = Some bs ∧ received t `prefix_of` rest).
Proof.
  intros Hok Hpre. unfold recv_bytes.
  destruct (recv_all_total (Z.of_nat (length bs)) (tcp_sock st)) as (res & t & -> & Hok' & _ & Hres); [lia|done|].
  bind_step. exists res, t. split_and!; [done|done|].
  destruct res as [got|]; [right|by left]. destruct (Hres got eq_refl) as [Hl Hrec]. rewrite Hrec in Hpre.
  destruct (prefix_app_split _ _ _ Hpre) as (l' & Heq & Hl'); [rewrite length_app; lia|].
  apply app_inj_1 in Heq as [-> <-]; [done|lia].
Qed.

(** Nothing more is coming, or the header of a reply is. *)
Lemma server_header st :
  server_stream (tcp_sock st) →
  ∃ res t, recv_bytes (sizeof tcp_header_t) st = Some (res, set_tcp t st) ∧
    (res = None ∨ ∃ hb r, res = Some hb ∧ reply_ok r ∧ in_reply r t ∧
      cast tcp_header_t hb 0 = Some {| th_msg_type := reply_type r; th_error_code := reply_code r;
        th_data_len := htons (Z.of_nat (length (reply_payload r))) |}).
Proof.
  intros (Hok & rs & Hrs & Hpre). destruct rs as [|r rs].
  { destruct (recv_prefix (replicate 4 0) [] st Hok) as (res & t & Hrun & _ & Hres).
    { etransitivity; [exact Hpre|apply prefix_nil]. }
    exists res, t. split; [exact Hrun|]. left. destruct Hres as [|[-> Hrest]]; [done|exfalso].
    unfold recv_bytes in Hrun.
    destruct (recv_all_total 4 (tcp_sock st)) as (res' & t' & Hrun' & _ & _ & Hres'); [lia|done|].
    change (Z.of_nat (length (replicate 4 0))) with 4 in Hrun. rewrite Hrun' in Hrun. simplify_eq/=.
    destruct (Hres' _ eq_refl) as [_ Hrec]. rewrite Hrec in Hpre. by apply prefix_nil_inv in Hpre. }
  inversion_clear Hrs as [|?? Hr Hrs']. destruct (wire_reply_parts r Hr) as (Hw & Ht & Hc & Hl).
  set (hdr := {| th_msg_type := reply_type r; th_error_code := reply_code r;
        th_data_len := htons (Z.of_nat (length (reply_payload r))) |}).
  assert (fits hdr) as Hf by (split; [done|]; split; [done|];
    apply (hton_range 2); [lia|unfold in_width; lia]).
  rewrite fmap_cons in Hpre. cbn [concat] in Hpre. rewrite Hw, frame_header, u16_small in Hpre by (done || lia).
  fold hdr in Hpre. rewrite <-!app_assoc in Hpre.
  destruct (recv_prefix _ _ st Hok Hpre) as (res & t & Hrun & Hok' & Hres).
  rewrite length_to_bytes in Hrun by done. exists res, t. split; [exact Hrun|].
  destruct Hres as [->|[-> Hrest]]; [by left|right]. exists (to_bytes hdr), r. split_and!; try done.
  - split; [done|]. by exists rs.
  - rewrite <-(app_nil_r (to_bytes hdr)). by apply cast_to_bytes_0.
Qed.

Lemma server_payload r st :
  in_reply r (tcp_sock st) →
  ∃ res t, recv_bytes (Z.of_nat (length (reply_payload r))) st = Some (res, set_tcp t st) ∧
    (res = None ∨ res = Some (reply_payload r) ∧ server_stream t).
Proof.
  intros (Hok & rs & Hrs & Hpre).
  destruct (recv_prefix _ _ st Hok Hpre) as (res & t & Hrun & Hok' & Hres).
  exists res, t. split; [exact Hrun|]. destruct Hres as [->|[-> Hrest]]; [by left|right].
  split; [done|]. split; [done|]. by exists rs.
Qed.

Lemma send_request_any data st :
  ∃ ok t, send_request data st = Some (ok, set_tcp t st) ∧
    (server_stream (tcp_sock st) → server_stream t).
Proof.
  unfold send_request. destruct (send_all_spec data (tcp_sock st)) as (ok & t & k & -> & Hin & _).
  bind_step. exists ok, t. split; [done|]. unfold server_stream, stream_ok, received. by rewrite Hin.
Qed.

(** ** The invariant *)

(** A running upload reads the buffer that is still allocated, and is the
    sending of its contents; otherwise there is no buffer. *)
Definition upload_wf (st : state) : Prop :=
  if transfer_active st
  then ∃ f A, global_file_buffer st = Some f ∧ sender_rel f (global_sender st) A
  else global_file_buffer st = None.

Definition core_wf (st : state) : Prop := ShareTable.wf (table st) ∧ upload_wf st.

Definition client_wf (st : state) : Prop :=
  core_wf st ∧ (running st = true → server_stream (tcp_sock st)).

(** What the commands leave alone. *)
Definition same_upload (st st' : state) : Prop :=
  transfer_active st' = transfer_active st ∧ global_file_buffer st' = global_file_buffer st ∧
  global_sender st' = global_sender st ∧ running st' = running st.

(** A command that succeeded leaves the stream between two replies. *)
Definition command_ok (st : state) (ret : Z) (st' : state) : Prop :=
  ShareTable.wf (table st') ∧ same_upload st st' ∧ (ret = 0 → server_stream (tcp_sock st')).

Lemma command_failed st st' ret :
  ShareTable.wf (table st') → same_upload st st' → ret ≠ 0 → command_ok st ret st'.
Proof. intros. by split_and!. Qed.

#[local] Hint Extern 1 (same_upload _ _) => split_and!; reflexivity : client.
#[local] Hint Extern 1 (_ ≠ 0) => lia : client.
#[local] Hint Resolve command_failed : client.

(** ** share *)

(** [malloc] gives a block of the size asked for, [fread] at most that many. *)
Definition read_ok (a : read_answers) : Prop :=
  ∀ block, ra_block a = Some block →
    Z.of_nat (length block) = ra_tell a ∧ (length (ra_bytes a) ≤ length block)%nat.

Definition share_ok (a : share_answers) : Prop := read_ok (sa_read a) ∧ length (sa_stack a) = 32%nat.

Lemma read_total a :
  read_ok a →
  read_file_to_buffer a = Some (-1, None) ∨
  ∃ buf, read_file_to_buffer a = Some (0, Some (buf, Z.of_nat (length buf))).
Proof.
  intros Hok. unfold read_file_to_buffer. destruct (ra_open a); cbn [negb]; [|by left].
  case_cond as E2; [by left|].
  destruct (ra_block a) as [block|] eqn:Hb; [|by left]. destruct (Hok block Hb) as [Hl Hn].
  rewrite mwrite_Some by lia. bind_step. case_cond as E3; [by left|]. right.
  change (Z.to_nat 0) with 0%nat. rewrite take_0, app_nil_l. cbn [Nat.add].
  eexists. do 4 f_equal. rewrite length_app, length_drop. lia.
Qed.

Hypothesis digest_length : ∀ x, length (digest x) = 32%nat.

Lemma sha256_length ctx data stack : length stack = 32%nat → length (compute_sha256 digest ctx data stack) = 32%nat.
Proof. intros Hs. unfold compute_sha256. destruct ctx; [apply digest_length|done]. Qed.

Lemma share_reply_robust fname h size st :
  server_stream (tcp_sock st) → ShareTable.wf (table st) → length h = 32%nat →
  Forall (λ c, is_byte c ∧ c ≠ 0) fname →
  ∃ ret st', share_reply fname h size st = Some (ret, st') ∧ command_ok st ret st'.
Proof.
  intros Hst Hwf Hh Hfn. unfold share_reply.
  destruct (server_header st Hst) as (res & t & -> & Hres). bind_step.
  destruct Hres as [->|(hb & r & -> & Hr & Hin & Hcast)]; [eauto 7 with client|].
  rewrite Hcast. cbn [mbind option_bind th_msg_type th_data_len].
  destruct (wire_reply_parts r Hr) as (_ & _ & _ & Hl). rewrite ntohs_htons by lia.
  case_cond as E1; [eauto 7 with client|]. case_cond as E2; [eauto 7 with client|].
  case_cond as E3; [eauto 7 with client|].
  change (sizeof tcp_share_ack_t) with 4 in *.
  destruct r as [id|id|fs|d [ip port]|code]; try done. cbn [reply_payload] in *.
  destruct (server_payload (ShareAck id) (set_tcp t st) Hin) as (res & t2 & Hrun & Hres).
  cbn [reply_payload] in Hrun. rewrite length_be32 in Hrun. change (Z.of_nat 4) with 4 in Hrun.
  rewrite Hrun. bind_step. destruct Hres as [->|[-> Hst2]]; [eauto 7 with client|].
  cbn [reply_payload]. rewrite (proj1 (cast_ack4 id Hr)). bind_step.
  destruct (string_bytes fname Hfn) as [Hfb Hfs].
  destruct (ShareTable.add_spec (table st) (ntohl (htonl id)) (u32 size) h (cstr_bytes fname))
    as (tb & Hadd & Hwf' & _); [done|done|done|by rewrite Hfs|].
  cbn [table set_tcp sack_file_id]. rewrite Hadd. bind_step. eexists _, _. split; [done|].
  by split_and!.
Qed.

Lemma share_robust fname a st :
  server_stream (tcp_sock st) → ShareTable.wf (table st) → share_ok a →
  Forall (λ c, is_byte c ∧ c ≠ 0) fname →
  ∃ ret st', share digest (Some fname) a st = Some (ret, st') ∧ command_ok st ret st'.
Proof.
  intros Hst Hwf [Hread Hstack] Hfn. unfold share.
  destruct (read_total _ Hread) as [->|(buf & ->)]; bind_step; cbn [negb Z.eqb]; [eauto 7 with client|].
  case_cond as E1; [eauto 7 with client|]. rewrite mread_Some by lia. bind_step.
  destruct (string_bytes fname Hfn) as [Hfb Hfs].
  destruct (copy_name_total (cstr_bytes fname)) as [name ->]; [right; by rewrite Hfs|]. bind_step.
  set (h := compute_sha256 digest _ _ _).
  assert (length h = 32%nat) as Hh by (by apply sha256_length).
  rewrite mread_Some by lia. bind_step.
  match goal with |- context [send_request ?d st] => destruct (send_request_any d st) as (ok & t & -> & Ht) end.
  bind_step. destruct ok; cbn [negb]; [|eauto 7 with client].
  destruct (share_reply_robust fname h (Z.of_nat (length buf)) (set_tcp t st)) as (ret & st' & -> & Hok); [auto|done..|].
  by exists ret, st'.
Qed.

(** ** list and quit *)

Lemma in_reply_empty r t : reply_payload r = [] → in_reply r t → server_stream t.
Proof. intros He (Hok & rs & Hrs & Hpre). rewrite He in Hpre. split; [done|]. by exists rs. Qed.

Lemma list_robust malloc_ok st :
  server_stream (tcp_sock st) → ShareTable.wf (table st) →
  ∃ ret lines st', list_files malloc_ok st = Some (ret, lines, st') ∧ command_ok st ret st'.
Proof.
  intros Hst Hwf. unfold list_files.
  match goal with |- context [send_request ?d st] => destruct (send_request_any d st) as (ok & t & -> & Ht) end.
  bind_step. destruct ok; cbn [negb]; [|eauto 7 with client].
  destruct (server_header (set_tcp t st) (Ht Hst)) as (res & t1 & -> & Hres). bind_step.
  destruct Hres as [->|(hb & r & -> & Hr & Hin & Hcast)]; [eauto 7 with client|].
  rewrite Hcast. cbn [mbind option_bind th_msg_type th_data_len].
  destruct (wire_reply_parts r Hr) as (_ & _ & _ & Hl). rewrite ntohs_htons by lia.
  case_cond as E1; [eauto 7 with client|]. case_cond as E2; [eauto 7 with client|].
  change (sizeof file_info_t) with 297 in *.
  destruct r as [id|id|fs|d [ip port]|code]; try done. destruct Hr as [Hfs Hn].
  pose proof (length_wire_files_ok fs Hfs) as Hlen.
  case_cond as E3.
  { eexists _, _, _. split; [done|]. split_and!; try done. intros _.
    eapply in_reply_empty; [|exact Hin]. apply length_zero_iff_nil. cbn [reply_payload] in *. lia. }
  case_cond as E4; [eauto 7 with client|]. destruct malloc_ok; cbn [negb]; [|eauto 7 with client].
  destruct (server_payload (FileList fs) (set_tcp t1 (set_tcp t st)) Hin) as (res & t2 & Hrun & Hres).
  rewrite Hrun. bind_step. destruct Hres as [->|[-> Hst2]]; [eauto 7 with client|].
  cbn [reply_payload]. rewrite Hlen.
  replace (Z.of_nat (297 * length fs)) with (Z.of_nat (length fs) * 297) by lia.
  rewrite Z.div_mul, Nat2Z.id by lia. pose proof (print_infos_wire fs [] 0 Hfs eq_refl) as Hp.
  rewrite app_nil_l in Hp. rewrite Hp. bind_step. eexists _, _, _. split; [done|]. by split_and!.
Qed.

Lemma quit_total st : ∃ t, quit st = Some (set_tcp t st).
Proof.
  unfold quit. match goal with |- context [send_request ?d st] => destruct (send_request_any d st) as (ok & t & -> & _) end.
  by exists t.
Qed.

(** ** get *)

(** A datagram as the socket delivers it. *)
Definition udp_bytes (i : udp_input) : Prop :=
  match i with Some (bs, _) => Forall is_byte bs | None => True end.

(** The first datagram may announce a file: then [malloc] gives a block of the
    announced size or nothing, and what comes from the same source afterwards
    keeps within that size. *)
Definition download_ok (a : get_answers) (pkts : list udp_input) : Prop :=
  length (ga_stack a) = 32%nat ∧ Forall udp_bytes pkts ∧
  ∀ bs src rest start,
    pkts = Some (bs, src) :: rest → cast udp_file_start_t (cut_datagram bs) 16 = Some start →
    (∀ block, ga_block a = Some block → Z.of_nat (length block) = ntohl (fs_file_size start)) ∧
    Forall (λ i, ∀ bs', i = Some (bs', src) →
      within (ntohl (fs_file_size start)) (ntohl (fs_num_chunks start)) (cut_datagram bs')) rest.

Lemma cut_datagram_ok bs :
  Forall is_byte bs → Forall is_byte (cut_datagram bs) ∧ Z.of_nat (length (cut_datagram bs)) ≤ 16 + CHUNK_SIZE.
Proof.
  intros Hb. unfold cut_datagram. split; [by apply Forall_take|].
  rewrite length_take. unfold max_udp_packet_size, CHUNK_SIZE. lia.
Qed.

Lemma download_loop_robust peer pkts r e :
  receiver_safe r → Forall udp_bytes pkts →
  Forall (λ i, ∀ bs, i = Some (bs, peer) → within (r_file_size r) (r_num_chunks r) (cut_datagram bs)) pkts →
  ∃ dl, download_loop peer pkts r e = Some dl ∧
    match dl with DlComplete r' _ => receiver_safe r' | _ => True end.
Proof.
  revert r e. induction pkts as [|i pkts IH]; intros r e Hs Hb Hin; cbn [download_loop];
    (case_cond as Ec; [by eexists|]); [by eexists|].
  inversion_clear Hb as [|?? Hbi Hb']. inversion_clear Hin as [|?? Hwi Hin'].
  destruct i as [[bs src]|]; [|by eexists]. simpl in Hbi.
  case_bool_decide as Hsrc; cbn [negb]; [subst src|by apply IH].
  destruct (cut_datagram_ok bs Hbi) as [Hcb Hcl].
  destruct (handle_data_safe r (cut_datagram bs) e) as (r' & e' & -> & Hs' & (Hsz & Hnc & _) & _ & _); [done..|by apply Hwi|].
  bind_step. apply IH; [done|done|]. by rewrite Hsz, Hnc.
Qed.

Lemma save_file_robust h name a r st :
  receiver_safe r → length (ga_stack a) = 32%nat →
  ∃ ret fs', save_file digest h name a r st = Some (ret, set_fs fs' st).
Proof.
  intros Hs Hstack. unfold save_file, sr_receiver_get_file.
  destruct (rs_buffer _ Hs) as (buf & -> & Hl). bind_step. rewrite mread_Some by lia. bind_step.
  rewrite mread_Some by (rewrite ?sha256_length by done; lia). bind_step.
  case_bool_decide; [destruct (ga_open a); cbn [negb]|].
  - by eexists _, _.
  - exists (-1), (fs st). by destruct st.
  - exists 0, (fs st). by destruct st.
Qed.

(** Only the file system and the UDP side change. *)
Definition same_tcp (st st' : state) : Prop :=
  tcp_sock st' = tcp_sock st ∧ table st' = table st ∧ same_upload st st'.

Definition progress_same (st : state) (p : progress (Z * state)) : Prop :=
  match p with Returned (_, st') => same_tcp st st' | Blocked st' => same_tcp st st' end.

#[local] Hint Extern 1 (progress_same _ _) =>
  cbn [progress_same]; unfold same_tcp, same_upload; split_and!; reflexivity : client.

Lemma get_transfer_robust loc name a pkts st :
  fits loc → download_ok a pkts →
  let peer := {| sin_addr := loc_peer_ip loc; sin_port := htons (ntohs (loc_peer_port loc)) |} in
  ∃ p, get_transfer digest loc name peer a pkts st = Some p ∧ progress_same st p.
Proof.
  intros Hf (Hstack & Hb & Hdl) peer. unfold get_transfer.
  destruct pkts as [|[[bs src]|] pkts]; [eauto with client| |eauto with client].
  inversion_clear Hb as [|?? Hbi Hb']. simpl in Hbi. destruct (cut_datagram_ok bs Hbi) as [Hcb Hcl].
  specialize (Hdl bs src pkts). set (p := cut_datagram bs) in *. change (sizeof udp_header_t) with 16.
  case_cond as E1; [eauto with client|].
  destruct (header_ranges p) as (hdr & -> & _ & _ & _ & Hdlen); [lia|done|]. bind_step.
  unfold in_width in Hdlen. case_cond as E2; [eauto with client|].
  rewrite zero_checksum_bytes by lia. bind_step. case_cond as E3; [eauto with client|].
  case_cond as E4; [eauto with client|]. case_cond as E5; [eauto with client|].
  case_cond as E6; [eauto with client|]. change (sizeof udp_file_start_t) with 8 in *.
  destruct (cast_total (A := udp_file_start_t) p 16) as (start & Hstart & Hfs);
    [lia|change (sizeof udp_file_start_t) with 8; lia|done|].
  rewrite Hstart. bind_step. destruct (Hdl start eq_refl Hstart) as [Hblock Hwithin].
  assert (src = peer) as ->.
  { destruct Hf as (_ & _ & _ & _ & Hport & _). unfold peer. destruct src as [ip port]. cbn [sin_addr sin_port] in E4.
    assert (htons (ntohs (loc_peer_port loc)) = loc_peer_port loc) as -> by (by apply (hton_hton 2)).
    f_equal; lia. }
  destruct (ga_block a) as [block|] eqn:Hbl; [|eauto with client].
  set (size := ntohl _) in *. set (raw := {| r_udp_fd := 0 |}).
  destruct (receiver_init_safe raw (ll_fd (env_link (env st))) peer size (ntohl (fs_num_chunks start)) block)
    as (r & -> & Hs & Hsz & Hnum & _); [by apply (hton_range 4), Hfs..|by apply Hblock|].
  destruct (download_loop_robust peer pkts r (env st)) as (dl & -> & Hdlr); [done|done|by rewrite Hsz, Hnum|].
  bind_step. destruct dl as [ret e|r' e|r' e]; [eauto with client| |eauto with client].
  destruct (save_file_robust (loc_hash loc) name a r' (set_env e st)) as (ret & fs' & ->); [done..|].
  bind_step. eauto with client.
Qed.

(** The failures of [get]. *)
Ltac fails_now := eexists; split; [reflexivity|by split_and!].

Lemma get_robust id a pkts st :
  server_stream (tcp_sock st) → ShareTable.wf (table st) → download_ok a pkts →
  ∃ p, get digest id a pkts st = Some p ∧
    match p with
    | Returned (ret, st') => command_ok st ret st'
    | Blocked st' => ShareTable.wf (table st') ∧ same_upload st st'
    end.
Proof.
  intros Hst Hwf Hdl. unfold get.
  match goal with |- context [send_request ?d st] => destruct (send_request_any d st) as (ok & t & -> & Ht) end.
  bind_step. destruct ok; cbn [negb]; [|fails_now].
  destruct (server_header (set_tcp t st) (Ht Hst)) as (res & t1 & -> & Hres). bind_step.
  destruct Hres as [->|(hb & r & -> & Hr & Hin & Hcast)]; [fails_now|].
  rewrite Hcast. cbn [mbind option_bind th_msg_type th_data_len].
  destruct (wire_reply_parts r Hr) as (_ & _ & _ & Hl). rewrite ntohs_htons by lia.
  case_cond as E1; [fails_now|]. case_cond as E2; [fails_now|].
  case_cond as E3; [fails_now|]. change (sizeof tcp_file_location_t) with 302 in *.
  destruct r as [i|i|fs|d [ip port]|code]; try done. destruct Hr as (Hd & Hip & Hport).
  destruct (location_bytes d ip port Hd Hip Hport) as (Hf & _ & Hlen).
  destruct (server_payload (Location d (ip, port)) (set_tcp t1 (set_tcp t st)) Hin) as (res & t2 & Hrun & Hres).
  cbn [reply_payload] in Hrun, Hres. rewrite Hlen in Hrun. rewrite Hrun. bind_step.
  destruct Hres as [->|[-> Hst2]]; [fails_now|].
  pose proof (cast_to_bytes_0 (location_of d ip port) [] Hf) as Hc. rewrite app_nil_r in Hc.
  rewrite Hc. bind_step. unfold get_from_peer. set (st2 := set_tcp t2 _).
  assert (∀ ret st', same_tcp st2 st' → command_ok st ret st') as Hok.
  { intros ret st' (Htcp & Htab & Hup). split_and!; [by rewrite Htab|exact Hup|by rewrite Htcp]. }
  case_cond as E4; [eexists; split; [done|by apply Hok]|].
  destruct (name_field_ok _ (proj1 (proj2 (proj2 (proj2 (proj2 Hd))))) (proj2 (proj2 (proj2 (proj2 (proj2 Hd)))))) as (_ & _ & Hn).
  cbn [location_of loc_filename]. rewrite Hn. bind_step.
  case_cond as E5; [eexists; split; [done|by apply Hok]|].
  case_cond as E6; [eexists; split; [done|by apply Hok]|].
  match goal with |- context [get_transfer digest ?loc ?name _ a pkts ?s] =>
    destruct (get_transfer_robust loc name a pkts s Hf Hdl) as (p & -> & Hp) end.
  eexists. split; [done|]. destruct p as [[ret st']|st']; [by apply Hok|].
  destruct Hp as (_ & Htab & Hup). split; [by rewrite Htab|exact Hup].
Qed.

(** ** A command line *)

Lemma Forall_take_while P p s : Forall P s → Forall P (take_while p s).
Proof. induction 1; simpl; [done|]. case_cond as E; by constructor. Qed.

Lemma Forall_drop_while P p s : Forall P s → Forall P (drop_while p s).
Proof. induction 1; simpl; [done|]. case_cond as E; [done|by constructor]. Qed.

(** The file name is made of characters of the line. *)
Lemma parse_share_chars P line fname :
  Forall P line → parse_command line = CmdShare fname → Forall P fname.
Proof.
  intros Hl. unfold parse_command.
  assert (Forall P (skip_space (cut_newline line))) as Hp by (by apply Forall_drop_while, Forall_take_while).
  destruct (skip_space (cut_newline line)) as [|c p]; [done|]. unfold scan_line.
  set (q := skip_space (c :: p)). assert (Forall P q) as Hq by (by apply Forall_drop_while).
  destruct (take 15 _) as [|c1 cmd]; [done|]. set (arg := take 511 _).
  assert (Forall P arg) as Ha by (by apply Forall_take, Forall_take_while, Forall_drop_while, Forall_drop).
  destruct arg as [|c2 arg]; repeat case_match; try done; intros [= <-]; by apply Forall_drop_while.
Qed.

Definition command_answers_ok (a : command_answers) : Prop :=
  share_ok (ca_share a) ∧ download_ok (ca_get a) (ca_udp a).

(** A line as [fgets] leaves it: a C string. *)
Definition line_ok (line : list Z) : Prop := Forall (λ c, is_byte c ∧ c ≠ 0) line.

Lemma upload_wf_same st st' : same_upload st st' → upload_wf st → upload_wf st'.
Proof. intros (Ha & Hb & Hs & _). unfold upload_wf. by rewrite Ha, Hb, Hs. Qed.

Lemma after_command_wf st ret st' :
  upload_wf st → command_ok st ret st' → ∃ st2, after_command ret st' = Some st2 ∧ client_wf st2.
Proof.
  intros Hup (Hwf & Hsame & Hst). unfold after_command. destruct (Z.eqb_spec ret 0) as [->|]; cbn [negb].
  - eexists. split; [done|]. split; [|auto]. split; [done|]. exact (upload_wf_same st st' Hsame Hup).
  - destruct (quit_total st') as [t ->]. bind_step. eexists. split; [done|]. split; [|done].
    split; [done|]. exact (upload_wf_same st st' Hsame Hup).
Qed.

Lemma handle_command_robust line a st :
  client_wf st → running st = true → line_ok line → command_answers_ok a →
  ∃ p, handle_command digest line a st = Some p ∧
    match p with Returned st' => client_wf st' | Blocked st' => core_wf st' end.
Proof.
  intros ([Hwf Hup] & Hst) Hrun Hline [Hshare Hdl]. specialize (Hst Hrun). unfold handle_command.
  destruct (parse_command line) as [| |fname| |id| | |] eqn:Hcmd; try (by eexists).
  - apply (parse_share_chars _ _ _ Hline) in Hcmd.
    destruct (share_robust fname (ca_share a) st) as (ret & st' & -> & Hok); [done..|]. bind_step.
    destruct (after_command_wf st ret st' Hup Hok) as (st2 & -> & Hst2). by eexists.
  - destruct (list_robust (ca_list_malloc a) st Hst Hwf) as (ret & lines & st' & -> & Hok). bind_step.
    destruct (after_command_wf st ret st' Hup Hok) as (st2 & -> & Hst2). by eexists.
  - destruct (get_robust id (ca_get a) (ca_udp a) st) as (p & -> & Hp); [done..|]. bind_step.
    destruct p as [[ret st']|st'].
    + destruct (after_command_wf st ret st' Hup Hp) as (st2 & -> & Hst2). by eexists.
    + eexists. split; [done|]. split; [apply Hp|]. exact (upload_wf_same st st' (proj2 Hp) Hup).
  - destruct (quit_total st) as [t ->]. bind_step. eexists. split; [done|]. split; [|done].
    split; [done|]. exact Hup.
Qed.

(** ** The UDP side *)

(** Files the sender can cut into chunks. *)
Definition serve_ok (a : serve_answers) : Prop :=
  read_ok (va_read a) ∧ ra_tell (va_read a) < max_file.

(** What the UDP branch and the upload leave alone. *)
Definition same_control (st st' : state) : Prop :=
  tcp_sock st' = tcp_sock st ∧ running st' = running st.

Lemma start_upload_robust peer file a st :
  core_wf st → is_Some (cstring (ShareTable.file_name file)) → serve_ok a →
  ∃ skip st', start_upload peer file a st = Some (skip, st') ∧ core_wf st' ∧ same_control st st'.
Proof.
  intros Hwf [nm Hnm] [Hread Hmax]. unfold start_upload. rewrite Hnm. bind_step.
  destruct (ra_open (va_read a)); cbn [negb]; [|by eexists _, _].
  case_cond as E1; [by eexists _, _|].
  set (st1 := set_env _ st). assert (core_wf st1 ∧ same_control st st1) as [Hwf1 Hsame1] by done.
  destruct (ra_block (va_read a)) as [block|] eqn:Hb; [|by eexists _, st1].
  destruct (Hread block Hb) as [Hl Hn]. rewrite mwrite_Some by lia. bind_step.
  case_cond as E2; [by eexists _, st1|].
  change (Z.to_nat 0) with 0%nat. rewrite take_0, app_nil_l. cbn [Nat.add].
  set (f := ra_bytes (va_read a) ++ _).
  assert (Z.of_nat (length f) = ra_tell (va_read a)) as Hf
    by (unfold f; rewrite length_app, length_drop; lia).
  unfold max_file in Hmax. rewrite u32_small, <-Hf by lia.
  destruct (sender_init_rel f (ll_fd (env_link (env st1))) peer (global_sender st1)) as (s & -> & Hrel & _);
    [unfold max_file; lia|].
  destruct (send_window_spec (va_now a) f s ∅ (env st1) Hrel) as (w' & e & -> & Hrel' & _).
  bind_step. eexists _, _. split; [done|]. split; [|done]. split; [apply Hwf1|].
  unfold upload_wf. cbn [transfer_active set_upload global_file_buffer global_sender]. by exists f, ∅.
Qed.

Lemma handle_udp_robust i a st :
  core_wf st → udp_bytes i → serve_ok a →
  ∃ skip st', handle_udp i a st = Some (skip, st') ∧ core_wf st' ∧ same_control st st'.
Proof.
  intros Hwf Hb Ha. unfold handle_udp. destruct i as [[bs peer]|]; [|by eexists _, _].
  simpl in Hb. destruct (cut_datagram_ok bs Hb) as [Hcb _]. set (p := cut_datagram bs) in *.
  change (sizeof udp_header_t) with 16 in *. change (sizeof udp_request_file_t) with 36 in *.
  case_cond as E1; [by eexists _, _|]. case_cond as E2; [by eexists _, _|].
  destruct (header_ranges p) as (hdr & -> & _ & _ & Hack & _); [lia|done|]. bind_step.
  case_cond as E3; [|case_cond as E4; [|by eexists _, _]].
  - case_cond as E5; [by eexists _, _|]. case_cond as E6; [by eexists _, _|].
    destruct (cast_total (A := udp_request_file_t) p 16) as (req & -> & _);
      [lia|change (sizeof udp_request_file_t) with 36; lia|done|]. bind_step.
    destruct Hwf as [(Hl & Hn & Hall) Hup]. unfold ShareTable.find_shared_file_by_id.
    destruct (scan_cases (λ f, ShareTable.file_id f =? ntohl (urq_file_id req)) (ShareTable.table (table st))
      (ShareTable.num_files (table st))) as [[-> _]|(k & file & -> & Hk & Hfile & _ & Hsome)];
      [by rewrite Hl|by eexists _, _|]. bind_step. rewrite Hfile. bind_step.
    case_cond as E7; [by eexists _, _|]. apply start_upload_robust; [done| |done].
    apply first_match_Some in Hsome as (j & Hj & _).
    pose proof (Forall_lookup_1 _ _ _ _ Hall Hj) as (_ & _ & _ & ?). done.
  - destruct (transfer_active st) eqn:Hact; [|by eexists _, _].
    destruct Hwf as [Htab Hup]. unfold upload_wf in Hup. rewrite Hact in Hup.
    destruct Hup as (f & A & Hbuf & Hrel).
    destruct (handle_ack_spec f (global_sender st) A hdr (env st) Hrel) as (b' & w' & a' & e' & -> & Hrel' & _);
      [apply Hack|]. bind_step. eexists _, _. split; [done|]. split; [|done]. split; [done|].
    unfold upload_wf. cbn [transfer_active set_upload global_file_buffer global_sender]. by eexists f, _.
Qed.

Lemma upload_tick_robust now curr_ms st :
  core_wf st → ∃ st', upload_tick now curr_ms st = Some st' ∧ core_wf st' ∧ same_control st st'.
Proof.
  intros [Htab Hup]. unfold upload_tick. unfold upload_wf in Hup.
  destruct (transfer_active st) eqn:Hact; cbn [negb].
  2:{ eexists. split; [done|]. split; [|done]. split; [done|]. unfold upload_wf. by rewrite Hact. }
  destruct Hup as (f & A & Hbuf & Hrel).
  destruct (send_window_spec now f _ A (env st) Hrel) as (w1 & e1 & -> & Hrel1 & _). bind_step.
  destruct (check_timeouts_spec curr_ms f _ A e1 Hrel1) as (w2 & e2 & -> & Hrel2 & _). bind_step.
  destruct (_ <? 0); [by eexists|]. destruct (sr_sender_is_complete _); [by eexists|].
  eexists. split; [done|]. split; [|done]. split; [done|].
  unfold upload_wf. cbn [transfer_active set_upload global_file_buffer global_sender]. by exists f, A.
Qed.

(** ** The event loop *)

Definition iteration_ok (a : iteration_answers) : Prop :=
  match a with
  | PollFailed => True
  | Polled stdin udp _ _ =>
      match stdin with Some (line, ca) => line_ok line ∧ command_answers_ok ca | None => True end ∧
      match udp with Some (i, va) => udp_bytes i ∧ serve_ok va | None => True end
  end.

Lemma client_wf_control st st' : client_wf st → core_wf st' → same_control st st' → client_wf st'.
Proof. intros [_ Hst] Hwf (Htcp & Hrun). split; [done|]. by rewrite Htcp, Hrun. Qed.

Lemma client_iteration_robust a st :
  client_wf st → running st = true → iteration_ok a →
  ∃ p, client_iteration digest a st = Some p ∧
    match p with
    | Returned (go, st') => client_wf st' ∧ (go = true → running st' = true)
    | Blocked st' => core_wf st'
    end.
Proof.
  intros Hwf Hrun Ha. unfold client_iteration. destruct a as [|stdin udp now curr_ms]; [by eexists|].
  destruct Ha as [Hin Hudp].
  assert (∃ p, match stdin with None => Some (Returned st) | Some (line, ca) => handle_command digest line ca st end
      = Some p ∧ match p with Returned st' => client_wf st' | Blocked st' => core_wf st' end)
    as (p & -> & Hp).
  { destruct stdin as [[line ca]|]; [|by eexists]. destruct Hin. by apply handle_command_robust. }
  bind_step. destruct p as [st1|st1]; [|by eexists].
  assert (∃ skip st2, match udp with None => Some (false, st1) | Some (input, va) => handle_udp input va st1 end
      = Some (skip, st2) ∧ core_wf st2 ∧ same_control st1 st2) as (skip & st2 & -> & Hwf2 & Hs2).
  { destruct udp as [[i va]|]; [|by eexists _, _; split; [|split; [apply Hp|]]].
    destruct Hudp. by apply handle_udp_robust; [apply Hp|..]. }
  bind_step. pose proof (client_wf_control _ _ Hp Hwf2 Hs2) as Hc2.
  destruct skip.
  - bind_step. by eexists.
  - destruct (upload_tick_robust now curr_ms st2 Hwf2) as (st3 & -> & Hwf3 & Hs3). bind_step.
    eexists. split; [done|]. split; [|done]. by eapply client_wf_control.
Qed.

(** The state in which a run of the loop stops or waits. *)
Definition final_state (p : progress state) : state :=
  match p with Returned st | Blocked st => st end.

End robust.
