(* ===== verification/ClientMain.v ===== *)
(** * The whole client: [main] of [client.c]

    The command line, the two sockets, the connection to the server, the
    registration, the event loop and the way out.  Nothing in the registration
    or in an iteration of the loop closes a socket, so their calls on the two
    sockets are checked together, before the registration and at the start of
    each iteration ([use_all]).  The conversion of the loss
    rate and of the server's address is the C library's ([atof], [inet_pton])
    and comes with the clock as an argument. *)

From S2P Require Import Prelude Common Sockets Packed Protocol Tcp Lossy Packets Window.
From S2P Require Import ShareTable SRSender SRReceiver Directory Command Client ClientSpec ClientRobust.
Import Client.

(** [loss_rate] is [(float)atof(s)]; [pton] is the address [inet_pton] stores. *)
Record start_answers := {
  st_loss : list Z → cdouble;
  st_pton : list Z → option Z;
  st_time : Z;
}.

(** What the start leaves for the rest of [main]. *)
Record client_start := {
  cs_udp_fd : Z;
  cs_udp_port : Z;
  cs_tcp_fd : Z;
  cs_link : lossy_link_t;
}.

(** [main] returns, or waits for input, with the state of the client. *)
Inductive client_exit :=
  | Exited (status : Z)
  | Waiting (st : state).

(** The static [global_sender] before the first upload. *)
Definition zero_sender : sr_sender_t := {|
  s_udp_fd := 0; s_peer_addr := {| sin_addr := 0; sin_port := 0 |}; s_base := 0; s_next_seq := 0;
  s_window := replicate (Z.to_nat WINDOW_SIZE) empty_entry; s_file_data := []; s_file_size := 0;
  s_num_chunks := 0; s_chunks_acked := 0; s_lossy_link := false |}.

Section main.
Context `{Host} (digest : list Z → list Z).

(** [(argc >= 4) ? (uint16_t)atoi(argv[3]) : 0]. *)
Definition client_udp_port (argv : list (list Z)) : option Z :=
  match argv !! 3%nat with
  | Some s => n ← atoi s; Some (u16 n)
  | None => Some 0
  end.

(** Up to the connection; [None] when [main] returns 1. *)
Definition client_startup (argv : list (list Z)) (a : start_answers) : sys (option client_start) :=
  match argv with
  | _ :: server_ip :: port_arg :: _ =>
      udp_port ← lift (client_udp_port argv);
      udp_fd ← create_udp_socket;
      if udp_fd <? 0 then mret None else
      b ← bind_socket udp_fd udp_port;
      if b <? 0 then (_ ← sys_close udp_fd; mret None) else
      port ← (if udp_port =? 0 then
                '(r, p) ← sys_getsockname udp_fd;
                if r =? -1 then (_ ← sys_close udp_fd; mret None) else mret (Some (ntohs p))
              else mret (Some udp_port));
      match port with
      | None => mret None
      | Some udp_port =>
          let loss_rate := match argv !! 4%nat with Some s => st_loss a s | None => no_loss end in
          let lossy_link := lossy_init udp_fd loss_rate (u64 (st_time a)) in
          server_port ← lift (n ← atoi port_arg; Some (u16 n));
          tcp_fd ← create_tcp_socket;
          if tcp_fd <? 0 then (_ ← sys_close udp_fd; mret None) else
          match st_pton a server_ip with
          | None => _ ← sys_close udp_fd; _ ← sys_close tcp_fd; mret None
          | Some ip =>
              c ← on_fd tcp_fd (SysConnect tcp_fd {| sin_addr := ip; sin_port := htons server_port |});
              if c <? 0 then (_ ← sys_close tcp_fd; _ ← sys_close udp_fd; mret None)
              else mret (Some {| cs_udp_fd := udp_fd; cs_udp_port := udp_port;
                                 cs_tcp_fd := tcp_fd; cs_link := lossy_link |})
          end
      end
  | _ => mret None
  end.

(** The globals and the local objects of [main] when the connection is up:
    [t] is what the connection will carry, [files] the files on disk. *)
Definition client_init (link : lossy_link_t) (t : tcp) (files : filesystem) : state := {|
  tcp_sock := t; table := ShareTable.init;
  env := {| env_link := link; env_stats := stats_init; env_net := [] |};
  fs := files; global_sender := zero_sender; global_file_buffer := None;
  transfer_active := false; running := true |}.

(** [while (running)]: an iteration polls and reads the UDP socket, sends on
    it, and sends and receives on the connection. *)
Fixpoint client_loop_on (tcp_fd udp_fd : Z) (answers : list iteration_answers) (st : state) :
    sys (progress state) :=
  if negb (running st) then mret (Returned st) else
  _ ← use_all SysPoll [udp_fd; tcp_fd];
  match answers with
  | [] => mret (Blocked st)
  | a :: answers =>
      p ← lift (client_iteration digest a st);
      match p with
      | Blocked st => mret (Blocked st)
      | Returned (go, st) =>
          if go : bool then client_loop_on tcp_fd udp_fd answers st else mret (Returned st)
      end
  end.

Definition client_program (argv : list (list Z)) (a : start_answers) (t : tcp) (files : filesystem)
    (answers : list iteration_answers) : sys client_exit :=
  s ← client_startup argv a;
  match s with
  | None => mret (Exited 1)
  | Some s =>
      _ ← use_all SysSend [cs_tcp_fd s];
      '(client_id, st) ← lift (register_client (cs_udp_port s) (client_init (cs_link s) t files));
      match client_id with
      | None => _ ← sys_close (cs_tcp_fd s); _ ← sys_close (cs_udp_fd s); mret (Exited 1)
      | Some _ =>
          p ← client_loop_on (cs_tcp_fd s) (cs_udp_fd s) answers st;
          match p with
          | Blocked st => mret (Waiting st)
          | Returned _ =>
              _ ← sys_close (cs_tcp_fd s); _ ← sys_close (cs_udp_fd s); mret (Exited 0)
          end
      end
  end.

(** ** Descriptors *)

(** Both sockets are open, and nothing else is new. *)
Definition both_open (F : gset Z) (u t : Z) (F' : gset Z) : Prop :=
  u ∉ F ∧ t ∉ F ∧ u ≠ t ∧ F' = {[t]} ∪ ({[u]} ∪ F).

Lemma close_then {A} F fd (a : A) :
  fd ∉ F → triple ({[fd]} ∪ F) (_ ← sys_close fd; mret a) (λ r F', r = a ∧ F' = F).
Proof.
  intros Hni. eapply triple_bind; [apply (triple_close _ fd (λ _ F', F' = F)); [set_solver|by apply close_fresh]|].
  intros _ ? ->. by apply triple_ret.
Qed.

Lemma close_both {A} F u t F' (a : A) :
  both_open F u t F' →
  triple F' (_ ← sys_close t; _ ← sys_close u; mret a) (λ r F', r = a ∧ F' = F) ∧
  triple F' (_ ← sys_close u; _ ← sys_close t; mret a) (λ r F', r = a ∧ F' = F).
Proof.
  intros (Hu & Ht & Hne & ->). split.
  - eapply triple_bind; [apply (triple_close _ t (λ _ F', F' = {[u]} ∪ F)); set_solver|].
    intros _ ? ->. by apply close_then.
  - eapply triple_bind; [apply (triple_close _ u (λ _ F', F' = {[t]} ∪ F)); [set_solver|]|].
    + apply set_eq. set_solver.
    + intros _ ? ->. by apply close_then.
Qed.

(** The numbers of the command line fit an [int]. *)
Definition args_ok (argv : list (list Z)) : Prop :=
  (∀ s, argv !! 2%nat = Some s → is_Some (atoi s)) ∧ (∀ s, argv !! 3%nat = Some s → is_Some (atoi s)).

Lemma client_startup_triple F argv a :
  args_ok argv →
  triple F (client_startup argv a) (λ r F',
    match r with
    | None => F' = F
    | Some s => both_open F (cs_udp_fd s) (cs_tcp_fd s) F' ∧ in_width 16 (cs_udp_port s)
    end).
Proof.
  intros [Hport Hudp]. destruct argv as [|a0 [|ip [|pa rest]]]; try (by apply triple_ret). cbn [client_startup].
  assert (∃ p, client_udp_port (a0 :: ip :: pa :: rest) = Some p ∧ in_width 16 p) as (p & Hp & Hpw).
  { unfold client_udp_port. destruct (_ !! 3%nat) as [s|] eqn:Hs; [|by exists 0].
    destruct (Hudp s eq_refl) as [n ->]. eexists. split; [done|]. by apply uwrap_range. }
  eapply triple_lift; [exact Hp|].
  eapply triple_bind; [apply create_socket_triple|].
  intros u F' [[-> ->]|(Hu & Hni & ->)]; [by apply triple_ret|]. rewrite (proj2 (Z.ltb_ge _ _)) by lia.
  eapply triple_bind; [apply bind_socket_triple; set_solver|]. intros b F' [-> _].
  case_cond as Eb; [eapply triple_weaken; [by apply close_then|]; by intros ? ? [-> ->]|].
  eapply triple_bind with (R := λ q F', match q with None => F' = F | Some q => in_width 16 q ∧ F' = {[u]} ∪ F end).
  { case_cond as Ep; [|by apply triple_ret].
    eapply triple_bind; [apply getsockname_triple; set_solver|]. intros [r q] F' [-> Hq].
    case_cond as Er; [eapply triple_weaken; [by apply close_then|]; by intros ? ? [-> ->]|].
    apply triple_ret. split; [by apply (hton_range 2)|done]. }
  intros q F' Hq. destruct q as [q|]; [|by apply triple_ret]. destruct Hq as [Hq ->].
  destruct (Hport pa eq_refl) as [n Hn]. rewrite Hn. bind_step.
  eapply triple_lift; [done|].
  eapply triple_bind; [apply create_socket_triple|].
  intros t F' [[-> ->]|(Ht & Hnt & ->)].
  { eapply triple_weaken; [by apply close_then|]. by intros ? ? [-> ->]. }
  rewrite (proj2 (Z.ltb_ge _ _)) by lia.
  assert (both_open F u t ({[t]} ∪ ({[u]} ∪ F))) as Hboth by (split_and!; [done|set_solver|set_solver|done]).
  destruct (close_both F u t _ (None : option client_start) Hboth) as [Hc1 Hc2].
  destruct (st_pton a ip) as [addr|]; [|eapply triple_weaken; [exact Hc2|]; by intros ? ? [-> ->]].
  eapply triple_bind; [apply (triple_on_fd _ t _ (λ _ F', F' = {[t]} ∪ ({[u]} ∪ F))); [set_solver|done]|].
  intros c ? ->. case_cond as Ec; [eapply triple_weaken; [exact Hc1|]; by intros ? ? [-> ->]|].
  by apply triple_ret.
Qed.

(** ** Registration *)

Lemma register_robust port st :
  server_stream (tcp_sock st) →
  ∃ r t, register_client port st = Some (r, set_tcp t st) ∧ (is_Some r → server_stream t).
Proof.
  intros Hst. unfold register_client.
  match goal with |- context [send_request ?d st] => destruct (send_request_any d st) as (ok & t & -> & Ht) end.
  bind_step. destruct ok; cbn [negb]; [|exists None, t; split; [done|by intros []]].
  destruct (server_header (set_tcp t st) (Ht Hst)) as (res & t1 & -> & Hres). bind_step.
  assert (∃ (r : option Z) t', Some (None, set_tcp t1 (set_tcp t st)) = Some (r, set_tcp t' st) ∧
    (is_Some r → server_stream t')) as Hfail by (exists None, t1; split; [done|by intros []]).
  destruct Hres as [->|(hb & r & -> & Hr & Hin & Hcast)]; [exact Hfail|].
  rewrite Hcast. cbn [mbind option_bind th_msg_type th_data_len].
  destruct (wire_reply_parts r Hr) as (_ & _ & _ & Hl). rewrite ntohs_htons by lia.
  case_cond as E1; [exact Hfail|]. case_cond as E2; [exact Hfail|]. case_cond as E3; [exact Hfail|].
  change (sizeof tcp_register_ack_t) with 4 in *.
  destruct r as [id|id|fs|d [ip p]|code]; try done.
  destruct (server_payload (RegisterAck id) (set_tcp t1 (set_tcp t st)) Hin) as (res & t2 & Hrun & Hres).
  cbn [reply_payload] in Hrun, Hres. rewrite length_be32 in Hrun. change (Z.of_nat 4) with 4 in Hrun.
  rewrite Hrun. bind_step. destruct Hres as [->|[-> Hst2]]; [exists None, t2; split; [done|by intros []]|].
  rewrite (proj2 (cast_ack4 id Hr)). bind_step. eexists _, t2. by split.
Qed.

Lemma client_init_wf link t files : server_stream t → client_wf (client_init link t files).
Proof. intros Hst. split; [|done]. split; [apply ShareTable.table_init_wf|done]. Qed.

Hypothesis digest_length : ∀ x, length (digest x) = 32%nat.

(** The loop is that of [Client], on open sockets. *)
Lemma client_loop_on_triple F tcp_fd udp_fd answers st :
  tcp_fd ∈ F → udp_fd ∈ F → client_wf st → Forall iteration_ok answers →
  triple F (client_loop_on tcp_fd udp_fd answers st) (λ p F',
    F' = F ∧ client_loop digest answers st = Some p ∧ core_wf (final_state p)).
Proof.
  intros Ht Hu. revert st. induction answers as [|a answers IH]; intros st Hwf Ha;
    cbn [client_loop client_loop_on];
    (destruct (running st) eqn:Hrun; cbn [negb];
     [|apply triple_ret; split_and!; [done|done|apply Hwf]]);
    (eapply triple_bind; [apply (triple_use_all F _ _ (λ _ F', F' = F)); [by repeat constructor|done]|]);
    intros _ ? ->.
  { apply triple_ret. split_and!; [done|done|apply Hwf]. }
  inversion_clear Ha as [|?? Ha1 Ha'].
  destruct (client_iteration_robust digest digest_length a st Hwf Hrun Ha1) as (p & Hp & Hok).
  eapply triple_lift; [exact Hp|]. rewrite Hp. bind_step. destruct p as [[go st']|st'].
  - destruct Hok as [Hwf' _]. destruct go; [by apply IH|]. apply triple_ret.
    split_and!; [done|done|apply Hwf'].
  - apply triple_ret. by split_and!.
Qed.

Lemma client_program_triple F argv a t files answers :
  args_ok argv → server_stream t → Forall iteration_ok answers →
  triple F (client_program argv a t files answers) (λ x F',
    match x with
    | Exited status => (status = 0 ∨ status = 1) ∧ F' = F
    | Waiting st => core_wf st ∧ ∃ u t, both_open F u t F'
    end).
Proof.
  intros Hargs Hst Hans. unfold client_program. eapply triple_bind; [by apply client_startup_triple|].
  intros [s|] F'; [|intros ->; apply triple_ret; auto]. intros [Hboth _].
  destruct (register_robust (cs_udp_port s) (client_init (cs_link s) t files) Hst) as (r & t1 & Hreg & Ht1).
  assert (cs_tcp_fd s ∈ F' ∧ cs_udp_fd s ∈ F') as [Htf Huf]
    by (destruct Hboth as (_ & _ & _ & ->); clear; set_solver).
  eapply triple_bind; [apply (triple_use_all F' _ _ (λ _ F1, F1 = F')); [by repeat constructor|done]|].
  intros _ ? ->. eapply triple_lift; [exact Hreg|]. destruct r as [id|].
  - eapply triple_bind; [apply client_loop_on_triple; [done|done| |done]|].
    { apply (client_init_wf (cs_link s) t1 files). auto. }
    intros p ? (-> & _ & Hp). destruct p as [st|st].
    + eapply triple_weaken; [exact (proj1 (close_both F _ _ F' (Exited 0) Hboth))|]. intros ? ? [-> ->]. auto.
    + apply triple_ret. split; [exact Hp|]. eauto.
  - eapply triple_weaken; [exact (proj1 (close_both F _ _ F' (Exited 1) Hboth))|]. intros ? ? [-> ->]. auto.
Qed.

(** C14: the whole client, under these conditions: the two numbers of the
    command line fit an [int]; the stream of the server is a prefix of the wire
    format of replies of the protocol; lines are C strings and datagrams are
    bytes; [fseek], [ftell], [fread] and [malloc] are consistent with each
    other and the files served are smaller than [max_file]; and the chunks that
    the peer of a running download gets accepted lie within the size it
    announced.  Then, whatever the user types, whatever datagrams arrive from
    anybody else, whatever the system calls answer and wherever the stream of
    the server stops, [main] never leaves a buffer, and it keeps its
    descriptors in order: the registration and every iteration find both
    sockets open; when [main] returns (with 0 or 1, on every path) it has
    closed each socket it opened exactly once and used none after closing it;
    while it waits it has exactly its two sockets open, its table of shared
    files is well formed, and a running upload reads a buffer that is still
    allocated. *)
Theorem client_program_runs argv a t files answers o :
  args_ok argv → server_stream t → Forall iteration_ok answers → os_ebadf o = false →
  ∃ x o', client_program argv a t files answers o = Some (x, o') ∧ os_ebadf o' = false ∧
    match x with
    | Exited status => (status = 0 ∨ status = 1) ∧ os_open o' = os_open o
    | Waiting st => core_wf st ∧ ∃ u t, both_open (os_open o) u t (os_open o')
    end.
Proof.
  intros Hargs Hst Hans He.
  destruct (client_program_triple (os_open o) argv a t files answers Hargs Hst Hans o eq_refl He)
    as (x & o' & Hrun & He' & Hx). by exists x, o'.
Qed.
End main.

Module ClientMainExample.
Import ClientSpec.ClientExample.
#[local] Existing Instance host.

(** [cl 1 7000 7001]: the server assigns identifier 5, the user types
    [quit]. *)
Definition argv : list (list Z) := [[99; 108]; [49]; [55; 48; 48; 48]; [55; 48; 48; 49]].
Definition start_a : start_answers :=
  {| st_loss := λ _, no_loss; st_pton := λ _, Some 16777343; st_time := 1000 |}.
Definition o0 : os :=
  {| os_open := {[0; 1; 2]}; os_answers := [3; 0; 0; 4; 0; 0]; os_trace := []; os_ebadf := false |}.
Definition no_read : read_answers :=
  {| ra_open := false; ra_tell := 0; ra_block := None; ra_bytes := [] |}.
Definition quit_iteration : iteration_answers :=
  Polled (Some ([113; 117; 105; 116; 10],
    {| ca_share := {| sa_read := no_read; sa_ctx := true; sa_stack := replicate 32 0 |};
       ca_list_malloc := true;
       ca_get := {| ga_sendto := 0; ga_block := None; ga_ctx := true; ga_stack := replicate 32 0;
                    ga_open := true; ga_written := 0 |};
       ca_udp := [] |})) None 1000 1000.

Lemma quit_iteration_ok : iteration_ok quit_iteration.
Proof.
  split; [|done]. split; [repeat constructor; done|]. split; [split; [done|by vm_compute]|].
  split; [by vm_compute|]. split; [constructor|]. done.
Qed.

Lemma client_program_runs_witness :
  ∃ o', client_program digest argv start_a (stream (wire_reply (RegisterAck 5))) ∅ [quit_iteration] o0
      = Some (Exited 0, o') ∧ os_open o' = {[0; 1; 2]} ∧ os_ebadf o' = false.
Proof.
  destruct (client_program_runs digest (λ _, eq_refl) argv start_a (stream (wire_reply (RegisterAck 5))) ∅
    [quit_iteration] o0) as (x & o' & Hrun & He & Hx).
  - split; intros s [= <-]; eexists; by vm_compute.
  - destruct (start_conn (wire_reply (RegisterAck 5))) as (Hok & _ & _ & Hrec); [vm_compute; lia|].
    split; [exact Hok|]. exists [RegisterAck 5]. split; [constructor; [by vm_compute|constructor]|].
    change (received (stream (wire_reply (RegisterAck 5))) = wire_reply (RegisterAck 5) ++ []) in Hrec.
    by rewrite Hrec.
  - constructor; [apply quit_iteration_ok|constructor].
  - reflexivity.
  - assert (x = Exited 0) as -> by (vm_compute in Hrun; by injection Hrun as <- _).
    exists o'. split; [exact Hrun|]. split; [apply Hx|exact He].
Defined.
End ClientMainExample.
